(* ===== verification/_CoqProject ===== *)
-Q . S2P
Prelude.v
RustStd.v
RustText.v
Percentile.v
Common.v
Config.v
Http.v
Telemetry.v
CircuitBreaker.v
Scheduler.v
Registry.v
Sandbox.v
Engine.v
Guest.v
ModuleCache.v
AppState.v
Dispatch.v
Health.v
Handlers.v
Routes.v
ControlPlane.v
Disconnect.v
EdgeNode.v
NodeMain.v
Metrics.v
Lifecycle.v
HttpSystem.v
TaskSpec.v
EndToEnd.v
Cluster.v
ModuleFlow.v
LoadTester.v
LoadFlow.v
