(* ===== verification/Prelude.v ===== *)
(** * Verification of ferroedge

    ferroedge runs WebAssembly functions on edge nodes. A control plane
    ([services/control-plane]) accepts modules and tasks over HTTP, picks a node
    for every task, retries elsewhere when a node fails, and keeps the results;
    edge nodes ([services/edge-node]) execute tasks over gRPC in a sandbox with a
    cache of compiled modules ([crates/wasm-runtime]). This library models both
    services and their interplay and proves what makes them correct; where the
    code does not do what it means to, the theorem says what it does instead.

    ** Files and the code they model (paths under src/)

    - [Prelude]: results, tactics, the hint database [ferro], list lemmas.
    - [RustStd]: machine integers with wrap-around, [Instant]/[Duration] in
      nanoseconds, unspecified [HashMap] iteration order ([HashOrder]).
    - [RustText]: [str::parse] at unsigned types with its errors, lines, words,
      and the environment of a process ([env_var]).
    - [Percentile]: [percentile] of services/load-tester/src/main.rs, with the
      [f64] operations it uses rounded to 53 bits.
    - [Common]: crates/common, the messages of crates/proto/proto/edge.proto, the
      collectors of crates/telemetry/src/metrics.rs as a log of calls, and the
      interfaces of third-party crates ([Tonic], [Base64], [Sha2]).
    - [Config]: [Config::from_env] of both services, [TracingMode::from_env].
    - [Http]: JSON values, derived [Deserialize], and the interfaces [Axum]
      (headers, routing, body extraction) and [Reqwest].
    - [Telemetry]: [init_tracing] of crates/telemetry/src/init.rs, and the
      metadata carriers of handlers.rs and grpc.rs over the interface [Otel].
    - [CircuitBreaker]: circuit_breaker.rs; operations take the clock reading.
    - [Scheduler]: scheduler/{mod,round_robin,least_loaded}.rs, and [SelectPolicy],
      what the dispatcher may expect of a strategy, with both as instances.
    - [Registry]: registry.rs ([store], [get], [registry_list]) and
      connection_pool.rs ([get_or_create], [evict]).
    - [Sandbox]: wasm-runtime/src/{sandbox,lib}.rs over the interface [Wasmtime],
      and the timer/epoch protocol of [execute] as the machine [epoch_step].
    - [Engine]: wasm-runtime/src/engine.rs over the interface [WasmtimeEngine].
    - [Guest]: the WebAssembly modules of the load tester and of wasm-runtime's
      tests.rs, with an interpreter for their instructions; [Runs] says that a
      wasmtime executes a module as it does, and [interp_wasmtime] and
      [interp_engine] are such a wasmtime and its engine.
    - [ModuleCache]: wasm-runtime/src/cache.rs over the interface [Lru];
      [get_or_compile] is split at its two critical sections.
    - [AppState]: state.rs and [select_node_for_task] of api/handlers.rs.
    - [Dispatch]: [dispatch_task], [grpc_execute], [RetryConfig] of api/handlers.rs;
      [dispatch_step] runs one task from one suspension point to the next.
    - [Health]: health.rs, as one round and as the interruptible loop, and the
      client of crates/proto/src/client.rs it probes with.
    - [Handlers]: the HTTP handlers of api/handlers.rs.
    - [Routes]: api/routes.rs: route table, extractors and trace-id middleware
      around the handlers, composed to [serve], from a request to its response.
    - [ControlPlane]: all dispatches, handlers and the health loop interleaved
      over the shared lock ([sys_step]); the lock is the interface [TokioRwLock].
    - [Disconnect]: the same system with clients that go away: the dispatch of POST
      /tasks lives in its handler's future and is dropped with it, those of a
      batch are spawned and go on ([dis_step]).
    - [EdgeNode]: state.rs, downloader.rs, server/grpc.rs ([exec_step]) and the
      admin handlers of metrics.rs, with calls interleaved and dropped by their
      callers ([node_step]; [fed_step] also says what downloads can return); the
      semaphore is the interface [TokioSemaphore].
    - [NodeMain]: the edge node's main.rs ([edge_main], registration), the admin
      server of metrics.rs behind its routes ([admin_serve]; [warm_step] takes its
      warm-up section by section), [read_rss_bytes], and the control plane's start-up ([cp_main]).
    - [Metrics]: telemetry/src/metrics.rs (the collectors and [init]) and the two
      [metrics_handler]s over the interface [Prometheus].
    - [Lifecycle]: the rest of both main.rs files: binding sockets, signals and
      graceful shutdown over the interface [GracefulServer], and the spawned
      servers of prometheus_server.rs and metrics.rs.
    - [HttpSystem]: the HTTP interface of [Routes] as steps of [Disconnect]
      ([http_step]), and when a response goes out ([response_sent]).
    - [TaskSpec]: the contract of the task interface as a table of tasks ([Spec])
      and the abstraction of the system to it ([abstract]).
    - [EndToEnd]: both services together, each answering the other's requests.
    - [Cluster]: one control plane and any number of nodes interleaved, connected
      by RPCs and warm-ups that may fail, be lost or be answered late
      ([cluster_step]); its parameter [ports_open] says whether others than the
      control plane reach the ports of the nodes.
    - [ModuleFlow]: modules by reference over HTTP: registration, upload, warm-up,
      download, execution.
    - [LoadTester]: services/load-tester/src/main.rs as a system of interleaved
      requests ([lt_step]).
    - [LoadFlow]: a load test through all of the above.

    ** What the theorems show

    - The cluster: [cluster_results_genuine] (under every interleaving the parts
      behave as they do alone, and a success reports what a sandbox computed from
      that very task and its own bytes; on a closed network nodes run only what was
      submitted, and tasks by reference what is registered), [cluster_serves] (an accepted task can be
      served), [load_results_intact].
    - Both services: [task_end_to_end] (inline bytes), [module_ref_end_to_end] (by
      reference, with the download served by the control plane's own router),
      [prewarmed_task_skips_download], [registration_over_http],
      [warm_up_bypasses_hash] (why the network has to be closed),
      [client_leaves_phantom_load] and [phantom_load_starves_node] (what clients
      that leave and failed downloads do to a node).
    - The contract: [tasks_refine_contract] (the control plane refines a table in
      which a task is accepted, ended or abandoned, each once, and GET /tasks/id is
      a lookup), [metrics_report_correct] (the counters of GET /metrics are sizes
      of parts of that table); [http_refines_system]: whatever requests arrive and
      clients leave, the control plane stays within the states the theorems below
      speak of.
    - Scheduling: [select_node_for_task_correct], [least_loaded_correct],
      [round_robin_fair], [round_robin_variants_agree]; breakers:
      [breaker_closed_iff_streak_short], [breaker_allow_spec],
      [breaker_moves_along_edges].
    - One dispatch: [dispatch_bounded] (it ends), [dispatch_failed_attempt],
      [dispatch_capacity_backpressure].
    - The control plane under any interleaving: [finished_task_has_result],
      [task_accounting]; with clients that leave,
      [results_write_once], [disconnect_accounting]; the self-deadlock of the
      queueing statement of handlers.rs, line 287: [batch_deadlock_permanent],
      [deadlock_permanent_iff] (when it is for good and when clients leaving lift
      it), [failing_task_deadlocks] (with one or two nodes a failing task is
      enough), [cp_shutdown] (it outlasts SIGTERM).
    - HTTP: [http_responses] (statuses, safe methods, when and with what a
      submission is answered and when it never is), [http_module_roundtrip]
      (modules are served back unchanged for ever), [trace_id_propagation],
      [batch_submission], [upload_fetch_roundtrip], [submit_module_ref_integrity],
      [submit_rejections_are_client_errors], [metrics_consistent]; registry:
      [registry_store_get], [registry_get_exact], [registry_list_sorted]; health
      rounds: [check_all_nodes_correct], [health_round_terminates].
    - Cache: [cache_bounded], [cache_hit_sound] (refinement of a map from keys to
      their latest compilation), [cache_retention], [cache_accounting].
    - Sandbox: [sandbox_memory_bounded], [sandbox_calling_convention],
      [sandbox_timeout_sound], [timer_stops_guest] (on the configured engine);
      [timer_interrupts_every_run], [late_start_escapes_timeout] and
      [orphan_timer_interrupts_all] on the shared epoch; on concrete guests,
      [echo_guest_execution] (every way the echo module can end) and
      [hostile_guests_contained] (no export, endless loop, memory growth).
    - Edge node under any interleaving: [node_admission],
      [node_download_integrity], [node_load_accounting], [node_answers],
      [node_call_terminates], [started_node_limits] (from the configuration),
      [dropped_guests_unbounded] (permits bound calls, not guests),
      [node_exit_clean].
    - Configuration and start-up: [services_start_iff] (the environments and
      configurations either service starts on), [config_well_typed], [edge_config_first_error],
      [rss_report_correct]; tracing: [trace_context_roundtrip] (the carriers are
      right) and [tracing_never_connected] (but nothing is ever carried).
    - Metrics: [metrics_never_panic], [node_scrape_correct], [cp_scrape_correct],
      [prometheus_agrees_at_rest].
    - Load tester: [percentile_correct], [load_report_correct],
      [load_run_bounded_and_live], [load_request_accepted], [load_test_end_to_end].

    ** Conventions, bounds and fuel

    Unsigned arithmetic wraps as in a release build; [usize] has 64 bits. What
    code reads from outside (clock, hash order, network, guest) is an argument
    of the step that reads it, and theorems quantify over it. Third-party crates
    are classes whose laws are their documented behaviour; each has a concrete
    instance, so the hypotheses can be met, and witnesses evaluate on it.
    State machines are stepped by total functions returning [option]; no fuel is
    needed for them. The step that runs a guest is taken when the guest returns; a
    guest that never does is a call that stays where it is, and the bounds on
    steps do not say that it goes on. [dispatch_run] and [exec_run] take the number of steps, and
    the theorems name a sufficient one (9 for a dispatch that succeeds at once, 5
    for a call with inline bytes); [dispatch_bounded] (772 steps) and
    [node_call_terminates] (12 steps) bound every run; [health_run] with [2 n + 2]
    steps completes a round over [n] nodes ([health_round_terminates]); a call by
    reference takes 11 steps cold and 6 warm; a load test has at most [5 tasks + 2] steps. The
    interpreter of [Guest] runs on fuel, one unit per instruction or loop
    iteration, and answers nothing when it runs out; the theorems name enough (2
    for the echo module, 8 for the growing one, two more than the epoch checks
    made for the endless loop). [percentile_correct] holds below 2^46 samples,
    where the rounding of [len * p / 100] cannot reach the next integer.

    ** Not modelled

    Sockets below the acceptance of a request, the text of JSON, protobuf and
    Prometheus messages (JSON values, message records and metric families are
    exchanged instead), log output, [dotenv] (the environment is the one it
    leaves), clap's command-line parser and the printed tables of the load
    tester; handlers other than POST /tasks whose future is dropped between their
    guards, and the interleaving of the sections of one request other than a
    batch; the panics of [shutdown_signal] when a signal handler cannot be
    installed; running out of memory (sizes that do not fit the address space panic
    and are modelled: [edge_main], [lt_start]); memories and tables of a guest
    beyond its exported memory; and guests beyond the instructions of [Guest] (theorems on [Wasmtime] hold for all).

    This first file also holds the notation, automation and generic lemmas the
    other files share. *)

From Stdlib Require Export ZArith Lia.
From stdpp Require Export prelude gmap strings pretty sorting list list_numbers.

#[export] Set Default Goal Selector "!".
#[export] Set Warnings "-clear-no-such-hyp".
Open Scope string_scope.
Open Scope Z_scope.
Open Scope list_scope.

Create HintDb ferro.

(** ** Fallible computations: Rust's [Result<A, E>]. *)
Inductive result (E A : Type) : Type :=
| Ok (a : A)
| Err (e : E).
Arguments Ok {E A} a.
Arguments Err {E A} e.

#[export] Instance result_ret {E} : MRet (result E) := fun A a => Ok a.
#[export] Instance result_bind {E} : MBind (result E) :=
  fun A B f m => match m with Ok a => f a | Err e => Err e end.

(** [Result::map_err]. *)
Definition map_err {E F A} (f : E -> F) (m : result E A) : result F A :=
  match m with Ok a => Ok a | Err e => Err (f e) end.

(** [Option::ok_or_else]. *)
Definition ok_or {E A} (e : E) (m : option A) : result E A :=
  match m with Some a => Ok a | None => Err e end.

(** ** Shared tactics *)

(** Case analysis on every [match] in sight, then clean up. *)
Ltac split_matches :=
  repeat (case_match; simplify_eq/=; try done).

(** One goal for each element of a concrete list, and membership in one. *)
Ltac each_elem H := repeat (apply elem_of_cons in H as [->|H]); [..|by apply not_elem_of_nil in H].
Ltac in_list := repeat (apply elem_of_cons; first [left; reflexivity|right]).

(** Linear arithmetic with [mod] and [/] made available to [lia]. *)
Ltac mod_lia := Z.div_mod_to_equations; lia.

(** ** Lists *)
Section list_lemmas.
Context {A : Type}.
Implicit Types (l : list A) (x y : A).

(** Weighted count of a list updated at one position. *)
Lemma sum_list_with_insert (f : A -> nat) l i x y :
  l !! i = Some x ->
  (sum_list_with f (<[i := y]> l) + f x = sum_list_with f l + f y)%nat.
Proof.
  revert i. induction l as [|a l IH]; intros [|i] Hi; simplify_eq/=; [lia|].
  specialize (IH i Hi). lia.
Qed.

Lemma sum_list_with_lookup (f : A -> nat) l i x :
  l !! i = Some x -> (f x <= sum_list_with f l)%nat.
Proof.
  revert i. induction l as [|a l IH]; intros [|i] Hi; simplify_eq/=; [lia|].
  specialize (IH i Hi). lia.
Qed.

Lemma sum_list_with_zero (f : A -> nat) l :
  sum_list_with f l = 0%nat <-> Forall (fun x => f x = 0%nat) l.
Proof.
  induction l as [|a l [IH1 IH2]]; simpl; [by split|].
  split.
  - intros H. constructor; [lia|]. apply IH1. lia.
  - intros [? ?]%Forall_cons_iff. rewrite IH2; [lia|done].
Qed.

(** A list splits into the elements that satisfy a predicate and the others. *)
Lemma length_filter_split (P : A -> Prop) `{!forall x, Decision (P x)} l :
  (length (filter P l) + length (filter (fun x => ~ P x) l))%nat = length l.
Proof.
  induction l as [|a l IH]; [done|]. rewrite !filter_cons.
  destruct (decide (P a)), (decide (~ P a)); simpl; try lia; tauto.
Qed.

Lemma filter_all (P : A -> Prop) `{!forall x, Decision (P x)} l : Forall P l -> filter P l = l.
Proof. induction 1 as [|x l Hx _ IH]; [done|]. by rewrite filter_cons_True, IH. Qed.

Lemma filter_none (P : A -> Prop) `{!forall x, Decision (P x)} l : Forall (fun x => ~ P x) l -> filter P l = [].
Proof. induction 1 as [|x l Hx _ IH]; [done|]. by rewrite filter_cons_False, IH. Qed.

End list_lemmas.
