(* ===== verification/RustStd.v ===== *)
(** * The parts of Rust and its standard library the program uses

    Machine integers are [Z] values with their wrap-around written out: the
    services are built in release mode (Dockerfile, Makefile), where [+] on
    [u32], [u64] and [usize] wraps; [usize] is 64 bits on the deployed targets.
    [Instant] and [Duration] are counted in nanoseconds.

    A [HashMap<String, V>] is a [gmap string V]; the order in which it is
    iterated is unspecified, so every operation that iterates one takes a
    [HashOrder], an arbitrary enumeration of its entries. *)

From S2P Require Import Prelude.

(** ** Machine integers *)

Definition u32_mod : Z := 2 ^ 32.
Definition u64_mod : Z := 2 ^ 64.

(** [a + b] on [u32], [u64] and [usize] (wrapping). *)
Definition u32_add (a b : Z) : Z := (a + b) mod u32_mod.
Definition u64_add (a b : Z) : Z := (a + b) mod u64_mod.
Definition usize_add (a b : Z) : Z := (a + b) mod u64_mod.

(** [a * b] on [u64] (wrapping). *)
Definition u64_mul (a b : Z) : Z := (a * b) mod u64_mod.

(** [a.saturating_sub(b)] on an unsigned type. *)
Definition saturating_sub (a b : Z) : Z := Z.max 0 (a - b).

(** [a as u32] and [a as i32]. *)
Definition as_u32 (a : Z) : Z := a mod u32_mod.
Definition as_i32 (a : Z) : Z :=
  let r := a mod u32_mod in if r <? 2 ^ 31 then r else r - u32_mod.

Definition is_u32 (a : Z) : Prop := 0 <= a < u32_mod.
Definition is_u64 (a : Z) : Prop := 0 <= a < u64_mod.

(** ** Time *)

Definition Instant := Z.
Definition Duration := Z.
Definition nanos_per_ms : Z := 1000000.
Definition from_secs (s : Z) : Duration := s * 1000 * nanos_per_ms.
Definition from_millis (ms : Z) : Duration := ms * nanos_per_ms.
Definition as_millis (d : Duration) : Z := d / nanos_per_ms.

(** [t.elapsed()] read when the clock shows [now]; it saturates at zero. *)
Definition elapsed (now t : Instant) : Duration := Z.max 0 (now - t).

(** ** Iteration order of a [HashMap] *)

Record HashOrder := {
  ho_iter : forall V : Type, gmap string V -> list (string * V);
  ho_perm : forall V (m : gmap string V), ho_iter V m ≡ₚ map_to_list m
}.

(** [m.iter()], [m.keys()] and [m.values()]. *)
Definition hash_iter {V} (o : HashOrder) (m : gmap string V) : list (string * V) :=
  ho_iter o V m.
Definition hash_keys {V} (o : HashOrder) (m : gmap string V) : list string :=
  (hash_iter o m).*1.
Definition hash_values {V} (o : HashOrder) (m : gmap string V) : list V :=
  (hash_iter o m).*2.

(** One concrete order, for evaluation. *)
Definition std_order : HashOrder :=
  {| ho_iter := fun V m => map_to_list m; ho_perm := fun V m => reflexivity _ |}.

(** [Iterator::min] on integers. *)
Fixpoint list_min (l : list Z) : option Z :=
  match l with
  | [] => None
  | x :: l' => Some (match list_min l' with Some m => Z.min x m | None => x end)
  end.

(** ** Lemmas *)

Lemma u32_add_id a b : 0 <= a -> 0 <= b -> a + b < u32_mod -> u32_add a b = a + b.
Proof. intros. unfold u32_add. apply Z.mod_small. lia. Qed.

Lemma u64_add_id a b : 0 <= a -> 0 <= b -> a + b < u64_mod -> u64_add a b = a + b.
Proof. intros. unfold u64_add. apply Z.mod_small. lia. Qed.

Lemma usize_add_id a b : 0 <= a -> 0 <= b -> a + b < u64_mod -> usize_add a b = a + b.
Proof. apply u64_add_id. Qed.

Lemma u32_add_range a b : is_u32 (u32_add a b).
Proof. apply Z.mod_pos_bound. done. Qed.

Lemma u64_add_range a b : is_u64 (u64_add a b).
Proof. apply Z.mod_pos_bound. done. Qed.

Lemma elapsed_nonneg now t : 0 <= elapsed now t.
Proof. unfold elapsed. lia. Qed.

Section hash_order.
Context {V : Type} (o : HashOrder).
Implicit Types (m : gmap string V).

Lemma elem_of_hash_iter m k v : (k, v) ∈ hash_iter o m <-> m !! k = Some v.
Proof.
  unfold hash_iter. rewrite (ho_perm o V m). apply elem_of_map_to_list.
Qed.

Lemma hash_iter_length m : length (hash_iter o m) = size m.
Proof.
  unfold hash_iter. rewrite (ho_perm o V m). apply length_map_to_list.
Qed.

Lemma hash_keys_NoDup m : NoDup (hash_keys o m).
Proof.
  unfold hash_keys, hash_iter. rewrite (ho_perm o V m).
  apply NoDup_fst_map_to_list.
Qed.

Lemma hash_values_perm m : hash_values o m ≡ₚ (map_to_list m).*2.
Proof. unfold hash_values, hash_iter. by rewrite (ho_perm o V m). Qed.

Lemma elem_of_hash_values m v : v ∈ hash_values o m <-> exists k, m !! k = Some v.
Proof.
  unfold hash_values. rewrite list_elem_of_fmap. split.
  - intros ([k w] & -> & Hin). exists k. by apply elem_of_hash_iter.
  - intros [k Hk]. exists (k, v). split; [done|]. by apply elem_of_hash_iter.
Qed.

End hash_order.

Lemma list_min_Some l : l <> [] -> exists m, list_min l = Some m.
Proof. destruct l; [done|]. intros _. simpl. eauto. Qed.

Lemma list_min_in l m : list_min l = Some m -> m ∈ l.
Proof.
  revert m. induction l as [|x l IH]; intros m H; simplify_eq/=.
  destruct (list_min l) as [m'|] eqn:E; [|by left].
  specialize (IH m' eq_refl).
  destruct (Z.min_spec x m') as [[_ ->]|[_ ->]]; by constructor.
Qed.

Lemma list_min_le l m x : list_min l = Some m -> x ∈ l -> m <= x.
Proof.
  revert m. induction l as [|y l IH]; intros m H Hx; [by inversion Hx|]; simplify_eq/=.
  destruct (list_min l) as [m'|] eqn:E; apply elem_of_cons in Hx as [->|Hx]; try lia.
  - specialize (IH m' eq_refl Hx). lia.
  - destruct l; [by inversion Hx|done].
Qed.

#[export] Hint Resolve u32_add_range u64_add_range elapsed_nonneg : ferro.
