(* ===== verification/RustText.v ===== *)
(** * Text: the parts of Rust's [str] and [std::env] the program uses

    Strings are sequences of bytes. [parse_uint] is [str::parse] at an unsigned
    type with its error kinds, [lines] and [split_whitespace] cut text the way
    [str] does on ASCII input (the only separators that occur in the text the
    program cuts up), and [env_var] is [std::env::var] over the environment of
    the process. Both configurations, the memory report of the edge node and the
    tracing set-up are built from these. *)

From Stdlib Require Import Ascii.
From S2P Require Import Prelude RustStd.

(** ** Parsing unsigned integers: [str::parse::<uN>()] *)

(** [std::num::IntErrorKind], as far as an unsigned type produces it. *)
Inductive ParseIntError := Empty | InvalidDigit | PosOverflow.

#[export] Instance ParseIntError_eq_dec : EqDecision ParseIntError.
Proof. solve_decision. Defined.

Definition to_digit (c : Ascii.ascii) : option Z := Z.of_nat <$> Ascii.is_nat c.

(** The digits from left to right; the first one that is no digit or does not
    fit any more ends it. *)
Fixpoint parse_digits (max acc : Z) (s : string) : result ParseIntError Z :=
  match s with
  | EmptyString => Ok acc
  | String c s' =>
      match to_digit c with
      | None => Err InvalidDigit
      | Some d => if acc * 10 + d <=? max then parse_digits max (acc * 10 + d) s' else Err PosOverflow
      end
  end.

(** One leading [+] is allowed, but not alone. *)
Definition parse_uint (max : Z) (s : string) : result ParseIntError Z :=
  match s with
  | EmptyString => Err Empty
  | String c EmptyString =>
      if decide (c = "+"%char) then Err InvalidDigit else parse_digits max 0 s
  | String c s' => if decide (c = "+"%char) then parse_digits max 0 s' else parse_digits max 0 s
  end.

Definition u16_max : Z := 2 ^ 16 - 1.
Definition u64_max : Z := 2 ^ 64 - 1.
Definition parse_u16 : string -> result ParseIntError Z := parse_uint u16_max.
Definition parse_u64 : string -> result ParseIntError Z := parse_uint u64_max.
Definition parse_usize : string -> result ParseIntError Z := parse_uint u64_max.

(** ** Cutting up text *)

(** [str::to_lowercase], on the ASCII letters. *)
Definition to_lower (c : Ascii.ascii) : Ascii.ascii :=
  let n := Ascii.nat_of_ascii c in
  if decide (65 <= n <= 90)%nat then Ascii.ascii_of_nat (n + 32) else c.

Fixpoint to_lowercase (s : string) : string :=
  match s with EmptyString => EmptyString | String c s' => String (to_lower c) (to_lowercase s') end.

Definition newline : Ascii.ascii := "010".

(** [str::split_inclusive] at line feeds: every piece keeps its line feed. *)
Fixpoint split_inclusive (s : string) : list string :=
  match s with
  | EmptyString => []
  | String c s' =>
      if decide (c = newline) then String c EmptyString :: split_inclusive s'
      else match split_inclusive s' with
           | [] => [String c EmptyString]
           | l :: ls => String c l :: ls
           end
  end.

(** [str::strip_suffix] with one character. *)
Fixpoint strip_suffix (s : string) (x : Ascii.ascii) : option string :=
  match s with
  | EmptyString => None
  | String c EmptyString => if decide (c = x) then Some EmptyString else None
  | String c s' => String c <$> strip_suffix s' x
  end.

(** [str::lines]: a line loses its line feed and the carriage return before it. *)
Definition line_of (l : string) : string :=
  match strip_suffix l newline with
  | None => l
  | Some l' => default l' (strip_suffix l' "013")
  end.

Definition lines (s : string) : list string := line_of <$> split_inclusive s.

(** [str::split_whitespace]: the maximal runs without white space. *)
Fixpoint split_whitespace (s : string) : list string :=
  match s with
  | EmptyString => []
  | String c s' =>
      if Ascii.is_space c then split_whitespace s'
      else match s' with
           | String c' _ =>
               if Ascii.is_space c' then String c EmptyString :: split_whitespace s'
               else match split_whitespace s' with
                    | [] => [String c EmptyString]
                    | w :: ws => String c w :: ws
                    end
           | EmptyString => [String c EmptyString]
           end
  end.

(** ** The environment of a process *)

(** An [OsString]: valid Unicode, or not. *)
Inductive OsString := Unicode (s : string) | NotUnicodeBytes (raw : string).
Inductive VarError := NotPresent | NotUnicode (raw : string).

Definition Env := gmap string OsString.

(** [std::env::var]. *)
Definition env_var (env : Env) (key : string) : result VarError string :=
  match env !! key with
  | None => Err NotPresent
  | Some (Unicode s) => Ok s
  | Some (NotUnicodeBytes r) => Err (NotUnicode r)
  end.

(** [.unwrap_or_else(|_| d)]. *)
Definition unwrap_or {E A} (m : result E A) (d : A) : A :=
  match m with Ok a => a | Err _ => d end.

(** ** Lemmas *)

(** *** Reference definition: the value of a decimal numeral *)

Fixpoint dec_value (acc : Z) (s : string) : option Z :=
  match s with
  | EmptyString => Some acc
  | String c s' => d ← to_digit c; dec_value (acc * 10 + d) s'
  end.

(** A numeral with the sign [parse_uint] allows. *)
Definition unsigned_numeral (s : string) : option Z :=
  match s with
  | EmptyString => None
  | String c s' =>
      if decide (c = "+"%char)
      then match s' with EmptyString => None | _ => dec_value 0 s' end
      else dec_value 0 s
  end.

Lemma to_digit_range c d : to_digit c = Some d -> 0 <= d <= 9.
Proof.
  unfold to_digit. destruct (Ascii.is_nat c) as [n|] eqn:E; [|done]. simpl. intros [= <-].
  unfold Ascii.is_nat in E. repeat case_match; simplify_eq; lia.
Qed.

Lemma dec_value_mono acc s n : 0 <= acc -> dec_value acc s = Some n -> acc <= n.
Proof.
  revert acc. induction s as [|c s IH]; intros acc Hacc; simpl; [by intros [= <-]|].
  intros (d & Hd%to_digit_range & Hn)%bind_Some. apply IH in Hn; lia.
Qed.

Lemma parse_digits_Ok max acc s n :
  0 <= acc <= max -> parse_digits max acc s = Ok n <-> dec_value acc s = Some n /\ n <= max.
Proof.
  revert acc. induction s as [|c s IH]; intros acc Hacc; simpl.
  - split; [intros [= <-]; split; [done|lia]|intros [[= <-] ?]; done].
  - destruct (to_digit c) as [d|] eqn:Hd; simpl; [|split; [done|by intros [? _]]].
    apply to_digit_range in Hd. case_match eqn:Hle.
    + apply IH. apply Z.leb_le in Hle. lia.
    + apply Z.leb_gt in Hle. split; [done|]. intros [Hn Hm]. apply dec_value_mono in Hn; lia.
Qed.

(** [parse_uint] accepts exactly the numerals whose value fits. *)
Lemma parse_uint_Ok max s n :
  0 <= max -> parse_uint max s = Ok n <-> unsigned_numeral s = Some n /\ n <= max.
Proof.
  intros Hmax. destruct s as [|c [|c' s]]; unfold parse_uint, unsigned_numeral.
  - split; [done|by intros [? _]].
  - case_decide; [split; [done|by intros [? _]]|]. by apply parse_digits_Ok.
  - case_decide; by apply parse_digits_Ok.
Qed.

Lemma unsigned_numeral_nonneg s n : unsigned_numeral s = Some n -> 0 <= n.
Proof.
  unfold unsigned_numeral. intros H. repeat case_match; simplify_eq; by eapply dec_value_mono.
Qed.

Lemma parse_uint_range max s n : 0 <= max -> parse_uint max s = Ok n -> 0 <= n <= max.
Proof.
  intros Hmax [Hn ?]%parse_uint_Ok; [|done]. apply unsigned_numeral_nonneg in Hn. lia.
Qed.

(** *** Printing and parsing *)

Lemma to_digit_pretty x : (x < 10)%N -> to_digit (pretty_N_char x) = Some (Z.of_N x).
Proof.
  intros Hx.
  assert (x = 0 \/ x = 1 \/ x = 2 \/ x = 3 \/ x = 4 \/ x = 5 \/ x = 6 \/ x = 7 \/ x = 8 \/ x = 9)%N by lia.
  naive_solver.
Qed.

(** The digits of [x] in front of [s], read after [acc]. *)
Lemma dec_value_pretty_go x s :
  exists k, 0 < k /\ forall acc, dec_value acc (pretty_N_go x s) = dec_value (acc * k + Z.of_N x) s.
Proof.
  revert s. induction (N.lt_wf_0 x) as [x _ IH]; intros s.
  assert (x = 0 \/ 0 < x)%N as [->|Hx] by lia.
  { exists 1. split; [done|]. intros acc. rewrite pretty_N_go_0. f_equal. lia. }
  rewrite pretty_N_go_step by done.
  destruct (IH (x `div` 10)%N (N.div_lt x 10 Hx eq_refl) (String (pretty_N_char (x `mod` 10)) s))
    as (k & Hk & Hgo).
  exists (k * 10). split; [lia|]. intros acc. rewrite Hgo. simpl.
  rewrite to_digit_pretty by (by apply N.mod_lt). simpl. f_equal.
  rewrite N2Z.inj_div, N2Z.inj_mod. pose proof (Z.div_mod (Z.of_N x) 10). lia.
Qed.

Lemma pretty_N_go_head x s : (0 < x)%N -> exists c s', pretty_N_go x s = String c s' /\ c <> "+"%char.
Proof.
  revert s. induction (N.lt_wf_0 x) as [x _ IH]; intros s Hx. rewrite pretty_N_go_step by done.
  destruct (decide (x `div` 10 = 0)%N) as [->|Hd].
  - rewrite pretty_N_go_0. do 2 eexists. split; [done|]. unfold pretty_N_char. by repeat case_match.
  - apply IH; [by apply N.div_lt|by apply N.neq_0_lt_0].
Qed.

Lemma unsigned_numeral_pretty n : 0 <= n -> unsigned_numeral (pretty n) = Some n.
Proof.
  intros Hn. destruct n as [|q|q]; [done| |lia].
  change (pretty (Z.pos q)) with (pretty_N_go (N.pos q) EmptyString).
  destruct (dec_value_pretty_go (N.pos q) EmptyString) as (k & _ & Hgo). specialize (Hgo 0).
  destruct (pretty_N_go_head (N.pos q) EmptyString ltac:(lia)) as (c & s' & E & Hc).
  rewrite E in *. unfold unsigned_numeral. case_decide; [done|]. by rewrite Hgo.
Qed.

(** *** Lines and words *)

Fixpoint all_chars (f : ascii -> bool) (s : string) : bool :=
  match s with EmptyString => true | String c s' => f c && all_chars f s' end.

(** A line of text: no line feed, and no carriage return at its end. *)
Definition is_line (s : string) : bool :=
  all_chars (fun c => bool_decide (c <> newline)) s && bool_decide (strip_suffix s "013" = None).

(** Text made of lines. *)
Definition unlines (ls : list string) : string :=
  foldr (fun l acc => l +:+ String newline acc) EmptyString ls.

Lemma app_cons c s t : String c s +:+ t = String c (s +:+ t).
Proof. done. Qed.

Lemma string_app_empty s : s +:+ EmptyString = s.
Proof. induction s as [|c s IH]; [done|]. by rewrite app_cons, IH. Qed.

Lemma split_inclusive_line l t :
  all_chars (fun c => bool_decide (c <> newline)) l = true ->
  split_inclusive (l +:+ String newline t) = (l +:+ String newline EmptyString) :: split_inclusive t.
Proof.
  induction l as [|c l IH]; [done|]. simpl. rewrite andb_true_iff, bool_decide_eq_true. intros [Hc Hl].
  rewrite !app_cons. simpl. rewrite decide_False by done. by rewrite IH.
Qed.

Lemma strip_suffix_app l x : strip_suffix (l +:+ String x EmptyString) x = Some l.
Proof.
  induction l as [|c l IH]; [simpl; by rewrite decide_True|]. rewrite app_cons. simpl.
  destruct (l +:+ String x EmptyString) eqn:E; [by destruct l|]. by rewrite IH.
Qed.

Lemma lines_unlines ls : Forall (fun l => is_line l = true) ls -> lines (unlines ls) = ls.
Proof.
  unfold lines. induction 1 as [|l ls Hl _ IH]; [done|].
  change (unlines (l :: ls)) with (l +:+ String newline (unlines ls)).
  apply andb_true_iff in Hl as [Hl Hcr%bool_decide_eq_true]. rewrite split_inclusive_line by done.
  rewrite fmap_cons, IH. f_equal. unfold line_of. rewrite strip_suffix_app. by rewrite Hcr.
Qed.

(** A word, followed by white space or the end. *)
Definition is_word (w : string) : bool := all_chars (fun c => negb (Ascii.is_space c)) w.
Definition word_end (t : string) : bool :=
  match t with EmptyString => true | String c _ => Ascii.is_space c end.

Lemma split_whitespace_cons c c' s :
  Ascii.is_space c = false -> Ascii.is_space c' = false ->
  split_whitespace (String c (String c' s)) =
    match split_whitespace (String c' s) with
    | [] => [String c EmptyString]
    | w :: ws => String c w :: ws
    end.
Proof.
  intros Hc Hc'. remember (String c' s) as s' eqn:E. simpl. rewrite Hc.
  destruct s' as [|d s']; [done|]. injection E as -> ->. by rewrite Hc'.
Qed.

Lemma split_whitespace_word w t :
  w <> EmptyString -> is_word w = true -> word_end t = true ->
  split_whitespace (w +:+ t) = w :: split_whitespace t.
Proof.
  intros Hw Hword Ht. destruct w as [|c w]; [done|]. clear Hw. revert c Hword.
  induction w as [|c' w IH]; intros c [Hc%negb_true_iff Hw]%andb_true_iff.
  - change (String c EmptyString +:+ t) with (String c t). simpl. rewrite Hc.
    destruct t as [|d t]; [done|]. simpl in Ht. by rewrite Ht.
  - specialize (IH c' Hw). rewrite !app_cons in *. apply andb_true_iff in Hw as [Hc'%negb_true_iff _].
    by rewrite split_whitespace_cons, IH.
Qed.

Lemma split_whitespace_spaces ws t :
  all_chars Ascii.is_space ws = true -> split_whitespace (ws +:+ t) = split_whitespace t.
Proof.
  induction ws as [|c ws IH]; [done|]. intros [Hc Hws]%andb_true_iff. rewrite app_cons.
  remember (ws +:+ t) as s' eqn:E. simpl. rewrite Hc. subst s'. by apply IH.
Qed.

Lemma word_end_app ws t : ws <> EmptyString -> all_chars Ascii.is_space ws = true -> word_end (ws +:+ t) = true.
Proof. destruct ws; [done|]. intros _ [? _]%andb_true_iff. done. Qed.

Lemma pretty_go_word x s : is_word s = true -> is_word (pretty_N_go x s) = true.
Proof.
  revert s. induction (N.lt_wf_0 x) as [x _ IH]; intros s Hs.
  assert (x = 0 \/ 0 < x)%N as [->|Hx] by lia; [by rewrite pretty_N_go_0|].
  rewrite pretty_N_go_step by done. apply IH; [by apply N.div_lt|].
  unfold is_word, pretty_N_char in *. simpl. rewrite Hs. by repeat case_match.
Qed.

(** A printed number is one word. *)
Lemma pretty_word n : 0 <= n -> is_word (pretty n) = true /\ pretty n <> EmptyString.
Proof.
  intros Hn. destruct n as [|q|q]; [done| |lia].
  change (pretty (Z.pos q)) with (pretty_N_go (N.pos q) EmptyString). split; [by apply pretty_go_word|].
  destruct (pretty_N_go_head (N.pos q) EmptyString ltac:(lia)) as (c & s' & E & _). by rewrite E.
Qed.
