(* ===== verification/Percentile.v ===== *)
(** * Latency percentiles of the load tester

    Models [percentile] of [services/load-tester/src/main.rs]. The index is
    computed in [f64]: a positive double is a mantissa and a power of two, and
    every operation rounds its exact result to 53 bits, to nearest with ties to
    even. All values here lie between 2^-6 and 2^71, so neither subnormals nor
    infinities occur. The theorem below says when this agrees with integer
    arithmetic, and what the result means. *)

From S2P Require Import Prelude RustStd.

(** ** Doubles *)

(** [mant * 2 ^ expo], not negative. *)
Record F64 := { mant : Z; expo : Z }.

(** [n / d] rounded to an integer, ties to even. *)
Definition round_half_even (n d : Z) : Z :=
  let q := n / d in
  let r := n mod d in
  if 2 * r <? d then q
  else if d <? 2 * r then q + 1
  else if Z.even q then q else q + 1.

(** [2 ^ e] as a numerator and as a denominator. *)
Definition pow_num (e : Z) : Z := 2 ^ Z.max e 0.
Definition pow_den (e : Z) : Z := 2 ^ Z.max (- e) 0.

(** [n / d * 2 ^ -e], rounded. *)
Definition scaled (n d e : Z) : Z := round_half_even (n * pow_den e) (d * pow_num e).

(** The exponent that leaves 53 bits before the point. *)
Definition f64_exponent (n d : Z) : Z :=
  let e := Z.log2 n - Z.log2 d - 52 in
  if n * pow_den e <? 2 ^ 52 * (d * pow_num e) then e - 1 else e.

(** The double nearest to [n / d]. *)
Definition f64_round (n d : Z) : F64 :=
  if n =? 0 then {| mant := 0; expo := 0 |}
  else let e := f64_exponent n d in {| mant := scaled n d e; expo := e |}.

(** [x as f64], [a * b], [a / b] and [a as usize]. *)
Definition f64_of_usize (x : Z) : F64 := f64_round x 1.
Definition f64_mul (a b : F64) : F64 :=
  let e := expo a + expo b in f64_round (mant a * mant b * pow_num e) (pow_den e).
Definition f64_div (a b : F64) : F64 :=
  let e := expo a - expo b in f64_round (mant a * pow_num e) (mant b * pow_den e).
Definition f64_as_usize (a : F64) : Z :=
  Z.min (mant a * pow_num (expo a) / pow_den (expo a)) (u64_mod - 1).

(** ** The function *)

(** An out-of-range index panics ([None]). The literals 50.0, 95.0, 99.0 and
    100.0 are exact. *)
Definition percentile (sorted : list Z) (p : Z) : option Z :=
  match sorted with
  | [] => Some 0
  | _ =>
      let len := Z.of_nat (length sorted) in
      let idx := Z.min (f64_as_usize (f64_div (f64_mul (f64_of_usize len) (f64_of_usize p)) (f64_of_usize 100)))
                       (len - 1) in
      sorted !! Z.to_nat idx
  end.

Example percentile_3 : percentile [10; 20; 30] 50 = Some 20.
Proof. reflexivity. Qed.
Example percentile_100 : percentile (Z.of_nat <$> seq 1 100) 95 = Some 96.
Proof. vm_compute. reflexivity. Qed.

(** ** Lemmas *)

(** *** Rounding *)

Lemma pow_num_pos e : 0 < pow_num e.
Proof. apply Z.pow_pos_nonneg; lia. Qed.
Lemma pow_den_pos e : 0 < pow_den e.
Proof. apply Z.pow_pos_nonneg; lia. Qed.
#[local] Hint Resolve pow_num_pos pow_den_pos : ferro.

Lemma pow_neg e : e <= 0 -> pow_num e = 1 /\ pow_den e = 2 ^ (- e).
Proof. intros He. unfold pow_num, pow_den. rewrite Z.max_r, Z.max_l by lia. done. Qed.

Lemma pow_nonneg e : 0 <= e -> pow_num e = 2 ^ e /\ pow_den e = 1.
Proof. intros He. unfold pow_num, pow_den. rewrite Z.max_l, Z.max_r by lia. done. Qed.

Lemma pow_num_den a b : 0 <= a -> 0 <= b -> 2 ^ a * pow_den (a - b) = 2 ^ b * pow_num (a - b).
Proof.
  intros Ha Hb. destruct (Z.le_ge_cases b a).
  - destruct (pow_nonneg (a - b)) as [-> ->]; [lia|]. rewrite <- Z.pow_add_r by lia. rewrite Z.mul_1_r. f_equal. lia.
  - destruct (pow_neg (a - b)) as [-> ->]; [lia|]. rewrite <- Z.pow_add_r by lia. rewrite Z.mul_1_r. f_equal. lia.
Qed.

Lemma pow_pred e :
  (pow_num e = 2 * pow_num (e - 1) /\ pow_den (e - 1) = pow_den e) \/
  (pow_num e = pow_num (e - 1) /\ pow_den (e - 1) = 2 * pow_den e).
Proof.
  destruct (Z.le_gt_cases 1 e).
  - left. destruct (pow_nonneg e), (pow_nonneg (e - 1)); [lia..|]. split; [|congruence].
    replace e with (Z.succ (e - 1)) at 1 by lia. rewrite (proj1 (pow_nonneg (Z.succ (e - 1)) ltac:(lia))).
    rewrite Z.pow_succ_r by lia. congruence.
  - right. destruct (pow_neg e), (pow_neg (e - 1)); [lia..|]. split; [congruence|].
    replace (- (e - 1)) with (Z.succ (- e)) in * by lia. rewrite Z.pow_succ_r in * by lia. congruence.
Qed.

(** The chosen exponent leaves at least 53 bits. *)
Lemma f64_exponent_low n d :
  0 < n -> 0 < d -> let e := f64_exponent n d in 2 ^ 52 * (d * pow_num e) <= n * pow_den e.
Proof.
  intros Hn Hd. unfold f64_exponent. set (e0 := Z.log2 n - Z.log2 d - 52). cbv zeta.
  destruct (Z.ltb_spec (n * pow_den e0) (2 ^ 52 * (d * pow_num e0))) as [Hlt|]; [|done].
  assert (2 ^ 51 * (d * pow_num e0) <= n * pow_den e0) as Hlow.
  { destruct (Z.log2_spec n Hn) as [Hn1 _]. destruct (Z.log2_spec d Hd) as [_ Hd1].
    pose proof (Z.log2_nonneg n). pose proof (Z.log2_nonneg d).
    pose proof (pow_num_den (Z.log2 n) (Z.log2 d + 52) ltac:(lia) ltac:(lia)) as Hnd.
    replace (Z.log2 n - (Z.log2 d + 52)) with e0 in Hnd by (unfold e0; lia).
    replace (Z.log2 d + 52) with (51 + Z.succ (Z.log2 d)) in Hnd by lia. rewrite Z.pow_add_r in Hnd by lia.
    pose proof (pow_num_pos e0). pose proof (pow_den_pos e0).
    transitivity (2 ^ 51 * (2 ^ Z.succ (Z.log2 d) * pow_num e0)); [|nia].
    apply Z.mul_le_mono_nonneg_l; [done|]. apply Z.mul_le_mono_nonneg_r; lia. }
  destruct (pow_pred e0) as [[H1 H2]|[H1 H2]]; rewrite ?H2, <- ?H1; nia.
Qed.

Lemma round_half_even_bounds n d :
  0 < d -> n / d <= round_half_even n d /\ 2 * (d * round_half_even n d) <= 2 * n + d.
Proof.
  intros Hd. unfold round_half_even. pose proof (Z.div_mod n d ltac:(lia)). pose proof (Z.mod_pos_bound n d Hd).
  destruct (Z.ltb_spec (2 * (n mod d)) d), (Z.ltb_spec d (2 * (n mod d))), (Z.even (n / d)); nia.
Qed.

Lemma round_half_even_exact q d : 0 < d -> round_half_even (q * d) d = q.
Proof.
  intros Hd. unfold round_half_even. rewrite Z.mod_mul, Z.div_mul by lia.
  by rewrite (proj2 (Z.ltb_lt (2 * 0) d)) by lia.
Qed.

(** A whole number below 2^53 is not rounded. *)
Lemma f64_round_exact n d y :
  0 < y < 2 ^ 53 -> 0 < d -> n = y * d ->
  let a := f64_round n d in expo a <= 0 /\ mant a = y * pow_den (expo a).
Proof.
  intros Hy Hd ->. unfold f64_round. rewrite (proj2 (Z.eqb_neq (y * d) 0)) by nia. simpl.
  pose proof (f64_exponent_low (y * d) d ltac:(nia) Hd) as Hlow. simpl in Hlow.
  set (e := f64_exponent _ _) in *. pose proof (pow_num_pos e). pose proof (pow_den_pos e).
  assert (e <= 0) as He.
  { destruct (Z.le_gt_cases e 0); [done|]. destruct (pow_nonneg e) as [Hp1 Hp2]; [lia|]. rewrite Hp1, Hp2 in Hlow.
    assert (2 ^ 1 <= 2 ^ e) by (apply Z.pow_le_mono_r; lia). nia. }
  split; [done|]. unfold scaled. destruct (pow_neg e He) as [-> _]. rewrite Z.mul_1_r.
  replace (y * d * pow_den e) with (y * pow_den e * d) by lia. by apply round_half_even_exact.
Qed.

(** Rounding [X / 100] does not reach the next whole number. *)
Lemma f64_round_floor n d X :
  0 < n -> 0 < d -> n * 100 = d * X -> X < 2 ^ 46 * 100 -> f64_as_usize (f64_round n d) = X / 100.
Proof.
  intros Hn Hd Hr HX. unfold f64_round. rewrite (proj2 (Z.eqb_neq n 0)) by lia. unfold f64_as_usize. simpl.
  pose proof (f64_exponent_low n d Hn Hd) as Hlow. simpl in Hlow. set (e := f64_exponent n d) in *.
  assert (e < 0 /\ 64 < pow_den e) as [He HP].
  { pose proof (pow_num_pos e). pose proof (pow_den_pos e).
    assert (2 ^ 6 * pow_num e < pow_den e) by nia.
    split; [|nia]. destruct (Z.lt_ge_cases e 0); [done|]. destruct (pow_nonneg e) as [? ?]; [lia|]. lia. }
  unfold scaled. destruct (pow_neg e ltac:(lia)) as [-> _]. rewrite !Z.mul_1_r. set (P := pow_den e) in *.
  destruct (round_half_even_bounds (n * P) d Hd) as [Hlo Hhi]. set (m := round_half_even (n * P) d) in *.
  pose proof (Z.div_mod X 100 ltac:(lia)). pose proof (Z.mod_pos_bound X 100 ltac:(lia)).
  assert (X / 100 * P <= m) as Hm1.
  { transitivity (n * P / d); [|done]. apply Z.div_le_lower_bound; [done|].
    assert (d * (X / 100) <= n) by nia. assert (0 < P) by lia. nia. }
  assert (100 * m <= X * P + 50) as Hm.
  { apply (Z.mul_le_mono_pos_l _ _ d Hd).
    replace (d * (X * P + 50)) with (50 * (2 * (n * P) + d)); [lia|].
    replace (d * (X * P + 50)) with (d * X * P + 50 * d) by lia. rewrite <- Hr. lia. }
  assert (m < (X / 100 + 1) * P) as Hm2.
  { assert (X * P <= (100 * (X / 100) + 99) * P) by (apply Z.mul_le_mono_nonneg_r; lia). lia. }
  assert (m / P = X / 100) as ->.
  { symmetry. apply Z.div_unique with (m - X / 100 * P); lia. }
  apply Z.min_l. unfold u64_mod. nia.
Qed.

(** The index, in integers. *)
Lemma f64_index len p :
  0 < len < 2 ^ 46 -> 0 < p <= 100 ->
  f64_as_usize (f64_div (f64_mul (f64_of_usize len) (f64_of_usize p)) (f64_of_usize 100)) = len * p / 100.
Proof.
  intros Hlen Hp.
  destruct (f64_round_exact len 1 len) as [Ha1 Ha2]; [lia..|].
  destruct (f64_round_exact p 1 p) as [Hb1 Hb2]; [lia..|].
  destruct (f64_round_exact 100 1 100) as [Hh1 Hh2]; [lia..|].
  unfold f64_of_usize. set (a := f64_round len 1) in *. set (b := f64_round p 1) in *. set (h := f64_round 100 1) in *.
  assert (expo (f64_mul a b) <= 0 /\ mant (f64_mul a b) = len * p * pow_den (expo (f64_mul a b))) as [Hc1 Hc2].
  { unfold f64_mul. apply f64_round_exact; [nia|apply pow_den_pos|].
    destruct (pow_neg (expo a + expo b)) as [-> ->]; [lia|]. rewrite Ha2, Hb2.
    destruct (pow_neg (expo a) Ha1) as [_ ->], (pow_neg (expo b) Hb1) as [_ ->].
    rewrite Z.opp_add_distr, Z.pow_add_r by lia. lia. }
  set (c := f64_mul a b) in *. unfold f64_div.
  pose proof (pow_num_pos (expo c - expo h)). pose proof (pow_den_pos (expo c - expo h)).
  pose proof (pow_den_pos (expo c)). pose proof (pow_den_pos (expo h)).
  assert (pow_den (expo h) * pow_den (expo c - expo h) = pow_den (expo c) * pow_num (expo c - expo h)) as Hk.
  { pose proof (pow_num_den (- expo h) (- expo c) ltac:(lia) ltac:(lia)) as Hk.
    replace (- expo h - - expo c) with (expo c - expo h) in Hk by lia.
    by rewrite (proj2 (pow_neg _ Hh1)), (proj2 (pow_neg _ Hc1)). }
  apply f64_round_floor; [rewrite Hc2; nia|rewrite Hh2; nia| |nia].
  rewrite Hc2, Hh2. transitivity (100 * (len * p) * (pow_den (expo c) * pow_num (expo c - expo h))); [lia|].
  rewrite <- Hk. lia.
Qed.

(** *** Sorted samples *)

Lemma percentile_index sorted p :
  Z.of_nat (length sorted) < 2 ^ 46 -> 0 < p <= 100 -> sorted <> [] ->
  percentile sorted p =
    sorted !! Z.to_nat (Z.min (Z.of_nat (length sorted) * p / 100) (Z.of_nat (length sorted) - 1)).
Proof.
  intros Hlen Hp Hne. destruct sorted as [|x l]; [done|]. unfold percentile.
  rewrite f64_index; [done| |done]. simpl in *. lia.
Qed.

Definition count_below (v : Z) (l : list Z) : Z := Z.of_nat (length (filter (fun x => x < v) l)).
Definition count_upto (v : Z) (l : list Z) : Z := Z.of_nat (length (filter (fun x => x <= v) l)).

Lemma sorted_counts (l : list Z) i v :
  Sorted Z.le l -> l !! i = Some v -> count_below v l <= Z.of_nat i < count_upto v l.
Proof.
  intros Hs Hi. apply (Sorted_StronglySorted Z.le) in Hs.
  rewrite <- (take_drop_middle l i v Hi) in Hs. unfold count_below, count_upto.
  rewrite <- (take_drop_middle l i v Hi). rewrite !filter_app, !length_app.
  apply StronglySorted_app in Hs as (H12 & _ & [Hge _]%StronglySorted_cons).
  assert (length (take i l) = i) as Hlen by (apply length_take_le; apply lookup_lt_Some in Hi; lia).
  assert (filter (fun x => x <= v) (take i l) = take i l) as ->.
  { apply filter_all. apply Forall_forall. intros x Hx. apply H12; [done|by left]. }
  assert (filter (fun x => x < v) (v :: drop (S i) l) = []) as ->.
  { apply filter_none. constructor; [lia|]. eapply Forall_impl; [exact Hge|]. simpl. lia. }
  rewrite filter_cons_True by lia. simpl.
  pose proof (length_filter (fun x => x < v) (take i l)). lia.
Qed.

Lemma sorted_lookup_le (l : list Z) i j x y :
  Sorted Z.le l -> (i <= j)%nat -> l !! i = Some x -> l !! j = Some y -> x <= y.
Proof.
  intros Hs Hij Hx Hy. destruct (decide (i = j)) as [->|]; [simplify_eq; lia|].
  apply (Sorted_StronglySorted Z.le) in Hs. rewrite <- (take_drop (S i) l) in Hs.
  eapply (StronglySorted_app_1_elem_of Z.le); [exact Hs| |].
  - apply (list_elem_of_lookup_2 _ i). rewrite lookup_take_lt by lia. done.
  - apply (list_elem_of_lookup_2 _ (j - S i)). rewrite lookup_drop. by replace (S i + (j - S i))%nat with j by lia.
Qed.

Lemma count_perm v l l' : l ≡ₚ l' -> count_below v l = count_below v l' /\ count_upto v l = count_upto v l'.
Proof. intros Hp. unfold count_below, count_upto. by rewrite Hp. Qed.

(** [sort_unstable] on integers. *)
Definition sort_unstable (l : list Z) : list Z := merge_sort Z.le l.

Lemma sort_unstable_spec l : Sorted Z.le (sort_unstable l) /\ sort_unstable l ≡ₚ l.
Proof. split; [apply (Sorted_merge_sort Z.le)|apply merge_sort_Permutation]. Qed.

Lemma sort_unstable_length l : length (sort_unstable l) = length l.
Proof. by rewrite (proj2 (sort_unstable_spec l)). Qed.

(** The index is in range. *)
Lemma percentile_total l p :
  Z.of_nat (length l) < 2 ^ 46 -> 0 < p < 100 -> l <> [] ->
  exists v, percentile (sort_unstable l) p = Some v /\
    sort_unstable l !! Z.to_nat (Z.of_nat (length l) * p / 100) = Some v.
Proof.
  intros Hlen Hp Hne. assert (sort_unstable l <> []) as Hne'.
  { intros E. apply Hne, length_zero_iff_nil. rewrite <- sort_unstable_length, E. done. }
  rewrite percentile_index by (rewrite ?sort_unstable_length; done || lia). rewrite sort_unstable_length.
  assert (0 < Z.of_nat (length l)) by (destruct l; simpl; [done|lia]).
  assert (0 <= Z.of_nat (length l) * p / 100 < Z.of_nat (length l)) as Hidx.
  { split; [apply Z.div_pos; nia|apply Z.div_lt_upper_bound; nia]. }
  rewrite Z.min_l by lia.
  destruct (lookup_lt_is_Some_2 (sort_unstable l) (Z.to_nat (Z.of_nat (length l) * p / 100))) as [v Hv]; [|eauto].
  rewrite sort_unstable_length. lia.
Qed.

Lemma percentile_mono l p q vp vq :
  Z.of_nat (length l) < 2 ^ 46 -> 0 < p <= q -> q < 100 ->
  percentile (sort_unstable l) p = Some vp -> percentile (sort_unstable l) q = Some vq -> vp <= vq.
Proof.
  intros Hlen Hp Hq. destruct l as [|x l]; [intros [= <-] [= <-]; lia|].
  destruct (percentile_total (x :: l) p) as (v & -> & Hi); [lia..|done|].
  destruct (percentile_total (x :: l) q) as (v' & -> & Hj); [lia..|done|].
  intros [= <-] [= <-]. eapply (sorted_lookup_le _ _ _ _ _ (proj1 (sort_unstable_spec _)) _ Hi Hj).
  Unshelve. apply Z2Nat.inj_le; [apply Z.div_pos; nia..|]. apply Z.div_le_mono; [lia|]. nia.
Qed.

Lemma percentile_le_last l p v :
  Z.of_nat (length l) < 2 ^ 46 -> 0 < p < 100 ->
  percentile (sort_unstable l) p = Some v -> v <= default 0 (last (sort_unstable l)).
Proof.
  intros Hlen Hp. destruct l as [|x l]; [by intros [= <-]|].
  destruct (percentile_total (x :: l) p) as (v' & -> & Hi); [done..|]. intros [= <-].
  destruct (last (sort_unstable (x :: l))) as [y|] eqn:Ey.
  - rewrite last_lookup in Ey. eapply (sorted_lookup_le _ _ _ _ _ (proj1 (sort_unstable_spec _)) _ Hi Ey).
    Unshelve. apply lookup_lt_Some in Hi. lia.
  - apply last_None in Ey. by rewrite Ey, lookup_nil in Hi.
Qed.

Lemma percentile_some l p : Z.of_nat (length l) < 2 ^ 46 -> 0 < p < 100 -> is_Some (percentile (sort_unstable l) p).
Proof.
  intros Hlen Hp. destruct l as [|x l]; [by eexists|].
  destruct (percentile_total (x :: l) p) as (v & -> & _); [done..|]. by eexists.
Qed.

(** ** Properties *)

(** C39. What a percentile means. For every non-empty set of fewer than 2^46 samples
    and every whole [p] between 1 and 99, the function, for all its floating-point
    arithmetic, never indexes out of range and returns one of the samples, such
    that at most [p] percent of the samples lie below it and more than [p]
    percent do not lie above it. *)
Theorem percentile_correct samples p :
  samples <> [] -> Z.of_nat (length samples) < 2 ^ 46 -> 0 < p < 100 ->
  exists v, percentile (sort_unstable samples) p = Some v /\ v ∈ samples /\
    100 * count_below v samples <= p * Z.of_nat (length samples) < 100 * count_upto v samples.
Proof.
  intros Hne Hlen Hp. destruct (percentile_total samples p Hlen Hp Hne) as (v & Hv & Hi).
  destruct (sort_unstable_spec samples) as [Hs Hperm]. exists v. split; [done|]. split.
  - rewrite <- Hperm. by eapply list_elem_of_lookup_2.
  - pose proof (sorted_counts _ _ _ Hs Hi) as Hc. destruct (count_perm v _ _ Hperm) as [Hb Hu].
    rewrite Hb, Hu in Hc. set (x := Z.of_nat (length samples) * p) in *.
    assert (0 <= x) by (unfold x; nia). replace (p * _) with x by (unfold x; lia). mod_lia.
Qed.

Lemma percentile_correct_witness :
  exists v, percentile (sort_unstable [30; 10; 20]) 95 = Some v /\ v ∈ [30; 10; 20] /\
    100 * count_below v [30; 10; 20] <= 95 * 3 < 100 * count_upto v [30; 10; 20].
Proof. apply (percentile_correct [30; 10; 20] 95); [discriminate|reflexivity|split; reflexivity]. Defined.
