(* ===== verification/Common.v ===== *)
(** * Shared data types

    Models [crates/common] (errors, module metadata, task and node records) and
    the messages of [crates/proto/proto/edge.proto] exchanged between the
    control plane and the edge nodes. Field names follow the source; a prefix
    separates records that share a field name. *)

From S2P Require Import Prelude RustStd.

(** Raw bytes ([Vec<u8>]). *)
Abbreviation bytes := (list Byte.byte).

(** ** Errors (crates/common/src/errors.rs) *)
Inductive EdgeError :=
| TaskNotFound (s : string)
| ExecutionFailed (s : string)
| NodeUnavailable (s : string)
| Timeout
| InvalidWasm (s : string)
| NetworkError (s : string).

(** The [Display] text thiserror derives. *)
Definition EdgeError_to_string (e : EdgeError) : string :=
  match e with
  | TaskNotFound s => "task not found: " +:+ s
  | ExecutionFailed s => "execution failed: " +:+ s
  | NodeUnavailable s => "node unavailable: " +:+ s
  | Timeout => "execution timed out"
  | InvalidWasm s => "invalid wasm: " +:+ s
  | NetworkError s => "network error: " +:+ s
  end.

(** ** Modules (crates/common/src/module.rs) *)
Record ModuleMetadata := {
  mm_id : string;
  mm_name : string;
  mm_version : string;
  mm_size_bytes : Z;
  mm_created_at : Z;
  mm_hash : string
}.

Inductive RegistryError :=
| AlreadyExists (name version : string)
| NotFound (name version : string)
| RegInvalidWasm (s : string).

Definition RegistryError_to_string (e : RegistryError) : string :=
  match e with
  | AlreadyExists n v => "module '" +:+ n +:+ "' version '" +:+ v +:+ "' already exists"
  | NotFound n v => "module '" +:+ n +:+ "' version '" +:+ v +:+ "' not found"
  | RegInvalidWasm s => "invalid wasm bytes: " +:+ s
  end.

(** ** Tasks and nodes (crates/common/src/types.rs) *)
Record TaskResult := {
  tr_task_id : string;
  tr_node_id : string;
  tr_success : bool;
  tr_output : bytes;
  tr_execution_time_ms : Z;
  tr_error : option string
}.

Record NodeInfo := {
  id : string;
  address : string;
  http_address : string;
  active_tasks : Z;
  healthy : bool;
  max_concurrent_tasks : Z
}.

Definition default_max_concurrent_tasks : Z := 10.

#[export] Instance NodeInfo_eq_dec : EqDecision NodeInfo.
Proof. solve_decision. Defined.

Definition set_healthy (b : bool) (n : NodeInfo) : NodeInfo :=
  {| id := id n; address := address n; http_address := http_address n;
     active_tasks := active_tasks n; healthy := b;
     max_concurrent_tasks := max_concurrent_tasks n |}.

Definition set_active_tasks (a : Z) (n : NodeInfo) : NodeInfo :=
  {| id := id n; address := address n; http_address := http_address n;
     active_tasks := a; healthy := healthy n;
     max_concurrent_tasks := max_concurrent_tasks n |}.

(** ** gRPC messages (crates/proto/proto/edge.proto) *)
Record ModuleRef := {
  mr_name : string;
  mr_version : string;
  mr_hash : string;
  mr_fetch_url : string
}.

Inductive WasmSource :=
| SrcWasmBytes (b : bytes)
| SrcModuleRef (m : ModuleRef).

Record ExecuteTaskRequest := {
  req_task_id : string;
  req_function_name : string;
  req_input : bytes;
  req_timeout_ms : Z;
  req_memory_limit_mb : Z;
  req_trace_id : string;
  req_wasm_source : option WasmSource
}.

Record ExecuteTaskResponse := {
  resp_task_id : string;
  resp_success : bool;
  resp_output : bytes;
  resp_execution_time_ms : Z;
  resp_error : string
}.

Record HealthResponse := {
  hr_node_id : string;
  hr_active_tasks : Z;
  hr_ready : bool
}.

(** The gRPC status codes ([tonic::Code]). *)
Inductive Code :=
| CodeOk | Cancelled | Unknown | InvalidArgument | DeadlineExceeded | CodeNotFound
| CodeAlreadyExists | PermissionDenied | ResourceExhausted | FailedPrecondition
| Aborted | OutOfRange | Unimplemented | Internal | Unavailable | DataLoss
| Unauthenticated.

#[export] Instance Code_eq_dec : EqDecision Code.
Proof. solve_decision. Defined.

Record Status := { code : Code; message : string }.

(** ** Prometheus calls (crates/telemetry/src/metrics.rs)

    The collectors live in the prometheus crate; the model records the calls the
    program makes on them, most recent first, and a counter's value is the
    number of its increments. *)
Inductive Counter :=
| TASKS_SUBMITTED_TOTAL
| TASKS_SUCCESS_TOTAL
| TASKS_FAILED_TOTAL
| WASM_CACHE_HITS_TOTAL
| WASM_CACHE_MISSES_TOTAL
| NODE_HEALTH_CHECK_FAILURES (node_id : string).

Inductive Gauge :=
| ACTIVE_TASKS_GAUGE (node_id : string)
| HEALTHY_NODES_GAUGE
| CACHE_SIZE_GAUGE.

Inductive Histogram :=
| TASK_EXECUTION_DURATION_MS
| TASK_E2E_DURATION_MS.

#[export] Instance Counter_eq_dec : EqDecision Counter.
Proof. solve_decision. Defined.
#[export] Instance Gauge_eq_dec : EqDecision Gauge.
Proof. solve_decision. Defined.

Inductive MetricOp :=
| CounterInc (c : Counter)
| GaugeInc (g : Gauge)
| GaugeDec (g : Gauge)
| GaugeSet (g : Gauge) (v : Z)
| HistObserve (h : Histogram) (v : Z).

Abbreviation MetricLog := (list MetricOp).

(** Number of increments of a counter in a log. *)
Definition counter_hits (c : Counter) (op : MetricOp) : nat :=
  match op with CounterInc c' => if decide (c = c') then 1%nat else 0%nat | _ => 0%nat end.
Definition counter_value (c : Counter) (log : MetricLog) : nat :=
  sum_list_with (counter_hits c) log.

(** Value of a gauge that is only moved by [inc] and [dec]. *)
Definition gauge_delta (g : Gauge) (op : MetricOp) : Z :=
  match op with
  | GaugeInc g' => if decide (g = g') then 1 else 0
  | GaugeDec g' => if decide (g = g') then -1 else 0
  | _ => 0
  end.
Fixpoint gauge_value (g : Gauge) (log : MetricLog) : Z :=
  match log with
  | [] => 0
  | op :: log' => gauge_delta g op + gauge_value g log'
  end.

(** ** Third-party interfaces

    Each class stands for a crate outside the repository; its laws are the
    documented behaviour the program relies on. *)

(** [tonic::transport]: a lazily connected channel and the text of a status. *)
Class Tonic := {
  Channel : Type;
  from_shared : string -> result string Channel;
  status_to_string : Status -> string
}.

(** [base64::engine::general_purpose::STANDARD]. *)
Class Base64 := {
  b64_encode : bytes -> string;
  b64_decode : string -> result string bytes;
  b64_roundtrip : forall b, b64_decode (b64_encode b) = Ok b
}.

(** [hex::encode(Sha256::digest(bytes))]. *)
Class Sha2 := { sha256_hex : bytes -> string }.

(** Concrete instances, used only to evaluate examples. *)
Definition toy_sha2 : Sha2 := {| sha256_hex := fun b => pretty (length b) |}.
Definition toy_tonic : Tonic :=
  {| Channel := string; from_shared := fun a => Ok a; status_to_string := message |}.
