(* ===== verification/Config.v ===== *)
(** * Configuration from the environment

    Models [Config::from_env] of both services
    ([services/control-plane/src/config.rs], [services/edge-node/src/config.rs])
    and [TracingMode::from_env] of [crates/telemetry/src/init.rs]. The environment
    is the one left by [dotenvy::dotenv()], which the main functions call first.
    An [anyhow::Error] is kept as its outermost context and its cause. *)

From S2P Require Import Prelude RustStd RustText.

Inductive ConfigCause := CauseVar (e : VarError) | CauseParse (e : ParseIntError).
Record ConfigError := { context : string; cause : ConfigCause }.

(** [m.context(msg)]. *)
Definition with_context {E A} (f : E -> ConfigCause) (msg : string) (m : result E A)
    : result ConfigError A :=
  map_err (fun e => {| context := msg; cause := f e |}) m.

(** [std::env::var(key).unwrap_or_else(|_| default)]. *)
Definition setting (env : Env) (key dflt : string) : string := unwrap_or (env_var env key) dflt.

(** ** The control plane *)

Record CpConfig := {
  http_port : Z;
  cp_metrics_port : Z;
  cp_rust_log : string;
  cp_scheduling_strategy : string;
  cp_self_url : string
}.

Definition cp_from_env (env : Env) : result ConfigError CpConfig :=
  http_port ← with_context CauseParse "HTTP_PORT must be a valid port number"
                (parse_u16 (setting env "HTTP_PORT" "8080"));
  metrics_port ← with_context CauseParse "METRICS_PORT must be a valid port number"
                   (parse_u16 (setting env "METRICS_PORT" "9090"));
  let self_url := setting env "SELF_URL" ("http://127.0.0.1:" +:+ pretty http_port) in
  Ok {| http_port := http_port; cp_metrics_port := metrics_port;
        cp_rust_log := setting env "RUST_LOG" "info";
        cp_scheduling_strategy := setting env "SCHEDULING_STRATEGY" "round_robin";
        cp_self_url := self_url |}.

(** ** The edge node *)

Record EdgeConfig := {
  node_id : string;
  grpc_port : Z;
  control_plane_url : string;
  edge_rust_log : string;
  max_tasks : Z;
  metrics_port : Z;
  cache_max_size : Z;
  cache_ttl_secs : Z
}.

Definition edge_from_env (env : Env) : result ConfigError EdgeConfig :=
  node_id ← with_context CauseVar "NODE_ID must be set" (env_var env "NODE_ID");
  grpc_port ← with_context CauseParse "GRPC_PORT must be a valid port number"
                (parse_u16 (setting env "GRPC_PORT" "50051"));
  control_plane_url ← with_context CauseVar "CONTROL_PLANE_URL must be set"
                        (env_var env "CONTROL_PLANE_URL");
  let rust_log := setting env "RUST_LOG" "info" in
  max_tasks ← with_context CauseParse "MAX_TASKS must be a valid integer"
                (parse_usize (setting env "MAX_TASKS" "10"));
  metrics_port ← with_context CauseParse "METRICS_PORT must be a valid port number"
                   (parse_u16 (setting env "METRICS_PORT" "9090"));
  cache_max_size ← with_context CauseParse "CACHE_MAX_SIZE must be a valid integer"
                     (parse_usize (setting env "CACHE_MAX_SIZE" "50"));
  cache_ttl_secs ← with_context CauseParse "CACHE_TTL_SECS must be a valid integer"
                     (parse_u64 (setting env "CACHE_TTL_SECS" "300"));
  Ok {| node_id := node_id; grpc_port := grpc_port; control_plane_url := control_plane_url;
        edge_rust_log := rust_log; max_tasks := max_tasks; metrics_port := metrics_port;
        cache_max_size := cache_max_size; cache_ttl_secs := cache_ttl_secs |}.

(** ** Tracing mode (telemetry/src/init.rs) *)

Inductive TracingMode := Console | Otlp.

Definition tracing_mode_from_env (env : Env) : TracingMode :=
  if decide (to_lowercase (setting env "OTEL_MODE" EmptyString) = "otlp") then Otlp else Console.

(** ** What a configuration must satisfy *)

Definition is_u16 (a : Z) : Prop := 0 <= a <= u16_max.

Record edge_config_ok (c : EdgeConfig) : Prop := {
  eco_grpc : is_u16 (grpc_port c);
  eco_metrics : is_u16 (metrics_port c);
  eco_tasks : is_u64 (max_tasks c);
  eco_cache : is_u64 (cache_max_size c);
  eco_ttl : is_u64 (cache_ttl_secs c)
}.

Record cp_config_ok (c : CpConfig) : Prop := {
  cco_http : is_u16 (http_port c);
  cco_metrics : is_u16 (cp_metrics_port c)
}.

(** The environment a deployment writes down for a configuration. *)
Definition edge_env (c : EdgeConfig) : Env :=
  {[ "NODE_ID" := Unicode (node_id c); "GRPC_PORT" := Unicode (pretty (grpc_port c));
     "CONTROL_PLANE_URL" := Unicode (control_plane_url c); "RUST_LOG" := Unicode (edge_rust_log c);
     "MAX_TASKS" := Unicode (pretty (max_tasks c)); "METRICS_PORT" := Unicode (pretty (metrics_port c));
     "CACHE_MAX_SIZE" := Unicode (pretty (cache_max_size c));
     "CACHE_TTL_SECS" := Unicode (pretty (cache_ttl_secs c)) ]}.

Definition cp_env (c : CpConfig) : Env :=
  {[ "HTTP_PORT" := Unicode (pretty (http_port c)); "METRICS_PORT" := Unicode (pretty (cp_metrics_port c));
     "SELF_URL" := Unicode (cp_self_url c); "RUST_LOG" := Unicode (cp_rust_log c);
     "SCHEDULING_STRATEGY" := Unicode (cp_scheduling_strategy c) ]}.

(** The settings of the edge node in the order in which they are read, with the
    message for a bad one: it must be present, or be a numeral up to a maximum. *)
Inductive requirement := Present | Number (dflt : string) (max : Z).

Definition edge_settings : list (string * requirement * string) :=
  [("NODE_ID", Present, "NODE_ID must be set");
   ("GRPC_PORT", Number "50051" u16_max, "GRPC_PORT must be a valid port number");
   ("CONTROL_PLANE_URL", Present, "CONTROL_PLANE_URL must be set");
   ("MAX_TASKS", Number "10" u64_max, "MAX_TASKS must be a valid integer");
   ("METRICS_PORT", Number "9090" u16_max, "METRICS_PORT must be a valid port number");
   ("CACHE_MAX_SIZE", Number "50" u64_max, "CACHE_MAX_SIZE must be a valid integer");
   ("CACHE_TTL_SECS", Number "300" u64_max, "CACHE_TTL_SECS must be a valid integer")].

Definition meets (env : Env) (key : string) (r : requirement) : bool :=
  match r with
  | Present => match env !! key with Some (Unicode _) => true | _ => false end
  | Number dflt max =>
      match unsigned_numeral (setting env key dflt) with Some n => n <=? max | None => false end
  end.

Definition first_bad (env : Env) (l : list (string * requirement * string)) : option string :=
  snd <$> head (filter (fun e => meets env e.1.1 e.1.2 = false) l).

(** ** Lemmas *)

(** A numeric setting succeeds exactly on the numerals that fit. *)
Lemma parse_setting max msg s :
  0 <= max ->
  match with_context CauseParse msg (parse_uint max s) with
  | Ok n => unsigned_numeral s = Some n /\ 0 <= n <= max
  | Err e => context e = msg /\ forall n, unsigned_numeral s = Some n -> max < n
  end.
Proof.
  intros Hmax. destruct (parse_uint max s) as [n|e] eqn:E; simpl.
  - pose proof (parse_uint_range _ _ _ Hmax E). by apply parse_uint_Ok in E as [? _].
  - split; [done|]. intros n Hn. destruct (decide (n <= max)); [|lia].
    assert (parse_uint max s = Ok n) by (by apply parse_uint_Ok). congruence.
Qed.

Lemma meets_number env key dflt max msg :
  0 <= max ->
  match with_context CauseParse msg (parse_uint max (setting env key dflt)) with
  | Ok n => meets env key (Number dflt max) = true /\ 0 <= n <= max
  | Err e => meets env key (Number dflt max) = false /\ context e = msg
  end.
Proof.
  intros Hmax. pose proof (parse_setting max msg (setting env key dflt) Hmax) as H.
  unfold meets. case_match.
  - destruct H as [-> ?]. split; [by apply Z.leb_le; lia|done].
  - destruct H as [-> H]. split; [|done]. case_match; [|done]. apply Z.leb_gt. by apply H.
Qed.

Lemma meets_present env key msg :
  match with_context CauseVar msg (env_var env key) with
  | Ok _ => meets env key Present = true
  | Err e => meets env key Present = false /\ context e = msg
  end.
Proof. unfold meets, env_var. repeat case_match; simplify_eq/=; done. Qed.

Lemma first_bad_cons env key r msg l :
  first_bad env ((key, r, msg) :: l) = if meets env key r then first_bad env l else Some msg.
Proof. unfold first_bad. rewrite filter_cons. simpl. by destruct (meets env key r). Qed.

Lemma parse_pretty max n : 0 <= n <= max -> parse_uint max (pretty n) = Ok n.
Proof. intros Hn. apply parse_uint_Ok; [lia|]. split; [apply unsigned_numeral_pretty|]; lia. Qed.

(** One setting after the other: the next bind is an [Ok] or the end. *)
Ltac read_setting :=
  match goal with
  | |- context [with_context CauseParse ?msg (parse_uint ?max (setting ?env ?key ?d))] =>
      let H := fresh "H" in
      pose proof (meets_number env key d max msg ltac:(done)) as H;
      destruct (with_context CauseParse msg (parse_uint max (setting env key d))); simpl;
      rewrite (first_bad_cons env key), (proj1 H)
  | |- context [with_context CauseVar ?msg (env_var ?env ?key)] =>
      let H := fresh "H" in
      pose proof (meets_present env key msg) as H;
      destruct (with_context CauseVar msg (env_var env key)); simpl; rewrite (first_bad_cons env key);
      [rewrite H | rewrite (proj1 H)]
  end.

(** [edge_from_env] against the table of settings. *)
Lemma edge_from_env_table env :
  match edge_from_env env with
  | Ok c => first_bad env edge_settings = None /\ edge_config_ok c
  | Err e => first_bad env edge_settings = Some (context e)
  end.
Proof.
  unfold edge_from_env, edge_settings, parse_u16, parse_usize, parse_u64, mbind, result_bind.
  repeat (read_setting; [|by f_equal; destruct_and?]). split; [done|].
  constructor; unfold is_u16, is_u64, u64_mod, u64_max in *; simpl; lia.
Qed.

Lemma edge_from_env_env c : edge_config_ok c -> edge_from_env (edge_env c) = Ok c.
Proof.
  intros [? ? ? ? ?]. unfold is_u16, is_u64, u64_mod in *.
  unfold edge_from_env, parse_u16, parse_usize, parse_u64.
  change (setting (edge_env c) "GRPC_PORT" "50051") with (pretty (grpc_port c)).
  change (setting (edge_env c) "MAX_TASKS" "10") with (pretty (max_tasks c)).
  change (setting (edge_env c) "METRICS_PORT" "9090") with (pretty (metrics_port c)).
  change (setting (edge_env c) "CACHE_MAX_SIZE" "50") with (pretty (cache_max_size c)).
  change (setting (edge_env c) "CACHE_TTL_SECS" "300") with (pretty (cache_ttl_secs c)).
  rewrite !parse_pretty by (unfold u64_max; lia). by destruct c.
Qed.

Lemma cp_from_env_env c : cp_config_ok c -> cp_from_env (cp_env c) = Ok c.
Proof.
  intros [? ?]. unfold is_u16 in *. unfold cp_from_env, parse_u16.
  change (setting (cp_env c) "HTTP_PORT" "8080") with (pretty (http_port c)).
  change (setting (cp_env c) "METRICS_PORT" "9090") with (pretty (cp_metrics_port c)).
  rewrite !parse_pretty by done. by destruct c.
Qed.

Lemma cp_from_env_ok env c : cp_from_env env = Ok c -> cp_config_ok c.
Proof.
  unfold cp_from_env, parse_u16, mbind, result_bind. intros H.
  pose proof (parse_setting u16_max "HTTP_PORT must be a valid port number"
    (setting env "HTTP_PORT" "8080") ltac:(done)) as H1.
  pose proof (parse_setting u16_max "METRICS_PORT must be a valid port number"
    (setting env "METRICS_PORT" "9090") ltac:(done)) as H2.
  repeat case_match; simplify_eq. constructor; simpl; unfold is_u16; lia.
Qed.

(** ** Properties *)

(** Types of the configuration. What [from_env] of either service produces are
    exactly the configurations whose ports fit 16 bits and whose other numbers fit
    64: nothing else comes out of it, and each of them is read back from the
    environment that spells it out. (Which of them a service starts on is said in
    [NodeMain].) *)
Theorem config_well_typed :
  (forall env c, edge_from_env env = Ok c -> edge_config_ok c) /\
  (forall c, edge_config_ok c <-> edge_from_env (edge_env c) = Ok c) /\
  (forall env c, cp_from_env env = Ok c -> cp_config_ok c) /\
  (forall c, cp_config_ok c <-> cp_from_env (cp_env c) = Ok c).
Proof.
  assert (forall env c, edge_from_env env = Ok c -> edge_config_ok c) as He.
  { intros env c H. pose proof (edge_from_env_table env) as Ht. rewrite H in Ht. apply Ht. }
  split_and!; [done| |apply cp_from_env_ok|]; intros c; split;
    auto using edge_from_env_env, cp_from_env_env; [apply He|apply cp_from_env_ok].
Qed.

(** Which configuration error an edge node stops with: it starts if and only
    if every setting of the table is acceptable (required ones present and
    Unicode, numbers decimal numerals with an optional plus sign that fit their
    type), and otherwise the error is the message of the first setting, in the
    order of the table, that is not. *)
Theorem edge_config_first_error env :
  match edge_from_env env with
  | Ok _ => first_bad env edge_settings = None
  | Err e => first_bad env edge_settings = Some (context e)
  end.
Proof. pose proof (edge_from_env_table env). case_match; tauto. Qed.
