(* ===== verification/Http.v ===== *)
(** * The HTTP boundary: JSON, requests, and the crates that carry them

    The services talk JSON over axum (server) and reqwest (client). JSON values
    are a data type; what serde's derived [Deserialize] makes of them is written
    out per request body in [Routes]. The crates themselves are interfaces:
    [Axum] for headers, routing and the [Json] extractor, [Reqwest] for the way a
    URL reaches a server. Each has a concrete instance. *)

From Stdlib Require Import Ascii.
From S2P Require Import Prelude RustStd RustText Common.

#[local] Set Warnings "-register-all".

(** ** JSON values *)

Inductive Json :=
| JNull
| JBool (b : bool)
| JNum (n : Z)
| JStr (s : string)
| JArr (l : list Json)
| JObj (l : list (string * Json)).

(** Numbers serde_json keeps exact, and no key twice. *)
Fixpoint json_ok (j : Json) : bool :=
  match j with
  | JNum n => (- 2 ^ 63 <=? n) && (n <? 2 ^ 64)
  | JArr l => forallb json_ok l
  | JObj l => bool_decide (NoDup l.*1) && forallb (fun kv => json_ok kv.2) l
  | _ => true
  end.

Fixpoint json_field (name : string) (l : list (string * Json)) : option Json :=
  match l with
  | [] => None
  | (k, j) :: l' => if decide (k = name) then Some j else json_field name l'
  end.

(** ** Derived [Deserialize] *)

(** The fields of a struct, from an object by name or from an array by position. *)
Definition struct_fields (names : list string) (j : Json) : option (list (option Json)) :=
  match j with
  | JObj o => Some ((fun n => json_field n o) <$> names)
  | JArr l => if decide (length l = length names) then Some (Some <$> l) else None
  | _ => None
  end.

Definition de_string (j : Json) : option string :=
  match j with JStr s => Some s | _ => None end.
(** [u64] and [usize]. *)
Definition de_u64 (j : Json) : option Z :=
  match j with JNum n => if decide (0 <= n < u64_mod) then Some n else None | _ => None end.
Definition de_vec {T} (de : Json -> option T) (j : Json) : option (list T) :=
  match j with JArr l => mapM de l | _ => None end.
(** A required field. *)
Definition de_req {T} (de : Json -> option T) (x : option Json) : option T := j ← x; de j.
(** An [Option] field: absent and [null] are [None]. *)
Definition de_opt {T} (de : Json -> option T) (x : option Json) : option (option T) :=
  match x with
  | None | Some JNull => Some None
  | Some j => Some <$> de j
  end.

(** ** Paths *)

Inductive Method := GET | HEAD | POST | OtherMethod.
#[export] Instance Method_eq_dec : EqDecision Method.
Proof. solve_decision. Defined.

(** The pieces of a path between its slashes. *)
Fixpoint segments (s : string) : list string :=
  match s with
  | EmptyString => [EmptyString]
  | String c s' =>
      if decide (c = "/"%char) then EmptyString :: segments s'
      else match segments s' with
           | [] => [String c EmptyString]
           | x :: xs => String c x :: xs
           end
  end.

Definition is_capture (pat : string) : bool :=
  match pat with String c _ => bool_decide (c = ":"%char) | EmptyString => false end.

(** A capture takes exactly one segment, which is not empty. *)
Fixpoint match_segments (pat seg : list string) : option (list string) :=
  match pat, seg with
  | [], [] => Some []
  | q :: pat', x :: seg' =>
      if is_capture q
      then if decide (x = EmptyString) then None else cons x <$> match_segments pat' seg'
      else if decide (q = x) then match_segments pat' seg' else None
  | _, _ => None
  end.

Definition match_path (pat path : string) : option (list string) :=
  match_segments (segments pat) (segments path).
Definition is_static (pat : string) : bool := negb (existsb is_capture (segments pat)).

(** Characters a URL carries unchanged. *)
Definition url_plain_char (c : ascii) : bool :=
  let n := nat_of_ascii c in
  bool_decide (48 <= n <= 57)%nat || bool_decide (65 <= n <= 90)%nat || bool_decide (97 <= n <= 122)%nat
  || bool_decide (c = "-"%char) || bool_decide (c = "_"%char) || bool_decide (c = "."%char).

(** A segment that names itself: not empty, plain, and no dot segment. *)
Definition plain_segment (s : string) : bool :=
  bool_decide (s <> EmptyString) && bool_decide (s <> ".") && bool_decide (s <> "..")
  && all_chars url_plain_char s.

(** Text a header value may hold: printable ASCII and tabs. *)
Definition header_text (s : string) : bool :=
  all_chars (fun c => let n := nat_of_ascii c in
    bool_decide (32 <= n < 127)%nat || bool_decide (n = 9%nat)) s.

(** ** Interfaces *)

(** A route of a router over endpoints [E]: [.route(path, method(handler))]. *)
Record Route (E : Type) := { rt_path : string; rt_method : Method; rt_endpoint : E }.
Arguments rt_path {E} _.
Arguments rt_method {E} _.
Arguments rt_endpoint {E} _.

(** [get(h)] also serves HEAD. *)
Definition serves (rm m : Method) : bool :=
  bool_decide (rm = m) || (bool_decide (rm = GET) && bool_decide (m = HEAD)).

Inductive RouteOutcome (E : Type) :=
| Matched (ep : E) (captures : list string)
| MethodNotAllowed
| NoRoute.
Arguments Matched {E} ep captures.
Arguments MethodNotAllowed {E}.
Arguments NoRoute {E}.

(** The pattern that wins on a path: every other one that matches has the same
    text, or has a capture where the winner is static. *)
Definition wins {E} (rs : list (Route E)) (pat path : string) : Prop :=
  is_Some (match_path pat path) /\
  forall r, r ∈ rs -> is_Some (match_path (rt_path r) path) ->
    rt_path r = pat \/ (is_static pat = true /\ is_static (rt_path r) = false).

(** The default limit of the body extractors, 2 MB. *)
Definition default_body_limit : Z := 2 * 1024 * 1024.

Class Axum := {
  HeaderValue : Type;
  to_str : HeaderValue -> option string;
  from_str : string -> option HeaderValue;
  to_str_text : forall v s, to_str v = Some s -> header_text s = true;
  from_str_text : forall s, header_text s = true -> exists v, from_str s = Some v /\ to_str v = Some s;
  HeaderMap : Type;
  no_headers : HeaderMap;
  hm_get : string -> HeaderMap -> option HeaderValue;
  hm_insert : string -> HeaderValue -> HeaderMap -> HeaderMap;
  hm_get_insert : forall k v m, hm_get k (hm_insert k v m) = Some v;
  Body : Type;
  json_body : Json -> Body;
  no_body : Body;
  body_len : Body -> Z;
  json_extract : Body -> result Z Json;
  json_extract_body : forall j, json_ok j = true -> body_len (json_body j) <= default_body_limit ->
    json_extract (json_body j) = Ok j;
  json_extract_inv : forall j j', json_ok j = true -> json_extract (json_body j) = Ok j' -> j' = j;
  json_extract_status : forall b e, json_extract b = Err e -> 400 <= e < 500;
  percent_decode : string -> option string;
  percent_decode_plain : forall s, plain_segment s = true -> percent_decode s = Some s;
  route : forall E, list (Route E) -> Method -> string -> RouteOutcome E;
  route_found : forall E (rs : list (Route E)) m path r caps,
    r ∈ rs -> wins rs (rt_path r) path -> serves (rt_method r) m = true ->
    (forall r', r' ∈ rs -> rt_path r' = rt_path r -> serves (rt_method r') m = true -> r' = r) ->
    match_path (rt_path r) path = Some caps -> route E rs m path = Matched (rt_endpoint r) caps;
  route_method : forall E (rs : list (Route E)) m path r,
    r ∈ rs -> wins rs (rt_path r) path ->
    (forall r', r' ∈ rs -> rt_path r' = rt_path r -> serves (rt_method r') m = false) ->
    route E rs m path = MethodNotAllowed;
  route_matched : forall E (rs : list (Route E)) m path ep caps,
    route E rs m path = Matched ep caps -> exists r, r ∈ rs /\ rt_endpoint r = ep /\
      serves (rt_method r) m = true /\ match_path (rt_path r) path = Some caps;
  route_none : forall E (rs : list (Route E)) m path,
    (forall r, r ∈ rs -> match_path (rt_path r) path = None) -> route E rs m path = NoRoute
}.

(** [reqwest]: the origin and the path a URL is sent to. Plain segments after a
    bare origin arrive as they are. *)
Class Reqwest := {
  is_origin : string -> bool;
  deliver : string -> option (string * string);
  deliver_plain : forall origin segs, is_origin origin = true ->
    Forall (fun s => plain_segment s = true) segs -> segs <> [] ->
    let path := foldr (fun s acc => "/" +:+ s +:+ acc) EmptyString segs in
    deliver (origin +:+ path) = Some (origin, path)
}.

(** ** Instances, used only to evaluate examples *)

(** Static patterns first, then the method. *)
Definition toy_candidates {E} (rs : list (Route E)) (path : string) : list (Route E) :=
  filter (fun r => is_Some (match_path (rt_path r) path)) rs.
Definition toy_best {E} (rs : list (Route E)) (path : string) : option (Route E) :=
  match head (filter (fun r => is_static (rt_path r) = true) (toy_candidates rs path)) with
  | Some r => Some r
  | None => head (toy_candidates rs path)
  end.
Definition toy_route (E : Type) (rs : list (Route E)) (m : Method) (path : string) : RouteOutcome E :=
  match toy_best rs path with
  | None => NoRoute
  | Some b =>
      match head (filter (fun r => serves (rt_method r) m = true /\ rt_path r = rt_path b)
                    (toy_candidates rs path)) with
      | Some r => Matched (rt_endpoint r) (default [] (match_path (rt_path r) path))
      | None => MethodNotAllowed
      end
  end.

Lemma head_Some_elem {A} (l : list A) x : head l = Some x -> x ∈ l.
Proof. destruct l; [done|]. intros [= ->]. by left. Qed.

Lemma head_None_nil {A} (l : list A) : head l = None -> l = [].
Proof. by destruct l. Qed.

Lemma elem_of_toy_candidates {E} (rs : list (Route E)) path r :
  r ∈ toy_candidates rs path <-> r ∈ rs /\ is_Some (match_path (rt_path r) path).
Proof. unfold toy_candidates. rewrite list_elem_of_filter. tauto. Qed.

Lemma toy_best_elem {E} (rs : list (Route E)) path b :
  toy_best rs path = Some b -> b ∈ toy_candidates rs path.
Proof.
  unfold toy_best. case_match eqn:Eh; [intros [= <-]|by intros ?%head_Some_elem].
  by apply head_Some_elem, list_elem_of_filter in Eh as [_ ?].
Qed.

Lemma toy_best_wins {E} (rs : list (Route E)) path r :
  r ∈ rs -> wins rs (rt_path r) path -> exists b, toy_best rs path = Some b /\ rt_path b = rt_path r.
Proof.
  intros Hin [Hm Hw].
  assert (r ∈ toy_candidates rs path) as Hc by by apply elem_of_toy_candidates.
  destruct (toy_best rs path) as [b|] eqn:Eb.
  - exists b. split; [done|]. pose proof (toy_best_elem _ _ _ Eb) as [Hb1 Hb2]%elem_of_toy_candidates.
    destruct (Hw b Hb1 Hb2) as [?|[Hs Hns]]; [done|]. unfold toy_best in Eb. case_match eqn:Eh.
    + simplify_eq. apply head_Some_elem, list_elem_of_filter in Eh as [? _]. congruence.
    + apply head_None_nil in Eh.
      assert (r ∈ filter (fun r => is_static (rt_path r) = true) (toy_candidates rs path)) as Hr
        by by apply list_elem_of_filter.
      rewrite Eh in Hr. by inversion Hr.
  - unfold toy_best in Eb. case_match; [done|]. apply head_None_nil in Eb. rewrite Eb in Hc. by inversion Hc.
Qed.

Lemma toy_route_found E (rs : list (Route E)) m path r caps :
  r ∈ rs -> wins rs (rt_path r) path -> serves (rt_method r) m = true ->
  (forall r', r' ∈ rs -> rt_path r' = rt_path r -> serves (rt_method r') m = true -> r' = r) ->
  match_path (rt_path r) path = Some caps -> toy_route E rs m path = Matched (rt_endpoint r) caps.
Proof.
  intros Hin Hw Hs Hu Hc. destruct (toy_best_wins _ _ _ Hin Hw) as (b & Hb & Hp). unfold toy_route.
  rewrite Hb, Hp. set (l := filter _ _). destruct (head l) as [r'|] eqn:Eh.
  - apply head_Some_elem, list_elem_of_filter in Eh as [[Hs' Hp'] [Hin' _]%elem_of_toy_candidates].
    by rewrite (Hu r'), Hc.
  - apply head_None_nil in Eh. assert (r ∈ l) as Hr; [|rewrite Eh in Hr; by inversion Hr].
    apply list_elem_of_filter. split; [done|]. apply elem_of_toy_candidates. by destruct Hw.
Qed.

Lemma toy_route_method E (rs : list (Route E)) m path r :
  r ∈ rs -> wins rs (rt_path r) path ->
  (forall r', r' ∈ rs -> rt_path r' = rt_path r -> serves (rt_method r') m = false) ->
  toy_route E rs m path = MethodNotAllowed.
Proof.
  intros Hin Hw Hn. destruct (toy_best_wins _ _ _ Hin Hw) as (b & Hb & Hp). unfold toy_route.
  rewrite Hb, Hp. case_match eqn:Eh; [|done].
  apply head_Some_elem, list_elem_of_filter in Eh as [[Hs' Hp'] [Hin' _]%elem_of_toy_candidates].
  rewrite (Hn _ Hin' Hp') in Hs'. done.
Qed.

Lemma toy_route_matched E (rs : list (Route E)) m path ep caps :
  toy_route E rs m path = Matched ep caps -> exists r, r ∈ rs /\ rt_endpoint r = ep /\
    serves (rt_method r) m = true /\ match_path (rt_path r) path = Some caps.
Proof.
  unfold toy_route. case_match; [|done]. case_match eqn:Eh; [|done]. intros [= <- <-].
  apply head_Some_elem, list_elem_of_filter in Eh as [[Hs' _] [Hin' [cs Hcs]]%elem_of_toy_candidates].
  eexists. split_and!; [done..|]. by rewrite Hcs.
Qed.

Lemma toy_route_none E (rs : list (Route E)) m path :
  (forall r, r ∈ rs -> match_path (rt_path r) path = None) -> toy_route E rs m path = NoRoute.
Proof.
  intros Hn. unfold toy_route. destruct (toy_best rs path) as [b|] eqn:Eb; [|done].
  apply toy_best_elem, elem_of_toy_candidates in Eb as [Hb [? Hm]]. by rewrite Hn in Hm.
Qed.

Definition text_value (s : string) : option string := if header_text s then Some s else None.

Fixpoint json_size (j : Json) : Z :=
  match j with
  | JStr s => Z.of_nat (String.length s)
  | JArr l => foldr (fun j acc => json_size j + acc) 0 l
  | JObj l => foldr (fun kv acc => json_size kv.2 + acc) 0 l
  | _ => 1
  end.

(** A body is a length and the JSON in it, if it is any. *)
Definition toy_json_extract (b : Z * option Json) : result Z Json :=
  if default_body_limit <? b.1 then Err 413 else ok_or 415 b.2.

Definition toy_axum : Axum.
Proof.
  refine {| HeaderValue := string; to_str := text_value; from_str := text_value;
    HeaderMap := list (string * string); no_headers := [];
    hm_get := fun k m => snd <$> head (filter (fun e => e.1 = k) m);
    hm_insert := fun k v m => (k, v) :: filter (fun e => e.1 <> k) m;
    Body := Z * option Json; json_body := fun j => (json_size j, Some j); no_body := (0, None);
    body_len := fst; json_extract := toy_json_extract; percent_decode := Some;
    route := toy_route; route_found := toy_route_found; route_method := toy_route_method;
    route_matched := toy_route_matched; route_none := toy_route_none |}; unfold text_value.
  - intros v s. case_match; by intros; simplify_eq.
  - intros s Hs. exists s. by rewrite Hs.
  - intros k v m. rewrite filter_cons_True; done.
  - intros j _ Hl. unfold toy_json_extract. simpl in *. by rewrite (proj2 (Z.ltb_ge _ _) Hl).
  - intros j j' _. unfold toy_json_extract. simpl. case_match; by intros; simplify_eq.
  - intros [n [j|]] e; unfold toy_json_extract; simpl; case_match; intros; simplify_eq/=; lia.
  - done.
Defined.

Fixpoint strip_prefix (pre s : string) : option string :=
  match pre, s with
  | EmptyString, _ => Some s
  | String a pre', String b s' => if decide (a = b) then strip_prefix pre' s' else None
  | _, _ => None
  end.

Lemma strip_prefix_app pre s : strip_prefix pre (pre +:+ s) = Some s.
Proof.
  induction pre as [|c pre IH]; [done|]. simpl. unfold String.app. simpl. rewrite decide_True by done. apply IH.
Qed.

Definition toy_reqwest : Reqwest.
Proof.
  refine {| is_origin := fun s => bool_decide (s = "http://cp");
    deliver := fun url => pair "http://cp" <$> strip_prefix "http://cp" url |}.
  intros origin segs ->%bool_decide_eq_true_1 _ _. cbv zeta beta. by rewrite strip_prefix_app.
Defined.
