(* ===== verification/Telemetry.v ===== *)
(** * Tracing set-up and trace-context propagation

    Models [init_tracing] of [crates/telemetry/src/init.rs] and the way a span's
    context is meant to travel with a task: [grpc_execute] of the control plane
    injects it into the gRPC metadata through [MetadataInjector]
    ([services/control-plane/src/api/handlers.rs]), and [execute_task] of the edge
    node extracts it through [MetadataExtractor]
    ([services/edge-node/src/server/grpc.rs]). The OpenTelemetry crates and tonic's
    metadata are interfaces. *)

From Stdlib Require Import Ascii.
From S2P Require Import Prelude RustStd RustText Config Http.

(** ** Interfaces *)

(** [tonic::metadata]: keys and values that parse, insertion and lookup. *)
Class TonicMetadata := {
  MetadataKey : Type;
  MetadataValue : Type;
  MetadataMap : Type;
  empty_metadata : MetadataMap;
  parse_key : string -> option MetadataKey;
  parse_value : string -> option MetadataValue;
  mv_to_str : MetadataValue -> option string;
  md_insert : MetadataKey -> MetadataValue -> MetadataMap -> MetadataMap;
  md_get : string -> MetadataMap -> option MetadataValue;
  md_get_empty : forall k, md_get k empty_metadata = None;
  md_get_insert : forall k k' v m, parse_key k = Some k' -> md_get k (md_insert k' v m) = Some v;
  md_get_insert_ne : forall k0 k k' v m, parse_key k = Some k' -> k0 <> k -> is_Some (parse_key k0) ->
    md_get k0 (md_insert k' v m) = md_get k0 m;
  parse_value_text : forall s, header_text s = true -> exists v, parse_value s = Some v /\ mv_to_str v = Some s
}.

(** The layers a subscriber is built from. *)
Inductive Layer (T : Type) := LEnvFilter (directive : string) | LJson | LOtel (tracer : option T).
Arguments LEnvFilter {T} directive.
Arguments LJson {T}.
Arguments LOtel {T} tracer.

(** The propagators the program uses: the default one does nothing. *)
Inductive Propagator := NoopPropagator | TraceContextPropagator.

(** [opentelemetry]: span contexts, what a propagator writes and reads, and the
    context a span has under given layers. The W3C propagator writes distinct
    keys and printable values for a valid context and nothing for an invalid one,
    and reads back what it wrote; spans that no tracer follows have no context. *)
Class Otel := {
  SpanContext : Type;
  invalid_context : SpanContext;
  Tracer : Type;
  inject_context : Propagator -> SpanContext -> list (string * string);
  extract : Propagator -> (string -> option string) -> SpanContext;
  span_context : list (Layer Tracer) -> SpanContext;
  inject_noop : forall c, inject_context NoopPropagator c = [];
  extract_noop : forall g, extract NoopPropagator g = invalid_context;
  inject_invalid : inject_context TraceContextPropagator invalid_context = [];
  extract_nothing : forall g, (forall k, g k = None) -> extract TraceContextPropagator g = invalid_context;
  inject_keys : forall c, NoDup (inject_context TraceContextPropagator c).*1 /\
    Forall (fun kv => (kv.1 = "traceparent" \/ kv.1 = "tracestate") /\ header_text kv.2 = true)
      (inject_context TraceContextPropagator c);
  extract_inject : forall c g,
    (forall k v, (k, v) ∈ inject_context TraceContextPropagator c -> g k = Some v) ->
    (forall k, k = "traceparent" \/ k = "tracestate" -> k ∉ (inject_context TraceContextPropagator c).*1 -> g k = None) ->
    extract TraceContextPropagator g = c;
  span_context_untraced : forall ls, (forall t, LOtel (Some t) ∉ ls) -> span_context ls = invalid_context
}.

(** ** [init_tracing] *)
Section telemetry.
Context `{!TonicMetadata} `{!Otel}.

(** The process-wide state the crates keep. *)
Record GlobalTracing := {
  subscriber : option (list (Layer Tracer));
  propagator : Propagator;
  exporter : option Tracer
}.

Definition fresh_process : GlobalTracing :=
  {| subscriber := None; propagator := NoopPropagator; exporter := None |}.

(** [try_init]: only the first subscriber stays. *)
Definition try_init (ls : list (Layer Tracer)) (g : GlobalTracing) : GlobalTracing :=
  {| subscriber := Some (default ls (subscriber g)); propagator := propagator g; exporter := exporter g |}.

(** [filter] is the directive of [EnvFilter], and [install] the outcome of
    [install_batch] for the endpoint it is given. *)
Definition init_tracing (filter : string) (env : Env) (install : string -> result string Tracer) (mode : TracingMode)
    (g : GlobalTracing) : GlobalTracing :=
  match mode with
  | Console => try_init [LEnvFilter filter; LJson] g
  | Otlp =>
      match install (setting env "OTEL_EXPORTER_OTLP_ENDPOINT" "http://localhost:4317") with
      | Ok tracer =>
          try_init [LEnvFilter filter; LJson; LOtel None]
            {| subscriber := subscriber g; propagator := TraceContextPropagator; exporter := Some tracer |}
      | Err _ => try_init [LEnvFilter filter; LJson] g
      end
  end.

(** What both [main]s do: the mode comes from the environment. *)
Definition start_tracing (filter : string) (env : Env) (install : string -> result string Tracer) (g : GlobalTracing)
    : GlobalTracing :=
  init_tracing filter env install (tracing_mode_from_env env) g.

(** ** Carriers *)

(** [MetadataInjector::set]. *)
Definition MetadataInjector_set (key value : string) (m : MetadataMap) : MetadataMap :=
  match parse_key key, parse_value value with
  | Some k, Some v => md_insert k v m
  | _, _ => m
  end.

(** [MetadataExtractor::get] and [keys]. *)
Definition MetadataExtractor_get (m : MetadataMap) (key : string) : option string :=
  v ← md_get key m; mv_to_str v.
Definition MetadataExtractor_keys (m : MetadataMap) : list string := [].

(** The metadata [grpc_execute] sends. *)
Definition injected_metadata (g : GlobalTracing) : MetadataMap :=
  let cx := span_context (default [] (subscriber g)) in
  foldl (fun m kv => MetadataInjector_set kv.1 kv.2 m) empty_metadata (inject_context (propagator g) cx).

(** The parent context [execute_task] extracts. *)
Definition extracted_parent (g : GlobalTracing) (m : MetadataMap) : SpanContext :=
  extract (propagator g) (MetadataExtractor_get m).

End telemetry.

(** ** Lemmas *)
Section telemetry_lemmas.
Context `{!TonicMetadata} `{!Otel}.

Lemma injector_set_get k v m :
  is_Some (parse_key k) -> header_text v = true ->
  MetadataExtractor_get (MetadataInjector_set k v m) k = Some v.
Proof.
  intros [k' Hk] Hv. destruct (parse_value_text v Hv) as (v' & Hp & Hs).
  unfold MetadataExtractor_get, MetadataInjector_set. rewrite Hk, Hp, (md_get_insert k k' v' m Hk). done.
Qed.

Lemma injector_set_get_ne k0 k v m :
  k0 <> k -> is_Some (parse_key k0) ->
  MetadataExtractor_get (MetadataInjector_set k v m) k0 = MetadataExtractor_get m k0.
Proof.
  intros Hne Hk0. unfold MetadataExtractor_get, MetadataInjector_set.
  destruct (parse_key k) as [k'|] eqn:Hk; [|done]. destruct (parse_value v); [|done].
  by rewrite (md_get_insert_ne k0 k k').
Qed.

(** Injecting pairs with distinct keys makes exactly them readable. *)
Lemma inject_all_get kvs m k0 :
  NoDup kvs.*1 -> Forall (fun kv => is_Some (parse_key kv.1) /\ header_text kv.2 = true) kvs ->
  is_Some (parse_key k0) ->
  (forall v, (k0, v) ∈ kvs ->
     MetadataExtractor_get (foldl (fun m kv => MetadataInjector_set kv.1 kv.2 m) m kvs) k0 = Some v) /\
  (k0 ∉ kvs.*1 ->
     MetadataExtractor_get (foldl (fun m kv => MetadataInjector_set kv.1 kv.2 m) m kvs) k0 = MetadataExtractor_get m k0).
Proof.
  intros Hnd Hall Hk0. revert m. induction kvs as [|[k v] kvs IH]; intros m; simpl.
  - split; [by intros ? ?%not_elem_of_nil|done].
  - apply NoDup_cons in Hnd as [Hk Hnd]. apply Forall_cons_iff in Hall as [[Hp Hv] Hall]. simpl in *.
    destruct (IH Hnd Hall (MetadataInjector_set k v m)) as [IH1 IH2]. split.
    + intros v' [[= <- <-]|Hin]%elem_of_cons; [|by apply IH1]. rewrite IH2 by done. by apply injector_set_get.
    + intros [Hne Hnin]%not_elem_of_cons. rewrite IH2 by done. by apply injector_set_get_ne.
Qed.

(** The layers a process ends up with never include one with a tracer. *)
Definition untraced (g : GlobalTracing) : Prop :=
  forall ls t, subscriber g = Some ls -> LOtel (Some t) ∉ ls.

Lemma init_tracing_untraced filter env install mode g :
  untraced g -> untraced (init_tracing filter env install mode g).
Proof.
  intros Hg ls t. unfold init_tracing. destruct mode; [|destruct (install _)]; simpl; intros [= <-];
    (destruct (subscriber g) as [ls'|] eqn:E; simpl; [by apply (Hg ls')|]); by rewrite !elem_of_cons, elem_of_nil; naive_solver.
Qed.

Lemma untraced_context g : untraced g -> span_context (default [] (subscriber g)) = invalid_context.
Proof.
  intros Hg. apply span_context_untraced. intros t. destruct (subscriber g) as [ls|] eqn:E; simpl.
  - by apply Hg.
  - apply not_elem_of_nil.
Qed.

End telemetry_lemmas.

(** ** Instances, used only to evaluate examples *)

Definition toy_metadata : TonicMetadata.
Proof.
  refine {| MetadataKey := string; MetadataValue := string; MetadataMap := gmap string string;
    empty_metadata := ∅; parse_key := Some; parse_value := text_value; mv_to_str := Some;
    md_insert := fun k v m => <[k := v]> m; md_get := fun k m => m !! k |}.
  - intros k. apply lookup_empty.
  - intros k k' v m [= ->]. apply lookup_insert_eq.
  - intros k0 k k' v m [= ->] Hne _. by apply lookup_insert_ne.
  - intros s Hs. exists s. unfold text_value. by rewrite Hs.
Defined.

(** Contexts: none, or the one span there is. *)
Definition toy_inject (p : Propagator) (c : bool) : list (string * string) :=
  match p, c with TraceContextPropagator, true => [("traceparent", "00-1")] | _, _ => [] end.
Definition toy_extract (p : Propagator) (g : string -> option string) : bool :=
  match p with NoopPropagator => false | TraceContextPropagator => bool_decide (g "traceparent" = Some "00-1") end.
Definition toy_span_context (ls : list (Layer unit)) : bool :=
  existsb (fun l => match l with LOtel (Some _) => true | _ => false end) ls.

Definition toy_otel : Otel.
Proof.
  refine {| SpanContext := bool; invalid_context := false; Tracer := unit; inject_context := toy_inject;
    extract := toy_extract; span_context := toy_span_context |}; try done.
  - intros g Hg. simpl. by rewrite Hg.
  - intros [|]; simpl; [|by repeat constructor]. split; [apply NoDup_singleton|]. repeat constructor.
  - intros [|] g H1 H2; simpl in *.
    + apply bool_decide_eq_true. apply H1. by left.
    + apply bool_decide_eq_false. rewrite H2; [done|by left|apply not_elem_of_nil].
  - intros ls Hls. unfold toy_span_context. apply not_true_iff_false. intros (l & Hl & Hx)%existsb_exists.
    destruct l as [| |[[]|]]; try done. apply (Hls ()). by apply list_elem_of_In.
Defined.

(** A process with a tracer, for evaluations. *)
Definition demo_process : @GlobalTracing toy_otel :=
  {| subscriber := Some ([LJson; LOtel (Some tt)] : list (Layer (@Tracer toy_otel)));
     propagator := TraceContextPropagator; exporter := None |}.

(** ** Properties *)

(** The carriers work. When both processes have the W3C propagator installed,
    the parent context the edge node extracts from the gRPC metadata is exactly
    the context of the control plane's span. *)
Theorem trace_context_roundtrip `{!TonicMetadata} `{!Otel} g1 g2 :
  is_Some (parse_key "traceparent") -> is_Some (parse_key "tracestate") ->
  propagator g1 = TraceContextPropagator -> propagator g2 = TraceContextPropagator ->
  extracted_parent g2 (injected_metadata g1) = span_context (default [] (subscriber g1)).
Proof.
  intros Htp Hts H1 H2. unfold extracted_parent, injected_metadata. rewrite H1, H2.
  set (c := span_context _). destruct (inject_keys c) as [Hnd Hall].
  assert (Forall (fun kv => is_Some (parse_key kv.1) /\ header_text kv.2 = true) (inject_context TraceContextPropagator c))
    as Hall' by (eapply Forall_impl; [exact Hall|]; intros [k v] [[-> | ->] ?]; done).
  assert (forall k, MetadataExtractor_get empty_metadata k = None) as Hempty
    by (intros k; unfold MetadataExtractor_get; by rewrite md_get_empty).
  apply extract_inject.
  - intros k v Hin. apply (inject_all_get _ _ k Hnd Hall'); [|done].
    rewrite Forall_forall in Hall'. by apply (Hall' (k, v)).
  - intros k Hk Hnin. rewrite <- (Hempty k). apply inject_all_get; [done..| |done]. by destruct Hk as [-> | ->].
Qed.

Lemma trace_context_roundtrip_witness :
  @extracted_parent toy_metadata toy_otel demo_process (@injected_metadata toy_metadata toy_otel demo_process) = true.
Proof.
  exact (@trace_context_roundtrip toy_metadata toy_otel demo_process demo_process
    (ex_intro _ _ eq_refl) (ex_intro _ _ eq_refl) eq_refl eq_refl).
Defined.

(** C40. But no context ever travels. However often the two services initialise
    tracing, in whatever environment and with the collector reachable or not, the
    edge node extracts the invalid context from what the control plane injects:
    the OpenTelemetry layer is installed without the tracer the pipeline
    returned, so the spans have no context. The first subscriber stays, as the
    documentation promises, and initialisation cannot fail. *)
Theorem tracing_never_connected `{!TonicMetadata} `{!Otel}
    (starts1 starts2 : list (string * Env * (string -> result string Tracer))) :
  let start g i := start_tracing i.1.1 i.1.2 i.2 g in
  let run := foldl start fresh_process in
  extracted_parent (run starts2) (injected_metadata (run starts1)) = invalid_context /\
  (forall i g, is_Some (subscriber g) -> subscriber (start g i) = subscriber g) /\
  (forall i starts, is_Some (subscriber (run (i :: starts)))).
Proof.
  intros start run.
  assert (forall l g, untraced g -> untraced (foldl start g l)) as Hun.
  { induction l as [|i l IH]; intros g Hg; [done|]. simpl. by apply IH, init_tracing_untraced. }
  assert (forall i g, is_Some (subscriber g) -> subscriber (start g i) = subscriber g) as Hkeep.
  { intros i g [ls Hls]. unfold start, start_tracing, init_tracing. repeat case_match; simpl; by rewrite Hls. }
  split_and!.
  - unfold injected_metadata. rewrite untraced_context by (by apply Hun). unfold extracted_parent.
    assert (foldl (fun m kv => MetadataInjector_set kv.1 kv.2 m) empty_metadata
      (inject_context (propagator (run starts1)) invalid_context) = empty_metadata) as ->.
    { destruct (propagator (run starts1)); by rewrite ?inject_noop, ?inject_invalid. }
    destruct (propagator (run starts2)); [apply extract_noop|]. apply extract_nothing. intros k.
    unfold MetadataExtractor_get. by rewrite md_get_empty.
  - exact Hkeep.
  - intros i starts. unfold run. simpl.
    assert (forall l g, is_Some (subscriber g) -> is_Some (subscriber (foldl start g l))) as Hs.
    { induction l as [|j l IH]; intros g Hg; [done|]. simpl. apply IH. by rewrite Hkeep. }
    apply Hs. unfold start, start_tracing, init_tracing. repeat case_match; by eexists.
Qed.
