(* ===== verification/CircuitBreaker.v ===== *)
(** * Per-node circuit breaker

    Models [services/control-plane/src/circuit_breaker.rs]: the three-state
    breaker record, its operations with the clock reading passed in, and what
    an arbitrary history of operations makes of a fresh breaker. *)

From S2P Require Import Prelude RustStd.

(** ** Data *)
Inductive CircuitState := Closed | Open | HalfOpen.

#[export] Instance CircuitState_eq_dec : EqDecision CircuitState.
Proof. solve_decision. Defined.

Record CircuitBreaker := {
  state : CircuitState;
  failure_count : Z;
  failure_threshold : Z;
  last_failure : option Instant;
  cooldown : Duration
}.

Definition default_breaker : CircuitBreaker :=
  {| state := Closed; failure_count := 0; failure_threshold := 5;
     last_failure := None; cooldown := from_secs 30 |}.

Definition set_state (s : CircuitState) (cb : CircuitBreaker) : CircuitBreaker :=
  {| state := s; failure_count := failure_count cb;
     failure_threshold := failure_threshold cb;
     last_failure := last_failure cb; cooldown := cooldown cb |}.

(** ** Operations *)

(** Whether a request is let through, and the breaker after the check. *)
Definition allow_request (now : Instant) (cb : CircuitBreaker) : bool * CircuitBreaker :=
  match state cb with
  | Closed => (true, cb)
  | Open =>
      let el := match last_failure cb with Some t => elapsed now t | None => 0 end in
      if cooldown cb <=? el then (true, set_state HalfOpen cb) else (false, cb)
  | HalfOpen => (true, cb)
  end.

Definition record_success (cb : CircuitBreaker) : CircuitBreaker :=
  {| state := Closed; failure_count := 0;
     failure_threshold := failure_threshold cb;
     last_failure := last_failure cb; cooldown := cooldown cb |}.

Definition record_failure (now : Instant) (cb : CircuitBreaker) : CircuitBreaker :=
  let n := u32_add (failure_count cb) 1 in
  let s := match state cb with
           | Closed => if failure_threshold cb <=? n then Open else Closed
           | HalfOpen => Open
           | Open => Open
           end in
  {| state := s; failure_count := n;
     failure_threshold := failure_threshold cb;
     last_failure := Some now; cooldown := cooldown cb |}.

Definition state_name (cb : CircuitBreaker) : string :=
  match state cb with
  | Closed => "closed"
  | Open => "open"
  | HalfOpen => "half_open"
  end.

(** ** Histories of operations on one breaker *)
Inductive cb_op :=
| AllowRequest (now : Instant)
| RecordSuccess
| RecordFailure (now : Instant).

Definition cb_apply (cb : CircuitBreaker) (op : cb_op) : CircuitBreaker :=
  match op with
  | AllowRequest now => (allow_request now cb).2
  | RecordSuccess => record_success cb
  | RecordFailure now => record_failure now cb
  end.

Definition cb_run (ops : list cb_op) : CircuitBreaker := foldl cb_apply default_breaker ops.

(** Failures since the last success, counted without bound. *)
Definition streak_step (n : nat) (op : cb_op) : nat :=
  match op with
  | AllowRequest _ => n
  | RecordSuccess => 0
  | RecordFailure _ => S n
  end.
Definition failure_streak (ops : list cb_op) : nat := foldl streak_step 0%nat ops.

(** Clock reading of the most recent failure. *)
Definition last_fail_step (t : option Instant) (op : cb_op) : option Instant :=
  match op with RecordFailure now => Some now | _ => t end.
Definition last_fail_time (ops : list cb_op) : option Instant := foldl last_fail_step None ops.

(** Every clock reading in the history is at most [now]. *)
Definition op_before (now : Instant) (op : cb_op) : Prop :=
  match op with AllowRequest t | RecordFailure t => t <= now | RecordSuccess => True end.

(** The breaker a caller should see: after five failures in a row, and until
    thirty seconds have passed since the last one, requests are refused. *)
Definition spec_allows (ops : list cb_op) (now : Instant) : bool :=
  match last_fail_time ops with
  | Some t => negb ((5 <=? Z.of_nat (failure_streak ops)) && (elapsed now t <? from_secs 30))
  | None => true
  end.

(** The arrows of the state diagram, with the operation on each. *)
Inductive cb_edge : CircuitState -> cb_op -> CircuitState -> Prop :=
| edge_trip now : cb_edge Closed (RecordFailure now) Open
| edge_probe now : cb_edge Open (AllowRequest now) HalfOpen
| edge_recover : cb_edge HalfOpen RecordSuccess Closed
| edge_reopen now : cb_edge HalfOpen (RecordFailure now) Open
| edge_late_success : cb_edge Open RecordSuccess Closed
| edge_stay s op : cb_edge s op s.

(** ** Well-formed breakers *)
Record cb_wf (cb : CircuitBreaker) : Prop := {
  wf_threshold : failure_threshold cb = 5;
  wf_cooldown : cooldown cb = from_secs 30;
  wf_count : is_u32 (failure_count cb);
  wf_closed : state cb = Closed -> failure_count cb < 5;
  wf_tripped : state cb <> Closed -> is_Some (last_failure cb)
}.

(** ** Lemmas *)

Lemma default_breaker_wf : cb_wf default_breaker.
Proof. by constructor. Qed.

Lemma allow_request_wf now cb : cb_wf cb -> cb_wf (allow_request now cb).2.
Proof.
  intros Hwf. unfold allow_request. destruct (state cb) eqn:E; [done| |done].
  case_match; [|done]. destruct Hwf. constructor; simpl; try done.
  intros _. apply wf_tripped0. by rewrite E.
Qed.

Lemma record_success_wf cb : cb_wf cb -> cb_wf (record_success cb).
Proof. intros [? ? ? ? ?]. by constructor. Qed.

Lemma record_failure_wf now cb : cb_wf cb -> cb_wf (record_failure now cb).
Proof.
  intros [Hth ? Hc Hcl Ht]. constructor; simpl; auto with ferro.
  intros Hs. rewrite Hth in Hs. destruct (state cb) eqn:E; try done.
  specialize (Hcl eq_refl). destruct (Z.leb_spec 5 (u32_add (failure_count cb) 1)); [done|lia].
Qed.

#[export] Hint Resolve default_breaker_wf allow_request_wf record_success_wf record_failure_wf : ferro.

Lemma cb_apply_wf cb op : cb_wf cb -> cb_wf (cb_apply cb op).
Proof. destruct op; simpl; auto with ferro. Qed.

Lemma cb_run_snoc ops op : cb_run (ops ++ [op]) = cb_apply (cb_run ops) op.
Proof. unfold cb_run. by rewrite foldl_app. Qed.

Lemma failure_streak_snoc ops op : failure_streak (ops ++ [op]) = streak_step (failure_streak ops) op.
Proof. unfold failure_streak. by rewrite foldl_app. Qed.

Lemma last_fail_time_snoc ops op : last_fail_time (ops ++ [op]) = last_fail_step (last_fail_time ops) op.
Proof. unfold last_fail_time. by rewrite foldl_app. Qed.

Lemma cb_run_wf ops : cb_wf (cb_run ops).
Proof.
  induction ops as [|op ops IH] using rev_ind; [apply default_breaker_wf|].
  rewrite cb_run_snoc. by apply cb_apply_wf.
Qed.

(** The breaker's own record of the last failure is the history's. *)
Lemma cb_run_last_failure ops : last_failure (cb_run ops) = last_fail_time ops.
Proof.
  induction ops as [|op ops IH] using rev_ind; [done|].
  rewrite cb_run_snoc, last_fail_time_snoc, <- IH.
  destruct op; simpl; try done. unfold allow_request. by split_matches.
Qed.

(** While closed the counter is exactly the streak; once tripped the streak is
    at least five, whatever the 32-bit counter has wrapped to. *)
Lemma cb_run_streak ops :
  match state (cb_run ops) with
  | Closed => failure_count (cb_run ops) = Z.of_nat (failure_streak ops)
  | _ => (5 <= failure_streak ops)%nat
  end.
Proof.
  induction ops as [|op ops IH] using rev_ind; [done|].
  rewrite cb_run_snoc, failure_streak_snoc.
  pose proof (cb_run_wf ops) as [Hth _ Hc Hcl _]. revert IH Hth Hc Hcl.
  generalize (cb_run ops) as cb. intros cb IH Hth Hc Hcl.
  destruct op as [now| |now]; simpl; [|done|].
  - unfold allow_request. destruct (state cb) eqn:E; [by simpl; rewrite E| |by simpl; rewrite E].
    destruct (_ <=? _); simpl; by rewrite ?E.
  - rewrite Hth. destruct (state cb) eqn:E; try lia.
    specialize (Hcl eq_refl).
    rewrite u32_add_id by (unfold is_u32, u32_mod in *; lia).
    destruct (Z.leb_spec 5 (failure_count cb + 1)); lia.
Qed.

(** In the half-open state the cooldown is over for every later reading. *)
Lemma cb_run_half_open ops now :
  Forall (op_before now) ops -> state (cb_run ops) = HalfOpen ->
  exists t, last_failure (cb_run ops) = Some t /\ from_secs 30 <= elapsed now t.
Proof.
  induction ops as [|op ops IH] using rev_ind; [done|].
  rewrite Forall_app, Forall_singleton, cb_run_snoc. intros [Hb Hop] Hst.
  pose proof (cb_run_wf ops) as [_ Hcd _ _ Ht]. specialize (IH Hb).
  destruct op as [t| |t]; simpl in *; [|done|].
  - unfold allow_request in *. destruct (state (cb_run ops)) eqn:E.
    + simpl in Hst. congruence.
    + destruct Ht as [t0 Ht0]; [done|]. rewrite Ht0, Hcd in Hst. rewrite Ht0, Hcd.
      destruct (Z.leb_spec (from_secs 30) (elapsed t t0)) as [Hle|]; simpl in *; [|congruence].
      exists t0. split; [done|]. unfold elapsed in *. lia.
    + simpl. by apply IH.
  - split_matches.
Qed.

(** ** Properties *)

(** C25. For every history of checks, successes and failures, however long, the
    breaker is closed exactly when fewer than five failures have been recorded
    since the last success; the 32-bit failure counter's wrap-around never
    changes the state. *)
Theorem breaker_closed_iff_streak_short (ops : list cb_op) :
  state (cb_run ops) = Closed <-> (failure_streak ops < 5)%nat.
Proof.
  pose proof (cb_run_streak ops) as H. pose proof (cb_run_wf ops) as [_ _ _ Hcl _].
  destruct (state (cb_run ops)); split; intros; try done; try lia.
  specialize (Hcl eq_refl). lia.
Qed.

(** With a clock that never runs backwards, a request is refused exactly
    when the last five or more outcomes were failures and less than thirty
    seconds have passed since the last of them. *)
Theorem breaker_allow_spec (ops : list cb_op) (now : Instant) :
  Forall (op_before now) ops ->
  (allow_request now (cb_run ops)).1 = spec_allows ops now.
Proof.
  intros Hb. unfold allow_request, spec_allows.
  pose proof (cb_run_streak ops) as Hs. pose proof (cb_run_wf ops) as [_ Hcd _ Hcl Ht].
  pose proof (cb_run_half_open ops now Hb) as Hho.
  rewrite <- cb_run_last_failure. rewrite Hcd.
  destruct (state (cb_run ops)) eqn:E.
  - specialize (Hcl eq_refl). destruct (last_failure _); [|done].
    destruct (Z.leb_spec 5 (Z.of_nat (failure_streak ops))); [lia|done].
  - destruct Ht as [t ->]; [done|].
    destruct (Z.leb_spec 5 (Z.of_nat (failure_streak ops))); [|lia].
    destruct (Z.leb_spec (from_secs 30) (elapsed now t)),
      (Z.ltb_spec (elapsed now t) (from_secs 30)); simpl; done || lia.
  - destruct Hho as (t & -> & Hle); [done|].
    destruct (Z.ltb_spec (elapsed now t) (from_secs 30)); [lia|].
    by rewrite andb_false_r.
Qed.

Lemma breaker_allow_spec_witness :
  (allow_request 35000000000
     (cb_run [RecordFailure 1; RecordFailure 2; RecordFailure 3; RecordFailure 4; RecordFailure 5])).1
  = true
  /\ Forall (op_before 35000000000)
       [RecordFailure 1; RecordFailure 2; RecordFailure 3; RecordFailure 4; RecordFailure 5].
Proof.
  split.
  - rewrite breaker_allow_spec; [reflexivity|repeat constructor; simpl; lia].
  - repeat constructor; simpl; lia.
Defined.

(** Every operation moves a breaker along an arrow of the documented state
    diagram (or along the one the diagram omits, a success that arrives while
    the breaker is open); it never jumps from closed to half-open and never
    skips the cooldown check on the way to half-open. *)
Theorem breaker_moves_along_edges (cb : CircuitBreaker) (op : cb_op) :
  cb_edge (state cb) op (state (cb_apply cb op)) /\
  (forall now, op = AllowRequest now -> state cb = Open -> state (cb_apply cb op) = HalfOpen ->
     exists el, el = default 0 (elapsed now <$> last_failure cb) /\ cooldown cb <= el).
Proof.
  split.
  - destruct op as [now| |now]; simpl.
    + unfold allow_request. destruct (state cb) eqn:E; simpl; rewrite ?E; try constructor.
      case_match; simpl; rewrite ?E; constructor.
    + destruct (state cb); constructor.
    + destruct (state cb); try case_match; constructor.
  - intros now -> Ho. simpl. unfold allow_request. rewrite Ho.
    destruct (last_failure cb) as [t|]; simpl;
      destruct (Z.leb_spec (cooldown cb) (elapsed now t)) ||
      destruct (Z.leb_spec (cooldown cb) 0);
      simpl; try congruence; eauto.
Qed.

(** A half-open breaker lets through any number of requests: checking does
    not consume the probe, so [n] checks in a row all pass and leave the
    breaker half-open until an outcome is recorded. *)
Theorem half_open_admits_any_number (cb : CircuitBreaker) (times : list Instant) :
  state cb = HalfOpen ->
  foldl cb_apply cb (AllowRequest <$> times) = cb /\
  Forall (fun now => (allow_request now cb).1 = true) times.
Proof.
  intros Hs. split.
  - induction times as [|t ts IH]; [done|]. simpl. unfold allow_request.
    rewrite Hs. exact IH.
  - apply Forall_true. intros t. unfold allow_request. by rewrite Hs.
Qed.

Lemma half_open_admits_any_number_witness :
  Forall (fun now => (allow_request now (set_state HalfOpen default_breaker)).1 = true) [1; 2; 3].
Proof.
  exact (proj2 (half_open_admits_any_number (set_state HalfOpen default_breaker) [1; 2; 3] eq_refl)).
Defined.
