(* ===== verification/Scheduler.v ===== *)
(** * Node selection

    Models [services/control-plane/src/scheduler]: the [Scheduler] trait with
    its round-robin implementation, the stateless round-robin helpers and the
    least-loaded strategy. A [HashMap]'s iteration order is an argument, and so
    is the sub-second clock reading the least-loaded tie-break uses. Indexing a
    vector out of range (a panic in the source) would show as [None]; the
    soundness and completeness laws below rule it out. *)

From S2P Require Import Prelude RustStd Common.

(** ** Operations *)

(** [v[index % v.len()]]. *)
Definition rr_index (v : list NodeInfo) (index : Z) : option NodeInfo :=
  v !! Z.to_nat (index mod Z.of_nat (length v)).

(** scheduler/mod.rs: the trait. The source passes [nodes] and [index] by
    mutable reference; both come back with the outcome. *)
Class Scheduler (S : Type) := {
  next_node : S -> HashOrder -> gmap string NodeInfo -> Z ->
              option (result EdgeError NodeInfo) * gmap string NodeInfo * Z
}.

(** scheduler/round_robin.rs *)
Inductive RoundRobinScheduler := MkRoundRobinScheduler.

Definition rr_next_node (_ : RoundRobinScheduler) (ord : HashOrder)
    (nodes : gmap string NodeInfo) (index : Z)
    : option (result EdgeError NodeInfo) * gmap string NodeInfo * Z :=
  let hs := filter (fun n => healthy n = true) (hash_values ord nodes) in
  match hs with
  | [] => (Some (Err (NodeUnavailable "no healthy nodes registered")), nodes, index)
  | _ => (Ok <$> rr_index hs index, nodes, usize_add index 1)
  end.

#[export] Instance round_robin_scheduler : Scheduler RoundRobinScheduler :=
  {| next_node := rr_next_node |}.

Definition select_node (ord : HashOrder) (nodes : gmap string NodeInfo) (index : Z)
    : option NodeInfo * Z :=
  let hs := filter (fun n => healthy n = true) (hash_values ord nodes) in
  match hs with
  | [] => (None, index)
  | _ => (rr_index hs index, usize_add index 1)
  end.

Definition rr_candidates (ord : HashOrder) (nodes : gmap string NodeInfo)
    (exclude : gset string) : list NodeInfo :=
  filter (fun n => healthy n = true /\ id n ∉ exclude) (hash_values ord nodes).

Definition select_node_excluded (ord : HashOrder) (nodes : gmap string NodeInfo)
    (index : Z) (exclude : gset string) : option NodeInfo * Z :=
  let candidates := rr_candidates ord nodes exclude in
  match candidates with
  | [] => (None, index)
  | _ => (rr_index candidates index, usize_add index 1)
  end.

(** The eligible, non-excluded nodes the least-loaded strategy starts from. *)
Definition ll_available (ord : HashOrder) (nodes : gmap string NodeInfo)
    (exclude : gset string) : list NodeInfo :=
  filter (fun n => healthy n = true /\ active_tasks n < max_concurrent_tasks n /\ id n ∉ exclude)
    (hash_values ord nodes).

(** scheduler/least_loaded.rs; [seed] is [subsec_nanos()]. *)
Definition select_least_loaded (ord : HashOrder) (nodes : gmap string NodeInfo)
    (exclude : gset string) (seed : Z) : option NodeInfo :=
  let available := ll_available ord nodes exclude in
  match available with
  | [] => None
  | _ =>
      min_tasks ← (list_min (active_tasks <$> available));
      let tied := filter (fun n => active_tasks n = min_tasks) available in
      if decide (length tied = 1%nat) then tied !! 0%nat
      else tied !! Z.to_nat (seed mod Z.of_nat (length tied))
  end.

(** ** What the dispatcher relies on

    A selection function only hands out registered nodes that are eligible and
    not excluded, and finds one whenever there is one. *)
Class SelectPolicy (eligible : NodeInfo -> Prop)
    (sel : gmap string NodeInfo -> gset string -> option NodeInfo) : Prop := {
  sel_sound : forall nodes exclude n, sel nodes exclude = Some n ->
    (exists k, nodes !! k = Some n) /\ eligible n /\ id n ∉ exclude;
  sel_complete : forall nodes exclude, sel nodes exclude = None ->
    forall k n, nodes !! k = Some n -> eligible n -> id n ∈ exclude
}.

Definition rr_eligible (n : NodeInfo) : Prop := healthy n = true.
Definition ll_eligible (n : NodeInfo) : Prop :=
  healthy n = true /\ active_tasks n < max_concurrent_tasks n.

(** Consecutive round-robin selections on an unchanged node map. *)
Fixpoint rr_picks (k : nat) (ord : HashOrder) (nodes : gmap string NodeInfo)
    (index : Z) (exclude : gset string) : list (option NodeInfo) :=
  match k with
  | O => []
  | S k' => let '(n, index') := select_node_excluded ord nodes index exclude in
            n :: rr_picks k' ord nodes index' exclude
  end.

(** Two nodes for concrete evaluations. *)
Definition demo_node (i : string) (load : Z) : NodeInfo :=
  {| id := i; address := "http://" +:+ i; http_address := "http://" +:+ i;
     active_tasks := load; healthy := true; max_concurrent_tasks := 10 |}.
Definition demo_nodes : gmap string NodeInfo :=
  <["n1" := demo_node "n1" 3]> (<["n2" := demo_node "n2" 1]> ∅).

(** ** Lemmas *)

Lemma rr_index_Some v i : v <> [] -> 0 <= i -> exists n, rr_index v i = Some n /\ n ∈ v.
Proof.
  intros Hv Hi. unfold rr_index.
  assert (0 < Z.of_nat (length v)) by (destruct v; [done|simpl; lia]).
  assert (Z.to_nat (i mod Z.of_nat (length v)) < length v)%nat as Hlt.
  { pose proof (Z.mod_pos_bound i (Z.of_nat (length v))). lia. }
  apply lookup_lt_is_Some in Hlt as [n Hn]. exists n. split; [done|].
  by eapply list_elem_of_lookup_2.
Qed.

Lemma elem_of_rr_candidates ord nodes exclude n :
  n ∈ rr_candidates ord nodes exclude <->
  (exists k, nodes !! k = Some n) /\ rr_eligible n /\ id n ∉ exclude.
Proof.
  unfold rr_candidates. rewrite list_elem_of_filter, elem_of_hash_values.
  unfold rr_eligible. tauto.
Qed.

Lemma select_node_excluded_eq ord nodes index exclude :
  0 <= index -> rr_candidates ord nodes exclude <> [] ->
  select_node_excluded ord nodes index exclude =
    (rr_index (rr_candidates ord nodes exclude) index, usize_add index 1).
Proof. unfold select_node_excluded. by destruct (rr_candidates _ _ _). Qed.

#[export] Instance round_robin_policy ord index :
  0 <= index ->
  SelectPolicy rr_eligible (fun nodes ex => (select_node_excluded ord nodes index ex).1).
Proof.
  intros Hi. split.
  - intros nodes ex n. unfold select_node_excluded.
    destruct (rr_candidates ord nodes ex) as [|x l] eqn:E; [done|]. simpl. intros Hn.
    apply (elem_of_rr_candidates ord). rewrite E. unfold rr_index in Hn. by eapply list_elem_of_lookup_2.
  - intros nodes ex Hnone k n Hk He. apply dec_stable. intros Hex.
    assert (n ∈ rr_candidates ord nodes ex) as Hin by (apply elem_of_rr_candidates; eauto).
    assert (rr_candidates ord nodes ex <> []) as Hne by (intros Hnil; rewrite Hnil in Hin; by inversion Hin).
    rewrite select_node_excluded_eq in Hnone by done. simpl in Hnone.
    destruct (rr_index_Some _ index Hne Hi) as (? & ? & _). congruence.
Qed.

Lemma length_rr_picks k ord nodes index exclude :
  length (rr_picks k ord nodes index exclude) = k.
Proof.
  revert index. induction k as [|k IH]; intros index; simpl; [done|].
  destruct (select_node_excluded _ _ _ _). simpl. by rewrite IH.
Qed.

Lemma lookup_rr_picks ord nodes exclude k index j :
  0 <= index -> rr_candidates ord nodes exclude <> [] -> index + Z.of_nat k <= u64_mod ->
  (j < k)%nat ->
  rr_picks k ord nodes index exclude !! j =
    Some (rr_index (rr_candidates ord nodes exclude) (index + Z.of_nat j)).
Proof.
  revert index j. induction k as [|k IH]; intros index j Hi Hne Hov Hj; [lia|].
  simpl. rewrite select_node_excluded_eq by done. destruct j as [|j]; simpl.
  - by rewrite Z.add_0_r.
  - destruct k as [|k]; [lia|].
    rewrite usize_add_id by lia. rewrite IH by (done || lia). do 2 f_equal. lia.
Qed.

(** One full turn of the cursor visits the candidates in rotated order. *)
Lemma rr_picks_turn ord nodes index exclude :
  let c := rr_candidates ord nodes exclude in
  0 <= index -> index + Z.of_nat (length c) <= u64_mod ->
  rr_picks (length c) ord nodes index exclude =
    Some <$> rotate (Z.to_nat (index mod Z.of_nat (length c))) c.
Proof.
  intros c Hi Hov. destruct (decide (c = [])) as [Hc|Hne].
  { rewrite Hc. unfold rotate. by rewrite drop_nil, take_nil. }
  apply list_eq_same_length with (length c);
    [by rewrite length_fmap, length_rotate|by rewrite length_rr_picks|].
  intros j x y Hj. rewrite lookup_rr_picks by done. fold c.
  rewrite list_lookup_fmap, lookup_rotate_r by done. unfold rr_index.
  assert (Z.to_nat ((index + Z.of_nat j) mod Z.of_nat (length c)) =
    rotate_nat_add (Z.to_nat (index mod Z.of_nat (length c))) j (length c)) as ->.
  { unfold rotate_nat_add. f_equal.
    rewrite Z2Nat.id by (apply Z.mod_pos_bound; lia).
    by rewrite Zplus_mod_idemp_l. }
  destruct (c !! _); simpl; intros; simplify_eq. done.
Qed.

Lemma rr_picks_app a b ord nodes index exclude :
  0 <= index -> index + Z.of_nat a < u64_mod -> rr_candidates ord nodes exclude <> [] ->
  rr_picks (a + b) ord nodes index exclude =
    rr_picks a ord nodes index exclude ++ rr_picks b ord nodes (index + Z.of_nat a) exclude.
Proof.
  revert index. induction a as [|a IH]; intros index Hi Hov Hne; simpl.
  - by rewrite Z.add_0_r.
  - rewrite select_node_excluded_eq by done. simpl. f_equal.
    rewrite usize_add_id by lia. rewrite IH by (done || lia). do 2 f_equal. lia.
Qed.

Lemma rotate_perm {A} (n : nat) (l : list A) : rotate n l ≡ₚ l.
Proof. unfold rotate. rewrite Permutation_app_comm. by rewrite take_drop. Qed.

Lemma elem_of_ll_available ord nodes exclude n :
  n ∈ ll_available ord nodes exclude <->
  (exists k, nodes !! k = Some n) /\ ll_eligible n /\ id n ∉ exclude.
Proof.
  unfold ll_available. rewrite list_elem_of_filter, elem_of_hash_values.
  unfold ll_eligible. tauto.
Qed.

(** The tied nodes of minimal load form a non-empty list and the seed indexes it. *)
Lemma select_least_loaded_tied ord nodes exclude seed :
  0 <= seed -> ll_available ord nodes exclude <> [] ->
  exists m tied, list_min (active_tasks <$> ll_available ord nodes exclude) = Some m /\
    tied = filter (fun n => active_tasks n = m) (ll_available ord nodes exclude) /\
    (0 < length tied)%nat /\
    select_least_loaded ord nodes exclude seed =
      tied !! Z.to_nat (seed mod Z.of_nat (length tied)).
Proof.
  intros Hs Hne. unfold select_least_loaded.
  destruct (list_min_Some (active_tasks <$> ll_available ord nodes exclude)) as [m Hm].
  { intros ?%fmap_nil_inv. done. }
  exists m, (filter (fun n => active_tasks n = m) (ll_available ord nodes exclude)).
  split; [done|]. split; [done|].
  assert (0 < length (filter (fun n => active_tasks n = m) (ll_available ord nodes exclude)))%nat as Hlen.
  { apply list_min_in in Hm as Hin. apply list_elem_of_fmap in Hin as (n & -> & Hn).
    assert (n ∈ filter (fun n0 => active_tasks n0 = active_tasks n) (ll_available ord nodes exclude)) as Hf
      by by apply list_elem_of_filter.
    destruct (filter _ _); [by inversion Hf|simpl; lia]. }
  split; [done|].
  destruct (ll_available ord nodes exclude) as [|x l] eqn:E; [done|]. rewrite <- E in *.
  rewrite Hm. simpl. case_decide as H1; [|done].
  rewrite H1. change (Z.of_nat 1) with 1. by rewrite Z.mod_1_r.
Qed.

(** Every pick of the least-loaded strategy is an eligible node of least load. *)
Lemma select_least_loaded_Some ord nodes exclude seed n :
  0 <= seed -> select_least_loaded ord nodes exclude seed = Some n ->
  n ∈ ll_available ord nodes exclude /\
  forall n', n' ∈ ll_available ord nodes exclude -> active_tasks n <= active_tasks n'.
Proof.
  intros Hs Hsel.
  destruct (decide (ll_available ord nodes exclude = [])) as [Hnil|Hne].
  { unfold select_least_loaded in Hsel.
    by rewrite Hnil in Hsel. }
  destruct (select_least_loaded_tied ord nodes exclude seed) as (m & tied & Hm & -> & _ & He); try done.
  rewrite He in Hsel. apply list_elem_of_lookup_2, list_elem_of_filter in Hsel as [<- Hin].
  split; [done|]. intros n' Hn'. eapply list_min_le; [done|].
  by apply list_elem_of_fmap_2.
Qed.

Lemma select_least_loaded_None ord nodes exclude seed :
  0 <= seed ->
  select_least_loaded ord nodes exclude seed = None <-> ll_available ord nodes exclude = [].
Proof.
  intros Hs. split.
  - intros Hnone. apply dec_stable. intros Hne.
    destruct (select_least_loaded_tied ord nodes exclude seed) as (m & tied & _ & -> & Hlen & He); try done.
    rewrite He in Hnone. apply lookup_ge_None in Hnone.
    revert Hnone Hlen. generalize (length (filter (fun n => active_tasks n = m) (ll_available ord nodes exclude))).
    intros len Hge Hlen. pose proof (Z.mod_pos_bound seed (Z.of_nat len)). lia.
  - intros Hnil. unfold select_least_loaded. by rewrite Hnil.
Qed.

#[export] Instance least_loaded_policy ord seed :
  0 <= seed -> SelectPolicy ll_eligible (fun nodes ex => select_least_loaded ord nodes ex seed).
Proof.
  intros Hs. split.
  - intros nodes ex n Hsel. apply select_least_loaded_Some in Hsel as [Hin _]; [|done].
    by apply elem_of_ll_available in Hin.
  - intros nodes ex Hnone k n Hk He. apply dec_stable. intros Hex.
    apply select_least_loaded_None in Hnone; [|done].
    assert (n ∈ ll_available ord nodes ex) as Hin by (apply elem_of_ll_available; eauto).
    rewrite Hnone in Hin. by inversion Hin.
Qed.

(** ** Properties *)

(** C26. Round robin is fair: while the node map and the exclusions do not
    change and the 64-bit cursor does not wrap, [m] full turns of the cursor
    hand out every healthy, non-excluded node exactly [m] times. *)
Theorem round_robin_fair (m : nat) ord nodes index exclude :
  let c := rr_candidates ord nodes exclude in
  0 <= index -> index + Z.of_nat (m * length c) < u64_mod ->
  rr_picks (m * length c) ord nodes index exclude ≡ₚ Some <$> concat (replicate m c).
Proof.
  intros c. revert index. induction m as [|m IH]; intros index Hi Hov; [done|].
  simpl in *. destruct (decide (c = [])) as [Hc|Hne].
  { assert (forall k i, k = 0%nat -> rr_picks k ord nodes i exclude = []) as Hz by (intros ? ? ->; done).
    rewrite Hz by (rewrite Hc; simpl; lia). rewrite Hc.
    clear. induction m; done. }
  rewrite rr_picks_app by (done || lia). rewrite fmap_app. f_equiv.
  - subst c. rewrite rr_picks_turn by (done || lia). by rewrite rotate_perm.
  - apply IH; lia.
Qed.

Lemma round_robin_fair_witness :
  length (rr_candidates std_order demo_nodes ∅) = 2%nat /\
  rr_picks (2 * length (rr_candidates std_order demo_nodes ∅)) std_order demo_nodes 7 ∅ ≡ₚ
    Some <$> concat (replicate 2 (rr_candidates std_order demo_nodes ∅)).
Proof.
  split; [vm_compute; reflexivity|].
  apply (round_robin_fair 2 std_order demo_nodes 7 ∅); vm_compute; congruence.
Defined.

(** The least-loaded strategy returns a registered, healthy, non-excluded
    node with spare capacity and minimal load among those, and returns nothing
    only when there is no such node; ties may fall on any of the minimal nodes
    but on nothing else. *)
Theorem least_loaded_correct ord nodes exclude seed :
  0 <= seed ->
  match select_least_loaded ord nodes exclude seed with
  | Some n =>
      (exists k, nodes !! k = Some n) /\ ll_eligible n /\ (id n ∉ exclude) /\
      forall k n', nodes !! k = Some n' -> ll_eligible n' -> id n' ∉ exclude ->
        active_tasks n <= active_tasks n'
  | None => forall k n, nodes !! k = Some n -> ll_eligible n -> id n ∈ exclude
  end.
Proof.
  intros Hs. destruct (select_least_loaded _ _ _ _) as [n|] eqn:E.
  - pose proof E as E'. apply select_least_loaded_Some in E' as [Hin Hmin]; [|done].
    apply elem_of_ll_available in Hin as (? & ? & ?). do 3 (split; [done|]).
    intros k n' Hk He Hex. apply Hmin, elem_of_ll_available. eauto.
  - by apply (sel_complete (SelectPolicy := least_loaded_policy ord seed Hs)).
Qed.

Lemma least_loaded_correct_witness :
  select_least_loaded std_order demo_nodes {["n3"]} 17 = Some (demo_node "n2" 1) /\
  exists k, demo_nodes !! k = Some (demo_node "n2" 1).
Proof.
  split; [reflexivity|].
  exact (proj1 (least_loaded_correct std_order demo_nodes {["n3"]} 17 (Zle_0_pos 17))).
Defined.

(** The three round-robin entry points agree: the trait implementation, the
    stateless helper and the helper with an empty exclusion set pick the same
    node and advance the cursor alike, and the trait reports an error exactly
    when the helper finds no node. *)
Theorem round_robin_variants_agree ord nodes index :
  0 <= index ->
  select_node ord nodes index = select_node_excluded ord nodes index ∅ /\
  next_node MkRoundRobinScheduler ord nodes index =
    (Some match (select_node ord nodes index).1 with
          | Some n => Ok n
          | None => Err (NodeUnavailable "no healthy nodes registered")
          end, nodes, (select_node ord nodes index).2).
Proof.
  intros Hi.
  assert (rr_candidates ord nodes ∅ = filter (fun n => healthy n = true) (hash_values ord nodes)) as Hc.
  { apply list_filter_iff. intros n. split; [by intros [? _]|by intros ?]. }
  unfold select_node, select_node_excluded. rewrite Hc. split; [done|].
  simpl. unfold rr_next_node.
  destruct (filter (fun n => healthy n = true) (hash_values ord nodes)) as [|x l] eqn:E; [done|].
  rewrite <- E. simpl.
  destruct (rr_index_Some (filter (fun n => healthy n = true) (hash_values ord nodes)) index)
    as (n & -> & _); [by rewrite E|done|done].
Qed.

Lemma round_robin_variants_agree_witness :
  select_node std_order demo_nodes 5 = select_node_excluded std_order demo_nodes 5 ∅.
Proof. exact (proj1 (round_robin_variants_agree std_order demo_nodes 5 (Zle_0_pos 5))). Defined.
