(* ===== verification/Registry.v ===== *)
(** * WASM module registry and gRPC connection pool

    Models [services/control-plane/src/registry.rs] (an append-only map from
    ["name:version"] to metadata and bytes) and
    [services/control-plane/src/connection_pool.rs] (one lazily created channel
    per node). The generated UUID and the wall-clock time are arguments of
    [store]; SHA-256 and the tonic channel are interfaces. *)

From Stdlib Require Import Ascii.
From S2P Require Import Prelude RustStd Common.

(** ** Registry *)

Record ModuleRegistry := { modules : gmap string (ModuleMetadata * bytes) }.

Definition registry_new : ModuleRegistry := {| modules := ∅ |}.

(** [format!("{name}:{version}")]. *)
Definition module_key (name version : string) : string := name +:+ ":" +:+ version.

Section registry_ops.
Context `{!Sha2}.

Definition store (uuid : string) (utc_now : Z) (name version : string) (b : bytes)
    (r : ModuleRegistry) : result RegistryError ModuleMetadata * ModuleRegistry :=
  let key := module_key name version in
  match modules r !! key with
  | Some _ => (Err (AlreadyExists name version), r)
  | None =>
      let meta := {| mm_id := uuid; mm_name := name; mm_version := version;
                     mm_size_bytes := Z.of_nat (length b); mm_created_at := utc_now;
                     mm_hash := sha256_hex b |} in
      (Ok meta, {| modules := <[key := (meta, b)]> (modules r) |})
  end.

End registry_ops.

Definition get (name version : string) (r : ModuleRegistry) : option (ModuleMetadata * bytes) :=
  modules r !! module_key name version.

(** [a.name.cmp(&b.name).then(a.version.cmp(&b.version))]. *)
Definition meta_cmp (a b : ModuleMetadata) : comparison :=
  match String.compare (mm_name a) (mm_name b) with
  | Eq => String.compare (mm_version a) (mm_version b)
  | c => c
  end.
Definition meta_le (a b : ModuleMetadata) : Prop := meta_cmp a b <> Gt.

#[export] Instance meta_le_dec : RelDecision meta_le.
Proof. intros a b. unfold meta_le. destruct (meta_cmp a b); [left|left|right]; congruence. Defined.

(** [list()]: all metadata, sorted by name and then version. *)
Definition registry_list (ord : HashOrder) (r : ModuleRegistry) : list ModuleMetadata :=
  merge_sort meta_le (hash_values ord (modules r)).*1.

(** ** Connection pool *)

Section pool_ops.
Context `{!Tonic}.

Record NodeConnectionPool := { connections : gmap string Channel }.

Definition pool_new : NodeConnectionPool := {| connections := ∅ |}.

Definition invalid_address (addr e : string) : Status :=
  {| code := Internal; message := "invalid address '" +:+ addr +:+ "': " +:+ e |}.

Definition get_or_create (node_id addr : string) (p : NodeConnectionPool)
    : result Status Channel * NodeConnectionPool :=
  match connections p !! node_id with
  | Some ch => (Ok ch, p)
  | None =>
      match from_shared addr with
      | Err e => (Err (invalid_address addr e), p)
      | Ok ch => (Ok ch, {| connections := <[node_id := ch]> (connections p) |})
      end
  end.

Definition evict (node_id : string) (p : NodeConnectionPool) : NodeConnectionPool :=
  {| connections := delete node_id (connections p) |}.

End pool_ops.

(** ** Invariant and specification *)

(** Every entry sits under the key of its own metadata, and its metadata
    describes its bytes. *)
Definition registry_wf `{!Sha2} (r : ModuleRegistry) : Prop :=
  forall k meta b, modules r !! k = Some (meta, b) ->
    k = module_key (mm_name meta) (mm_version meta) /\
    mm_hash meta = sha256_hex b /\ mm_size_bytes meta = Z.of_nat (length b).

(** One upload: uuid, time, name, version, bytes. *)
Definition upload : Type := string * Z * string * string * bytes.
Definition store_upload `{!Sha2} (r : ModuleRegistry) (u : upload) : ModuleRegistry :=
  let '(uuid, now, name, version, b) := u in (store uuid now name version b r).2.
Definition store_all `{!Sha2} (r : ModuleRegistry) (us : list upload) : ModuleRegistry :=
  foldl store_upload r us.

Fixpoint no_colon (s : string) : bool :=
  match s with
  | EmptyString => true
  | String c s' => negb (Ascii.eqb c ":"%char) && no_colon s'
  end.

(** ** Lemmas *)

Lemma meta_le_total : Total meta_le.
Proof.
  intros a b. unfold meta_le, meta_cmp.
  rewrite (String.compare_antisym (mm_name a) (mm_name b)).
  destruct (String.compare (mm_name b) (mm_name a)) eqn:E; simpl; [|by right|by left].
  rewrite (String.compare_antisym (mm_version a)).
  destruct (String.compare (mm_version b) (mm_version a)); simpl; [left|right|left]; done.
Qed.

Section registry_lemmas.
Context `{!Sha2}.

Lemma store_keeps uuid utc name version b (r : ModuleRegistry) k x :
  modules r !! k = Some x -> modules (store uuid utc name version b r).2 !! k = Some x.
Proof.
  unfold store. case_match eqn:E; [done|]. simpl. intros Hk. rewrite lookup_insert_ne; [done|]. congruence.
Qed.

Lemma registry_new_wf : registry_wf registry_new.
Proof. intros k meta b. simpl. by rewrite lookup_empty. Qed.

Lemma store_wf uuid now name version b r :
  registry_wf r -> registry_wf (store uuid now name version b r).2.
Proof.
  intros Hwf k meta b'. unfold store. case_match; simpl; [apply Hwf|].
  intros [[<- ?]|[? ?]]%lookup_insert_Some; [by simplify_eq/=|by eapply Hwf].
Qed.

Lemma store_upload_keeps r u k v :
  modules r !! k = Some v -> modules (store_upload r u) !! k = Some v.
Proof.
  destruct u as [[[[uuid now] name] version] b]. simpl. unfold store.
  case_match eqn:E; simpl; [done|]. intros Hk. rewrite lookup_insert_ne; [done|]. congruence.
Qed.

Lemma store_all_keeps us r k v :
  modules r !! k = Some v -> modules (store_all r us) !! k = Some v.
Proof.
  revert r. induction us as [|u us IH]; intros r Hk; [done|]. simpl.
  by apply IH, store_upload_keeps.
Qed.

Lemma store_all_wf us r : registry_wf r -> registry_wf (store_all r us).
Proof.
  revert r. induction us as [|u us IH]; intros r Hwf; [done|]. simpl. apply IH.
  destruct u as [[[[uuid now] name] version] b]. by apply store_wf.
Qed.

End registry_lemmas.

#[export] Hint Resolve registry_new_wf store_wf : ferro.

(** The key determines name and version as long as names have no colon. *)
Lemma module_key_inj n1 v1 n2 v2 :
  no_colon n1 -> no_colon n2 -> module_key n1 v1 = module_key n2 v2 -> n1 = n2 /\ v1 = v2.
Proof.
  unfold module_key. revert n2. induction n1 as [|c n1 IH]; intros [|d n2] H1 H2 H; simpl in *.
  - by injection H.
  - injection H as <- _. done.
  - injection H as -> _. done.
  - injection H as -> H. apply andb_prop_elim in H1 as [_ H1]. apply andb_prop_elim in H2 as [_ H2].
    destruct (IH n2 H1 H2 H) as [-> ->]. done.
Qed.

(** ** Properties *)

(** The registry is append-only and faithful: once an upload has been
    accepted, every later sequence of uploads leaves its metadata and bytes in
    place, and the stored hash is the SHA-256 of the stored bytes, which is
    what an edge node checks after a download. *)
Theorem registry_store_get `{!Sha2} uuid now name version b r us meta :
  registry_wf r ->
  (store uuid now name version b r).1 = Ok meta ->
  get name version (store_all (store uuid now name version b r).2 us) = Some (meta, b) /\
  mm_hash meta = sha256_hex b /\ mm_name meta = name /\ mm_version meta = version.
Proof.
  intros Hwf Hok.
  assert (modules (store uuid now name version b r).2 !! module_key name version = Some (meta, b)) as Hin.
  { unfold store in *. case_match; simplify_eq/=. by simplify_map_eq. }
  split; [by apply store_all_keeps|].
  unfold store in Hok. case_match; by simplify_eq/=.
Qed.

Lemma registry_store_get_witness :
  exists meta, get "echo" "1.0" (@store_all toy_sha2 (@store toy_sha2 "id" 0 "echo" "1.0" [] registry_new).2
      [("id2", 1, "echo", "1.0", [Byte.x00])]) = Some (meta, []).
Proof.
  eexists.
  exact (proj1 (@registry_store_get toy_sha2 "id" 0 "echo" "1.0" [] registry_new
    [("id2", 1, "echo", "1.0", [Byte.x00])] _ (@registry_new_wf toy_sha2) eq_refl)).
Defined.

(** A second upload under an existing key is rejected with
    [AlreadyExists] and changes nothing; an upload is rejected only then. *)
Theorem registry_store_error `{!Sha2} uuid now name version b r :
  match (store uuid now name version b r).1 with
  | Err e => e = AlreadyExists name version /\ is_Some (get name version r) /\
             (store uuid now name version b r).2 = r
  | Ok _ => get name version r = None
  end.
Proof.
  unfold store, get. by destruct (modules r !! module_key name version) eqn:E; simpl.
Qed.

(** Listing returns every registered module's metadata exactly once, in
    ascending order of name and then version, whatever order the hash map is
    iterated in. *)
Theorem registry_list_sorted (ord : HashOrder) (r : ModuleRegistry) :
  Sorted meta_le (registry_list ord r) /\
  registry_list ord r ≡ₚ ((map_to_list (modules r)).*2).*1.
Proof.
  unfold registry_list. split.
  - apply Sorted_merge_sort, meta_le_total.
  - rewrite merge_sort_Permutation. by rewrite hash_values_perm.
Qed.

(** In a registry built from uploads, a lookup under a name without a
    colon never returns a module uploaded under another name without a colon:
    the metadata found carries the requested name and version. *)
Theorem registry_get_exact `{!Sha2} us name version meta b :
  get name version (store_all registry_new us) = Some (meta, b) ->
  no_colon name -> no_colon (mm_name meta) ->
  mm_name meta = name /\ mm_version meta = version.
Proof.
  intros Hget Hn Hm.
  destruct (store_all_wf us _ registry_new_wf _ _ _ Hget) as (Hk & _ & _).
  symmetry in Hk. by apply module_key_inj in Hk.
Qed.

Lemma registry_get_exact_witness :
  exists meta, get "echo" "1.0" (@store_all toy_sha2 registry_new [("id", 0, "echo", "1.0", [])]) = Some (meta, [])
    /\ mm_name meta = "echo".
Proof.
  eexists. split; [reflexivity|].
  refine (proj1 (@registry_get_exact toy_sha2 [("id", 0, "echo", "1.0", [])] "echo" "1.0" _ [] eq_refl _ _));
    vm_compute; exact I.
Defined.

(** The colon separator is ambiguous: after uploading module [a:b] with
    version [c], a request for module [a], version [b:c] is served those bytes,
    and uploading that other module is rejected as a duplicate. *)
Theorem registry_key_collision `{!Sha2} uuid now b b' :
  let r := (store uuid now "a:b" "c" b registry_new).2 in
  (exists meta, get "a" "b:c" r = Some (meta, b) /\ mm_name meta = "a:b") /\
  (store uuid now "a" "b:c" b' r).1 = Err (AlreadyExists "a" "b:c").
Proof. split; [eexists; split; reflexivity|reflexivity]. Qed.

(** The pool keeps one channel per node: after a successful first use the
    same channel is returned for that node whatever address is given later,
    until the node is evicted; only then is the new address dialled. *)
Theorem pool_channel_is_sticky `{!Tonic} node addr addr' ch p :
  (get_or_create node addr p).1 = Ok ch ->
  let p' := (get_or_create node addr p).2 in
  get_or_create node addr' p' = (Ok ch, p') /\
  (get_or_create node addr' (evict node p')).1 =
    map_err (invalid_address addr') (from_shared addr').
Proof.
  intros Hok p'. subst p'. split.
  - unfold get_or_create in *. destruct (connections p !! node) eqn:E; simplify_eq/=; [by rewrite E|].
    destruct (from_shared addr); simplify_eq/=. by simplify_map_eq.
  - unfold get_or_create at 1. unfold evict. simpl. rewrite lookup_delete_eq.
    by destruct (from_shared addr').
Qed.

Lemma pool_channel_is_sticky_witness :
  get_or_create "n1" "http://new" (get_or_create "n1" "http://old" (@pool_new toy_tonic)).2
    = (Ok "http://old", (get_or_create "n1" "http://old" (@pool_new toy_tonic)).2).
Proof.
  exact (proj1 (@pool_channel_is_sticky toy_tonic "n1" "http://old" "http://new" "http://old"
    pool_new eq_refl)).
Defined.
