(* ===== verification/Sandbox.v ===== *)
(** * Running one guest module

    Models [crates/wasm-runtime/src/sandbox.rs] and the one-call wrapper of
    [lib.rs]. wasmtime is a parameter, [Wasmtime]: compilation, instantiation
    and calls into a guest are its functions, handed the program's own memory
    limiter; its laws are what wasmtime documents about when it consults the
    limiter, about bounds of memory accesses and about epoch interruption.

    [execute] races the guest against a timer that bumps the epoch of the engine
    all tasks of a node share. That protocol is the machine [epoch_step]. *)

From S2P Require Import Prelude RustStd Common.

(** ** Errors and data *)
Inductive WasmError :=
| WInvalidWasm (s : string)
| CompilationFailed (s : string)
| MissingExport (s : string)
| WTimeout (ms : Z)
| MemoryLimitExceeded
| Trap (s : string)
| Io (s : string).

Definition WasmError_to_string (e : WasmError) : string :=
  match e with
  | WInvalidWasm s => "Invalid WASM binary: " +:+ s
  | CompilationFailed s => "Compilation failed: " +:+ s
  | MissingExport s => "Missing export: " +:+ s
  | WTimeout ms => "Execution timeout after " +:+ pretty ms +:+ "ms"
  | MemoryLimitExceeded => "Memory limit exceeded"
  | Trap s => "Runtime trap: " +:+ s
  | Io s => "IO error: " +:+ s
  end.

Record ExecutionConfig := {
  memory_limit_bytes : Z;
  cfg_timeout_ms : Z;
  cfg_function_name : string
}.

Record ExecutionResult := {
  er_output : bytes;
  er_execution_time_ms : Z;
  memory_used_bytes : Z
}.

(** ** The resource limiter *)
Record LimitState := { max_bytes : Z; denied : bool }.

Definition memory_growing (desired : Z) (l : LimitState) : bool * LimitState :=
  if max_bytes l <? desired then (false, {| max_bytes := max_bytes l; denied := true |})
  else (true, l).

Definition table_growing (l : LimitState) : bool * LimitState := (true, l).

(** The limiter after a sequence of requests, and those it granted. *)
Definition limiter_after (reqs : list Z) (l : LimitState) : LimitState :=
  foldl (fun l d => (memory_growing d l).2) l reqs.
Fixpoint granted (reqs : list Z) (l : LimitState) : list Z :=
  match reqs with
  | [] => []
  | d :: reqs' =>
      let '(ok, l') := memory_growing d l in
      if ok then d :: granted reqs' l' else granted reqs' l'
  end.

(** ** wasmtime *)

(** What a failing guest entry reports: a trap, or some other error. *)
Inductive GuestError :=
| GTrapInterrupt
| GTrap (debug : string)
| GOther (msg : string).

Record StoreCtx := { limit : LimitState; epoch_deadline : Z }.

(** A limiter is what [store.limiter] installs; the last argument of a guest
    entry is the engine epoch seen at the successive epoch checks. [call] is the
    outcome of an entry that returns; one that does not leaves its caller where it
    is. An instance has the memory its module exports as [memory], the one the code
    reads and writes; wasmtime admits further memories and tables, which neither
    the code nor the model looks at: the limiter sees each memory on its own, so
    that its limit bounds every single one, and it grants every table
    ([table_growing]). *)
Definition Limiter := Z -> LimitState -> bool * LimitState.
Definition Epochs := nat -> Z.

Class Wasmtime := {
  Module : Type;
  Inst : Type;
  validate : bytes -> result string unit;
  module_new : bytes -> result string Module;
  linker_instantiate : Limiter -> Epochs -> StoreCtx -> Module -> result GuestError Inst * StoreCtx;
  has_func_i32_i32 : Inst -> string -> bool;
  has_func_i32i32_i32 : Inst -> string -> bool;
  has_memory : Inst -> string -> bool;
  call : Limiter -> Epochs -> StoreCtx -> Inst -> string -> list Z -> result GuestError Z * Inst * StoreCtx;
  memory_data : Inst -> bytes;
  memory_write : Inst -> Z -> bytes -> result string Inst;
  memory_read : Inst -> Z -> Z -> result string bytes;
  (** the limiter is consulted for every growth, initial memories included,
      and an entry leaves the store's deadline alone *)
  instantiate_limited : forall ep s m r s',
    linker_instantiate memory_growing ep s m = (r, s') ->
    epoch_deadline s' = epoch_deadline s /\
    exists reqs, limit s' = limiter_after reqs (limit s) /\
      forall i, r = Ok i -> memory_data i = [] \/ Z.of_nat (length (memory_data i)) ∈ granted reqs (limit s);
  call_limited : forall ep s i f a r i' s',
    call memory_growing ep s i f a = (r, i', s') ->
    epoch_deadline s' = epoch_deadline s /\
    exists reqs, limit s' = limiter_after reqs (limit s) /\
      (length (memory_data i') = length (memory_data i) \/
       Z.of_nat (length (memory_data i')) ∈ granted reqs (limit s));
  (** an interrupt trap means the epoch has reached the store's deadline *)
  call_interrupt : forall lim ep s i f a i' s',
    call lim ep s i f a = (Err GTrapInterrupt, i', s') -> exists k, epoch_deadline s <= ep k;
  instantiate_interrupt : forall lim ep s m s',
    linker_instantiate lim ep s m = (Err GTrapInterrupt, s') -> exists k, epoch_deadline s <= ep k;
  (** host accesses are bounds-checked *)
  memory_write_ok : forall i off b i', memory_write i off b = Ok i' ->
    0 <= off /\ off + Z.of_nat (length b) <= Z.of_nat (length (memory_data i)) /\
    memory_data i' = take (Z.to_nat off) (memory_data i) ++ b ++
      drop (Z.to_nat off + length b) (memory_data i);
  memory_read_ok : forall i off n b, memory_read i off n = Ok b ->
    0 <= off /\ off + n <= Z.of_nat (length (memory_data i)) /\
    b = take (Z.to_nat n) (drop (Z.to_nat off) (memory_data i))
}.

(** [str::contains]. *)
Definition contains (s sub : string) : bool :=
  match String.index 0 sub s with Some _ => true | None => false end.

(** ** Synchronous execution *)
Section sandbox.
Context `{!Wasmtime}.

Definition map_trap_error (e : GuestError) (timeout_ms : Z) : WasmError :=
  match e with
  | GTrapInterrupt => WTimeout timeout_ms
  | GTrap debug => Trap debug
  | GOther msg =>
      if contains msg "interrupt" || contains msg "Interrupt" then WTimeout timeout_ms else Trap msg
  end.

(** The error of a guest entry: a denied growth takes precedence. *)
Definition guest_error (s : StoreCtx) (timeout_ms : Z) (e : GuestError) : WasmError :=
  if denied (limit s) then MemoryLimitExceeded else map_trap_error e timeout_ms.

(** [x as usize] for an [i32] (sign-extending). *)
Definition i32_as_usize (x : Z) : Z := x mod u64_mod.

(** What the execution reads from outside: the clock at its start and end and
    the engine epochs, at creation of the store and during each guest entry. *)
Record ExecEnv := {
  ex_start : Instant;
  ex_end : Instant;
  ep_now : Z;
  ep_instantiate : Epochs;
  ep_alloc : Epochs;
  ep_process : Epochs
}.

Definition execute_sync_compiled (e : ExecEnv) (module : Module) (config : ExecutionConfig)
    (input : bytes) : result WasmError ExecutionResult :=
  let timeout_ms := cfg_timeout_ms config in
  let store0 := {| limit := {| max_bytes := memory_limit_bytes config; denied := false |};
                   epoch_deadline := ep_now e + 1 |} in
  let '(res, store1) := linker_instantiate memory_growing (ep_instantiate e) store0 module in
  instance ← map_err (guest_error store1 timeout_ms) res;
  if negb (has_func_i32_i32 instance "alloc") then Err (MissingExport "alloc")
  else if negb (has_func_i32i32_i32 instance (cfg_function_name config))
  then Err (MissingExport (cfg_function_name config))
  else if negb (has_memory instance "memory") then Err (MissingExport "memory")
  else
    let input_len := as_i32 (Z.of_nat (length input)) in
    let '(res, i1, store2) := call memory_growing (ep_alloc e) store1 instance "alloc" [input_len] in
    ptr ← map_err (guest_error store2 timeout_ms) res;
    i2 ← map_err Io (memory_write i1 (i32_as_usize ptr) input);
    let '(res, i3, store3) :=
      call memory_growing (ep_process e) store2 i2 (cfg_function_name config) [ptr; input_len] in
    output_len_raw ← map_err (guest_error store3 timeout_ms) res;
    if output_len_raw <? 0
    then Err (Io ("process returned negative length: " +:+ pretty output_len_raw))
    else
      output ← (if 0 <? output_len_raw
                then map_err Io (memory_read i3 (i32_as_usize ptr) output_len_raw)
                else Ok []);
      Ok {| er_output := output;
            er_execution_time_ms := as_millis (elapsed (ex_end e) (ex_start e)) mod u64_mod;
            memory_used_bytes := Z.of_nat (length (memory_data i3)) |}.

Definition execute_sync (e : ExecEnv) (wasm_bytes : bytes) (config : ExecutionConfig)
    (input : bytes) : result WasmError ExecutionResult :=
  _ ← map_err WInvalidWasm (validate wasm_bytes);
  module ← map_err CompilationFailed (module_new wasm_bytes);
  execute_sync_compiled e module config input.

(** [spawn_blocking(..).await]: the join error of a panicked closure, if any. These
    are the outcomes of closures that return; a closure in a guest that never does
    is a call that stays at its execution step ([XExecBytes], [XExecModule] of
    [EdgeNode]), which no theorem obliges to be taken. *)
Definition execute_compiled (panic : option string) (e : ExecEnv) (module : Module)
    (config : ExecutionConfig) (input : bytes) : result WasmError ExecutionResult :=
  match panic with
  | Some err => Err (Io err)
  | None => execute_sync_compiled e module config input
  end.

Definition execute (panic : option string) (e : ExecEnv) (wasm_bytes : bytes)
    (config : ExecutionConfig) (input : bytes) : result WasmError ExecutionResult :=
  match panic with
  | Some err => Err (Io err)
  | None => execute_sync e wasm_bytes config input
  end.

Definition execute_wasm (panic : option string) (e : ExecEnv) (wasm_bytes : bytes)
    (function_name : string) (input : bytes) (timeout_ms memory_limit_mb : Z)
    : result WasmError ExecutionResult :=
  execute panic e wasm_bytes
    {| memory_limit_bytes := u64_mul (u64_mul memory_limit_mb 1024) 1024;
       cfg_timeout_ms := timeout_ms; cfg_function_name := function_name |} input.

End sandbox.

(** ** The timeout protocol

    Each [execute] arms a timer, later (once a blocking thread is free and, for
    raw bytes, after validation and compilation) creates its store with deadline
    "one epoch from now", and aborts the timer when the guest has returned. A
    timer that goes off increments the epoch of the engine, which is one per
    process. Timer and guest are spawned tasks: when the future of [execute] is
    dropped they go on, and nobody is left to abort the timer. *)
Inductive Timer := Armed (at_ : Instant) | Fired | Stopped.

Record Run := { timer : Timer; deadline : option Z; returned : bool; awaited : bool }.

Record EpochSys := { epoch : Z; runs : gmap nat Run }.

Inductive epoch_op :=
| ESpawn (i : nat) (now : Instant) (timeout_ms : Z)
| EBegin (i : nat)
| EFire (i : nat) (now : Instant)
| EFinish (i : nat) (panicked : bool)
| EDrop (i : nat).

Definition set_run (i : nat) (r : Run) (s : EpochSys) : EpochSys :=
  {| epoch := epoch s; runs := <[i := r]> (runs s) |}.

(** One event; [None] when it cannot happen in that state. *)
Definition epoch_step (op : epoch_op) (s : EpochSys) : option EpochSys :=
  match op with
  | ESpawn i now timeout_ms =>
      match runs s !! i with
      | Some _ => None
      | None => Some (set_run i {| timer := Armed (now + from_millis timeout_ms);
                                   deadline := None; returned := false; awaited := true |} s)
      end
  | EBegin i =>
      r ← runs s !! i;
      if decide (deadline r = None /\ returned r = false)
      then Some (set_run i {| timer := timer r; deadline := Some (epoch s + 1); returned := false;
                             awaited := awaited r |} s)
      else None
  | EFire i now =>
      r ← runs s !! i;
      match timer r with
      | Armed t =>
          if t <=? now
          then Some {| epoch := epoch s + 1;
                       runs := <[i := {| timer := Fired; deadline := deadline r;
                                         returned := returned r; awaited := awaited r |}]> (runs s) |}
          else None
      | _ => None
      end
  | EFinish i panicked =>
      r ← runs s !! i;
      if returned r then None
      else
        let t := if panicked || negb (awaited r) then timer r
                 else match timer r with Armed _ => Stopped | t => t end in
        Some (set_run i {| timer := t; deadline := deadline r; returned := true; awaited := awaited r |} s)
  | EDrop i =>
      r ← runs s !! i;
      if returned r || negb (awaited r) then None
      else Some (set_run i {| timer := timer r; deadline := deadline r; returned := returned r;
                              awaited := false |} s)
  end.

Fixpoint epoch_run (ops : list epoch_op) (s : EpochSys) : option EpochSys :=
  match ops with
  | [] => Some s
  | op :: ops' => s' ← epoch_step op s; epoch_run ops' s'
  end.

(** A guest that is running with the epoch at its deadline is interrupted at its
    next epoch check. *)
Definition interrupted (s : EpochSys) (i : nat) : Prop :=
  exists r d, runs s !! i = Some r /\ returned r = false /\ deadline r = Some d /\ d <= epoch s.

Definition executing (s : EpochSys) (i : nat) : Prop :=
  exists r d, runs s !! i = Some r /\ returned r = false /\ deadline r = Some d.

Definition fires (op : epoch_op) : bool := match op with EFire _ _ => true | _ => false end.

Definition idle_engine : EpochSys := {| epoch := 0; runs := ∅ |}.

(** A wasmtime whose only guest echoes its input from a four-byte memory, for
    evaluations. *)
Definition echo_write (i : bytes) (off : Z) (b : bytes) : result string bytes :=
  if decide (0 <= off /\ off + Z.of_nat (length b) <= Z.of_nat (length i))
  then Ok (take (Z.to_nat off) i ++ b ++ drop (Z.to_nat off + length b) i) else Err "out of bounds".
Definition echo_read (i : bytes) (off n : Z) : result string bytes :=
  if decide (0 <= off /\ off + n <= Z.of_nat (length i))
  then Ok (take (Z.to_nat n) (drop (Z.to_nat off) i)) else Err "out of bounds".
Definition echo_instantiate (lim : Limiter) (ep : Epochs) (s : StoreCtx) (m : unit)
    : result GuestError bytes * StoreCtx :=
  let '(ok, l) := lim 4 (limit s) in
  (if ok then Ok (replicate 4 Byte.x00) else Err (GOther "no memory"),
   {| limit := l; epoch_deadline := epoch_deadline s |}).
Definition echo_call (lim : Limiter) (ep : Epochs) (s : StoreCtx) (i : bytes) (f : string) (a : list Z)
    : result GuestError Z * bytes * StoreCtx :=
  (if epoch_deadline s <=? ep 0%nat then Err GTrapInterrupt
   else match a with [_; n] => Ok n | _ => Ok 0 end, i, s).

Definition echo_wasmtime : Wasmtime.
Proof.
  refine {| Module := unit; Inst := bytes; validate := fun _ => Ok tt; module_new := fun _ => Ok tt;
    linker_instantiate := echo_instantiate; has_func_i32_i32 := fun _ _ => true;
    has_func_i32i32_i32 := fun _ _ => true; has_memory := fun _ _ => true;
    call := echo_call; memory_data := fun i => i; memory_write := echo_write; memory_read := echo_read |}.
  - intros ep s m r s' H. unfold echo_instantiate, memory_growing in H.
    destruct (Z.ltb_spec (max_bytes (limit s)) 4) as [Hlt|Hge]; injection H as <- <-; (split; [done|]).
    + exists [4]. unfold limiter_after, memory_growing. simpl.
      rewrite (proj2 (Z.ltb_lt _ _)) by done. done.
    + exists [4]. unfold limiter_after, granted, memory_growing. simpl.
      rewrite (proj2 (Z.ltb_ge _ _)) by done. split; [done|]. intros i [= <-]. right. by left.
  - intros ep s i f a r i' s' H. injection H as <- <- <-. split; [done|].
    exists []. split; [done|by left].
  - intros lim ep s i f a i' s' H. unfold echo_call in H.
    destruct (Z.leb_spec (epoch_deadline s) (ep 0%nat)); [by exists 0%nat|].
    injection H as H _ _. by destruct a as [|? [|? [|]]].
  - intros lim ep s m s' H. unfold echo_instantiate in H. destruct (lim 4 (limit s)) as [[] l]; done.
  - intros i off b i' H. unfold echo_write in H. case_decide as Hd; [|done]. injection H as <-. destruct Hd. by split_and!.
  - intros i off n b H. unfold echo_read in H. case_decide as Hd; [|done]. injection H as <-. destruct Hd. by split_and!.
Defined.

Definition demo_config : ExecutionConfig :=
  {| memory_limit_bytes := 64; cfg_timeout_ms := 5000; cfg_function_name := "process" |}.
Definition demo_exec (ep : Z) : ExecEnv :=
  {| ex_start := 0; ex_end := from_millis 3; ep_now := 0; ep_instantiate := fun _ => 0;
     ep_alloc := fun _ => 0; ep_process := fun _ => ep |}.

(** ** Lemmas *)

Lemma limiter_after_max reqs l : max_bytes (limiter_after reqs l) = max_bytes l.
Proof.
  revert l. induction reqs as [|d reqs IH]; intros l; [done|]. simpl.
  rewrite IH. unfold memory_growing. by case_match.
Qed.

Lemma granted_bounded reqs l d : d ∈ granted reqs l -> d <= max_bytes l.
Proof.
  revert l. induction reqs as [|d' reqs IH]; intros l Hin; [by inversion Hin|]. simpl in Hin.
  unfold memory_growing in Hin. destruct (Z.ltb_spec (max_bytes l) d') as [Hlt|Hge].
  - by apply IH in Hin.
  - apply elem_of_cons in Hin as [->|Hin]; [done|by apply IH].
Qed.

Section sandbox_lemmas.
Context `{!Wasmtime}.

(** The memory of an instance stays within the limit over a call. *)
Lemma call_bounded ep s i f a r i' s' :
  call memory_growing ep s i f a = (r, i', s') ->
  Z.of_nat (length (memory_data i)) <= max_bytes (limit s) ->
  Z.of_nat (length (memory_data i')) <= max_bytes (limit s') /\
  max_bytes (limit s') = max_bytes (limit s).
Proof.
  intros Hcall Hle. destruct (call_limited _ _ _ _ _ _ _ _ Hcall) as (_ & reqs & -> & Hm).
  rewrite limiter_after_max. split; [|done].
  destruct Hm as [-> | Hin]; [done|]. by apply granted_bounded in Hin.
Qed.

Lemma instantiate_bounded ep s m i s' :
  linker_instantiate memory_growing ep s m = (Ok i, s') -> 0 <= max_bytes (limit s) ->
  Z.of_nat (length (memory_data i)) <= max_bytes (limit s') /\
  max_bytes (limit s') = max_bytes (limit s).
Proof.
  intros Hi H0'. destruct (instantiate_limited _ _ _ _ _ Hi) as (_ & reqs & -> & Hm).
  rewrite limiter_after_max. split; [|done].
  destruct (Hm i eq_refl) as [-> | Hin]; [done|]. by apply granted_bounded in Hin.
Qed.

Lemma memory_write_length i off b i' :
  memory_write i off b = Ok i' -> length (memory_data i') = length (memory_data i).
Proof.
  intros (H1' & H2' & ->)%memory_write_ok. rewrite !length_app, length_take, length_drop. lia.
Qed.

(** A successful execution, phase by phase. *)
Lemma execute_sync_compiled_Ok e m c inp r :
  execute_sync_compiled e m c inp = Ok r ->
  exists i0 s1 i1 s2 ptr i2 i3 s3 n,
    linker_instantiate memory_growing (ep_instantiate e)
      {| limit := {| max_bytes := memory_limit_bytes c; denied := false |};
         epoch_deadline := ep_now e + 1 |} m = (Ok i0, s1) /\
    call memory_growing (ep_alloc e) s1 i0 "alloc" [as_i32 (Z.of_nat (length inp))] = (Ok ptr, i1, s2) /\
    memory_write i1 (i32_as_usize ptr) inp = Ok i2 /\
    call memory_growing (ep_process e) s2 i2 (cfg_function_name c) [ptr; as_i32 (Z.of_nat (length inp))]
      = (Ok n, i3, s3) /\
    0 <= n /\ memory_used_bytes r = Z.of_nat (length (memory_data i3)) /\
    (if 0 <? n then memory_read i3 (i32_as_usize ptr) n = Ok (er_output r) else er_output r = []).
Proof.
  unfold execute_sync_compiled.
  destruct (linker_instantiate _ _ _ _) as [[i0|?] s1] eqn:E1; simpl; [|done].
  do 3 (case_match; [done|]).
  destruct (call _ _ s1 _ _ _) as [[[ptr|?] i1] s2] eqn:E2; simpl; [|done].
  destruct (memory_write _ _ _) as [i2|?] eqn:E3; simpl; [|done].
  destruct (call _ _ s2 _ _ _) as [[[n|?] i3] s3] eqn:E4; simpl; [|done].
  destruct (Z.ltb_spec n 0); [done|].
  destruct (0 <? n) eqn:En.
  - destruct (memory_read _ _ _) as [o|?] eqn:E5; simpl; [|done]. intros [= <-].
    exists i0, s1, i1, s2, ptr, i2, i3, s3, n. rewrite En. by split_and!.
  - simpl. intros [= <-]. exists i0, s1, i1, s2, ptr, i2, i3, s3, n. rewrite En. by split_and!.
Qed.

End sandbox_lemmas.

(** *** The timeout protocol *)

Lemma interrupted_set_run s i r j :
  interrupted (set_run i r s) j <->
  if decide (i = j) then returned r = false /\ exists d, deadline r = Some d /\ d <= epoch s
  else interrupted s j.
Proof.
  unfold interrupted, set_run. simpl. setoid_rewrite lookup_insert. case_decide; subst; naive_solver.
Qed.

(** Nothing but a timer going off brings a run to its deadline. *)
Lemma epoch_step_quiet op s s' j :
  epoch_step op s = Some s' -> fires op = false -> ~ interrupted s j -> ~ interrupted s' j.
Proof.
  intros Hstep Hf Hn. destruct op as [i now ms|i|i now|i p|i]; simpl in Hf, Hstep; [| |done|..].
  - destruct (runs s !! i) eqn:E; simplify_eq/=. rewrite interrupted_set_run. case_decide; naive_solver.
  - destruct (runs s !! i) as [r|] eqn:E; simplify_eq/=. case_decide; simplify_eq/=.
    rewrite interrupted_set_run. case_decide; [|done]. simpl. naive_solver lia.
  - destruct (runs s !! i) as [r|] eqn:E; simplify_eq/=. destruct (returned r); simplify_eq/=.
    rewrite interrupted_set_run. case_decide; [|done]. naive_solver.
  - destruct (runs s !! i) as [r|] eqn:E; simplify_eq/=. destruct (returned r || _) eqn:Er; simplify_eq/=.
    rewrite interrupted_set_run. case_decide; [|done]. simpl. subst. intros (? & d & ? & ?). apply Hn. by exists r, d.
Qed.

Lemma epoch_run_quiet ops s s' j :
  epoch_run ops s = Some s' -> Forall (fun op => fires op = false) ops ->
  ~ interrupted s j -> ~ interrupted s' j.
Proof.
  revert s. induction ops as [|op ops IH]; intros s Hrun Hall Hn; simplify_eq/=; [done|].
  apply Forall_cons in Hall as [Hop Hall]. apply bind_Some in Hrun as (s1 & Hs1 & Hrun).
  eapply IH; [done|done|]. by eapply epoch_step_quiet.
Qed.

(** Deadlines are at most one epoch ahead. *)
Definition deadlines_near (s : EpochSys) : Prop :=
  forall i r d, runs s !! i = Some r -> deadline r = Some d -> d <= epoch s + 1.

Lemma epoch_step_near op s s' : epoch_step op s = Some s' -> deadlines_near s -> deadlines_near s'.
Proof.
  intros Hstep Hn j rj d.
  destruct op as [i now ms|i|i now|i p|i]; simpl in Hstep;
    destruct (runs s !! i) as [r|] eqn:E; simplify_eq/=; repeat (case_match || case_decide); simplify_eq/=;
    rewrite lookup_insert; case_decide; intros; simplify_eq/=; try lia;
    try (by eapply Hn); try (pose proof (Hn _ _ _ ltac:(eassumption) ltac:(eassumption)); lia).
Qed.

Lemma epoch_run_near ops s s' : epoch_run ops s = Some s' -> deadlines_near s -> deadlines_near s'.
Proof.
  revert s. induction ops as [|op ops IH]; intros s Hrun Hn; simplify_eq/=; [done|].
  apply bind_Some in Hrun as (s1 & Hs1 & Hrun). eapply IH; [done|]. by eapply epoch_step_near.
Qed.

Lemma idle_near : deadlines_near idle_engine.
Proof. intros i r d Hr. discriminate Hr. Qed.

(** An unawaited run keeps its timer until it goes off. *)
Definition orphan (i : nat) (t : Instant) (s : EpochSys) : Prop :=
  exists r, runs s !! i = Some r /\ timer r = Armed t /\ awaited r = false.

Lemma epoch_step_orphan op s s' i t :
  epoch_step op s = Some s' -> (forall now, op <> EFire i now) -> orphan i t s -> orphan i t s'.
Proof.
  intros Hstep Hop (r & Hr & Ht & Ha). unfold orphan.
  destruct op as [j now ms|j|j now|j p|j]; simpl in Hstep;
    (destruct (decide (j = i)) as [->|Hne];
      [rewrite Hr in Hstep; simpl in Hstep
      |destruct (runs s !! j) as [rj|] eqn:Hj; simplify_eq/=;
       repeat (case_match || case_decide); simplify_eq/=; exists r; by rewrite lookup_insert_ne]).
  - done.
  - case_decide; simplify_eq/=. eexists. rewrite lookup_insert_eq. by split_and!.
  - by destruct (Hop now).
  - rewrite Ha, orb_true_r in Hstep. case_match; simplify_eq/=. eexists. rewrite lookup_insert_eq. by split_and!.
  - rewrite Ha, orb_true_r in Hstep. done.
Qed.

Lemma epoch_run_orphan ops s s' i t :
  epoch_run ops s = Some s' -> Forall (fun op => forall now, op <> EFire i now) ops -> orphan i t s -> orphan i t s'.
Proof.
  revert s. induction ops as [|op ops IH]; intros s Hrun Hall Ho; simplify_eq/=; [done|].
  apply Forall_cons in Hall as [Hop Hall]. apply bind_Some in Hrun as (s1 & Hs1 & Hrun).
  eapply IH; [done|done|]. by eapply epoch_step_orphan.
Qed.

(** When a timer goes off, every run whose store exists is at its deadline. *)
Lemma fire_interrupts s i now s' j :
  deadlines_near s -> epoch_step (EFire i now) s = Some s' -> executing s j -> interrupted s' j.
Proof.
  intros Hnear Hstep (r & d & Hr & Hret & Hd). pose proof (Hnear j r d Hr Hd) as Hle.
  simpl in Hstep. destruct (runs s !! i) as [ri|] eqn:Hi; simplify_eq/=. repeat (case_match; simplify_eq/=).
  unfold interrupted. simpl. setoid_rewrite lookup_insert. case_decide; simplify_eq.
  - eexists _, d. split; [reflexivity|]. simpl. split_and!; [done|done|lia].
  - exists r, d. split_and!; [done|done|done|simpl; lia].
Qed.

(** Every guest entry that reports an interrupt saw the epoch at the deadline. *)
Lemma guest_error_timeout `{!Wasmtime} s c err ms :
  guest_error s c err = WTimeout ms -> ms = c /\ denied (limit s) = false /\
  (err = GTrapInterrupt \/ exists msg, err = GOther msg /\
     (contains msg "interrupt" || contains msg "Interrupt") = true).
Proof.
  unfold guest_error, map_trap_error. destruct (denied (limit s)); [done|].
  destruct err as [|d|msg]; [naive_solver|done|]. case_match eqn:E; naive_solver.
Qed.

(** ** Properties *)

(** C19. Memory isolation. Whatever the guest does, an execution that succeeds
    ends with an exported memory no larger than the configured limit, and its
    output lies inside that memory. *)
Theorem sandbox_memory_bounded `{!Wasmtime} e m c inp r :
  0 <= memory_limit_bytes c -> execute_sync_compiled e m c inp = Ok r ->
  0 <= memory_used_bytes r <= memory_limit_bytes c /\
  Z.of_nat (length (er_output r)) <= memory_used_bytes r.
Proof.
  intros Hc (i0 & s1 & i1 & s2 & ptr & i2 & i3 & s3 & n & E1 & E2 & E3 & E4 & Hn & Hu & Ho)%execute_sync_compiled_Ok.
  apply instantiate_bounded in E1 as [Hb1 Hm1]; [|done]. simpl in Hm1.
  apply call_bounded in E2 as [Hb2 Hm2]; [|done]. apply memory_write_length in E3.
  apply call_bounded in E4 as [Hb4 Hm4]; [|lia]. rewrite Hu. split; [lia|].
  destruct (Z.ltb_spec 0 n) as [Hlt|Hge]; [|rewrite Ho; simpl; lia].
  apply memory_read_ok in Ho as (? & ? & ->). rewrite length_take, length_drop. lia.
Qed.

Lemma sandbox_memory_bounded_witness :
  exists r, @execute_sync_compiled echo_wasmtime (demo_exec 0) tt demo_config [Byte.x01; Byte.x02] = Ok r /\
    er_output r = [Byte.x01; Byte.x02] /\ memory_used_bytes r <= 64.
Proof.
  eexists. split; [vm_compute; reflexivity|]. split; [reflexivity|].
  exact (proj2 (proj1 (@sandbox_memory_bounded echo_wasmtime (demo_exec 0) tt demo_config
    [Byte.x01; Byte.x02] _ ltac:(discriminate) ltac:(vm_compute; reflexivity)))).
Defined.

(** The calling convention. A successful execution of a function means: the
    guest's [alloc] was asked for the length of the input, the input bytes stood
    at the returned address when the function was called with that address and
    length, the function returned a length, and the output is exactly that many
    bytes of the final memory at the same address. *)
Theorem sandbox_calling_convention `{!Wasmtime} e m c inp r :
  execute_sync_compiled e m c inp = Ok r ->
  exists i0 s1 i1 s2 ptr i2 i3 s3 n,
    let len := as_i32 (Z.of_nat (length inp)) in
    let off := Z.to_nat (i32_as_usize ptr) in
    call memory_growing (ep_alloc e) s1 i0 "alloc" [len] = (Ok ptr, i1, s2) /\
    memory_write i1 (i32_as_usize ptr) inp = Ok i2 /\
    take (length inp) (drop off (memory_data i2)) = inp /\
    call memory_growing (ep_process e) s2 i2 (cfg_function_name c) [ptr; len] = (Ok n, i3, s3) /\
    0 <= n /\ er_output r = take (Z.to_nat n) (drop off (memory_data i3)) /\
    Z.of_nat (length (er_output r)) = n.
Proof.
  intros (i0 & s1 & i1 & s2 & ptr & i2 & i3 & s3 & n & _ & E2 & E3 & E4 & Hn & Hu & Ho)%execute_sync_compiled_Ok.
  exists i0, s1, i1, s2, ptr, i2, i3, s3, n. simpl.
  pose proof (memory_write_ok _ _ _ _ E3) as (Hp & Hlen & Hd).
  split_and!; [done|done| |done|done|..].
  - rewrite Hd, drop_app_length' by (rewrite length_take; lia). by rewrite take_app_length.
  - destruct (Z.ltb_spec 0 n) as [Hlt|Hge]; [by apply memory_read_ok in Ho as (_ & _ & ->)|].
    by replace n with 0 by lia.
  - destruct (Z.ltb_spec 0 n) as [Hlt|Hge]; [|rewrite Ho; simpl; lia].
    apply memory_read_ok in Ho as (? & ? & ->). rewrite length_take, length_drop. lia.
Qed.

Lemma sandbox_calling_convention_witness :
  exists r, @execute_sync_compiled echo_wasmtime (demo_exec 0) tt demo_config [Byte.x07] = Ok r /\
    exists n, Z.of_nat (length (er_output r)) = n.
Proof.
  eexists. split; [vm_compute; reflexivity|].
  destruct (@sandbox_calling_convention echo_wasmtime (demo_exec 0) tt demo_config [Byte.x07] _
    ltac:(vm_compute; reflexivity)) as (i0 & s1 & i1 & s2 & ptr & i2 & i3 & s3 & n & H).
  exists n. exact (proj2 (proj2 (proj2 (proj2 (proj2 (proj2 H)))))).
Defined.

(** A reported timeout is a real one for this store: it names the configured
    budget, and the engine's epoch had reached the deadline set when the store
    was created. (The error text of a guest that fails in another way is assumed
    not to speak of interrupts, since the code looks for that word.) *)
Theorem sandbox_timeout_sound `{!Wasmtime} e m c inp ms :
  (forall lim ep s i f a msg i' s', call lim ep s i f a = (Err (GOther msg), i', s') ->
     (contains msg "interrupt" || contains msg "Interrupt") = false) ->
  (forall lim ep s m' msg s', linker_instantiate lim ep s m' = (Err (GOther msg), s') ->
     (contains msg "interrupt" || contains msg "Interrupt") = false) ->
  execute_sync_compiled e m c inp = Err (WTimeout ms) ->
  ms = cfg_timeout_ms c /\
  exists k, ep_now e + 1 <= ep_instantiate e k \/ ep_now e + 1 <= ep_alloc e k \/
            ep_now e + 1 <= ep_process e k.
Proof.
  intros Hcall Hinst. unfold execute_sync_compiled.
  destruct (linker_instantiate _ _ _ _) as [[i0|err] s1] eqn:E1; simpl.
  2:{ intros [= (-> & _ & [-> | (msg & -> & Hmsg)])%guest_error_timeout].
      - split; [done|]. apply instantiate_interrupt in E1 as [k ?]. eauto.
      - apply Hinst in E1. congruence. }
  do 3 (case_match; [done|]).
  destruct (instantiate_limited _ _ _ _ _ E1) as [Hd1 _]. simpl in Hd1.
  destruct (call _ _ s1 _ _ _) as [[[ptr|err] i1] s2] eqn:E2; simpl.
  2:{ intros [= (-> & _ & [-> | (msg & -> & Hmsg)])%guest_error_timeout].
      - split; [done|]. apply call_interrupt in E2 as [k ?]. exists k. lia.
      - apply Hcall in E2. congruence. }
  destruct (call_limited _ _ _ _ _ _ _ _ E2) as [Hd2 _].
  destruct (memory_write _ _ _) as [i2|?] eqn:E3; simpl; [|done].
  destruct (call _ _ s2 _ _ _) as [[[n|err] i3] s3] eqn:E4; simpl.
  2:{ intros [= (-> & _ & [-> | (msg & -> & Hmsg)])%guest_error_timeout].
      - split; [done|]. apply call_interrupt in E4 as [k ?]. exists k. lia.
      - apply Hcall in E4. congruence. }
  destruct (Z.ltb_spec n 0); [done|]. destruct (0 <? n); simpl; [|done].
  by destruct (memory_read _ _ _).
Qed.

Lemma sandbox_timeout_sound_witness :
  @execute_sync_compiled echo_wasmtime (demo_exec 1) tt demo_config [Byte.x01] = Err (WTimeout 5000) /\
  5000 = cfg_timeout_ms demo_config.
Proof.
  split; [vm_compute; reflexivity|].
  refine (proj1 (@sandbox_timeout_sound echo_wasmtime (demo_exec 1) tt demo_config [Byte.x01] 5000 _ _
    ltac:(vm_compute; reflexivity))).
  - intros lim ep s i f a msg i' s' H. simpl in H. unfold echo_call in H.
    destruct (epoch_deadline s <=? ep 0%nat); [discriminate H|].
    destruct a as [|x [|y [|z l]]]; discriminate H.
  - intros lim ep s m' msg s' H. simpl in H. unfold echo_instantiate in H.
    destruct (lim 4 (limit s)) as [[] l]; [discriminate H|]. injection H as <- _. reflexivity.
Defined.

(** C34. Timeouts are enforced on guests that are already running, and not only on
    the one that is late: the epoch belongs to the engine all tasks of a node
    share, so when the timer of any run goes off, every run whose store exists,
    the timer's own included, is at its deadline and is interrupted at its next
    epoch check, however much of its own budget is left. *)
Theorem timer_interrupts_every_run ops s i now s' j :
  epoch_run ops idle_engine = Some s -> epoch_step (EFire i now) s = Some s' ->
  executing s j -> interrupted s' j.
Proof.
  intros Hrun. apply fire_interrupts. by eapply epoch_run_near, idle_near.
Qed.

(** Run 1 has ten minutes and is stopped by run 0's five milliseconds. *)
Lemma timer_interrupts_every_run_witness :
  exists s s', epoch_run [ESpawn 0 0 5; ESpawn 1 0 600000; EBegin 0; EBegin 1] idle_engine = Some s /\
    epoch_step (EFire 0 (from_millis 5)) s = Some s' /\ interrupted s' 1.
Proof.
  do 2 eexists. split; [reflexivity|]. split; [reflexivity|].
  refine (timer_interrupts_every_run [ESpawn 0 0 5; ESpawn 1 0 600000; EBegin 0; EBegin 1]
    _ 0 (from_millis 5) _ 1 eq_refl eq_refl _).
  eexists _, _. split; [reflexivity|]. split; reflexivity.
Defined.

(** An abandoned run strikes later. When the future of [execute] is dropped
    before its guest has returned (the caller of the RPC went away), its timer
    is never aborted: whatever happens in between, and even if the guest returned
    long ago, the timer still goes off at its time, and then every run whose
    store exists is at its deadline. *)
Theorem orphan_timer_interrupts_all ops0 s i r t s1 ops s2 now :
  epoch_run ops0 idle_engine = Some s -> runs s !! i = Some r -> timer r = Armed t ->
  epoch_step (EDrop i) s = Some s1 -> epoch_run ops s1 = Some s2 ->
  Forall (fun op => forall now', op <> EFire i now') ops -> t <= now ->
  exists s3, epoch_step (EFire i now) s2 = Some s3 /\ forall j, executing s2 j -> interrupted s3 j.
Proof.
  intros Hrun0 Hr Ht Hdrop Hrun Hops Hnow.
  assert (orphan i t s1) as (r2 & Hr2 & Ht2 & _)%(epoch_run_orphan _ _ _ _ _ Hrun Hops).
  { simpl in Hdrop. rewrite Hr in Hdrop. simpl in Hdrop. case_match; simplify_eq/=.
    eexists. simpl. rewrite lookup_insert_eq. by split_and!. }
  assert (deadlines_near s2) as Hnear.
  { eapply epoch_run_near, epoch_step_near; [done|done|]. by eapply epoch_run_near, idle_near. }
  assert (exists s3, epoch_step (EFire i now) s2 = Some s3) as [s3 Hs3].
  { simpl. rewrite Hr2. simpl. rewrite Ht2. rewrite (proj2 (Z.leb_le _ _)) by done. eauto. }
  exists s3. split; [done|]. intros j. by apply (fire_interrupts s2 i now).
Qed.

(** Run 0 was dropped and has returned; at its fifth millisecond run 1, with ten
    minutes, is interrupted. *)
Lemma orphan_timer_interrupts_all_witness :
  exists s2 s3, epoch_run [ESpawn 0 0 5; EBegin 0; EDrop 0; EFinish 0 false; ESpawn 1 0 600000; EBegin 1] idle_engine = Some s2 /\
    epoch_step (EFire 0 (from_millis 5)) s2 = Some s3 /\ interrupted s3 1.
Proof.
  edestruct (orphan_timer_interrupts_all [ESpawn 0 0 5; EBegin 0] _ 0 _ (from_millis 5) _
    [EFinish 0 false; ESpawn 1 0 600000; EBegin 1] _ (from_millis 5) eq_refl eq_refl eq_refl eq_refl eq_refl)
    as (s3 & H3 & Hall).
  - repeat constructor; discriminate.
  - apply Z.le_refl.
  - eexists _, s3. split; [reflexivity|]. split; [exact H3|]. apply Hall.
    eexists _, _. split; [reflexivity|]. split; reflexivity.
Defined.

(** A guest that starts late escapes its timeout: when the timer goes off before
    the store exists (the blocking pool is busy, or compilation takes longer
    than the budget), the store gets a fresh deadline, and the guest is never
    interrupted until some other task's timer goes off. *)
Theorem late_start_escapes_timeout s i s1 ops s2 :
  epoch_step (EBegin i) s = Some s1 -> epoch_run ops s1 = Some s2 ->
  Forall (fun op => fires op = false) ops -> ~ interrupted s2 i.
Proof.
  intros Hb Hrun Hall. eapply epoch_run_quiet; [done|done|].
  simpl in Hb. destruct (runs s !! i) as [r|]; simplify_eq/=. case_decide; simplify_eq/=.
  rewrite interrupted_set_run, decide_True by done. simpl. naive_solver lia.
Qed.

(** The run's own timer has fired already and cannot fire again. *)
Lemma late_start_escapes_timeout_witness :
  exists s s1, epoch_run [ESpawn 0 0 5; EFire 0 (from_millis 5)] idle_engine = Some s /\
    epoch_step (EBegin 0) s = Some s1 /\ (forall now, epoch_step (EFire 0 now) s1 = None) /\
    (interrupted s1 0 -> False).
Proof.
  do 2 eexists. split; [reflexivity|]. split; [reflexivity|]. split; [reflexivity|].
  refine (late_start_escapes_timeout
    {| epoch := 1; runs := <[0%nat := {| timer := Fired; deadline := None; returned := false; awaited := true |}]> ∅ |}
    0 _ [] _ _ eq_refl (List.Forall_nil _)).
  reflexivity.
Defined.
