(* ===== verification/Engine.v ===== *)
(** * The WASM engine and what its configuration is for

    Models [crates/wasm-runtime/src/engine.rs]: [WasmEngine::new] configures
    wasmtime (a one-megabyte guest stack, optimising compilation, epoch
    interruption) and builds the one engine a node has. wasmtime's engines are
    the interface [WasmtimeEngine]; what the program relies on is that code of an
    engine configured with epoch interruption looks at the epoch when a function
    is entered and in every loop, and traps once the epoch has reached the store's
    deadline. That is what makes the timers of [Sandbox] stop a guest; the property
    is in [Guest], where there are guests that loop. *)

From S2P Require Import Prelude RustStd Common Sandbox.

(** ** wasmtime's configuration *)
Inductive OptLevel := OptNone | Speed | SpeedAndSize.

Record Config := {
  cf_max_wasm_stack : Z;
  cf_opt_level : OptLevel;
  cf_epoch_interruption : bool
}.

(** [Config::new()] with the documented defaults of the options used here. *)
Definition Config_new : Config :=
  {| cf_max_wasm_stack := 512 * 1024; cf_opt_level := Speed; cf_epoch_interruption := false |}.
Definition max_wasm_stack (n : Z) (c : Config) : Config :=
  {| cf_max_wasm_stack := n; cf_opt_level := cf_opt_level c; cf_epoch_interruption := cf_epoch_interruption c |}.
Definition cranelift_opt_level (o : OptLevel) (c : Config) : Config :=
  {| cf_max_wasm_stack := cf_max_wasm_stack c; cf_opt_level := o; cf_epoch_interruption := cf_epoch_interruption c |}.
Definition epoch_interruption (b : bool) (c : Config) : Config :=
  {| cf_max_wasm_stack := cf_max_wasm_stack c; cf_opt_level := cf_opt_level c; cf_epoch_interruption := b |}.

(** Engines, each with the compilation and execution of guests it provides;
    [checks] is the number of times a call looks at the epoch. *)
Class WasmtimeEngine := {
  WEngine : Type;
  engine_new : Config -> result string WEngine;
  runtime : WEngine -> Wasmtime;
  checks : forall e, Limiter -> Epochs -> StoreCtx -> @Inst (runtime e) -> string -> list Z -> nat;
  (** with epoch interruption, the first check is the entry of the function ... *)
  entry_checked : forall c e lim ep s i f a,
    engine_new c = Ok e -> cf_epoch_interruption c = true -> (0 < checks e lim ep s i f a)%nat;
  (** ... and a call returns a value only if no check saw the deadline reached *)
  value_in_time : forall c e lim ep s i f a v i' s' k,
    engine_new c = Ok e -> cf_epoch_interruption c = true ->
    @call (runtime e) lim ep s i f a = (Ok v, i', s') ->
    (k < checks e lim ep s i f a)%nat -> ep k < epoch_deadline s
}.

(** ** [WasmEngine::new] *)
Definition engine_config : Config :=
  epoch_interruption true (cranelift_opt_level Speed (max_wasm_stack (1024 * 1024) Config_new)).

Definition WasmEngine_new `{!WasmtimeEngine} : result string WEngine := engine_new engine_config.

(** An engine whose guests echo their input, for evaluations. *)
Definition echo_engine : WasmtimeEngine.
Proof.
  refine {| WEngine := unit; engine_new := fun _ => Ok tt; runtime := fun _ => echo_wasmtime;
    checks := fun _ _ _ _ _ _ _ => 1%nat |}.
  - intros. apply le_n.
  - intros c e lim ep s i f a v i' s' k _ _ Hcall Hk. simpl in Hcall. unfold echo_call in Hcall.
    destruct (Z.leb_spec (epoch_deadline s) (ep 0%nat)); [discriminate Hcall|].
    destruct k as [|k]; [assumption|exfalso; lia].
Defined.

(** ** Lemmas *)

(** The epoch never goes back, and every timer that goes off advances it. *)
Lemma epoch_step_mono op s s' :
  epoch_step op s = Some s' -> epoch s + (if fires op then 1 else 0) <= epoch s'.
Proof.
  intros Hstep. destruct op as [i now ms|i|i now|i p|i]; simpl in *;
    destruct (runs s !! i) as [r|]; simplify_eq/=; repeat (case_match || case_decide); simplify_eq/=; lia.
Qed.

Lemma epoch_run_fired ops s s' :
  epoch_run ops s = Some s' -> epoch s + (if existsb fires ops then 1 else 0) <= epoch s'.
Proof.
  revert s. induction ops as [|op ops IH]; intros s Hrun; simplify_eq/=; [lia|].
  apply bind_Some in Hrun as (s1 & Hs1 & Hrun). apply IH in Hrun. apply epoch_step_mono in Hs1.
  destruct (fires op); simpl; destruct (existsb fires ops); lia.
Qed.

(** What [execute_sync_compiled] calls the guest function with, if it gets there:
    the store, the instance and the arguments. *)
Definition guest_entry `{!Wasmtime} (e : ExecEnv) (m : Module) (config : ExecutionConfig) (input : bytes)
    : option (StoreCtx * Inst * list Z) :=
  let store0 := {| limit := {| max_bytes := memory_limit_bytes config; denied := false |};
                   epoch_deadline := ep_now e + 1 |} in
  match linker_instantiate memory_growing (ep_instantiate e) store0 m with
  | (Ok i0, store1) =>
      match call memory_growing (ep_alloc e) store1 i0 "alloc" [as_i32 (Z.of_nat (length input))] with
      | (Ok ptr, i1, store2) =>
          match memory_write i1 (i32_as_usize ptr) input with
          | Ok i2 => Some (store2, i2, [ptr; as_i32 (Z.of_nat (length input))])
          | Err _ => None
          end
      | _ => None
      end
  | _ => None
  end.

(** A successful execution entered its function and no check there was late. *)
Lemma success_in_time `{!WasmtimeEngine} eng env m c inp r :
  WasmEngine_new = Ok eng -> @execute_sync_compiled (runtime eng) env m c inp = Ok r ->
  exists st i a, @guest_entry (runtime eng) env m c inp = Some (st, i, a) /\
    (0 < checks eng memory_growing (ep_process env) st i (cfg_function_name c) a)%nat /\
    forall k, (k < checks eng memory_growing (ep_process env) st i (cfg_function_name c) a)%nat ->
      ep_process env k < ep_now env + 1.
Proof.
  intros Heng Hok. apply (@execute_sync_compiled_Ok (runtime eng)) in Hok
    as (i0 & s1 & i1 & s2 & ptr & i2 & i3 & s3 & n & E1 & E2 & E3 & E4 & _).
  destruct (@instantiate_limited (runtime eng) _ _ _ _ _ E1) as [Hd1 _].
  destruct (@call_limited (runtime eng) _ _ _ _ _ _ _ _ E2) as [Hd2 _].
  exists s2, i2, [ptr; as_i32 (Z.of_nat (length inp))]. split_and!.
  - unfold guest_entry. by rewrite E1, E2, E3.
  - by apply (entry_checked engine_config).
  - intros k Hk. pose proof (value_in_time engine_config eng _ _ _ _ _ _ _ _ _ k Heng eq_refl E4 Hk) as Hlt.
    rewrite Hd2, Hd1 in Hlt. exact Hlt.
Qed.
