(* ===== verification/Guest.v ===== *)
(** * Guests

    The modules the repository itself runs: the echo module the load tester
    compiles ([services/load-tester/src/main.rs]) and the guests of
    [crates/wasm-runtime/src/tests.rs], as abstract syntax with an interpreter for
    the instructions they use: WebAssembly's structured control, memory growth
    through the store's limiter, and an epoch check at every function entry and
    loop header, as code compiled with epoch interruption has.

    [Runs] says that a wasmtime executes the module of some bytes as the
    interpreter does; [interp_wasmtime] is a wasmtime that does so for every
    module, and [interp_engine] the engine to it, so the laws of [Wasmtime] and
    [WasmtimeEngine] are theorems there. The properties say how [execute] ends on
    these guests. *)

From S2P Require Import Prelude RustStd Common Sandbox Engine.

(** ** Modules *)

Inductive Instr :=
| I32Const (n : Z)
| LocalGet (i : nat)
| I32Eq
| MemoryGrow
| Unreachable
| If (body : list Instr)
| Loop (body : list Instr)
| Br (l : nat).

(** An exported function; parameters and the one result are [i32]. *)
Record Func := { fn_export : string; fn_params : nat; fn_body : list Instr }.

(** A module with one exported memory. *)
Record GuestModule := { gm_memory : string; gm_pages : Z; gm_funcs : list Func }.

Definition page_size : Z := 65536.

Definition alloc_zero : Func := {| fn_export := "alloc"; fn_params := 1; fn_body := [I32Const 0] |}.

(** The echo module: the output is the input, already at its address. *)
Definition echo_guest (pages : Z) : GuestModule :=
  {| gm_memory := "memory"; gm_pages := pages;
     gm_funcs := [alloc_zero; {| fn_export := "process"; fn_params := 2; fn_body := [LocalGet 1] |}] |}.

(** The module the load tester submits. *)
Definition load_guest : GuestModule := echo_guest 1.

Definition no_process_guest : GuestModule :=
  {| gm_memory := "memory"; gm_pages := 1; gm_funcs := [alloc_zero] |}.

Definition infinite_loop_guest : GuestModule :=
  {| gm_memory := "memory"; gm_pages := 1;
     gm_funcs := [alloc_zero;
       {| fn_export := "process"; fn_params := 2; fn_body := [Loop [Br 0]; I32Const 0] |}] |}.

Definition memory_grow_guest : GuestModule :=
  {| gm_memory := "memory"; gm_pages := 1;
     gm_funcs := [alloc_zero;
       {| fn_export := "process"; fn_params := 2;
          fn_body := [I32Const 1000; MemoryGrow; I32Const (-1); I32Eq; If [Unreachable]; I32Const 0] |}] |}.

(** ** The interpreter *)

(** Operand stack, linear memory, store, and the epoch checks made so far. *)
Record Machine := { g_stack : list Z; g_mem : bytes; g_store : StoreCtx; g_ticks : nat }.

Inductive Outcome := Done | Branch (l : nat) | Trapped (e : GuestError).

Definition set_stack (st : list Z) (s : Machine) : Machine :=
  {| g_stack := st; g_mem := g_mem s; g_store := g_store s; g_ticks := g_ticks s |}.
Definition push (v : Z) (s : Machine) : Machine := set_stack (v :: g_stack s) s.
Definition tick (s : Machine) : Machine :=
  {| g_stack := g_stack s; g_mem := g_mem s; g_store := g_store s; g_ticks := S (g_ticks s) |}.

(** Whether the check made now sees the deadline reached. *)
Definition late (ep : Epochs) (s : Machine) : bool := epoch_deadline (g_store s) <=? ep (g_ticks s).

Definition with_limit (l : LimitState) (s : StoreCtx) : StoreCtx :=
  {| limit := l; epoch_deadline := epoch_deadline s |}.

(** [memory.grow]: the old size in pages, or -1 when the limiter or the address
    space does not allow the new one. *)
Definition grow (lim : Limiter) (n : Z) (s : Machine) : Machine :=
  let old := Z.of_nat (length (g_mem s)) / page_size in
  let pages := old + as_u32 n in
  let '(ok, l) := lim (pages * page_size) (limit (g_store s)) in
  let s' := {| g_stack := g_stack s; g_mem := g_mem s; g_store := with_limit l (g_store s); g_ticks := g_ticks s |} in
  if ok && (pages <=? 65536) then
    push (as_i32 old)
      {| g_stack := g_stack s; g_mem := resize (Z.to_nat (pages * page_size)) Byte.x00 (g_mem s);
         g_store := g_store s'; g_ticks := g_ticks s |}
  else push (-1) s'.

(** Leaving a block of type [] -> [] whose operands start at [st]. *)
Definition leave (st : list Z) (r : Outcome * Machine) : Outcome * Machine :=
  match r with
  | (Branch 0, s) => (Done, set_stack st s)
  | (Branch (S l), s) => (Branch l, s)
  | _ => r
  end.

(** No answer means that [fuel] was too little, or that the body does not validate. *)
Fixpoint exec (fuel : nat) (lim : Limiter) (ep : Epochs) (locals : list Z) (code : list Instr) (s : Machine)
    : option (Outcome * Machine) :=
  match fuel with
  | O => None
  | S fuel' =>
      match code with
      | [] => Some (Done, s)
      | i :: rest =>
          '(o, s') ← match i with
            | I32Const n => Some (Done, push n s)
            | LocalGet k => v ← locals !! k; Some (Done, push v s)
            | I32Eq =>
                match g_stack s with
                | b :: a :: st => Some (Done, set_stack ((if decide (a = b) then 1 else 0) :: st) s)
                | _ => None
                end
            | MemoryGrow =>
                match g_stack s with n :: st => Some (Done, grow lim n (set_stack st s)) | _ => None end
            | Unreachable => Some (Trapped (GTrap "UnreachableCodeReached"), s)
            | If body =>
                match g_stack s with
                | c :: st =>
                    if decide (c = 0) then Some (Done, set_stack st s)
                    else r ← exec fuel' lim ep locals body (set_stack st s); Some (leave st r)
                | [] => None
                end
            | Loop body =>
                if late ep s then Some (Trapped GTrapInterrupt, tick s)
                else
                  r ← exec fuel' lim ep locals body (tick s);
                  match r with
                  | (Branch 0, s') => exec fuel' lim ep locals [Loop body] (set_stack (g_stack s) s')
                  | _ => Some (leave (g_stack s) r)
                  end
            | Br l => Some (Branch l, s)
            end;
          match o with Done => exec fuel' lim ep locals rest s' | _ => Some (o, s') end
      end
  end.

Definition find_func (g : GuestModule) (f : string) : option Func :=
  List.find (fun fn => bool_decide (fn_export fn = f)) (gm_funcs g).

Definition exports (g : GuestModule) (n : nat) (f : string) : bool :=
  match find_func g f with Some fn => Nat.eqb (fn_params fn) n | None => false end.

(** Calling an export: the epoch is checked at the entry. The last component is
    the number of checks made. *)
Definition call_guest (fuel : nat) (g : GuestModule) (lim : Limiter) (ep : Epochs) (s : StoreCtx) (mem : bytes)
    (f : string) (args : list Z) : option (result GuestError Z * bytes * StoreCtx * nat) :=
  fn ← find_func g f;
  let m := {| g_stack := []; g_mem := mem; g_store := s; g_ticks := 0 |} in
  if late ep m then Some (Err GTrapInterrupt, mem, s, 1%nat)
  else
    '(o, m') ← exec fuel lim ep args (fn_body fn) (tick m);
    match o, g_stack m' with
    | Trapped e, _ => Some (Err e, g_mem m', g_store m', g_ticks m')
    | _, v :: _ => Some (Ok v, g_mem m', g_store m', g_ticks m')
    | _, [] => None
    end.

Definition initial_bytes (g : GuestModule) : Z := gm_pages g * page_size.
Definition initial_memory (g : GuestModule) : bytes := replicate (Z.to_nat (initial_bytes g)) Byte.x00.

(** ** Wasmtimes that run a module *)

Definition in_bounds (mem : bytes) (off n : Z) : bool :=
  bool_decide (0 <= off /\ off + n <= Z.of_nat (length mem)).

(** wasmtime accepts and compiles [bin], and instances of it behave as the
    interpreter does on [g] for as long as [fuel] follows it; host accesses inside
    the memory succeed, others are refused. *)
Class Runs `{!Wasmtime} (fuel : nat) (bin : bytes) (g : GuestModule) := {
  run_module : Module;
  run_inst : Inst -> Prop;
  run_validate : validate bin = Ok ();
  run_compile : module_new bin = Ok run_module;
  run_instantiate : forall ep s, exists r,
    linker_instantiate memory_growing ep s run_module =
      (r, with_limit (memory_growing (initial_bytes g) (limit s)).2 s) /\
    if (memory_growing (initial_bytes g) (limit s)).1
    then exists i, r = Ok i /\ run_inst i /\ memory_data i = initial_memory g
    else exists msg, r = Err (GOther msg);
  run_func1 : forall i f, run_inst i -> has_func_i32_i32 i f = exports g 1 f;
  run_func2 : forall i f, run_inst i -> has_func_i32i32_i32 i f = exports g 2 f;
  run_memory : forall i f, run_inst i -> has_memory i f = bool_decide (f = gm_memory g);
  run_call : forall ep s i f a r mem' s' k, run_inst i ->
    call_guest fuel g memory_growing ep s (memory_data i) f a = Some (r, mem', s', k) ->
    exists i', call memory_growing ep s i f a = (r, i', s') /\ run_inst i' /\ memory_data i' = mem';
  run_write : forall i off b, run_inst i ->
    if in_bounds (memory_data i) off (Z.of_nat (length b))
    then exists i', memory_write i off b = Ok i' /\ run_inst i'
    else exists msg, memory_write i off b = Err msg;
  run_read : forall i off n, run_inst i ->
    if in_bounds (memory_data i) off n
    then exists b, memory_read i off n = Ok b else exists msg, memory_read i off n = Err msg
}.

(** ** The interpreter as a wasmtime *)

Definition interp_instantiate (lim : Limiter) (ep : Epochs) (s : StoreCtx) (g : GuestModule)
    : result GuestError (GuestModule * bytes) * StoreCtx :=
  let '(ok, l) := lim (initial_bytes g) (limit s) in
  (if ok then Ok (g, initial_memory g) else Err (GOther "memory minimum size exceeds memory limits"),
   with_limit l s).

(** A call that is not followed to its end is stopped, as by wasmtime's fuel. *)
Definition interp_call (fuel : nat) (lim : Limiter) (ep : Epochs) (s : StoreCtx) (i : GuestModule * bytes)
    (f : string) (a : list Z) : result GuestError Z * (GuestModule * bytes) * StoreCtx :=
  match call_guest fuel i.1 lim ep s i.2 f a with
  | Some (r, mem', s', _) => (r, (i.1, mem'), s')
  | None => (Err (GTrap "OutOfFuel"), i, s)
  end.

(** ** Lemmas on the limiter *)

Lemma limiter_after_app reqs1 reqs2 l :
  limiter_after (reqs1 ++ reqs2) l = limiter_after reqs2 (limiter_after reqs1 l).
Proof. unfold limiter_after. by rewrite foldl_app. Qed.

Lemma granted_app reqs1 reqs2 l :
  granted (reqs1 ++ reqs2) l = granted reqs1 l ++ granted reqs2 (limiter_after reqs1 l).
Proof.
  revert l. induction reqs1 as [|d reqs1 IH]; intros l; [done|].
  change (limiter_after (d :: reqs1) l) with (limiter_after reqs1 (memory_growing d l).2).
  cbn [app granted]. destruct (memory_growing d l) as [[] l']; cbn [fst snd]; by rewrite IH.
Qed.

(** What a piece of guest code does to memory and store. *)
Definition limited (s s' : StoreCtx) (mem mem' : bytes) : Prop :=
  epoch_deadline s' = epoch_deadline s /\
  exists reqs, limit s' = limiter_after reqs (limit s) /\
    (length mem' = length mem \/ Z.of_nat (length mem') ∈ granted reqs (limit s)).

Lemma limited_refl s mem : limited s s mem mem.
Proof. split; [done|]. exists []. split; [done|by left]. Qed.

Lemma limited_trans s1 s2 s3 m1 m2 m3 : limited s1 s2 m1 m2 -> limited s2 s3 m2 m3 -> limited s1 s3 m1 m3.
Proof.
  intros [Hd1 (r1 & Hl1 & Hm1)] [Hd2 (r2 & Hl2 & Hm2)]. split; [congruence|]. exists (r1 ++ r2).
  rewrite limiter_after_app, granted_app, <- Hl1. split; [done|].
  destruct Hm2 as [->|Hm2]; [destruct Hm1 as [->|Hm1]; [by left|]|].
  - right. apply elem_of_app. by left.
  - right. apply elem_of_app. by right.
Qed.

Lemma grow_limited n s :
  limited (g_store s) (g_store (grow memory_growing n s)) (g_mem s) (g_mem (grow memory_growing n s)).
Proof.
  unfold grow. set (pages := _ + _). set (d := pages * page_size).
  destruct (memory_growing d (limit (g_store s))) as [ok l] eqn:E.
  assert (0 <= d) as Hd.
  { unfold d, pages, page_size, as_u32, u32_mod. pose proof (Z.mod_pos_bound n (2 ^ 32) ltac:(done)).
    pose proof (Z.div_pos (Z.of_nat (length (g_mem s))) 65536). lia. }
  destruct (ok && _) eqn:Eo; (split; [done|]); exists [d]; simpl; unfold limiter_after; simpl; rewrite E; (split; [done|]).
  - apply andb_true_iff in Eo as [-> _]. right. rewrite length_resize. simpl. rewrite Z2Nat.id by done. by left.
  - by left.
Qed.

(** ** Lemmas on the interpreter *)

(** What the steps of a guest preserve, its body preserves: an interrupt is the
    check of the state it leaves, everything else a sequence of steps. *)
Section exec_rel.
Context (lim : Limiter) (ep : Epochs) (R : Machine -> Machine -> Prop).
Context (R_refl : forall s, R s s) (R_trans : forall s1 s2 s3, R s1 s2 -> R s2 s3 -> R s1 s3).
Context (R_stack : forall st s, R s (set_stack st s)) (R_grow : forall n s, R s (grow lim n s)).
Context (R_tick : forall s, late ep s = false -> R s (tick s)).

Definition ends (s : Machine) (o : Outcome) (s' : Machine) : Prop :=
  match o with
  | Trapped GTrapInterrupt => exists s1, R s s1 /\ late ep s1 = true /\ s' = tick s1
  | _ => R s s'
  end.

Lemma ends_trans s s1 o s' : R s s1 -> ends s1 o s' -> ends s o s'.
Proof. unfold ends. intros Hr. destruct o as [| |[]]; try by eapply R_trans. naive_solver. Qed.

Lemma leave_ends s st o s1 : ends s o s1 -> ends s (leave st (o, s1)).1 (leave st (o, s1)).2.
Proof. destruct o as [|[|l]|e]; simpl; try done. intros Hr. by eapply R_trans. Qed.

Lemma exec_ends fuel locals code s o s' : exec fuel lim ep locals code s = Some (o, s') -> ends s o s'.
Proof.
  revert code s o s'. induction fuel as [|fuel IH]; intros code s o s' He; [done|].
  destruct code as [|i rest]; [by simplify_eq/=|]. simpl in He.
  apply bind_Some in He as ([o1 s1] & Hi & Hrest).
  assert (ends s o1 s1) as Hs1.
  { clear Hrest. destruct i as [n|k| | | |body|body|l]; simplify_eq/=; try done.
    - by apply R_stack.
    - apply bind_Some in Hi as (v & _ & [= <- <-]). by apply R_stack.
    - repeat case_match; simplify_eq. all: by apply R_stack.
    - repeat case_match; simplify_eq. all: by eapply R_trans; [apply R_stack|apply R_grow].
    - destruct (g_stack s) as [|c st]; [done|]. case_decide; simplify_eq; [by apply R_stack|].
      apply bind_Some in Hi as ([o2 s2] & Hb & Hl). apply IH in Hb. pose proof (leave_ends _ st _ _ Hb) as Hlv.
      apply (ends_trans _ _ _ _ (R_stack st s)) in Hlv. by destruct o2 as [|[|l]|e]; simplify_eq/=.
    - destruct (late ep s) eqn:Hlate; [simplify_eq; by exists s|].
      apply bind_Some in Hi as ([o2 s2] & Hb & Hl). apply IH in Hb.
      assert (ends s o2 s2) as Hs2 by (by eapply ends_trans; [apply R_tick|]).
      destruct o2 as [|[|l]|e]; simplify_eq/=; try done.
      apply IH in Hl. eapply ends_trans; [|exact Hl]. by eapply R_trans, R_stack. }
  destruct o1 as [|l|e]; simplify_eq; [|done..]. by eapply ends_trans, IH.
Qed.

End exec_rel.

Lemma exec_limited fuel ep locals code s o s' :
  exec fuel memory_growing ep locals code s = Some (o, s') ->
  limited (g_store s) (g_store s') (g_mem s) (g_mem s').
Proof.
  intros He. eapply (exec_ends memory_growing ep
    (fun s s' => limited (g_store s) (g_store s') (g_mem s) (g_mem s'))) in He.
  - destruct o as [| |[]]; try done. destruct He as (s1 & Hs1 & _ & ->). done.
  - intros. apply limited_refl.
  - intros s1 s2 s3. apply limited_trans.
  - intros. apply limited_refl.
  - intros. apply grow_limited.
  - intros. apply limited_refl.
Qed.

(** All checks so far were in time. *)
Definition in_time (ep : Epochs) (s s' : Machine) : Prop :=
  epoch_deadline (g_store s') = epoch_deadline (g_store s) /\ (g_ticks s <= g_ticks s')%nat /\
  forall k, (g_ticks s <= k < g_ticks s')%nat -> ep k < epoch_deadline (g_store s).

Lemma grow_frame lim n s : g_ticks (grow lim n s) = g_ticks s /\ epoch_deadline (g_store (grow lim n s)) = epoch_deadline (g_store s).
Proof. unfold grow. destruct (lim _ _) as [ok l]. by destruct (ok && _). Qed.

Lemma exec_in_time fuel lim ep locals code s o s' :
  exec fuel lim ep locals code s = Some (o, s') -> ends ep (in_time ep) s o s'.
Proof.
  apply exec_ends.
  - intros s0. split_and!; [done|done|lia].
  - intros s1 s2 s3 (Hd1 & Hle1 & Hk1) (Hd2 & Hle2 & Hk2). split_and!; [congruence|lia|]. intros k Hk.
    destruct (decide (k < g_ticks s2)%nat); [apply Hk1; lia|]. rewrite <- Hd1. apply Hk2. lia.
  - intros st s0. split_and!; [done|done|simpl; lia].
  - intros n s0. destruct (grow_frame lim n s0) as [Ht Hd]. unfold in_time. rewrite Ht. split_and!; [done|done|lia].
  - intros s0 Hl. unfold late in Hl. apply Z.leb_gt in Hl. split_and!; [done|simpl; lia|].
    simpl. intros k Hk. by replace k with (g_ticks s0) by lia.
Qed.

(** A call answers in one of three ways. *)
Lemma call_guest_inv fuel g lim ep s mem f a r mem' s' k :
  call_guest fuel g lim ep s mem f a = Some (r, mem', s', k) ->
  let m := {| g_stack := []; g_mem := mem; g_store := s; g_ticks := 0 |} in
  (epoch_deadline s <= ep 0%nat /\ r = Err GTrapInterrupt /\ mem' = mem /\ s' = s /\ k = 1%nat) \/
  (ep 0%nat < epoch_deadline s /\ exists fn o m', find_func g f = Some fn /\
     exec fuel lim ep a (fn_body fn) (tick m) = Some (o, m') /\
     mem' = g_mem m' /\ s' = g_store m' /\ k = g_ticks m' /\
     ((exists e, o = Trapped e /\ r = Err e) \/
      (exists v, (forall e, o <> Trapped e) /\ r = Ok v))).
Proof.
  intros Hc m. unfold call_guest in Hc. apply bind_Some in Hc as (fn & Hfn & Hc). fold m in Hc.
  unfold late in Hc. simpl in Hc.
  destruct (Z.leb_spec (epoch_deadline s) (ep 0%nat)) as [Hle|Hlt]; [simplify_eq; by left|].
  right. split; [done|]. apply bind_Some in Hc as ([o m'] & Hex & Hc). exists fn, o, m'.
  split; [done|]. split; [done|].
  destruct o as [|l|e]; [destruct (g_stack m')..|]; simplify_eq; (split_and!; [done..|]).
  - right. eexists. split; [intros e; discriminate|reflexivity].
  - right. eexists. split; [intros e; discriminate|reflexivity].
  - left. by exists e.
Qed.

Lemma call_guest_limited fuel g ep s mem f a r mem' s' k :
  call_guest fuel g memory_growing ep s mem f a = Some (r, mem', s', k) -> limited s s' mem mem'.
Proof.
  intros [(_ & _ & -> & -> & _)|(_ & fn & o & m' & _ & He & -> & -> & _)]%call_guest_inv; [apply limited_refl|].
  by apply exec_limited in He.
Qed.

Lemma call_guest_interrupt fuel g lim ep s mem f a mem' s' k :
  call_guest fuel g lim ep s mem f a = Some (Err GTrapInterrupt, mem', s', k) -> exists j, epoch_deadline s <= ep j.
Proof.
  intros [(Hle & _)|(_ & fn & o & m' & _ & He & _ & _ & _ & Ho)]%call_guest_inv; [by exists 0%nat|].
  destruct Ho as [(e & -> & [= <-])|(v & _ & [=])]. apply exec_in_time in He as (s1 & (Hd & _) & Hl & _).
  exists (g_ticks s1). unfold late in Hl. apply Z.leb_le in Hl. simpl in Hd. lia.
Qed.

(** A value comes only from a call all of whose checks were in time. *)
Lemma call_guest_in_time fuel g lim ep s mem f a v mem' s' k j :
  call_guest fuel g lim ep s mem f a = Some (Ok v, mem', s', k) -> (j < k)%nat -> ep j < epoch_deadline s.
Proof.
  intros [(_ & ? & _)|(H0' & fn & o & m' & _ & He & _ & _ & -> & Ho)]%call_guest_inv Hj; [done|].
  destruct Ho as [(e & _ & [=])|(v' & Hn & _)]. apply exec_in_time in He.
  assert (in_time ep (tick {| g_stack := []; g_mem := mem; g_store := s; g_ticks := 0 |}) m') as (_ & _ & Hk).
  { destruct o as [| |e]; [done..|]. by destruct (Hn e). }
  destruct j as [|j]; [done|]. apply Hk. simpl. lia.
Qed.

(** At least the entry is checked. *)
Lemma call_guest_checked fuel g lim ep s mem f a r mem' s' k :
  call_guest fuel g lim ep s mem f a = Some (r, mem', s', k) -> (0 < k)%nat.
Proof.
  intros [(_ & _ & _ & _ & ->)|(_ & fn & o & m' & _ & He & _ & _ & -> & _)]%call_guest_inv; [lia|].
  apply exec_in_time in He. destruct o as [| |[]]; simpl in He;
    try (destruct He as (_ & Hle & _); simpl in Hle; lia).
  destruct He as (s1 & _ & _ & ->). simpl. lia.
Qed.

Lemma initial_memory_length g : 0 <= gm_pages g -> Z.of_nat (length (initial_memory g)) = initial_bytes g.
Proof. intros H. unfold initial_memory, initial_bytes, page_size. rewrite length_replicate. lia. Qed.

(** ** The instances *)

Definition interp_write (i : GuestModule * bytes) (off : Z) (b : bytes) : result string (GuestModule * bytes) :=
  mem ← echo_write i.2 off b; Ok (i.1, mem).

(** [decode] is the binary format. *)
Definition interp_wasmtime (decode : bytes -> option GuestModule) (fuel : nat) : Wasmtime.
Proof.
  refine {| Module := GuestModule; Inst := GuestModule * bytes;
    validate := fun b => _ ← ok_or "not a module" (decode b); Ok ();
    module_new := fun b => ok_or "not a module" (decode b);
    linker_instantiate := interp_instantiate;
    has_func_i32_i32 := fun i => exports i.1 1; has_func_i32i32_i32 := fun i => exports i.1 2;
    has_memory := fun i f => bool_decide (f = gm_memory i.1);
    call := interp_call fuel; memory_data := snd;
    memory_write := interp_write; memory_read := fun i => echo_read i.2 |}.
  - intros ep s g r s' Hi. unfold interp_instantiate in Hi.
    destruct (memory_growing (initial_bytes g) (limit s)) as [ok l] eqn:E. injection Hi as <- <-.
    split; [done|]. exists [initial_bytes g]. unfold limiter_after. simpl. rewrite E. split; [done|].
    intros i. destruct ok; intros [= <-]. simpl. destruct (decide (0 <= gm_pages g)).
    + right. rewrite initial_memory_length by done. by left.
    + left. unfold initial_memory, initial_bytes, page_size. by rewrite Z2Nat.nonpos by lia.
  - intros ep s i f a r i' s' Hc. unfold interp_call in Hc.
    destruct (call_guest _ _ _ _ _ _ _ _) as [[[[r0 mem'] s0] k]|] eqn:E; injection Hc as <- <- <-.
    + by apply call_guest_limited in E.
    + apply limited_refl.
  - intros lim ep s i f a i' s' Hc. unfold interp_call in Hc.
    destruct (call_guest _ _ _ _ _ _ _ _) as [[[[r0 mem'] s0] k]|] eqn:E; [|done]. injection Hc as -> _ _.
    by eapply call_guest_interrupt.
  - intros lim ep s g s' Hi. unfold interp_instantiate in Hi. by destruct (lim _ _) as [[] l].
  - intros [g i] off b i' Hw. unfold interp_write, echo_write in Hw. case_decide as Hd; [|done]. injection Hw as <-.
    destruct Hd. by split_and!.
  - intros i off n b Hr. unfold echo_read in Hr. case_decide as Hd; [|done]. injection Hr as <-. destruct Hd. by split_and!.
Defined.

(** It runs every module its decoder knows. *)
Definition interp_runs (decode : bytes -> option GuestModule) (fuel : nat) (bin : bytes) (g : GuestModule) :
  decode bin = Some g -> @Runs (interp_wasmtime decode fuel) fuel bin g.
Proof.
  intros Hd. refine (@Build_Runs (interp_wasmtime decode fuel) fuel bin g g (fun i => i.1 = g) _ _ _ _ _ _ _ _ _); simpl.
  - by rewrite Hd.
  - by rewrite Hd.
  - intros ep s. unfold interp_instantiate. destruct (memory_growing _ _) as [[] l]; simpl; eexists; (split; [reflexivity|]); eauto.
  - by intros i f ->.
  - by intros i f ->.
  - by intros i f ->.
  - intros ep s [g' mem] f a r mem' s' k Hg Hc. simpl in *. subst g'. unfold interp_call. simpl. rewrite Hc. eauto.
  - intros [g' mem] off b Hg. simpl in Hg. subst g'. unfold in_bounds, interp_write, echo_write. simpl.
    case_bool_decide; case_decide; try done; eauto.
  - intros i off n _. unfold in_bounds, echo_read. simpl. case_bool_decide; case_decide; try done; eauto.
Defined.

Definition interp_checks (fuel : nat) (lim : Limiter) (ep : Epochs) (s : StoreCtx) (i : GuestModule * bytes)
    (f : string) (a : list Z) : nat :=
  match call_guest fuel i.1 lim ep s i.2 f a with Some (_, _, _, k) => k | None => 1%nat end.

(** The engine of the interpreter, whatever its configuration. *)
Definition interp_engine (decode : bytes -> option GuestModule) (fuel : nat) : WasmtimeEngine.
Proof.
  refine {| WEngine := unit; engine_new := fun _ => Ok (); runtime := fun _ => interp_wasmtime decode fuel;
    checks := fun _ => interp_checks fuel |}.
  - intros c e lim ep s i f a _ _. unfold interp_checks.
    destruct (call_guest _ _ _ _ _ _ _ _) as [[[[r mem'] s'] k]|] eqn:E; [|lia]. by eapply call_guest_checked.
  - intros c e lim ep s i f a v i' s' k _ _ Hc. simpl in Hc. unfold interp_call in Hc. unfold interp_checks.
    destruct (call_guest _ _ _ _ _ _ _ _) as [[[[r mem'] s0] n]|] eqn:E; [|done]. injection Hc as -> _ _.
    by eapply call_guest_in_time.
Defined.

(** ** Lemmas on executions of these guests *)
Section guest_runs.
Context `{!Wasmtime} (fuel : nat) (bin : bytes) (g : GuestModule) `{!Runs fuel bin g}.
Implicit Types (e : ExecEnv) (c : ExecutionConfig).

Definition fresh_store (e : ExecEnv) (c : ExecutionConfig) : StoreCtx :=
  {| limit := {| max_bytes := memory_limit_bytes c; denied := false |}; epoch_deadline := ep_now e + 1 |}.

(** How an execution ends before the function is called, if it does. *)
Definition start_error (msg : string) (e : ExecEnv) (c : ExecutionConfig) (inp : bytes) : option WasmError :=
  if memory_limit_bytes c <? initial_bytes g then Some MemoryLimitExceeded
  else if negb (exports g 2 (cfg_function_name c)) then Some (MissingExport (cfg_function_name c))
  else if ep_now e + 1 <=? ep_alloc e 0%nat then Some (WTimeout (cfg_timeout_ms c))
  else if initial_bytes g <? Z.of_nat (length inp) then Some (Io msg)
  else None.

(** The rest of an execution, once the input is in the memory of [i]. *)
Definition run_process (e : ExecEnv) (c : ExecutionConfig) (inp : bytes) (i : Inst) : result WasmError ExecutionResult :=
  let '(res, i3, store3) := call memory_growing (ep_process e) (fresh_store e c) i (cfg_function_name c)
    [0; as_i32 (Z.of_nat (length inp))] in
  n ← map_err (guest_error store3 (cfg_timeout_ms c)) res;
  if n <? 0 then Err (Io ("process returned negative length: " +:+ pretty n))
  else
    output ← (if 0 <? n then map_err Io (memory_read i3 (i32_as_usize 0) n) else Ok []);
    Ok {| er_output := output; er_execution_time_ms := as_millis (elapsed (ex_end e) (ex_start e)) mod u64_mod;
          memory_used_bytes := Z.of_nat (length (memory_data i3)) |}.

(** The [alloc] all these guests share. *)
Lemma alloc_zero_call ep s mem a :
  find_func g "alloc" = Some alloc_zero -> (2 <= fuel)%nat ->
  call_guest fuel g memory_growing ep s mem "alloc" [a] =
    Some (if epoch_deadline s <=? ep 0%nat then Err GTrapInterrupt else Ok 0, mem, s, 1%nat).
Proof.
  intros Hf Hfu. unfold call_guest. rewrite Hf. simpl. unfold late. simpl.
  destruct (epoch_deadline s <=? ep 0%nat); [done|].
  destruct fuel as [|[|fl]]; [lia|lia|]. done.
Qed.

Lemma guest_starts e c inp :
  find_func g "alloc" = Some alloc_zero -> gm_memory g = "memory" -> 0 <= gm_pages g -> (2 <= fuel)%nat ->
  exists msg, match start_error msg e c inp with
  | Some err => execute_sync e bin c inp = Err err
  | None => exists i, run_inst i /\ memory_data i = inp ++ drop (length inp) (initial_memory g) /\
      execute_sync e bin c inp = run_process e c inp i
  end.
Proof.
  intros Hal Hmem Hp Hfu. unfold execute_sync. rewrite run_validate. simpl. rewrite run_compile. simpl.
  unfold execute_sync_compiled. fold (fresh_store e c).
  destruct (run_instantiate (ep_instantiate e) (fresh_store e c)) as (r & -> & Hr).
  assert (memory_growing (initial_bytes g) (limit (fresh_store e c)) =
    if memory_limit_bytes c <? initial_bytes g
    then (false, {| max_bytes := memory_limit_bytes c; denied := true |}) else (true, limit (fresh_store e c))) as Hg
    by done.
  rewrite Hg in Hr. rewrite Hg. clear Hg. unfold start_error.
  destruct (memory_limit_bytes c <? initial_bytes g); cbn [fst snd] in Hr |- *.
  { destruct Hr as [msg ->]. exists EmptyString. done. }
  destruct Hr as (i & -> & Hi & Hdat). simpl. rewrite run_func1, run_func2, run_memory by done.
  assert (exports g 1 "alloc" = true) as -> by (unfold exports; by rewrite Hal).
  rewrite Hmem, bool_decide_true by done. simpl.
  destruct (exports g 2 (cfg_function_name c)); simpl; [|by exists EmptyString].
  change (with_limit _ (fresh_store e c)) with (fresh_store e c).
  destruct (run_call (ep_alloc e) (fresh_store e c) i "alloc" [as_i32 (Z.of_nat (length inp))] _ _ _ _ Hi
    (alloc_zero_call _ _ _ _ Hal Hfu)) as (i1 & -> & Hi1 & Hd1). simpl.
  destruct (ep_now e + 1 <=? ep_alloc e 0%nat); simpl; [by exists EmptyString|].
  pose proof (run_write i1 (i32_as_usize 0) inp Hi1) as Hw. unfold in_bounds in Hw.
  rewrite Hd1, Hdat, initial_memory_length in Hw by done. change (i32_as_usize 0) with 0 in *.
  destruct (Z.ltb_spec (initial_bytes g) (Z.of_nat (length inp))) as [Hlt|Hge].
  - rewrite bool_decide_false in Hw by lia. destruct Hw as [msg Hw]. exists msg. by rewrite Hw.
  - rewrite bool_decide_true in Hw by lia. destruct Hw as (i2 & Hw & Hi2). exists EmptyString, i2.
    split; [done|]. apply memory_write_ok in Hw as Hd2. destruct Hd2 as (_ & _ & Hd2).
    split; [by rewrite Hd2, Hd1, Hdat|]. by rewrite Hw.
Qed.

(** An execution whose call the interpreter follows to its end. *)
Lemma guest_finishes e c inp i r mem' s' k :
  run_inst i ->
  call_guest fuel g memory_growing (ep_process e) (fresh_store e c) (memory_data i) (cfg_function_name c)
    [0; as_i32 (Z.of_nat (length inp))] = Some (r, mem', s', k) ->
  match r with
  | Err err => run_process e c inp i = Err (guest_error s' (cfg_timeout_ms c) err)
  | Ok n => 0 <= n <= Z.of_nat (length mem') ->
      run_process e c inp i = Ok {| er_output := take (Z.to_nat n) mem';
        er_execution_time_ms := as_millis (elapsed (ex_end e) (ex_start e)) mod u64_mod;
        memory_used_bytes := Z.of_nat (length mem') |}
  end.
Proof.
  intros Hi Hc. destruct (run_call _ _ _ _ _ _ _ _ _ Hi Hc) as (i3 & Hcall & Hi3 & <-).
  unfold run_process. rewrite Hcall. destruct r as [n|err]; [|done]. simpl. intros [H0' Hn].
  rewrite (proj2 (Z.ltb_ge n 0)) by done. destruct (Z.ltb_spec 0 n) as [Hlt|Hge].
  - pose proof (run_read i3 (i32_as_usize 0) n Hi3) as Hr. change (i32_as_usize 0) with 0 in *. unfold in_bounds in Hr.
    rewrite bool_decide_true in Hr by lia. destruct Hr as [b Hb]. rewrite Hb. simpl.
    by apply memory_read_ok in Hb as (_ & _ & ->).
  - by replace n with 0 by lia.
Qed.

(** A guest of one page that exports process, called without input. *)
Lemma one_page_starts e c :
  find_func g "alloc" = Some alloc_zero -> gm_memory g = "memory" -> gm_pages g = 1 -> exports g 2 "process" = true ->
  (2 <= fuel)%nat -> page_size <= memory_limit_bytes c -> cfg_function_name c = "process" ->
  ep_alloc e 0%nat <= ep_now e ->
  exists i, run_inst i /\ Z.of_nat (length (memory_data i)) = page_size /\
    execute None e bin c [] = run_process e c [] i.
Proof.
  intros Hal Hmem Hp Hex Hf Hlim Hfn Hep.
  destruct (guest_starts e c []) as [msg Hst]; [done|done|lia|done|]. unfold start_error in Hst.
  assert (initial_bytes g = page_size) as Hb by (unfold initial_bytes; rewrite Hp; lia).
  rewrite Hfn, Hex, Hb, (proj2 (Z.ltb_ge _ _)), (proj2 (Z.leb_gt _ _)) in Hst by lia.
  destruct Hst as (i & Hi & Hd & He). exists i. split_and!; [done| |done].
  rewrite Hd. simpl. rewrite drop_0, initial_memory_length by lia. done.
Qed.

End guest_runs.

(** *** The echo guest *)

Lemma echo_exports pages f : exports (echo_guest pages) 2 f = bool_decide (f = "process").
Proof.
  unfold exports, find_func. cbn [gm_funcs echo_guest List.find alloc_zero fn_export].
  case_bool_decide as Ha; [subst f; done|]. case_bool_decide as Hp.
  - subst f. by rewrite bool_decide_true.
  - rewrite bool_decide_false; [done|congruence].
Qed.

Lemma echo_call_guest fuel pages ep s mem a b :
  (2 <= fuel)%nat ->
  call_guest fuel (echo_guest pages) memory_growing ep s mem "process" [a; b] =
    Some (if epoch_deadline s <=? ep 0%nat then Err GTrapInterrupt else Ok b, mem, s, 1%nat).
Proof.
  intros Hf. unfold call_guest. simpl. unfold late. simpl. destruct (epoch_deadline s <=? ep 0%nat); [done|].
  destruct fuel as [|[|fl]]; [lia|lia|]. done.
Qed.

Lemma as_i32_small n : 0 <= n < 2 ^ 31 -> as_i32 n = n.
Proof.
  intros Hn. unfold as_i32, u32_mod. rewrite Z.mod_small by lia. by rewrite (proj2 (Z.ltb_lt n _)) by lia.
Qed.

(** The call of process, with the input in the memory. *)
Lemma echo_process `{!Wasmtime} fuel bin pages `{!Runs fuel bin (echo_guest pages)} e c inp i :
  (2 <= fuel)%nat -> 0 < pages < 32768 -> cfg_function_name c = "process" ->
  Z.of_nat (length inp) <= pages * page_size -> run_inst i ->
  memory_data i = inp ++ drop (length inp) (initial_memory (echo_guest pages)) ->
  run_process e c inp i =
    if ep_now e + 1 <=? ep_process e 0%nat then Err (WTimeout (cfg_timeout_ms c))
    else Ok {| er_output := inp; er_execution_time_ms := as_millis (elapsed (ex_end e) (ex_start e)) mod u64_mod;
               memory_used_bytes := pages * page_size |}.
Proof.
  intros Hf Hp Hn Hle Hi Hd.
  assert (Z.of_nat (length (memory_data i)) = pages * page_size) as Hlen.
  { pose proof (initial_memory_length (echo_guest pages) ltac:(simpl; lia)) as Hl.
    change (initial_bytes (echo_guest pages)) with (pages * page_size) in Hl.
    rewrite Hd, length_app, length_drop. lia. }
  assert (as_i32 (Z.of_nat (length inp)) = Z.of_nat (length inp)) as Has.
  { apply as_i32_small. unfold page_size in *. lia. }
  pose proof (guest_finishes fuel bin (echo_guest pages) e c inp i _ _ _ _ Hi
    ltac:(rewrite Hn; by apply echo_call_guest)) as Hfin. simpl in Hfin.
  destruct (ep_now e + 1 <=? ep_process e 0%nat); [done|]. rewrite Hfin, Has, Hlen by (rewrite Has; lia).
  by rewrite Nat2Z.id, Hd, take_app_length.
Qed.

(** *** The spinning guest *)

(** The [n]-th check from here is the first that is late. *)
Lemma spin n fuel lim ep locals rest s :
  (forall j, (j < n)%nat -> ep (g_ticks s + j)%nat < epoch_deadline (g_store s)) ->
  epoch_deadline (g_store s) <= ep (g_ticks s + n)%nat -> (n + 2 <= fuel)%nat ->
  exists s', exec fuel lim ep locals (Loop [Br 0] :: rest) s = Some (Trapped GTrapInterrupt, s') /\
    g_mem s' = g_mem s /\ g_store s' = g_store s.
Proof.
  revert fuel rest s. induction n as [|n IH]; intros fuel rest s Hin Hlate Hf; (destruct fuel as [|fuel]; [lia|]).
  - exists (tick s). simpl. unfold late. rewrite Nat.add_0_r in Hlate. by rewrite (proj2 (Z.leb_le _ _)) by done.
  - destruct fuel as [|fuel]; [lia|].
    destruct (IH (S fuel) [] (set_stack (g_stack s) (tick s))) as (s' & He & Hm & Hs).
    + intros j Hj. simpl. replace (S (g_ticks s + j)) with (g_ticks s + S j)%nat by lia. apply Hin. lia.
    + simpl. by replace (S (g_ticks s + n)) with (g_ticks s + S n)%nat by lia.
    + lia.
    + exists s'. split; [|done]. remember (S fuel) as fl eqn:Hfl. simpl. unfold late.
      rewrite (proj2 (Z.leb_gt _ _)) by (specialize (Hin 0%nat); rewrite Nat.add_0_r in Hin; apply Hin; lia).
      rewrite Hfl at 1. simpl. rewrite He. done.
Qed.

Lemma infinite_loop_call n fuel ep s mem a b :
  (n + 2 <= fuel)%nat -> (forall j, (j < n)%nat -> ep j < epoch_deadline s) -> epoch_deadline s <= ep n ->
  exists mem' k, call_guest fuel infinite_loop_guest memory_growing ep s mem "process" [a; b] =
    Some (Err GTrapInterrupt, mem', s, k).
Proof.
  intros Hf Hin Hlate. unfold call_guest. simpl. unfold late. simpl. destruct n as [|n].
  - rewrite (proj2 (Z.leb_le _ _)) by done. eauto.
  - rewrite (proj2 (Z.leb_gt _ _)) by (apply Hin; lia).
    destruct (spin n fuel memory_growing ep [a; b] [I32Const 0]
      (tick {| g_stack := []; g_mem := mem; g_store := s; g_ticks := 0 |})) as (s' & Hs & Hm & Hst).
    + intros j Hj. simpl. apply Hin. lia.
    + done.
    + lia.
    + rewrite Hs. simpl. rewrite Hst. simpl. eauto.
Qed.

(** *** The growing guest *)

Lemma memory_grow_call fuel ep s mem a b :
  (8 <= fuel)%nat -> Z.of_nat (length mem) = page_size -> ep 0%nat < epoch_deadline s ->
  exists s' mem', call_guest fuel memory_grow_guest memory_growing ep s mem "process" [a; b] =
    Some (if max_bytes (limit s) <? 1001 * page_size then Err (GTrap "UnreachableCodeReached") else Ok 0, mem', s', 1%nat) /\
    if max_bytes (limit s) <? 1001 * page_size then denied (limit s') = true
    else Z.of_nat (length mem') = 1001 * page_size.
Proof.
  intros Hf Hm Hep. do 8 (destruct fuel as [|fuel]; [lia|]).
  unfold call_guest. cbn [find_func memory_grow_guest gm_funcs List.find alloc_zero fn_export].
  rewrite bool_decide_false, bool_decide_true by done. unfold late. simpl.
  rewrite (proj2 (Z.leb_gt _ _)) by done.
  unfold grow. cbn [g_mem set_stack push tick g_stack g_store]. rewrite Hm.
  change (page_size / page_size + as_u32 1000) with 1001. unfold memory_growing.
  destruct (max_bytes (limit s) <? 1001 * page_size) eqn:E; simpl; do 2 eexists; (split; [reflexivity|]); [done|].
  simpl. rewrite length_resize. unfold page_size. lia.
Qed.

(** ** Properties *)

(** C20. The echo module under the sandbox. On a wasmtime that runs the echo module
    of some pages (the load tester's has one), an execution ends, for every limit,
    budget, function name, input and course of the epoch, in exactly one way:
    refused for its memory limit, for a function name other than process, timed
    out at the entry of either function, refused for an input larger than the
    memory, or else successful, with the input as its output and the initial
    memory as the memory used. *)
Theorem echo_guest_execution `{!Wasmtime} fuel bin pages `{!Runs fuel bin (echo_guest pages)} e c inp :
  (2 <= fuel)%nat -> 0 < pages < 32768 ->
  exists msg, execute None e bin c inp =
    if memory_limit_bytes c <? pages * page_size then Err MemoryLimitExceeded
    else if negb (bool_decide (cfg_function_name c = "process")) then Err (MissingExport (cfg_function_name c))
    else if ep_now e + 1 <=? ep_alloc e 0%nat then Err (WTimeout (cfg_timeout_ms c))
    else if pages * page_size <? Z.of_nat (length inp) then Err (Io msg)
    else if ep_now e + 1 <=? ep_process e 0%nat then Err (WTimeout (cfg_timeout_ms c))
    else Ok {| er_output := inp; er_execution_time_ms := as_millis (elapsed (ex_end e) (ex_start e)) mod u64_mod;
               memory_used_bytes := pages * page_size |}.
Proof.
  intros Hf Hp. destruct (guest_starts fuel bin (echo_guest pages) e c inp) as [msg Hst]; [done|done|simpl; lia|done|].
  exists msg. simpl. unfold start_error in Hst. rewrite echo_exports in Hst.
  change (initial_bytes (echo_guest pages)) with (pages * page_size) in Hst.
  destruct (memory_limit_bytes c <? pages * page_size); [done|].
  case_bool_decide as Hn; simpl in Hst |- *; [|done].
  destruct (ep_now e + 1 <=? ep_alloc e 0%nat); [done|].
  destruct (Z.ltb_spec (pages * page_size) (Z.of_nat (length inp))) as [|Hle]; [done|].
  destruct Hst as (i & Hi & Hd & ->). by rewrite (echo_process fuel bin pages).
Qed.

(** C21. Hostile and broken guests are contained. On a wasmtime that runs them,
    with at least the guest's one page allowed and alloc in time: the guest
    without process is reported as such; the guest that spins for ever is stopped
    with the timeout of its budget by the first epoch check that sees the
    deadline, however many loop iterations came before it; the guest that asks
    for a thousand more pages ends in MemoryLimitExceeded if the limit does not
    allow them, and otherwise succeeds with an empty output and the memory it was
    granted. *)
Theorem hostile_guests_contained `{!Wasmtime} fuel missing spinning growing
    `{!Runs fuel missing no_process_guest} `{!Runs fuel spinning infinite_loop_guest}
    `{!Runs fuel growing memory_grow_guest} e c :
  (8 <= fuel)%nat -> page_size <= memory_limit_bytes c -> cfg_function_name c = "process" ->
  ep_alloc e 0%nat <= ep_now e ->
  execute None e missing c [] = Err (MissingExport "process") /\
  (forall n, (n + 2 <= fuel)%nat -> (forall j, (j < n)%nat -> ep_process e j <= ep_now e) ->
     ep_now e < ep_process e n -> execute None e spinning c [] = Err (WTimeout (cfg_timeout_ms c))) /\
  (ep_process e 0%nat <= ep_now e ->
   execute None e growing c [] =
     if memory_limit_bytes c <? 1001 * page_size then Err MemoryLimitExceeded
     else Ok {| er_output := []; er_execution_time_ms := as_millis (elapsed (ex_end e) (ex_start e)) mod u64_mod;
                memory_used_bytes := 1001 * page_size |}).
Proof.
  intros Hf Hlim Hfn Hal. split_and!.
  - destruct (guest_starts fuel missing no_process_guest e c []) as [msg Hst]; [done|done|done|lia|].
    unfold start_error in Hst. rewrite Hfn, (proj2 (Z.ltb_ge _ _)) in Hst by exact Hlim. exact Hst.
  - intros n Hn Hin Hlate. destruct (one_page_starts fuel spinning infinite_loop_guest e c) as (i & Hi & _ & ->);
      [done..|lia|done|done|done|].
    destruct (infinite_loop_call n fuel (ep_process e) (fresh_store e c) (memory_data i) 0 0) as (mem' & k & Hc).
    + done.
    + intros j Hj. specialize (Hin j Hj). simpl. lia.
    + simpl. lia.
    + rewrite <- Hfn in Hc. exact (guest_finishes fuel spinning infinite_loop_guest e c [] i _ _ _ _ Hi Hc).
  - intros Hep. destruct (one_page_starts fuel growing memory_grow_guest e c) as (i & Hi & Hlen & ->);
      [done..|lia|done|done|done|].
    destruct (memory_grow_call fuel (ep_process e) (fresh_store e c) (memory_data i) 0 0) as (s' & mem' & Hc & Hr);
      [done|done|simpl; lia|].
    rewrite <- Hfn in Hc. pose proof (guest_finishes fuel growing memory_grow_guest e c [] i _ _ _ _ Hi Hc) as Hfin.
    simpl in Hr, Hfin. destruct (memory_limit_bytes c <? 1001 * page_size).
    + rewrite Hfin. unfold guest_error. by rewrite Hr.
    + rewrite Hfin by lia. by rewrite Hr.
Qed.

(** Four modules and names for them, for evaluations. *)
Definition demo_decode (b : bytes) : option GuestModule :=
  match b with
  | [Byte.x01] => Some load_guest
  | [Byte.x02] => Some no_process_guest
  | [Byte.x03] => Some infinite_loop_guest
  | [Byte.x04] => Some memory_grow_guest
  | _ => None
  end.
Definition guest_config : ExecutionConfig :=
  {| memory_limit_bytes := page_size; cfg_timeout_ms := 100; cfg_function_name := "process" |}.
(** The timer goes off at the third check of process. *)
Definition spinning_exec : ExecEnv :=
  {| ex_start := 0; ex_end := from_millis 3; ep_now := 0; ep_instantiate := fun _ => 0;
     ep_alloc := fun _ => 0; ep_process := fun k => if (k <=? 1)%nat then 0 else 1 |}.

Lemma echo_guest_execution_witness :
  exists r, @execute (interp_wasmtime demo_decode 8) None (demo_exec 0) [Byte.x01] guest_config
      [Byte.x68; Byte.x69] = Ok r /\ er_output r = [Byte.x68; Byte.x69].
Proof.
  destruct (@echo_guest_execution (interp_wasmtime demo_decode 8) 8 [Byte.x01] 1
    (interp_runs demo_decode 8 [Byte.x01] load_guest eq_refl) (demo_exec 0) guest_config [Byte.x68; Byte.x69]
    ltac:(lia) ltac:(lia)) as [msg H].
  eexists. split; [exact H|reflexivity].
Defined.

Lemma hostile_guests_contained_witness :
  @execute (interp_wasmtime demo_decode 8) None spinning_exec [Byte.x03] guest_config [] = Err (WTimeout 100) /\
  @execute (interp_wasmtime demo_decode 8) None spinning_exec [Byte.x04] guest_config [] = Err MemoryLimitExceeded.
Proof.
  destruct (@hostile_guests_contained (interp_wasmtime demo_decode 8) 8 [Byte.x02] [Byte.x03] [Byte.x04]
    (interp_runs demo_decode 8 [Byte.x02] no_process_guest eq_refl)
    (interp_runs demo_decode 8 [Byte.x03] infinite_loop_guest eq_refl)
    (interp_runs demo_decode 8 [Byte.x04] memory_grow_guest eq_refl) spinning_exec guest_config
    ltac:(lia) ltac:(unfold guest_config; simpl; lia) eq_refl ltac:(simpl; lia)) as (_ & Hspin & Hgrow).
  split; [apply (Hspin 2%nat); [lia| |reflexivity]|].
  - intros [|[|j]] Hj; [discriminate|discriminate|exfalso; lia].
  - rewrite Hgrow; [reflexivity|discriminate].
Defined.

(** C35. Timeouts stop guests. On the engine the node is started with: when the timer
    of any run goes off after the store of this run was created, and the guest
    function looks at the epoch once more after that, at any of the checks this very
    call makes (its entry, of which there is always one, or a loop header it comes
    to later), the execution does not succeed, whatever the guest is. So a
    success means that the call was made and that at each of its checks no timer had
    gone off since the store was created. *)
Theorem timer_stops_guest `{!WasmtimeEngine} eng env m c inp s :
  WasmEngine_new = Ok eng -> ep_now env = epoch s ->
  (forall st i a ops s' k, @guest_entry (runtime eng) env m c inp = Some (st, i, a) ->
     epoch_run ops s = Some s' -> existsb fires ops = true ->
     (k < checks eng memory_growing (ep_process env) st i (cfg_function_name c) a)%nat -> epoch s' <= ep_process env k ->
     forall r, @execute_sync_compiled (runtime eng) env m c inp <> Ok r) /\
  (forall r, @execute_sync_compiled (runtime eng) env m c inp = Ok r ->
     exists st i a, @guest_entry (runtime eng) env m c inp = Some (st, i, a) /\
       (0 < checks eng memory_growing (ep_process env) st i (cfg_function_name c) a)%nat /\
       forall k ops s', (k < checks eng memory_growing (ep_process env) st i (cfg_function_name c) a)%nat ->
         epoch_run ops s = Some s' -> ep_process env k = epoch s' -> existsb fires ops = false).
Proof.
  intros Heng Hnow. split.
  - intros st i a ops s' k Hent Hrun Hf Hk Hep r Hok.
    destruct (success_in_time eng env m c inp r Heng Hok) as (st' & i' & a' & Hent' & _ & Hin). simplify_eq.
    specialize (Hin k Hk). apply epoch_run_fired in Hrun. rewrite Hf in Hrun. lia.
  - intros r Hok. destruct (success_in_time eng env m c inp r Heng Hok) as (st & i & a & Hent & H0 & Hin).
    exists st, i, a. split_and!; [done..|]. intros k ops s' Hk Hrun Hep. specialize (Hin k Hk).
    apply epoch_run_fired in Hrun. destruct (existsb fires ops); [lia|done].
Qed.

(** A guest without memory that loops for ever; the timer goes off before its third
    check. *)
Definition spin_guest : GuestModule :=
  {| gm_memory := "memory"; gm_pages := 0; gm_funcs := gm_funcs infinite_loop_guest |}.
Definition spin_engine : WasmtimeEngine := interp_engine (fun _ => Some spin_guest) 8.

Lemma timer_stops_guest_witness :
  exists s s', epoch_run [ESpawn 0 0 5] idle_engine = Some s /\
    epoch_run [EBegin 0; EFire 0 (from_millis 5)] s = Some s' /\
    forall r, @execute_sync_compiled (@runtime spin_engine tt) spinning_exec spin_guest guest_config [] <> Ok r.
Proof.
  do 2 eexists. split; [reflexivity|]. split; [reflexivity|].
  refine (proj1 (@timer_stops_guest spin_engine tt spinning_exec spin_guest guest_config []
    {| epoch := 0; runs := <[0%nat := {| timer := Armed (from_millis 5); deadline := None; returned := false; awaited := true |}]> ∅ |}
    eq_refl eq_refl) _ _ _ [EBegin 0; EFire 0 (from_millis 5)] _ 2%nat eq_refl eq_refl eq_refl _ _).
  - vm_compute. lia.
  - vm_compute. discriminate.
Defined.
