(* ===== verification/ModuleCache.v ===== *)
(** * The cache of compiled modules

    Models [crates/wasm-runtime/src/cache.rs]. The [lru] crate is a parameter,
    [Lru]: its operations with the laws its documentation states, over a view of
    the contents from most to least recently used. [get_or_compile] takes the
    cache's mutex twice, with the compilation in between, so it is modelled by
    its two critical sections, [goc_lookup] and [goc_insert]; runs of the cache
    are sequences of critical sections of any number of calls ([cache_run]), and
    [get_or_compile] itself is their composition when nobody interferes. *)

From S2P Require Import Prelude RustStd Common Sandbox.

(** ** The lru crate *)

(** Association lists with the most recently used entry first. *)
Definition assoc {V} (k : string) (l : list (string * V)) : option V :=
  snd <$> head (filter (fun p => p.1 = k) l).
Definition remove_key {V} (k : string) (l : list (string * V)) : list (string * V) :=
  filter (fun p => p.1 <> k) l.

Class Lru (V : Type) := {
  LruCache : Type;
  lru_entries : LruCache -> list (string * V);
  lru_cap : LruCache -> nat;
  lru_new : nat -> LruCache;
  lru_len : LruCache -> nat;
  (** [get_mut] and the mutation made through the reference it returns *)
  lru_get_mut : string -> (V -> V) -> LruCache -> option V * LruCache;
  lru_pop : string -> LruCache -> option V * LruCache;
  lru_put : string -> V -> LruCache -> LruCache;
  lru_peek_lru : LruCache -> option (string * V);
  lru_new_spec : forall n, lru_entries (lru_new n) = [] /\ lru_cap (lru_new n) = n;
  lru_len_spec : forall l, lru_len l = length (lru_entries l);
  lru_get_mut_spec : forall k f l,
    (lru_get_mut k f l).1 = assoc k (lru_entries l) /\
    lru_cap (lru_get_mut k f l).2 = lru_cap l /\
    lru_entries (lru_get_mut k f l).2 =
      match assoc k (lru_entries l) with
      | Some v => (k, f v) :: remove_key k (lru_entries l)
      | None => lru_entries l
      end;
  lru_pop_spec : forall k l,
    (lru_pop k l).1 = assoc k (lru_entries l) /\
    lru_cap (lru_pop k l).2 = lru_cap l /\
    lru_entries (lru_pop k l).2 = remove_key k (lru_entries l);
  (** an existing key is updated; a new one pushes out the least recently used
      entry when the cache is full *)
  lru_put_spec : forall k v l,
    lru_cap (lru_put k v l) = lru_cap l /\
    lru_entries (lru_put k v l) =
      (k, v) :: match assoc k (lru_entries l) with
                | Some _ => remove_key k (lru_entries l)
                | None => take (lru_cap l - 1) (lru_entries l)
                end;
  lru_peek_lru_spec : forall l, lru_peek_lru l = last (lru_entries l)
}.

(** ** Data *)
Section cache_defs.
Context `{!Wasmtime}.

Record CachedModule := {
  cm_module : Module;
  cached_at : Instant;
  hit_count : Z;
  wasm_bytes : Z
}.

Record CacheStats := {
  cs_size : Z;
  hits : Z;
  misses : Z;
  evictions : Z;
  cs_total_wasm_bytes : Z
}.

Definition CacheStats_default : CacheStats :=
  {| cs_size := 0; hits := 0; misses := 0; evictions := 0; cs_total_wasm_bytes := 0 |}.

Inductive LookupResult := Hit (m : Module) | Expired | Miss.

Context `{!Lru CachedModule}.

Record CacheInner := { lru : LruCache; stats_ : CacheStats; total_wasm_bytes : Z }.
Record CompiledModuleCache := { inner : CacheInner; ttl : Duration }.

Definition new_with_ttl (max_size : nat) (t : Duration) : CompiledModuleCache :=
  {| inner := {| lru := lru_new (max_size `max` 1); stats_ := CacheStats_default;
                 total_wasm_bytes := 0 |};
     ttl := t |}.

Definition cache_new (max_size : nat) (ttl_secs : Z) : CompiledModuleCache :=
  new_with_ttl max_size (from_secs ttl_secs).

(** ** Operations *)

Definition inc_hits (s : CacheStats) : CacheStats :=
  {| cs_size := cs_size s; hits := u64_add (hits s) 1; misses := misses s;
     evictions := evictions s; cs_total_wasm_bytes := cs_total_wasm_bytes s |}.
Definition inc_misses (s : CacheStats) : CacheStats :=
  {| cs_size := cs_size s; hits := hits s; misses := u64_add (misses s) 1;
     evictions := evictions s; cs_total_wasm_bytes := cs_total_wasm_bytes s |}.
Definition inc_evictions (s : CacheStats) : CacheStats :=
  {| cs_size := cs_size s; hits := hits s; misses := misses s;
     evictions := u64_add (evictions s) 1; cs_total_wasm_bytes := cs_total_wasm_bytes s |}.

Definition fresh (now : Instant) (t : Duration) (e : CachedModule) : bool :=
  elapsed now (cached_at e) <? t.

Definition bump_hit (e : CachedModule) : CachedModule :=
  {| cm_module := cm_module e; cached_at := cached_at e; hit_count := u64_add (hit_count e) 1;
     wasm_bytes := wasm_bytes e |}.

(** The probe both lookups start with. *)
Definition probe (now : Instant) (t : Duration) (key : string) (i : CacheInner)
    : LookupResult * CacheInner :=
  let '(found, l') := lru_get_mut key (fun e => if fresh now t e then bump_hit e else e) (lru i) in
  let i' := {| lru := l'; stats_ := stats_ i; total_wasm_bytes := total_wasm_bytes i |} in
  match found with
  | None => (Miss, i')
  | Some e => if fresh now t e then (Hit (cm_module e), i') else (Expired, i')
  end.

(** Hit counting, or removal of an expired entry. *)
Definition settle (key : string) (r : LookupResult) (i : CacheInner) : option Module * CacheInner :=
  match r with
  | Hit m => (Some m, {| lru := lru i; stats_ := inc_hits (stats_ i);
                         total_wasm_bytes := total_wasm_bytes i |})
  | Expired =>
      let '(popped, l') := lru_pop key (lru i) in
      let total := match popped with
                   | Some e => saturating_sub (total_wasm_bytes i) (wasm_bytes e)
                   | None => total_wasm_bytes i
                   end in
      (None, {| lru := l'; stats_ := inc_evictions (stats_ i); total_wasm_bytes := total |})
  | Miss => (None, i)
  end.

Definition with_inner (i : CacheInner) (c : CompiledModuleCache) : CompiledModuleCache :=
  {| inner := i; ttl := ttl c |}.

Definition get_cached (now : Instant) (key : string) (c : CompiledModuleCache)
    : option Module * CompiledModuleCache :=
  let '(r, i1) := probe now (ttl c) key (inner c) in
  let '(m, i2) := settle key r i1 in
  (m, with_inner i2 c).

(** First critical section of [get_or_compile]: [Some] on a hit. *)
Definition goc_lookup (now : Instant) (key : string) (c : CompiledModuleCache)
    : option Module * CompiledModuleCache :=
  let '(r, i1) := probe now (ttl c) key (inner c) in
  let '(m, i2) := settle key r i1 in
  match m with
  | Some m => (Some m, with_inner i2 c)
  | None => (None, with_inner {| lru := lru i2; stats_ := inc_misses (stats_ i2);
                                 total_wasm_bytes := total_wasm_bytes i2 |} c)
  end.

(** The compilation, and the join error of a panicked compiler thread. *)
Definition compile (panic : option string) (b : bytes) : result WasmError Module :=
  match panic with
  | Some e => Err (CompilationFailed ("spawn_blocking panicked: " +:+ e))
  | None => map_err CompilationFailed (module_new b)
  end.

(** Second critical section of [get_or_compile]. *)
Definition goc_insert (now : Instant) (key : string) (b : bytes) (m : Module)
    (c : CompiledModuleCache) : CompiledModuleCache :=
  let i := inner c in
  let at_cap := (lru_len (lru i) =? lru_cap (lru i))%nat in
  let total :=
    if at_cap then
      match lru_peek_lru (lru i) with
      | Some (_, evicted) => saturating_sub (total_wasm_bytes i) (wasm_bytes evicted)
      | None => total_wasm_bytes i
      end
    else total_wasm_bytes i in
  let st := if at_cap then inc_evictions (stats_ i) else stats_ i in
  let wasm_size := Z.of_nat (length b) in
  with_inner
    {| lru := lru_put key {| cm_module := m; cached_at := now; hit_count := 0;
                             wasm_bytes := wasm_size |} (lru i);
       stats_ := st;
       total_wasm_bytes := u64_add total wasm_size |} c.

Definition get_or_compile (now1 now2 : Instant) (panic : option string) (key : string) (b : bytes)
    (c : CompiledModuleCache) : result WasmError Module * CompiledModuleCache :=
  let '(hit, c1) := goc_lookup now1 key c in
  match hit with
  | Some m => (Ok m, c1)
  | None =>
      match compile panic b with
      | Ok m => (Ok m, goc_insert now2 key b m c1)
      | Err e => (Err e, c1)
      end
  end.

Definition invalidate (key : string) (c : CompiledModuleCache) : CompiledModuleCache :=
  with_inner {| lru := (lru_pop key (lru (inner c))).2; stats_ := stats_ (inner c);
                total_wasm_bytes := total_wasm_bytes (inner c) |} c.

Definition stats (c : CompiledModuleCache) : CacheStats :=
  let s := stats_ (inner c) in
  {| cs_size := Z.of_nat (lru_len (lru (inner c))); hits := hits s; misses := misses s;
     evictions := evictions s; cs_total_wasm_bytes := total_wasm_bytes (inner c) |}.

(** ** Runs *)

(** Critical sections of concurrent calls. *)
Inductive cache_op :=
| OGetCached (now : Instant) (key : string)
| OLookup (now : Instant) (key : string)
| OInsert (now : Instant) (key : string) (b : bytes) (m : Module)
| OInvalidate (key : string).

Definition cache_apply (c : CompiledModuleCache) (op : cache_op) : CompiledModuleCache :=
  match op with
  | OGetCached now key => (get_cached now key c).2
  | OLookup now key => (goc_lookup now key c).2
  | OInsert now key b m => goc_insert now key b m c
  | OInvalidate key => invalidate key c
  end.

Definition cache_run (ops : list cache_op) (c : CompiledModuleCache) : CompiledModuleCache :=
  foldl cache_apply c ops.

Definition entries (c : CompiledModuleCache) : list (string * CachedModule) :=
  lru_entries (lru (inner c)).
Definition capacity (c : CompiledModuleCache) : nat := lru_cap (lru (inner c)).

(** Whole calls, one after the other, with the number of failed ones. *)
Inductive cache_call :=
| CGetCached (now : Instant) (key : string)
| CGetOrCompile (now1 now2 : Instant) (panic : option string) (key : string) (b : bytes).

Definition apply_call (acc : CompiledModuleCache * nat) (call : cache_call)
    : CompiledModuleCache * nat :=
  let '(c, failed) := acc in
  match call with
  | CGetCached now key => ((get_cached now key c).2, failed)
  | CGetOrCompile now1 now2 panic key b =>
      let '(r, c') := get_or_compile now1 now2 panic key b c in
      (c', match r with Ok _ => failed | Err _ => S failed end)
  end.

Definition run_calls (calls : list cache_call) (c : CompiledModuleCache) : CompiledModuleCache * nat :=
  foldl apply_call (c, 0%nat) calls.

(** ** Specification *)

(** The abstract cache: what was last compiled for each key, and when. *)
Definition spec_apply (m : gmap string (Instant * Module)) (op : cache_op)
    : gmap string (Instant * Module) :=
  match op with
  | OInsert now key _ md => <[key := (now, md)]> m
  | OInvalidate key => delete key m
  | _ => m
  end.
Definition spec_run (ops : list cache_op) : gmap string (Instant * Module) :=
  foldl spec_apply ∅ ops.

Definition op_key (op : cache_op) : string :=
  match op with
  | OGetCached _ k | OLookup _ k | OInsert _ k _ _ | OInvalidate k => k
  end.

(** An operation that leaves [key]'s entry, cached at [t], in place. *)
Definition spares (c : CompiledModuleCache) (key : string) (t : Instant) (op : cache_op) : Prop :=
  match op with
  | OGetCached now k | OLookup now k => k = key -> elapsed now t < ttl c
  | OInsert _ k _ _ | OInvalidate k => k <> key
  end.

(** Other keys an interleaving has used. *)
Definition touched (key : string) (ops : list cache_op) : gset string :=
  list_to_set (op_key <$> ops) ∖ {[key]}.

(** The contents agree with the abstract cache. *)
Definition represents (m : gmap string (Instant * Module)) (c : CompiledModuleCache) : Prop :=
  forall k e, assoc k (entries c) = Some e -> m !! k = Some (cached_at e, cm_module e).

(** [key]'s entry is present, behind entries with keys in [T] only. *)
Definition ahead (key : string) (t : Instant) (md : Module) (T : gset string)
    (c : CompiledModuleCache) : Prop :=
  exists l1 e l2, entries c = l1 ++ (key, e) :: l2 /\ (forall k, k ∈ l1.*1 -> k ∈ T) /\
    cached_at e = t /\ cm_module e = md.

Definition cached_bytes (c : CompiledModuleCache) : Z :=
  Z.of_nat (sum_list_with (fun p : string * CachedModule => Z.to_nat (wasm_bytes p.2)) (entries c)).

Record cache_wf (c : CompiledModuleCache) : Prop := {
  cwf_keys : NoDup (entries c).*1;
  cwf_size : (length (entries c) <= capacity c)%nat;
  cwf_cap : (1 <= capacity c)%nat;
  cwf_bytes : Forall (fun p => 0 <= wasm_bytes p.2) (entries c)
}.

(** The books are balanced: bytes, and misses against what became of them, with
    [k] misses neither cached nor evicted; [n] and [B] bound the counters. *)
Record accounted (c : CompiledModuleCache) (k : nat) (n B : Z) : Prop := {
  acc_wf : cache_wf c;
  acc_bytes : total_wasm_bytes (inner c) = cached_bytes c;
  acc_misses : misses (stats_ (inner c)) =
    Z.of_nat (length (entries c)) + evictions (stats_ (inner c)) + Z.of_nat k;
  acc_evictions : 0 <= evictions (stats_ (inner c));
  acc_n : misses (stats_ (inner c)) <= n;
  acc_B : cached_bytes c <= B
}.

Definition call_bytes (call : cache_call) : nat :=
  match call with CGetCached _ _ => 0%nat | CGetOrCompile _ _ _ _ b => length b end.

End cache_defs.

Arguments CachedModule {_}.
Arguments cache_op {_}.

(** The crate's behaviour on plain lists. *)
Definition list_lru (V : Type) : Lru V.
Proof.
  refine {| LruCache := (nat * list (string * V)); lru_entries := snd; lru_cap := fst;
    lru_new := fun n => (n, []); lru_len := fun l => length l.2;
    lru_get_mut := fun k f l =>
      (assoc k l.2, (l.1, match assoc k l.2 with Some v => (k, f v) :: remove_key k l.2 | None => l.2 end));
    lru_pop := fun k l => (assoc k l.2, (l.1, remove_key k l.2));
    lru_put := fun k v l =>
      (l.1, (k, v) :: match assoc k l.2 with Some _ => remove_key k l.2 | None => take (l.1 - 1) l.2 end);
    lru_peek_lru := fun l => last l.2 |}; done.
Defined.

(** ** Lemmas on association lists *)
Section assoc.
Context {V : Type}.
Implicit Types (l : list (string * V)) (k : string).

Lemma assoc_cons k k' v l : assoc k ((k', v) :: l) = if decide (k' = k) then Some v else assoc k l.
Proof. unfold assoc. rewrite filter_cons. simpl. by case_decide. Qed.

Lemma assoc_None k l : assoc k l = None <-> k ∉ l.*1.
Proof.
  induction l as [|[k' v] l IH]; [split; [intros _; apply not_elem_of_nil|done]|].
  rewrite assoc_cons. simpl. rewrite not_elem_of_cons. case_decide; naive_solver.
Qed.

Lemma assoc_app k l1 l2 : k ∉ l1.*1 -> assoc k (l1 ++ l2) = assoc k l2.
Proof.
  induction l1 as [|[k' v] l1 IH]; [done|]. simpl. rewrite assoc_cons, not_elem_of_cons.
  intros [? ?]. rewrite decide_False by done. by apply IH.
Qed.

Lemma assoc_split k v l :
  assoc k l = Some v -> exists l1 l2, l = l1 ++ (k, v) :: l2 /\ k ∉ l1.*1.
Proof.
  induction l as [|[k' v'] l IH]; [done|]. rewrite assoc_cons. case_decide as Hd.
  - intros [= ->]. subst. exists [], l. split; [done|apply not_elem_of_nil].
  - intros (l1 & l2 & -> & Hn)%IH. exists ((k', v') :: l1), l2. split; [done|].
    simpl. rewrite not_elem_of_cons. naive_solver.
Qed.

Lemma assoc_take k n l v : assoc k (take n l) = Some v -> assoc k l = Some v.
Proof.
  revert n. induction l as [|[k' v'] l IH]; intros [|n]; simpl; try done.
  rewrite !assoc_cons. case_decide; [done|]. apply IH.
Qed.

Lemma remove_key_id k l : k ∉ l.*1 -> remove_key k l = l.
Proof.
  unfold remove_key. induction l as [|[k' v] l IH]; [done|]. simpl.
  rewrite not_elem_of_cons, filter_cons. intros [? ?]. simpl.
  rewrite decide_True by naive_solver. f_equal. by apply IH.
Qed.

Lemma remove_key_split k v l1 l2 :
  NoDup (l1 ++ (k, v) :: l2).*1 -> remove_key k (l1 ++ (k, v) :: l2) = l1 ++ l2.
Proof.
  rewrite fmap_app. simpl. intros (H1 & H2 & H3)%NoDup_app. apply NoDup_cons in H3 as [H3 _].
  unfold remove_key. rewrite filter_app, filter_cons. simpl. rewrite decide_False by naive_solver.
  assert (k ∉ l1.*1) as Hk by (intros Hk; apply (H2 k Hk); by left).
  f_equal; by apply remove_key_id.
Qed.

Lemma remove_key_NoDup k l : NoDup l.*1 -> NoDup (remove_key k l).*1.
Proof. intros Hn. eapply sublist_NoDup; [exact Hn|]. apply fmap_sublist, sublist_filter. Qed.

Lemma elem_of_remove_key k k' l : k' ∈ (remove_key k l).*1 <-> k' <> k /\ k' ∈ l.*1.
Proof.
  unfold remove_key. rewrite !list_elem_of_fmap. setoid_rewrite list_elem_of_filter. naive_solver.
Qed.

Lemma assoc_remove_key k k' l : assoc k' (remove_key k l) = if decide (k' = k) then None else assoc k' l.
Proof.
  unfold remove_key. induction l as [|[k1 v] l IH]; [by case_decide|].
  rewrite filter_cons, assoc_cons. cbn [fst].
  destruct (decide (k1 <> k)) as [Hne|Heq]; [rewrite assoc_cons|]; rewrite IH; repeat case_decide; naive_solver.
Qed.

End assoc.

(** ** Lemmas on the operations *)
Section cache_lemmas.
Context `{!Wasmtime} `{!Lru CachedModule}.
Implicit Types (c : CompiledModuleCache).

(** What a lookup by [key] does to the contents. *)
Definition looked_up (now : Instant) (key : string) c : list (string * CachedModule) :=
  match assoc key (entries c) with
  | None => entries c
  | Some e => if fresh now (ttl c) e then (key, bump_hit e) :: remove_key key (entries c)
              else remove_key key (entries c)
  end.

Lemma remove_key_cons_same {V} k (v : V) l : remove_key k ((k, v) :: remove_key k l) = remove_key k l.
Proof.
  unfold remove_key. rewrite filter_cons. simpl. rewrite decide_False by naive_solver.
  rewrite list_filter_filter. apply list_filter_iff. naive_solver.
Qed.

(** Both lookups, by the entry they find. *)
Lemma probe_settle now t key i :
  let '(r, i1) := probe now t key i in
  let '(m, i2) := settle key r i1 in
  lru_cap (lru i2) = lru_cap (lru i) /\
  match assoc key (lru_entries (lru i)) with
  | None => m = None /\ lru_entries (lru i2) = lru_entries (lru i) /\ stats_ i2 = stats_ i /\
            total_wasm_bytes i2 = total_wasm_bytes i
  | Some e =>
      if fresh now t e
      then m = Some (cm_module e) /\
           lru_entries (lru i2) = (key, bump_hit e) :: remove_key key (lru_entries (lru i)) /\
           stats_ i2 = inc_hits (stats_ i) /\ total_wasm_bytes i2 = total_wasm_bytes i
      else m = None /\ lru_entries (lru i2) = remove_key key (lru_entries (lru i)) /\
           stats_ i2 = inc_evictions (stats_ i) /\
           total_wasm_bytes i2 = saturating_sub (total_wasm_bytes i) (wasm_bytes e)
  end.
Proof.
  unfold probe.
  destruct (lru_get_mut_spec key (fun e => if fresh now t e then bump_hit e else e) (lru i)) as (Hg1 & Hg2 & Hg3).
  destruct (lru_get_mut _ _ _) as [found l']. simpl in Hg1, Hg2, Hg3. subst found.
  destruct (assoc key (lru_entries (lru i))) as [e|] eqn:He; simpl; [|by split_and!].
  destruct (fresh now t e) eqn:Hf; simpl; [by split_and!|].
  destruct (lru_pop_spec key l') as (Hp1 & Hp2 & Hp3). destruct (lru_pop key l') as [popped l2].
  simpl in *. rewrite Hg3, assoc_cons, decide_True in Hp1 by done. subst popped.
  split; [congruence|]. split_and!; try done. rewrite Hp3, Hg3. apply remove_key_cons_same.
Qed.

Lemma get_cached_entries now key c :
  entries (get_cached now key c).2 = looked_up now key c /\
  capacity (get_cached now key c).2 = capacity c /\ ttl (get_cached now key c).2 = ttl c.
Proof.
  unfold get_cached, looked_up, entries, capacity.
  pose proof (probe_settle now (ttl c) key (inner c)) as H'.
  destruct (probe _ _ _ _) as [r i1]. destruct (settle _ _ _) as [m i2]. simpl.
  destruct H' as [? H']. split; [|done]. repeat case_match; naive_solver.
Qed.

Lemma goc_lookup_entries now key c :
  entries (goc_lookup now key c).2 = looked_up now key c /\
  capacity (goc_lookup now key c).2 = capacity c /\ ttl (goc_lookup now key c).2 = ttl c.
Proof.
  unfold goc_lookup, looked_up, entries, capacity.
  pose proof (probe_settle now (ttl c) key (inner c)) as H'.
  destruct (probe _ _ _ _) as [r i1]. destruct (settle _ _ _) as [m i2].
  destruct H' as [? H']. destruct m; simpl; (split; [|done]); repeat case_match; naive_solver.
Qed.

Lemma get_cached_result now key c :
  (get_cached now key c).1 =
    match assoc key (entries c) with
    | Some e => if fresh now (ttl c) e then Some (cm_module e) else None
    | None => None
    end.
Proof.
  unfold get_cached, entries.
  pose proof (probe_settle now (ttl c) key (inner c)) as H'.
  destruct (probe _ _ _ _) as [r i1]. destruct (settle _ _ _) as [m i2]. simpl.
  destruct H' as [? H']. repeat case_match; naive_solver.
Qed.

Lemma goc_insert_entries now key b m c :
  entries (goc_insert now key b m c) =
    (key, {| cm_module := m; cached_at := now; hit_count := 0; wasm_bytes := Z.of_nat (length b) |}) ::
    match assoc key (entries c) with
    | Some _ => remove_key key (entries c)
    | None => take (capacity c - 1) (entries c)
    end /\
  capacity (goc_insert now key b m c) = capacity c /\ ttl (goc_insert now key b m c) = ttl c.
Proof. unfold goc_insert, entries, capacity. simpl. by destruct (lru_put_spec key
  {| cm_module := m; cached_at := now; hit_count := 0; wasm_bytes := Z.of_nat (length b) |} (lru (inner c))). Qed.

Lemma invalidate_entries key c :
  entries (invalidate key c) = remove_key key (entries c) /\
  capacity (invalidate key c) = capacity c /\ ttl (invalidate key c) = ttl c.
Proof. unfold invalidate, entries, capacity. simpl. by destruct (lru_pop_spec key (lru (inner c))) as (_ & ? & ?). Qed.

(** *** Preservation of well-formedness *)

Lemma Forall_remove_key {V} (P : string * V -> Prop) k l : Forall P l -> Forall P (remove_key k l).
Proof.
  rewrite !Forall_forall. intros Hl p [_ Hp]%list_elem_of_filter. by apply Hl.
Qed.

Lemma length_remove_key {V} k (l : list (string * V)) : (length (remove_key k l) <= length l)%nat.
Proof. apply length_filter. Qed.

Lemma length_remove_key_present {V} k v (l : list (string * V)) :
  NoDup l.*1 -> assoc k l = Some v -> length l = S (length (remove_key k l)).
Proof.
  intros Hn (l1 & l2 & -> & _)%assoc_split. rewrite remove_key_split by done.
  rewrite !length_app. simpl. lia.
Qed.

(** Entries obtained by putting [key] in front of the others. *)
Lemma front_wf (key : string) e (l l' : list (string * CachedModule)) :
  NoDup l.*1 -> l' = remove_key key l -> NoDup ((key, e) :: l').*1.
Proof.
  intros Hn ->. simpl. apply NoDup_cons. rewrite elem_of_remove_key. split; [naive_solver|].
  by apply remove_key_NoDup.
Qed.

Lemma looked_up_wf now key c :
  cache_wf c -> NoDup (looked_up now key c).*1 /\ (length (looked_up now key c) <= length (entries c))%nat /\
  Forall (fun p => 0 <= wasm_bytes p.2) (looked_up now key c).
Proof.
  intros [Hk Hs _ Hb]. unfold looked_up. destruct (assoc key (entries c)) as [e|] eqn:He; [|done].
  pose proof (length_remove_key_present _ _ _ Hk He) as Hlen.
  destruct (fresh now (ttl c) e).
  - split_and!; [by eapply front_wf|simpl; lia|]. constructor; [|by apply Forall_remove_key].
    apply assoc_split in He as (l1 & l2 & Heq & _). rewrite Heq in Hb.
    apply Forall_app in Hb as [_ Hb]. by apply Forall_cons in Hb as [Hb _].
  - split_and!; [by apply remove_key_NoDup|lia|by apply Forall_remove_key].
Qed.

Lemma cache_apply_wf c op : cache_wf c -> cache_wf (cache_apply c op).
Proof.
  intros Hwf. pose proof Hwf as [Hk Hs Hc Hb].
  destruct op as [now key|now key|now key b m|key]; simpl.
  - destruct (get_cached_entries now key c) as (He & Hcap & _).
    destruct (looked_up_wf now key c Hwf) as (H1' & H2' & H3').
    split; rewrite ?He, ?Hcap; try done. lia.
  - destruct (goc_lookup_entries now key c) as (He & Hcap & _).
    destruct (looked_up_wf now key c Hwf) as (H1' & H2' & H3').
    split; rewrite ?He, ?Hcap; try done. lia.
  - destruct (goc_insert_entries now key b m c) as (He & Hcap & _).
    split; rewrite ?He, ?Hcap; try done.
    + destruct (assoc key (entries c)) eqn:Ha; [by eapply front_wf|].
      simpl. apply assoc_None in Ha. apply NoDup_cons. rewrite fmap_take. split.
      * intros (i & Hi & _)%elem_of_take. apply Ha. by eapply list_elem_of_lookup_2.
      * eapply sublist_NoDup; [exact Hk|apply sublist_take].
    + destruct (assoc key (entries c)) eqn:Ha; simpl.
      * pose proof (length_remove_key_present _ _ _ Hk Ha). lia.
      * rewrite length_take. lia.
    + constructor; [simpl; lia|]. destruct (assoc _ _); [by apply Forall_remove_key|by apply Forall_take].
  - destruct (invalidate_entries key c) as (He & Hcap & _).
    split; rewrite ?He, ?Hcap; try done.
    + by apply remove_key_NoDup.
    + pose proof (length_remove_key key (entries c)). lia.
    + by apply Forall_remove_key.
Qed.

Lemma cache_run_wf ops c : cache_wf c -> cache_wf (cache_run ops c).
Proof.
  revert c. induction ops as [|op ops IH]; intros c Hwf; [done|].
  simpl. apply IH. by apply cache_apply_wf.
Qed.

Lemma new_wf n t : cache_wf (new_with_ttl n t).
Proof.
  destruct (lru_new_spec (n `max` 1)) as [He Hc].
  split; unfold entries, capacity; simpl; rewrite ?He, ?Hc; simpl; try lia; constructor.
Qed.

Lemma cache_apply_params c op : capacity (cache_apply c op) = capacity c /\ ttl (cache_apply c op) = ttl c.
Proof.
  destruct op as [now key|now key|now key b m|key]; simpl.
  - by destruct (get_cached_entries now key c) as (_ & ? & ?).
  - by destruct (goc_lookup_entries now key c) as (_ & ? & ?).
  - by destruct (goc_insert_entries now key b m c) as (_ & ? & ?).
  - by destruct (invalidate_entries key c) as (_ & ? & ?).
Qed.

Lemma cache_run_params ops c : capacity (cache_run ops c) = capacity c /\ ttl (cache_run ops c) = ttl c.
Proof.
  revert c. induction ops as [|op ops IH]; intros c; [done|]. simpl.
  destruct (IH (cache_apply c op)) as [-> ->]. apply cache_apply_params.
Qed.

(** *** Agreement with the abstract cache *)

Lemma looked_up_assoc now key c k e' :
  assoc k (looked_up now key c) = Some e' ->
  exists e, assoc k (entries c) = Some e /\ cached_at e' = cached_at e /\ cm_module e' = cm_module e.
Proof.
  unfold looked_up. destruct (assoc key (entries c)) as [e|] eqn:He; [|naive_solver].
  destruct (fresh now (ttl c) e); rewrite ?assoc_cons, ?assoc_remove_key; repeat case_decide; naive_solver.
Qed.

Lemma cache_apply_represents m c op :
  represents m c -> represents (spec_apply m op) (cache_apply c op).
Proof.
  intros Hrep k e'. destruct op as [now key|now key|now key b md|key]; simpl.
  - destruct (get_cached_entries now key c) as (-> & _).
    intros (e & He & -> & ->)%looked_up_assoc. by apply Hrep.
  - destruct (goc_lookup_entries now key c) as (-> & _).
    intros (e & He & -> & ->)%looked_up_assoc. by apply Hrep.
  - destruct (goc_insert_entries now key b md c) as (-> & _). rewrite assoc_cons, lookup_insert.
    case_decide; [intros [= <-]; done|]. intros He. apply Hrep.
    destruct (assoc key (entries c)); [|by eapply assoc_take].
    rewrite assoc_remove_key in He. by case_decide.
  - destruct (invalidate_entries key c) as (-> & _). rewrite assoc_remove_key, lookup_delete.
    repeat case_decide; [done|congruence|congruence|]. apply Hrep.
Qed.

Lemma cache_run_represents ops m c :
  represents m c -> represents (foldl spec_apply m ops) (cache_run ops c).
Proof.
  revert m c. induction ops as [|op ops IH]; intros m c Hrep; [done|].
  simpl. apply IH. by apply cache_apply_represents.
Qed.

Lemma new_represents n t : represents ∅ (new_with_ttl n t).
Proof.
  intros k e. unfold entries. simpl. by rewrite (proj1 (lru_new_spec (n `max` 1))).
Qed.

(** *** Retention *)

Lemma remove_key_app_ne {V} k k' (v : V) l1 l2 :
  k <> k' -> remove_key k (l1 ++ (k', v) :: l2) = remove_key k l1 ++ (k', v) :: remove_key k l2.
Proof.
  intros Hne. unfold remove_key. rewrite filter_app, filter_cons. simpl. by rewrite decide_True.
Qed.

(** Putting another key in front, or dropping it. *)
Lemma ahead_move key k t md T l1 e l2 x :
  k <> key -> (forall k, k ∈ l1.*1 -> k ∈ T) -> cached_at e = t -> cm_module e = md ->
  forall c', entries c' = x ++ remove_key k (l1 ++ (key, e) :: l2) ->
    (forall k', k' ∈ x.*1 -> k' = k) -> ahead key t md (T ∪ {[k]} ∖ {[key]}) c'.
Proof.
  intros Hne HT Ht Hm c' Hc' Hx. unfold ahead. rewrite Hc', remove_key_app_ne by done. rewrite app_assoc.
  do 3 eexists. split_and!; [reflexivity| |done|done].
  intros k'. rewrite fmap_app, elem_of_app, elem_of_remove_key.
  intros [->%Hx|[_ Hin%HT]]; set_solver.
Qed.

Lemma looked_up_ahead now key k t md T c c' :
  ahead key t md T c -> NoDup (entries c).*1 -> entries c' = looked_up now k c ->
  (k = key -> elapsed now t < ttl c) -> ahead key t md (T ∪ {[k]} ∖ {[key]}) c'.
Proof.
  intros (l1 & e & l2 & He & HT & Ht & Hm) Hn Hc' Hel. destruct (decide (k = key)) as [->|Hne].
  - assert (assoc key (entries c) = Some e) as Ha.
    { rewrite He in Hn |- *. rewrite fmap_app in Hn. apply NoDup_app in Hn as (_ & Hd & _).
      rewrite assoc_app; [by rewrite assoc_cons, decide_True|].
      intros Hin. apply (Hd key Hin). by left. }
    unfold looked_up in Hc'. rewrite Ha in Hc'. unfold fresh in Hc'.
    rewrite Ht, (proj2 (Z.ltb_lt _ _)) in Hc' by auto.
    exists [], (bump_hit e), (remove_key key (entries c)). split_and!; [done| |done|done].
    intros k' Hk'. by apply not_elem_of_nil in Hk'.
  - unfold looked_up in Hc'. destruct (assoc k (entries c)) as [e'|] eqn:Ha.
    + rewrite He in Hc'. destruct (fresh now (ttl c) e').
      * eapply (ahead_move key k t md T l1 e l2 [(k, bump_hit e')]); [done..|].
        intros k'. simpl. rewrite list_elem_of_singleton. done.
      * eapply (ahead_move key k t md T l1 e l2 []); [done..|].
        intros k' Hk'. by apply not_elem_of_nil in Hk'.
    + exists l1, e, l2. split_and!; [congruence| |done|done]. set_solver.
Qed.

Lemma insert_ahead now key k b m t md T c :
  ahead key t md T c -> NoDup (entries c).*1 -> k <> key ->
  (size (T ∪ {[k]} ∖ {[key]}) < capacity c)%nat ->
  ahead key t md (T ∪ {[k]} ∖ {[key]}) (goc_insert now k b m c).
Proof.
  intros (l1 & e & l2 & He & HT & Ht & Hm) Hn Hne Hsize.
  destruct (goc_insert_entries now k b m c) as (Hc' & _).
  destruct (assoc k (entries c)) as [e'|] eqn:Ha.
  - rewrite He in Hc'.
    eapply (ahead_move key k t md T l1 e l2 [(k, _)]); [done|done|done|done|exact Hc'|].
    intros k'. simpl. by rewrite list_elem_of_singleton.
  - apply assoc_None in Ha.
    assert (S (length l1) <= size (T ∪ {[k]} ∖ {[key]}))%nat as Hl1.
    { rewrite He, fmap_app in Hn, Ha. apply NoDup_app in Hn as (Hn1 & _ & _).
      trans (size (list_to_set (k :: l1.*1) : gset string)).
      - rewrite size_list_to_set; [simpl; by rewrite length_fmap|].
        apply NoDup_cons. split; [|done]. intros Hin. apply Ha. apply elem_of_app. by left.
      - apply subseteq_size. intros k'. rewrite elem_of_list_to_set, elem_of_cons.
        intros [->|Hin%HT]; set_solver. }
    rewrite He, take_app_ge in Hc' by lia.
    destruct (capacity c - 1 - length l1)%nat as [|n] eqn:En; [lia|]. simpl in Hc'.
    rewrite app_comm_cons in Hc'. do 3 eexists. split_and!; [exact Hc'| |done|done].
    intros k'. simpl. rewrite elem_of_cons. intros [->|Hin%HT]; set_solver.
Qed.

Lemma cache_apply_ahead op key t md T c :
  ahead key t md T c -> cache_wf c -> spares c key t op ->
  (size (T ∪ {[op_key op]} ∖ {[key]}) < capacity c)%nat ->
  ahead key t md (T ∪ {[op_key op]} ∖ {[key]}) (cache_apply c op).
Proof.
  intros Ha [Hn _ _ _] Hsp Hsize. destruct op as [now k|now k|now k b m|k]; simpl in *.
  - eapply looked_up_ahead; [done|done|apply get_cached_entries|done].
  - eapply looked_up_ahead; [done|done|apply goc_lookup_entries|done].
  - by apply insert_ahead.
  - destruct Ha as (l1 & e & l2 & He & HT & Ht & Hm).
    destruct (invalidate_entries k c) as (Hc' & _). rewrite He in Hc'.
    eapply (ahead_move key k t md T l1 e l2 []); [done..|].
    intros k' Hk'. by apply not_elem_of_nil in Hk'.
Qed.

Lemma cache_run_ahead ops key t md T c :
  ahead key t md T c -> cache_wf c -> Forall (spares c key t) ops ->
  (size (T ∪ touched key ops) < capacity c)%nat ->
  ahead key t md (T ∪ touched key ops) (cache_run ops c).
Proof.
  revert T c. induction ops as [|op ops IH]; intros T c Ha Hwf Hsp Hsize; simpl.
  { unfold touched. simpl. destruct Ha as (l1 & e & l2 & ? & ? & ? & ?).
    exists l1, e, l2. split_and!; try done. set_solver. }
  apply Forall_cons in Hsp as [Hop Hsp].
  destruct (cache_apply_params c op) as [Hcap Httl].
  assert (T ∪ touched key (op :: ops) = (T ∪ {[op_key op]} ∖ {[key]}) ∪ touched key ops) as Heq.
  { unfold touched. simpl. set_solver. }
  rewrite Heq in Hsize |- *. apply IH.
  - apply cache_apply_ahead; try done. eapply Nat.le_lt_trans; [|exact Hsize]. apply subseteq_size. set_solver.
  - by apply cache_apply_wf.
  - eapply Forall_impl; [exact Hsp|]. intros op' Hop'. unfold spares in *. by rewrite Httl.
  - by rewrite Hcap.
Qed.

(** *** Accounting *)

Definition bytes_of (l : list (string * CachedModule)) : nat :=
  sum_list_with (fun p => Z.to_nat (wasm_bytes p.2)) l.

Lemma bytes_of_remove key e l :
  NoDup l.*1 -> assoc key l = Some e ->
  bytes_of l = (Z.to_nat (wasm_bytes e) + bytes_of (remove_key key l))%nat.
Proof.
  intros Hn (l1 & l2 & -> & _)%assoc_split. rewrite remove_key_split by done.
  unfold bytes_of. rewrite !sum_list_with_app. simpl. lia.
Qed.

Lemma entry_bytes_nonneg key e c : cache_wf c -> assoc key (entries c) = Some e -> 0 <= wasm_bytes e.
Proof.
  intros [_ _ _ Hb] (l1 & l2 & Heq & _)%assoc_split. rewrite Heq in Hb.
  apply Forall_app in Hb as [_ Hb]. by apply Forall_cons in Hb as [Hb _].
Qed.

(** A lookup balances the books of the entry it finds. *)
Lemma looked_up_accounted now key c k n B :
  accounted c k n B -> n < u64_mod ->
  let '(r, i1) := probe now (ttl c) key (inner c) in
  let '(m, i2) := settle key r i1 in
  accounted (with_inner i2 c) k n B /\ misses (stats_ i2) = misses (stats_ (inner c)) /\
  (m = None -> assoc key (lru_entries (lru i2)) = None).
Proof.
  intros [Hwf Hby Hmi Hev Hnn HB] Hlt.
  pose proof (cache_apply_wf c (OGetCached now key) Hwf) as Hwf'. simpl in Hwf'. unfold get_cached in Hwf'.
  pose proof (probe_settle now (ttl c) key (inner c)) as Hps.
  destruct (probe _ _ _ _) as [r i1]. destruct (settle _ _ _) as [m i2]. simpl in Hwf'.
  destruct Hps as [_ Hps]. pose proof (cwf_keys _ Hwf) as Hk.
  destruct (assoc key (lru_entries (lru (inner c)))) as [e|] eqn:He.
  - pose proof (entry_bytes_nonneg key e c Hwf He) as He0.
    pose proof (bytes_of_remove key e (entries c) Hk He) as Hrem.
    pose proof (length_remove_key_present _ _ _ Hk He) as Hlen.
    unfold cached_bytes, entries, bytes_of in *.
    destruct (fresh now (ttl c) e); destruct Hps as (-> & Hent & Hst & Htot).
    + split_and!; [|by rewrite Hst|done].
      split; unfold cached_bytes, entries; simpl; rewrite ?Hst, ?Htot, ?Hent; simpl; try done; lia.
    + assert (evictions (inc_evictions (stats_ (inner c))) = evictions (stats_ (inner c)) + 1) as Hevi.
      { simpl. apply u64_add_id; lia. }
      split_and!; [|by rewrite Hst|intros _; by rewrite Hent, assoc_remove_key, decide_True].
      split; unfold cached_bytes, entries; simpl; rewrite ?Hst, ?Htot, ?Hent, ?Hevi; simpl; try done;
        unfold saturating_sub; lia.
  - destruct Hps as (-> & Hent & Hst & Htot). split_and!; [|by rewrite Hst|by rewrite Hent].
    unfold cached_bytes, entries in *.
    split; unfold cached_bytes, entries; simpl; rewrite ?Hst, ?Htot, ?Hent; done.
Qed.

Lemma get_cached_accounted now key c k n B :
  accounted c k n B -> n < u64_mod -> accounted (get_cached now key c).2 k n B.
Proof.
  intros Ha Hlt. pose proof (looked_up_accounted now key c k n B Ha Hlt) as H'. unfold get_cached.
  destruct (probe _ _ _ _) as [r i1]. destruct (settle _ _ _) as [m i2]. by destruct H'.
Qed.

Lemma goc_lookup_accounted now key c k n B :
  accounted c k n B -> n + 1 < u64_mod ->
  match goc_lookup now key c with
  | (Some _, c') => accounted c' k n B
  | (None, c') => accounted c' (S k) (n + 1) B /\ assoc key (entries c') = None
  end.
Proof.
  intros Ha Hlt. pose proof (looked_up_accounted now key c k n B Ha ltac:(lia)) as H'.
  unfold goc_lookup. destruct (probe _ _ _ _) as [r i1]. destruct (settle _ _ _) as [[m|] i2].
  { by destruct H'. }
  destruct H' as ([Hwf Hby Hmi Hev Hnn HB] & Hmiss & Hnone). simpl in *.
  assert (misses (inc_misses (stats_ i2)) = misses (stats_ i2) + 1) as Hm.
  { simpl. apply u64_add_id; lia. }
  split; [|by apply Hnone]. destruct Hwf as [W1 W2 W3 W4].
  split; [split; done|..]; unfold entries in *; simpl in *; try done; lia.
Qed.

Lemma goc_insert_accounted now key b m c k n B :
  accounted c (S k) n B -> assoc key (entries c) = None ->
  B + Z.of_nat (length b) < u64_mod -> n < u64_mod ->
  accounted (goc_insert now key b m c) k n (B + Z.of_nat (length b)).
Proof.
  intros [Hwf Hby Hmi Hev Hnn HB] Hnone HBb Hn.
  pose proof (cache_apply_wf c (OInsert now key b m) Hwf) as Hwf'. simpl in Hwf'.
  destruct (goc_insert_entries now key b m c) as (Hent & _). rewrite Hnone in Hent.
  destruct Hwf as [_ Hsz Hcap Hbs].
  assert (length (entries (goc_insert now key b m c)) = S (length (take (capacity c - 1) (entries c)))) as Hlen
    by by rewrite Hent.
  assert (cached_bytes (goc_insert now key b m c) =
    Z.of_nat (length b) + Z.of_nat (bytes_of (take (capacity c - 1) (entries c)))) as Hcb.
  { unfold cached_bytes, bytes_of. rewrite Hent. simpl. lia. }
  rewrite length_take in Hlen. unfold goc_insert in *. rewrite lru_len_spec, lru_peek_lru_spec in *.
  change (lru_entries (lru (inner c))) with (entries c) in *. change (lru_cap (lru (inner c))) with (capacity c) in *.
  destruct (Nat.eqb_spec (length (entries c)) (capacity c)) as [Hfull|Hfree].
  - destruct (last (entries c)) as [[kl el]|] eqn:Hl.
    2:{ apply last_None in Hl. rewrite Hl in Hfull. simpl in Hfull. lia. }
    apply last_Some in Hl as [l' Hl].
    assert (take (capacity c - 1) (entries c) = l') as Htk.
    { rewrite Hl. apply take_app_length'. rewrite Hl, length_app in Hfull. simpl in Hfull. lia. }
    assert (cached_bytes c = Z.of_nat (bytes_of l') + wasm_bytes el) as Hbl.
    { unfold cached_bytes, bytes_of. rewrite Hl in Hbs |- *. apply Forall_app in Hbs as [_ Hbs].
      apply Forall_cons in Hbs as [? _]. rewrite sum_list_with_app. simpl in *. lia. }
    assert (0 <= wasm_bytes el) as Hel.
    { rewrite Hl in Hbs. apply Forall_app in Hbs as [_ Hbs]. by apply Forall_cons in Hbs as [? _]. }
    rewrite Htk in Hcb. split; [done|rewrite Hcb|..|rewrite Hcb; lia]; simpl.
    + rewrite Hby, Hbl. rewrite u64_add_id; unfold saturating_sub; lia.
    + unfold entries in *. simpl in *. rewrite u64_add_id; lia.
    + apply u64_add_range.
    + lia.
  - assert (take (capacity c - 1) (entries c) = entries c) as Htk by (apply take_ge; lia).
    rewrite Htk in Hcb. change (Z.of_nat (bytes_of (entries c))) with (cached_bytes c) in Hcb.
    split; [done|rewrite Hcb|..|rewrite Hcb; lia]; simpl.
    + rewrite Hby. assert (0 <= cached_bytes c) by (unfold cached_bytes; lia). rewrite u64_add_id; lia.
    + unfold entries in *. simpl in *. lia.
    + done.
    + lia.
Qed.

Lemma apply_call_accounted call c k n B :
  accounted c k n B -> n + 1 < u64_mod -> B + Z.of_nat (call_bytes call) < u64_mod ->
  accounted (apply_call (c, k) call).1 (apply_call (c, k) call).2 (n + 1) (B + Z.of_nat (call_bytes call)).
Proof.
  assert (forall c k n B n' B', accounted c k n B -> n <= n' -> B <= B' -> accounted c k n' B') as Hmono.
  { intros ? ? ? ? ? ? [? ? ? ? ? ?] ? ?. split; try done; lia. }
  intros Ha Hn HB. destruct call as [now key|now1 now2 panic key b]; simpl in *.
  - eapply Hmono; [by apply get_cached_accounted; [exact Ha|lia]|lia|lia].
  - unfold get_or_compile. pose proof (goc_lookup_accounted now1 key c k n B Ha Hn) as Hl.
    destruct (goc_lookup now1 key c) as [[m|] c1]; [eapply Hmono; [done|lia|lia]|].
    destruct Hl as [Hl Hnone]. destruct (compile panic b) as [m|err]; simpl.
    + by apply goc_insert_accounted.
    + eapply Hmono; [done|lia|lia].
Qed.

Lemma run_calls_accounted calls c k n B :
  accounted c k n B -> n + Z.of_nat (length calls) < u64_mod ->
  B + Z.of_nat (sum_list_with call_bytes calls) < u64_mod ->
  exists n' B', accounted (foldl apply_call (c, k) calls).1 (foldl apply_call (c, k) calls).2 n' B'.
Proof.
  revert c k n B. induction calls as [|call calls IH]; intros c k n B Ha Hn HB; [by eauto|].
  cbn [foldl sum_list_with length] in *.
  pose proof (apply_call_accounted call c k n B Ha ltac:(lia) ltac:(lia)) as Ha'.
  destruct (apply_call (c, k) call) as [c' k']. simpl in Ha'.
  eapply IH; [exact Ha'|lia|lia].
Qed.

(** *** Single operations on small caches *)

Lemma goc_lookup_empty now key c :
  entries c = [] -> entries (goc_lookup now key c).2 = [] /\
  total_wasm_bytes (inner (goc_lookup now key c).2) = total_wasm_bytes (inner c) /\
  capacity (goc_lookup now key c).2 = capacity c.
Proof.
  intros Hc. pose proof (goc_lookup_entries now key c) as (He & Hcap & _).
  unfold looked_up in He. rewrite Hc in He. split_and!; [done| |done]. unfold goc_lookup.
  pose proof (probe_settle now (ttl c) key (inner c)) as Hps.
  destruct (probe _ _ _ _) as [r i1]. destruct (settle _ _ _) as [m' i2]. destruct Hps as [_ Hps].
  unfold entries in Hc. rewrite Hc in Hps. simpl in Hps. by destruct Hps as (-> & _ & _ & ->).
Qed.

Lemma goc_insert_free now key b m c :
  (length (entries c) < capacity c)%nat ->
  total_wasm_bytes (inner (goc_insert now key b m c)) =
    u64_add (total_wasm_bytes (inner c)) (Z.of_nat (length b)).
Proof.
  intros Hlt. unfold goc_insert, entries, capacity in *. simpl. rewrite lru_len_spec.
  by rewrite (proj2 (Nat.eqb_neq _ _)) by lia.
Qed.

Lemma goc_lookup_result now key c : (goc_lookup now key c).1 = (get_cached now key c).1.
Proof. unfold get_cached, goc_lookup. by repeat case_match; simplify_eq/=. Qed.

(** A lookup that misses leaves no entry, so the next one misses too. *)
Lemma missed_stays_missed now now' key c :
  (get_cached now key c).1 = None -> (goc_lookup now' key (get_cached now key c).2).1 = None.
Proof.
  rewrite goc_lookup_result, !get_cached_result.
  destruct (get_cached_entries now key c) as (-> & _ & _). unfold looked_up.
  destruct (assoc key (entries c)) eqn:E; [|by rewrite E].
  destruct (fresh now (ttl c) _); [done|]. by rewrite assoc_remove_key, decide_True.
Qed.

Lemma get_or_compile_miss now1 now2 key b m c :
  (get_cached now1 key c).1 = None -> compile None b = Ok m ->
  get_or_compile now1 now2 None key b c = (Ok m, goc_insert now2 key b m (goc_lookup now1 key c).2).
Proof.
  intros Hmiss Hc. rewrite <- goc_lookup_result in Hmiss. unfold get_or_compile.
  destruct (goc_lookup now1 key c) as [hit c1]. simpl in *. by rewrite Hmiss, Hc.
Qed.

(** A compilation is handed out again within its TTL. *)
Lemma inserted_is_cached now at_ key b m c :
  elapsed now at_ < ttl c -> (get_cached now key (goc_insert at_ key b m c)).1 = Some m.
Proof.
  intros Hel. destruct (goc_insert_entries at_ key b m c) as (He & _ & Ht).
  rewrite get_cached_result, He, Ht, assoc_cons, decide_True by done.
  unfold fresh. simpl. by rewrite (proj2 (Z.ltb_lt _ _) Hel).
Qed.

End cache_lemmas.

(** Inputs for evaluations. *)
Definition demo_cache : @CompiledModuleCache echo_wasmtime (list_lru _) :=
  @new_with_ttl echo_wasmtime (list_lru _) 2 10.
Definition demo_calls : list cache_call :=
  [CGetOrCompile 0 0 None "a:1" [Byte.x00]; CGetCached 1 "a:1"; CGetOrCompile 2 2 None "b:1" [];
   CGetOrCompile 3 3 (Some "panic") "c:1" []; CGetOrCompile 4 4 None "d:1" [Byte.x00; Byte.x01]].

Definition demo_insert : @cache_op echo_wasmtime := @OInsert echo_wasmtime 1 "a:1" [Byte.x00] tt.
Definition demo_others : list (@cache_op echo_wasmtime) :=
  [OLookup 2 "b:1"; @OInsert echo_wasmtime 2 "b:1" [] tt].

(** ** Properties *)

(** The cache never grows beyond its configured size (at least one), holds
    each key once, and reports its true size, under any interleaving of the
    critical sections of concurrent calls. *)
Theorem cache_bounded `{!Wasmtime} `{!Lru CachedModule} n t ops :
  let c := cache_run ops (new_with_ttl n t) in
  (length (entries c) <= n `max` 1)%nat /\ NoDup (entries c).*1 /\
  cs_size (stats c) = Z.of_nat (length (entries c)).
Proof.
  simpl. pose proof (cache_run_wf ops _ (new_wf n t)) as [Hk Hs _ _].
  destruct (cache_run_params ops (new_with_ttl n t)) as [Hcap _]. rewrite Hcap in Hs.
  unfold capacity in Hs. simpl in Hs. rewrite (proj2 (lru_new_spec (n `max` 1))) in Hs.
  split_and!; [done|done|]. unfold stats, entries. simpl. by rewrite lru_len_spec.
Qed.

(** C9. Hits are right: under any interleaving, a module handed out for a key is
    the one most recently compiled for that key, not invalidated since, and was
    cached less than the TTL ago. (The concrete cache refines the abstract map
    from keys to their latest compilation.) *)
Theorem cache_hit_sound `{!Wasmtime} `{!Lru CachedModule} n t ops now key m :
  (get_cached now key (cache_run ops (new_with_ttl n t))).1 = Some m ->
  exists at_, spec_run ops !! key = Some (at_, m) /\ elapsed now at_ < t.
Proof.
  rewrite get_cached_result. destruct (assoc key _) as [e|] eqn:He; [|done].
  destruct (fresh now _ e) eqn:Hf; [|done]. intros [= <-]. exists (cached_at e). split.
  - by apply (cache_run_represents ops ∅ _ (new_represents n t)).
  - unfold fresh in Hf. apply Z.ltb_lt in Hf. by rewrite (proj2 (cache_run_params ops _)) in Hf.
Qed.

Lemma cache_hit_sound_witness :
  exists (m : @Module echo_wasmtime) at_, (get_cached 5 "a:1" (cache_run [demo_insert] demo_cache)).1 = Some m /\
    spec_run [demo_insert] !! "a:1" = Some (at_, m).
Proof.
  destruct (@cache_hit_sound echo_wasmtime (list_lru _) 2 10 [demo_insert] 5 "a:1" tt
    ltac:(vm_compute; reflexivity)) as (at_ & H & _).
  exists (tt : @Module echo_wasmtime), at_. split; [vm_compute; reflexivity|exact H].
Defined.

(** C10. Hits are not lost: once a module has been cached, it is handed out again
    before its TTL is over as long as fewer other keys than the cache has places
    have been used since and nobody has invalidated or replaced it, whatever the
    interleaving. *)
Theorem cache_retention `{!Wasmtime} `{!Lru CachedModule} n t before at_ key b m after now :
  let c := cache_run (before ++ [OInsert at_ key b m]) (new_with_ttl n t) in
  Forall (spares c key at_) after -> (size (touched key after) < n `max` 1)%nat -> elapsed now at_ < t ->
  (get_cached now key (cache_run after c)).1 = Some m.
Proof.
  intros c Hsp Hsize Hel.
  assert (cache_wf c) as Hwf by apply cache_run_wf, new_wf.
  assert (capacity c = n `max` 1 /\ ttl c = t)%nat as [Hcap Httl].
  { destruct (cache_run_params (before ++ [OInsert at_ key b m]) (new_with_ttl n t)) as [Hc Ht].
    fold c in Hc, Ht. rewrite Hc, Ht. unfold capacity. simpl. by rewrite (proj2 (lru_new_spec _)). }
  assert (ahead key at_ m ∅ c) as Ha.
  { unfold c, cache_run. rewrite foldl_app. simpl.
    destruct (goc_insert_entries at_ key b m (foldl cache_apply (new_with_ttl n t) before)) as (He & _).
    eexists [], _, _. split_and!; [exact He| |done|done]. intros k Hk. by apply not_elem_of_nil in Hk. }
  destruct (cache_run_ahead after key at_ m ∅ c Ha Hwf Hsp) as (l1 & e & l2 & He & _ & Hat & Hm).
  { rewrite Hcap. by rewrite (left_id_L ∅ (∪)). }
  destruct (cache_run_wf after c Hwf) as [Hk _ _ _].
  rewrite get_cached_result. rewrite He in Hk |- *. rewrite fmap_app in Hk.
  apply NoDup_app in Hk as (_ & Hd & _).
  rewrite assoc_app, assoc_cons, decide_True; [|done|intros Hin; apply (Hd key Hin); by left].
  unfold fresh. rewrite (proj2 (cache_run_params after c)), Httl, Hat.
  rewrite (proj2 (Z.ltb_lt _ _)) by done. by rewrite Hm.
Qed.

Lemma cache_retention_witness :
  (get_cached 5 "a:1" (cache_run demo_others
    (cache_run ([] ++ [demo_insert]) demo_cache))).1 = Some (tt : @Module echo_wasmtime).
Proof.
  refine (@cache_retention echo_wasmtime (list_lru _) 2 10 [] 1 "a:1" [Byte.x00] tt
    demo_others 5 _ _ _).
  - repeat constructor; intros Heq; discriminate Heq.
  - vm_compute. repeat constructor.
  - reflexivity.
Defined.

(** The statistics add up when calls do not overlap: after any sequence of
    [get_cached] and [get_or_compile] calls the reported byte total is the sum
    over the cached modules, and every miss is a cached module, an eviction or a
    failed compilation. *)
Theorem cache_accounting `{!Wasmtime} `{!Lru CachedModule} n t calls :
  Z.of_nat (length calls) < u64_mod ->
  Z.of_nat (sum_list_with call_bytes calls) < u64_mod ->
  let '(c, failed) := run_calls calls (new_with_ttl n t) in
  cs_total_wasm_bytes (stats c) = cached_bytes c /\
  misses (stats c) = cs_size (stats c) + evictions (stats c) + Z.of_nat failed.
Proof.
  intros Hn HB.
  destruct (run_calls_accounted calls (new_with_ttl n t) 0 0 0) as (n' & B' & [Hwf Hby Hmi _ _ _]); [|done..|].
  - pose proof (new_wf n t) as Hwf.
    split; try done; unfold cached_bytes, entries; simpl; by rewrite (proj1 (lru_new_spec _)).
  - unfold run_calls. destruct (foldl _ _ _) as [c failed]. simpl in *.
    split; [done|]. rewrite lru_len_spec. done.
Qed.

Lemma cache_accounting_witness :
  exists c, run_calls demo_calls demo_cache = (c, 1%nat) /\
    misses (stats c) = cs_size (stats c) + evictions (stats c) + 1.
Proof.
  pose proof (@cache_accounting echo_wasmtime (list_lru _) 2 10 demo_calls
    ltac:(vm_compute; reflexivity) ltac:(vm_compute; reflexivity)) as H.
  change (@new_with_ttl echo_wasmtime (list_lru _) 2 10) with demo_cache in H.
  assert ((run_calls demo_calls demo_cache).2 = 1%nat) as E by (vm_compute; reflexivity).
  destruct (run_calls demo_calls demo_cache) as [c failed]. simpl in E. subst failed.
  exists c. split; [reflexivity|exact (proj2 H)].
Defined.

(** The byte total is wrong once calls overlap or an entry is invalidated:
    two concurrent misses on one key count its bytes twice while one entry
    remains, and an invalidated entry's bytes are never taken off. *)
Theorem cache_bytes_drift `{!Wasmtime} `{!Lru CachedModule} n t now key b m :
  (2 <= n)%nat -> 0 < Z.of_nat (length b) -> 2 * Z.of_nat (length b) < u64_mod ->
  let miss := [OLookup now key; OLookup now key] in
  let raced := cache_run (miss ++ [OInsert now key b m; OInsert now key b m]) (new_with_ttl n t) in
  let dropped := cache_run [OInsert now key b m; OInvalidate key] (new_with_ttl n t) in
  cs_total_wasm_bytes (stats raced) = 2 * cached_bytes raced /\ cached_bytes raced = Z.of_nat (length b) /\
  cs_total_wasm_bytes (stats dropped) = Z.of_nat (length b) /\ entries dropped = [].
Proof.
  intros Hn Hb Hlt. set (c0 := new_with_ttl n t).
  assert (entries c0 = [] /\ total_wasm_bytes (inner c0) = 0 /\ capacity c0 = n) as (He0 & Ht0 & Hc0).
  { unfold c0, entries, capacity. simpl. destruct (lru_new_spec (n `max` 1)) as [-> ->].
    split_and!; [done|done|lia]. }
  assert (forall c, entries c = [] -> total_wasm_bytes (inner c) = 0 -> capacity c = n ->
    exists e, entries (goc_insert now key b m c) = [(key, e)] /\ wasm_bytes e = Z.of_nat (length b) /\
      total_wasm_bytes (inner (goc_insert now key b m c)) = Z.of_nat (length b) /\
      capacity (goc_insert now key b m c) = n) as Hins.
  { intros c He Ht Hc. destruct (goc_insert_entries now key b m c) as (-> & -> & _).
    rewrite goc_insert_free by (rewrite He, Hc; simpl; lia). rewrite He, Ht. simpl.
    rewrite take_nil, u64_add_id by lia. eauto. }
  unfold cache_run. simpl foldl. cbv zeta. split_and!.
  4:{ destruct (Hins c0) as (e & He & _); [done..|]. rewrite (proj1 (invalidate_entries _ _)), He.
      unfold remove_key. rewrite filter_cons. simpl. by rewrite decide_False by naive_solver. }
  3:{ destruct (Hins c0) as (e & _ & _ & Ht & _); [done..|]. done. }
  all: destruct (goc_lookup_empty now key c0 He0) as (He1 & Ht1 & Hc1);
    destruct (goc_lookup_empty now key _ He1) as (He2 & Ht2 & Hc2);
    set (c2 := (goc_lookup now key (goc_lookup now key c0).2).2) in *;
    destruct (Hins c2) as (e & He3 & Hb3 & Ht3 & Hc3); [done|congruence|congruence|];
    set (c3 := goc_insert now key b m c2) in *;
    assert (entries (goc_insert now key b m c3) = [(key, {| cm_module := m; cached_at := now;
      hit_count := 0; wasm_bytes := Z.of_nat (length b) |})]) as He4
    by (rewrite (proj1 (goc_insert_entries _ _ _ _ _)), He3, assoc_cons, decide_True by done;
        unfold remove_key; rewrite filter_cons; simpl; by rewrite decide_False by naive_solver).
  - change (cs_total_wasm_bytes (stats (goc_insert now key b m c3)))
      with (total_wasm_bytes (inner (goc_insert now key b m c3))).
    unfold cached_bytes. rewrite He4.
    rewrite goc_insert_free by (rewrite He3, Hc3; simpl; lia). rewrite Ht3. simpl.
    rewrite u64_add_id by lia. lia.
  - unfold cached_bytes. rewrite He4. simpl. lia.
Qed.

Lemma cache_bytes_drift_witness :
  cs_total_wasm_bytes (stats (cache_run [demo_insert; OInvalidate "a:1"] demo_cache)) = 1 /\
  entries (cache_run [demo_insert; OInvalidate "a:1"] demo_cache) = [].
Proof.
  exact (proj2 (proj2 (@cache_bytes_drift echo_wasmtime (list_lru _) 2 10 1 "a:1" [Byte.x00] tt
    (le_n 2) eq_refl eq_refl))).
Defined.
