(* ===== verification/AppState.v ===== *)
(** * Control-plane state and node selection for a task

    Models [services/control-plane/src/state.rs] and the selection step of
    [api/handlers.rs] ([select_node_for_task]). The pool of gRPC channels sits
    behind its own mutex in the source ([Arc<Mutex<NodeConnectionPool>>], never
    replaced), so it is kept beside [AppState] in [CPWorld], together with the
    calls made on the Prometheus collectors. *)

From S2P Require Import Prelude RustStd Common CircuitBreaker Scheduler Registry.

(** ** Data *)
Record AppState := {
  nodes : gmap string NodeInfo;
  tasks : gmap string TaskResult;
  scheduler_index : Z;
  module_registry : ModuleRegistry;
  self_url : string;
  circuit_breakers : gmap string CircuitBreaker;
  scheduling_strategy : string;
  total_submitted : Z;
  total_success : Z;
  total_failed : Z;
  total_retried : Z;
  queued : Z
}.

Definition AppState_default : AppState :=
  {| nodes := ∅; tasks := ∅; scheduler_index := 0; module_registry := registry_new;
     self_url := EmptyString; circuit_breakers := ∅; scheduling_strategy := "round_robin";
     total_submitted := 0; total_success := 0; total_failed := 0; total_retried := 0;
     queued := 0 |}.

(** main.rs: the state the service starts with. *)
Definition initial_state (url strategy : string) : AppState :=
  {| nodes := ∅; tasks := ∅; scheduler_index := 0; module_registry := registry_new;
     self_url := url; circuit_breakers := ∅; scheduling_strategy := strategy;
     total_submitted := 0; total_success := 0; total_failed := 0; total_retried := 0;
     queued := 0 |}.

(** Field updates. *)
Definition set_nodes (v : gmap string NodeInfo) (st : AppState) : AppState :=
  {| nodes := v; tasks := tasks st; scheduler_index := scheduler_index st;
     module_registry := module_registry st; self_url := self_url st;
     circuit_breakers := circuit_breakers st;
     scheduling_strategy := scheduling_strategy st; total_submitted := total_submitted st;
     total_success := total_success st; total_failed := total_failed st;
     total_retried := total_retried st; queued := queued st |}.
Definition set_tasks (v : gmap string TaskResult) (st : AppState) : AppState :=
  {| nodes := nodes st; tasks := v; scheduler_index := scheduler_index st;
     module_registry := module_registry st; self_url := self_url st;
     circuit_breakers := circuit_breakers st;
     scheduling_strategy := scheduling_strategy st; total_submitted := total_submitted st;
     total_success := total_success st; total_failed := total_failed st;
     total_retried := total_retried st; queued := queued st |}.
Definition set_scheduler_index (v : Z) (st : AppState) : AppState :=
  {| nodes := nodes st; tasks := tasks st; scheduler_index := v;
     module_registry := module_registry st; self_url := self_url st;
     circuit_breakers := circuit_breakers st;
     scheduling_strategy := scheduling_strategy st; total_submitted := total_submitted st;
     total_success := total_success st; total_failed := total_failed st;
     total_retried := total_retried st; queued := queued st |}.
Definition set_module_registry (v : ModuleRegistry) (st : AppState) : AppState :=
  {| nodes := nodes st; tasks := tasks st; scheduler_index := scheduler_index st;
     module_registry := v; self_url := self_url st;
     circuit_breakers := circuit_breakers st;
     scheduling_strategy := scheduling_strategy st; total_submitted := total_submitted st;
     total_success := total_success st; total_failed := total_failed st;
     total_retried := total_retried st; queued := queued st |}.
Definition set_circuit_breakers (v : gmap string CircuitBreaker) (st : AppState) : AppState :=
  {| nodes := nodes st; tasks := tasks st; scheduler_index := scheduler_index st;
     module_registry := module_registry st; self_url := self_url st; circuit_breakers := v;
     scheduling_strategy := scheduling_strategy st; total_submitted := total_submitted st;
     total_success := total_success st; total_failed := total_failed st;
     total_retried := total_retried st; queued := queued st |}.
Definition set_total_submitted (v : Z) (st : AppState) : AppState :=
  {| nodes := nodes st; tasks := tasks st; scheduler_index := scheduler_index st;
     module_registry := module_registry st; self_url := self_url st;
     circuit_breakers := circuit_breakers st;
     scheduling_strategy := scheduling_strategy st; total_submitted := v;
     total_success := total_success st; total_failed := total_failed st;
     total_retried := total_retried st; queued := queued st |}.
Definition set_total_success (v : Z) (st : AppState) : AppState :=
  {| nodes := nodes st; tasks := tasks st; scheduler_index := scheduler_index st;
     module_registry := module_registry st; self_url := self_url st;
     circuit_breakers := circuit_breakers st;
     scheduling_strategy := scheduling_strategy st; total_submitted := total_submitted st;
     total_success := v; total_failed := total_failed st;
     total_retried := total_retried st; queued := queued st |}.
Definition set_total_failed (v : Z) (st : AppState) : AppState :=
  {| nodes := nodes st; tasks := tasks st; scheduler_index := scheduler_index st;
     module_registry := module_registry st; self_url := self_url st;
     circuit_breakers := circuit_breakers st;
     scheduling_strategy := scheduling_strategy st; total_submitted := total_submitted st;
     total_success := total_success st; total_failed := v;
     total_retried := total_retried st; queued := queued st |}.
Definition set_total_retried (v : Z) (st : AppState) : AppState :=
  {| nodes := nodes st; tasks := tasks st; scheduler_index := scheduler_index st;
     module_registry := module_registry st; self_url := self_url st;
     circuit_breakers := circuit_breakers st;
     scheduling_strategy := scheduling_strategy st; total_submitted := total_submitted st;
     total_success := total_success st; total_failed := total_failed st;
     total_retried := v; queued := queued st |}.
Definition set_queued (v : Z) (st : AppState) : AppState :=
  {| nodes := nodes st; tasks := tasks st; scheduler_index := scheduler_index st;
     module_registry := module_registry st; self_url := self_url st;
     circuit_breakers := circuit_breakers st;
     scheduling_strategy := scheduling_strategy st; total_submitted := total_submitted st;
     total_success := total_success st; total_failed := total_failed st;
     total_retried := total_retried st; queued := v |}.

Section cp_world.
Context `{!Tonic}.

Record CPWorld := { app : AppState; pool : NodeConnectionPool; mlog : MetricLog }.

Definition with_app (f : AppState -> AppState) (w : CPWorld) : CPWorld :=
  {| app := f (app w); pool := pool w; mlog := mlog w |}.
Definition with_pool (p : NodeConnectionPool) (w : CPWorld) : CPWorld :=
  {| app := app w; pool := p; mlog := mlog w |}.
Definition emit (op : MetricOp) (w : CPWorld) : CPWorld :=
  {| app := app w; pool := pool w; mlog := op :: mlog w |}.

End cp_world.

(** ** Selecting a node

    [clk node_id] is the clock reading [allow_request] takes for that node's
    breaker. *)
Definition sweep_step (clk : string -> Instant)
    (acc : gset string * gmap string CircuitBreaker) (e : string * CircuitBreaker)
    : gset string * gmap string CircuitBreaker :=
  let '(excluded, cbs) := acc in
  let '(node_id, cb) := e in
  let '(ok, cb') := allow_request (clk node_id) cb in
  (if ok then excluded else {[node_id]} ∪ excluded, <[node_id := cb']> cbs).

Definition sweep_breakers (ord : HashOrder) (clk : string -> Instant) (tried : gset string)
    (cbs : gmap string CircuitBreaker) : gset string * gmap string CircuitBreaker :=
  foldl (sweep_step clk) (tried, cbs) (hash_iter ord cbs).

Definition select_node_for_task (ord : HashOrder) (clk : string -> Instant) (seed : Z)
    (tried : gset string) (st : AppState) : option NodeInfo * AppState :=
  let '(excluded, cbs) := sweep_breakers ord clk tried (circuit_breakers st) in
  let st' := set_circuit_breakers cbs st in
  if decide (scheduling_strategy st' = "least_loaded")
  then (select_least_loaded ord (nodes st') excluded seed, st')
  else
    let candidates :=
      filter (fun n => healthy n = true /\ id n ∉ excluded) (hash_values ord (nodes st')) in
    match candidates with
    | [] => (None, st')
    | _ =>
        let idx := scheduler_index st' in
        (rr_index candidates idx, set_scheduler_index (usize_add idx 1) st')
    end.

(** ** Specification *)

(** Nodes the configured strategy may hand out. *)
Definition eligible (st : AppState) (n : NodeInfo) : Prop :=
  if decide (scheduling_strategy st = "least_loaded") then ll_eligible n else rr_eligible n.

(** The breaker of a node, if there is one, refuses a request now. *)
Definition breaker_blocks (clk : string -> Instant) (st : AppState) (node_id : string) : Prop :=
  exists cb, circuit_breakers st !! node_id = Some cb /\ (allow_request (clk node_id) cb).1 = false.

(** Well-formed control-plane state: nodes are keyed by their id, results by
    their task id, breakers are well formed, the cursor is a machine word. *)
Record app_wf `{!Sha2} (st : AppState) : Prop := {
  wf_nodes : forall k n, nodes st !! k = Some n -> id n = k;
  wf_tasks : forall k r, tasks st !! k = Some r ->
    tr_task_id r = k /\ (tr_success r = true <-> tr_error r = None);
  wf_breakers : forall k cb, circuit_breakers st !! k = Some cb -> cb_wf cb;
  wf_index : is_u64 (scheduler_index st);
  wf_registry : registry_wf (module_registry st)
}.

(** ** Lemmas *)

(** The sweep over the breakers, as a set comprehension and a map update. *)
Lemma sweep_fold clk l tried cbs :
  NoDup l.*1 -> (forall k cb, (k, cb) ∈ l -> cbs !! k = Some cb) ->
  let r := foldl (sweep_step clk) (tried, cbs) l in
  (forall x, x ∈ r.1 <-> x ∈ tried \/ exists cb, (x, cb) ∈ l /\ (allow_request (clk x) cb).1 = false) /\
  (forall x, r.2 !! x = if decide (x ∈ l.*1) then (fun cb => (allow_request (clk x) cb).2) <$> cbs !! x
                       else cbs !! x).
Proof.
  revert tried cbs. induction l as [|[k cb] l IH]; intros tried cbs Hnd Hin r.
  { subst r. simpl. split; intros x; [|done].
    split; [by left|]. intros [?|(? & Hx & _)]; [done|by inversion Hx]. }
  simpl in Hnd. apply NoDup_cons in Hnd as [Hk Hnd]. subst r. cbn [foldl].
  unfold sweep_step at 2 4. destruct (allow_request (clk k) cb) as [ok cb'] eqn:Ea.
  edestruct (IH (if ok then tried else {[k]} ∪ tried) (<[k:=cb']> cbs)) as [H1 H2]; [done|..].
  { intros k' c' Hk'. rewrite lookup_insert_ne; [apply Hin; by right|].
    intros ->. apply Hk. by apply (list_elem_of_fmap_2 fst) in Hk'. }
  split; intros x.
  - rewrite H1. setoid_rewrite elem_of_cons. split.
    + intros [Hx|(c & ? & ?)]; [|naive_solver].
      destruct ok; [by left|]. apply elem_of_union in Hx as [->%elem_of_singleton|]; [|by left].
      right. exists cb. rewrite Ea. naive_solver.
    + intros [Hx|(c & [Heq|?] & Hal)]; [left; destruct ok; set_solver| |naive_solver].
      simplify_eq. rewrite Ea in Hal. simpl in Hal. subst. left. set_solver.
  - rewrite H2. cbn [fmap list_fmap]. destruct (decide (x = k)) as [->|Hne].
    + rewrite decide_False by done. rewrite decide_True by left.
      rewrite lookup_insert_eq. rewrite (Hin k cb) by left. simpl. by rewrite Ea.
    + rewrite lookup_insert_ne by done.
      destruct (decide (x ∈ l.*1)).
      * rewrite decide_True by by right. done.
      * rewrite decide_False; [done|]. rewrite elem_of_cons. tauto.
Qed.

Lemma sweep_breakers_excluded ord clk tried cbs x :
  x ∈ (sweep_breakers ord clk tried cbs).1 <->
  x ∈ tried \/ exists cb, cbs !! x = Some cb /\ (allow_request (clk x) cb).1 = false.
Proof.
  unfold sweep_breakers.
  destruct (sweep_fold clk (hash_iter ord cbs) tried cbs) as [H _].
  - apply hash_keys_NoDup.
  - intros k cb. apply elem_of_hash_iter.
  - rewrite H. by setoid_rewrite elem_of_hash_iter.
Qed.

Lemma sweep_breakers_lookup ord clk tried cbs x :
  (sweep_breakers ord clk tried cbs).2 !! x =
  (fun cb => (allow_request (clk x) cb).2) <$> cbs !! x.
Proof.
  unfold sweep_breakers.
  destruct (sweep_fold clk (hash_iter ord cbs) tried cbs) as [_ H].
  - apply hash_keys_NoDup.
  - intros k cb. apply elem_of_hash_iter.
  - rewrite H. case_decide as Hd; [done|].
    destruct (cbs !! x) eqn:E; [|done]. exfalso. apply Hd.
    apply (elem_of_hash_iter ord) in E. by apply (list_elem_of_fmap_2 fst) in E.
Qed.

(** The handler's inlined round robin is the scheduler's helper. *)
Lemma select_node_for_task_eq ord clk seed tried st :
  let '(excluded, cbs) := sweep_breakers ord clk tried (circuit_breakers st) in
  let st' := set_circuit_breakers cbs st in
  select_node_for_task ord clk seed tried st =
    if decide (scheduling_strategy st = "least_loaded")
    then (select_least_loaded ord (nodes st) excluded seed, st')
    else let '(n, i) := select_node_excluded ord (nodes st) (scheduler_index st) excluded in
         (n, set_scheduler_index i st').
Proof.
  unfold select_node_for_task, select_node_excluded, rr_candidates.
  destruct (sweep_breakers _ _ _ _) as [excluded cbs]. simpl. case_decide; [done|].
  destruct (filter _ _); [|done]. by destruct st.
Qed.

(** What selection leaves alone. *)
Lemma select_node_for_task_frame ord clk seed tried st :
  let st' := (select_node_for_task ord clk seed tried st).2 in
  nodes st' = nodes st /\ tasks st' = tasks st /\ module_registry st' = module_registry st /\
  total_submitted st' = total_submitted st /\ total_success st' = total_success st /\
  total_failed st' = total_failed st /\ total_retried st' = total_retried st /\
  queued st' = queued st /\ self_url st' = self_url st /\
  scheduling_strategy st' = scheduling_strategy st.
Proof.
  pose proof (select_node_for_task_eq ord clk seed tried st) as H.
  destruct (sweep_breakers _ _ _ _) as [excluded cbs]. rewrite H.
  case_decide; [done|]. by destruct (select_node_excluded _ _ _ _).
Qed.

Lemma select_node_for_task_wf `{!Sha2} ord clk seed tried st :
  app_wf st -> app_wf (select_node_for_task ord clk seed tried st).2.
Proof.
  intros [Hn Ht Hb Hi Hr].
  pose proof (select_node_for_task_eq ord clk seed tried st) as Hsel.
  pose proof (sweep_breakers_lookup ord clk tried (circuit_breakers st)) as Hl.
  destruct (sweep_breakers _ _ _ _) as [excluded cbs]. rewrite Hsel. clear Hsel. simpl in Hl.
  assert (forall k cb, cbs !! k = Some cb -> cb_wf cb) as Hcbs.
  { intros k cb. rewrite Hl. intros (cb0 & Hcb & ->)%fmap_Some_1. eauto with ferro. }
  case_decide; [by constructor|].
  unfold select_node_excluded. destruct (rr_candidates _ _ _); constructor; simpl; try done.
  apply u64_add_range.
Qed.

#[export] Hint Resolve select_node_for_task_wf : ferro.

(** Both strategies honour the dispatcher's contract. *)
Lemma select_node_for_task_policy ord clk seed tried st :
  0 <= seed -> 0 <= scheduler_index st ->
  let excluded := (sweep_breakers ord clk tried (circuit_breakers st)).1 in
  match (select_node_for_task ord clk seed tried st).1 with
  | Some n => (exists k, nodes st !! k = Some n) /\ eligible st n /\ id n ∉ excluded
  | None => forall k n, nodes st !! k = Some n -> eligible st n -> id n ∈ excluded
  end.
Proof.
  intros Hs Hi. pose proof (select_node_for_task_eq ord clk seed tried st) as H.
  destruct (sweep_breakers _ _ _ _) as [excluded cbs]. rewrite H. simpl.
  unfold eligible. case_decide.
  - pose proof (least_loaded_policy ord seed Hs) as [Hsnd Hcmp]. simpl.
    destruct (select_least_loaded _ _ _ _) eqn:E; [by apply Hsnd|by apply Hcmp].
  - pose proof (round_robin_policy ord (scheduler_index st) Hi) as [Hsnd Hcmp].
    specialize (Hsnd (nodes st) excluded). specialize (Hcmp (nodes st) excluded).
    destruct (select_node_excluded _ _ _ _) as [[n|] i]; simpl in *; [by apply Hsnd|by apply Hcmp].
Qed.

(** ** Properties *)

(** C5. Scheduling a task is sound and complete under either strategy: the node
    handed out is registered, eligible for the strategy (healthy, and with spare
    capacity when least-loaded), was not tried before and its circuit breaker
    lets the request through; and no node is handed out only when every
    eligible node was tried or is blocked by its breaker. *)
Theorem select_node_for_task_correct ord clk seed tried st :
  0 <= seed -> 0 <= scheduler_index st ->
  match (select_node_for_task ord clk seed tried st).1 with
  | Some n =>
      (exists k, nodes st !! k = Some n) /\ eligible st n /\ (id n ∉ tried) /\
      ~ breaker_blocks clk st (id n)
  | None =>
      forall k n, nodes st !! k = Some n -> eligible st n ->
        id n ∈ tried \/ breaker_blocks clk st (id n)
  end.
Proof.
  intros Hs Hi. pose proof (select_node_for_task_policy ord clk seed tried st Hs Hi) as H.
  simpl in H. destruct (select_node_for_task _ _ _ _ _).1 as [n|]; simpl in *.
  - destruct H as (? & ? & Hex). rewrite sweep_breakers_excluded in Hex.
    unfold breaker_blocks. tauto.
  - intros k n Hk He. specialize (H k n Hk He). by rewrite sweep_breakers_excluded in H.
Qed.

Definition demo_state : AppState := set_nodes demo_nodes AppState_default.

Lemma select_node_for_task_correct_witness :
  (exists n, (select_node_for_task std_order (fun _ => 0) 0 {["n1"]} demo_state).1 = Some n /\ id n ∉ ({["n1"]} : gset string)).
Proof.
  pose proof (select_node_for_task_correct std_order (fun _ => 0) 0 {["n1"]} demo_state
    (Z.le_refl 0) (Z.le_refl 0)) as H.
  assert ((select_node_for_task std_order (fun _ => 0) 0 {["n1"]} demo_state).1 = Some (demo_node "n2" 1)) as E
    by (vm_compute; reflexivity).
  rewrite E in H. exists (demo_node "n2" 1). split; [exact E|]. exact (proj1 (proj2 (proj2 H))).
Defined.
