(* ===== verification/Dispatch.v ===== *)
(** * Dispatching one task

    Models [dispatch_task], [grpc_execute] and [RetryConfig] of
    [services/control-plane/src/api/handlers.rs]. The async function is a state
    machine: each program point ([pc]) is a place where the task may be
    suspended (a lock acquisition, a sleep, the RPC), and [dispatch_step] runs
    the code from one such place to the next. What the task reads from outside
    (clock, hash iteration order, tie-break seed, RPC outcome) is in [Env];
    other tasks may change the world between two steps.

    [lock_use] says which guard of the shared [RwLock<AppState>] a step must
    acquire. Every step releases its guards when it ends, except [PQueueRead]:
    the statement [state.write().await.queued = state.read().await...] evaluates
    its right-hand side first and keeps that read guard alive, as a temporary of
    the statement, while it waits for the write guard ([PQueueWrite]). *)

From S2P Require Import Prelude RustStd Common CircuitBreaker Scheduler Registry AppState.

(** ** Data *)

Record RetryConfig := { max_attempts : Z; backoff_ms : Z }.
Definition RetryConfig_default : RetryConfig := {| max_attempts := 3; backoff_ms := 500 |}.
Definition MAX_CAPACITY_WAITS : Z := 30.

(** The arguments of [dispatch_task]. *)
Record TaskArgs := {
  task_id : string;
  trace_id : string;
  input : bytes;
  wasm_source : WasmSource;
  function_name : string;
  timeout_ms : Z;
  memory_limit_mb : Z
}.

Inductive LockUse := NoLock | ReadLock | WriteLock.

#[export] Instance LockUse_eq_dec : EqDecision LockUse.
Proof. solve_decision. Defined.

Section dispatch_defs.
Context `{!Tonic}.

Inductive pc :=
| PStart
| PSubmit
| PSelect
| PQueueInc
| PQueueSleep (wake : Instant)
| PQueueRead
| PQueueWrite (q : Z)
| PStoreNoNode
| PChosen (n : NodeInfo)
| PPoolArc (n : NodeInfo)
| PPoolGet (n : NodeInfo)
| PSend (n : NodeInfo) (ch : Channel) (req : ExecuteTaskRequest)
| PRecordSuccess (n : NodeInfo) (resp : ExecuteTaskResponse)
| PStoreSuccess (n : NodeInfo) (resp : ExecuteTaskResponse)
| PRecordFailure (n : NodeInfo)
| PBackoff (wake : Instant)
| PCapacitySleep (wake : Instant)
| PStoreExhausted
| PDone.

(** The local variables of one running [dispatch_task]. *)
Record DispatchTask := {
  args : TaskArgs;
  tried_nodes : gset string;
  last_error : string;
  no_node_count : Z;
  capacity_waits : Z;
  error_retries : Z;
  e2e_start : Instant;
  at_pc : pc
}.

Record Env := {
  now : Instant;
  clk : string -> Instant;
  ord : HashOrder;
  seed : N;
  rpc : result Status ExecuteTaskResponse
}.

Definition init_task (a : TaskArgs) : DispatchTask :=
  {| args := a; tried_nodes := ∅; last_error := EmptyString; no_node_count := 0;
     capacity_waits := 0; error_retries := 0; e2e_start := 0; at_pc := PStart |}.

Definition goto (p : pc) (t : DispatchTask) : DispatchTask :=
  {| args := args t; tried_nodes := tried_nodes t; last_error := last_error t;
     no_node_count := no_node_count t; capacity_waits := capacity_waits t;
     error_retries := error_retries t; e2e_start := e2e_start t; at_pc := p |}.
Definition set_last_error (s : string) (t : DispatchTask) : DispatchTask :=
  {| args := args t; tried_nodes := tried_nodes t; last_error := s;
     no_node_count := no_node_count t; capacity_waits := capacity_waits t;
     error_retries := error_retries t; e2e_start := e2e_start t; at_pc := at_pc t |}.
Definition set_tried_nodes (s : gset string) (t : DispatchTask) : DispatchTask :=
  {| args := args t; tried_nodes := s; last_error := last_error t;
     no_node_count := no_node_count t; capacity_waits := capacity_waits t;
     error_retries := error_retries t; e2e_start := e2e_start t; at_pc := at_pc t |}.
Definition set_no_node_count (z : Z) (t : DispatchTask) : DispatchTask :=
  {| args := args t; tried_nodes := tried_nodes t; last_error := last_error t;
     no_node_count := z; capacity_waits := capacity_waits t;
     error_retries := error_retries t; e2e_start := e2e_start t; at_pc := at_pc t |}.
Definition set_capacity_waits (z : Z) (t : DispatchTask) : DispatchTask :=
  {| args := args t; tried_nodes := tried_nodes t; last_error := last_error t;
     no_node_count := no_node_count t; capacity_waits := z;
     error_retries := error_retries t; e2e_start := e2e_start t; at_pc := at_pc t |}.
Definition set_error_retries (z : Z) (t : DispatchTask) : DispatchTask :=
  {| args := args t; tried_nodes := tried_nodes t; last_error := last_error t;
     no_node_count := no_node_count t; capacity_waits := capacity_waits t;
     error_retries := z; e2e_start := e2e_start t; at_pc := at_pc t |}.
Definition set_e2e_start (z : Z) (t : DispatchTask) : DispatchTask :=
  {| args := args t; tried_nodes := tried_nodes t; last_error := last_error t;
     no_node_count := no_node_count t; capacity_waits := capacity_waits t;
     error_retries := error_retries t; e2e_start := z; at_pc := at_pc t |}.

(** ** Pieces of the function body *)

(** The gRPC request built for every attempt. *)
Definition grpc_request (a : TaskArgs) : ExecuteTaskRequest :=
  {| req_task_id := task_id a; req_function_name := function_name a; req_input := input a;
     req_timeout_ms := timeout_ms a; req_memory_limit_mb := memory_limit_mb a;
     req_trace_id := trace_id a; req_wasm_source := Some (wasm_source a) |}.

(** [circuit_breakers.entry(node_id).or_default()] followed by an update. *)
Definition with_breaker (node_id : string) (f : CircuitBreaker -> CircuitBreaker) (st : AppState) : AppState :=
  set_circuit_breakers
    (<[node_id := f (default default_breaker (circuit_breakers st !! node_id))]> (circuit_breakers st)) st.

Definition failed_result (a : TaskArgs) (err : string) : TaskResult :=
  {| tr_task_id := task_id a; tr_node_id := "none"; tr_success := false; tr_output := [];
     tr_execution_time_ms := 0; tr_error := Some err |}.

Definition success_result (a : TaskArgs) (n : NodeInfo) (resp : ExecuteTaskResponse) : TaskResult :=
  {| tr_task_id := task_id a; tr_node_id := id n; tr_success := true;
     tr_output := resp_output resp; tr_execution_time_ms := resp_execution_time_ms resp;
     tr_error := None |}.

Definition store_result (a : TaskArgs) (r : TaskResult) (st : AppState) : AppState :=
  set_tasks (<[task_id a := r]> (tasks st)) st.

(** A failed attempt on node [n]: remember the error and the node. *)
Definition mark_failed (n : NodeInfo) (err : string) (t : DispatchTask) : DispatchTask :=
  goto (PRecordFailure n)
    (set_tried_nodes ({[id n]} ∪ tried_nodes t) (set_last_error err t)).

(** The [match result] after the RPC on node [n]. *)
Definition on_result (e : Env) (n : NodeInfo) (r : result Status ExecuteTaskResponse)
    (t : DispatchTask) : DispatchTask :=
  match r with
  | Ok resp =>
      if resp_success resp then goto (PRecordSuccess n resp) t
      else mark_failed n (resp_error resp) t
  | Err status =>
      if decide (code status = ResourceExhausted) then
        let t' := set_capacity_waits (u32_add (capacity_waits t) 1) t in
        if MAX_CAPACITY_WAITS <? capacity_waits t'
        then goto PStoreExhausted (set_last_error "all nodes persistently at capacity" t')
        else goto (PCapacitySleep (now e + from_millis 100)) t'
      else mark_failed n (status_to_string status) t
  end.

(** ** One step of [dispatch_task] *)
Definition dispatch_step (e : Env) (t : DispatchTask) (w : CPWorld)
    : option (DispatchTask * CPWorld) :=
  match at_pc t with
  | PStart => Some (goto PSubmit t, emit (CounterInc TASKS_SUBMITTED_TOTAL) w)
  | PSubmit =>
      Some (goto PSelect (set_e2e_start (now e) t),
            with_app (fun st => set_total_submitted (u64_add (total_submitted st) 1) st) w)
  | PSelect =>
      let '(sel, st') :=
        select_node_for_task (ord e) (clk e) (Z.of_N (seed e)) (tried_nodes t) (app w) in
      let w' := with_app (fun _ => st') w in
      match sel with
      | Some n => Some (goto (PChosen n) t, w')
      | None =>
          let t' := set_no_node_count (u32_add (no_node_count t) 1) t in
          if 3 <? no_node_count t'
          then Some (goto PStoreNoNode (set_last_error "no nodes available" t'),
                     emit (CounterInc TASKS_FAILED_TOTAL) w')
          else Some (goto PQueueInc t', w')
      end
  | PQueueInc =>
      Some (goto (PQueueSleep (now e + from_secs 1)) t,
            with_app (fun st => set_queued (usize_add (queued st) 1) st) w)
  | PQueueSleep wake => if wake <=? now e then Some (goto PQueueRead t, w) else None
  | PQueueRead => Some (goto (PQueueWrite (saturating_sub (queued (app w)) 1)) t, w)
  | PQueueWrite q => Some (goto PSelect t, with_app (set_queued q) w)
  | PStoreNoNode =>
      Some (goto PDone t,
            with_app (fun st => store_result (args t) (failed_result (args t) (last_error t))
                                  (set_total_failed (u64_add (total_failed st) 1) st)) w)
  | PChosen n =>
      if 0 <? error_retries t
      then Some (goto (PPoolArc n) t,
                 with_app (fun st => set_total_retried (u64_add (total_retried st) 1) st) w)
      else Some (goto (PPoolArc n) t, w)
  | PPoolArc n => Some (goto (PPoolGet n) t, w)
  | PPoolGet n =>
      let '(r, p') := get_or_create (id n) (address n) (pool w) in
      match r with
      | Ok ch => Some (goto (PSend n ch (grpc_request (args t))) t, with_pool p' w)
      | Err status => Some (on_result e n (Err status) t, with_pool p' w)
      end
  | PSend n ch req => Some (on_result e n (rpc e) t, w)
  | PRecordSuccess n resp =>
      let w1 := with_app (with_breaker (id n) record_success) w in
      let w2 := emit (CounterInc TASKS_SUCCESS_TOTAL) w1 in
      let w3 := emit (HistObserve TASK_E2E_DURATION_MS (as_millis (elapsed (now e) (e2e_start t)))) w2 in
      Some (goto (PStoreSuccess n resp) t, w3)
  | PStoreSuccess n resp =>
      Some (goto PDone t,
            with_app (fun st => set_total_success (u64_add (total_success st) 1)
                                  (store_result (args t) (success_result (args t) n resp) st)) w)
  | PRecordFailure n =>
      let t' := set_error_retries (u32_add (error_retries t) 1) t in
      let w' := with_app (with_breaker (id n) (record_failure (now e))) w in
      if max_attempts RetryConfig_default <=? error_retries t'
      then Some (goto PStoreExhausted t', w')
      else Some (goto (PBackoff (now e + from_millis (backoff_ms RetryConfig_default))) t', w')
  | PBackoff wake | PCapacitySleep wake =>
      if wake <=? now e then Some (goto PSelect t, w) else None
  | PStoreExhausted =>
      Some (goto PDone t,
            emit (CounterInc TASKS_FAILED_TOTAL)
              (with_app (fun st => set_total_failed (u64_add (total_failed st) 1)
                 (store_result (args t)
                    (failed_result (args t) ("All nodes failed: " +:+ last_error t)) st)) w))
  | PDone => None
  end.

(** The guard of the shared state a step has to acquire. *)
Definition lock_use (t : DispatchTask) : LockUse :=
  match at_pc t with
  | PSubmit | PSelect | PQueueInc | PQueueWrite _ | PStoreNoNode | PRecordSuccess _ _
  | PStoreSuccess _ _ | PRecordFailure _ | PStoreExhausted => WriteLock
  | PChosen _ => if 0 <? error_retries t then WriteLock else NoLock
  | PQueueRead | PPoolArc _ => ReadLock
  | PStart | PQueueSleep _ | PPoolGet _ | PSend _ _ _ | PBackoff _ | PCapacitySleep _ | PDone => NoLock
  end.

(** The read guard of line 287 that is alive while the write guard is awaited. *)
Definition holds_read_guard (t : DispatchTask) : bool :=
  match at_pc t with PQueueWrite _ => true | _ => false end.

(** ** Invariant and measures *)

Definition finished (t : DispatchTask) : bool :=
  match at_pc t with PDone => true | _ => false end.

(** The node chosen and not yet answered. *)
Definition chosen (t : DispatchTask) : option NodeInfo :=
  match at_pc t with
  | PChosen n | PPoolArc n | PPoolGet n | PSend n _ _ => Some n
  | _ => None
  end.

Definition pending_failure (t : DispatchTask) : Z :=
  match at_pc t with PRecordFailure _ => 1 | _ => 0 end.

Record task_wf (t : DispatchTask) : Prop := {
  twf_error_retries : 0 <= error_retries t <= 3;
  twf_capacity_waits : 0 <= capacity_waits t <= 31;
  twf_no_node_count : 0 <= no_node_count t <= 4;
  twf_pc : match at_pc t with
           | PDone => True
           | PStoreNoNode => error_retries t < 3 /\ capacity_waits t <= 30
           | PStoreExhausted =>
               (error_retries t = 3 \/ capacity_waits t = 31) /\ no_node_count t <= 3
           | _ => error_retries t < 3 /\ capacity_waits t <= 30 /\ no_node_count t <= 3
           end;
  twf_tried : Z.of_nat (size (tried_nodes t)) = error_retries t + pending_failure t;
  twf_fresh : forall n, chosen t = Some n -> id n ∉ tried_nodes t
}.

Definition pc_rank (p : pc) : Z :=
  match p with
  | PQueueInc => 16 | PQueueSleep _ => 15 | PQueueRead => 14 | PQueueWrite _ => 13
  | PStart => 12 | PSubmit => 11 | PBackoff _ => 11 | PCapacitySleep _ => 11
  | PSelect => 10 | PChosen _ => 9 | PPoolArc _ => 8 | PPoolGet _ => 7 | PSend _ _ _ => 6
  | PRecordFailure _ => 5 | PRecordSuccess _ _ => 3 | PStoreSuccess _ _ => 2
  | PStoreExhausted => 2 | PStoreNoNode => 2 | PDone => 0
  end.

(** Decreases with every step the task itself takes. *)
Definition fuel (t : DispatchTask) : Z :=
  20 * ((3 - error_retries t) + (31 - capacity_waits t) + (4 - no_node_count t)) + pc_rank (at_pc t).

Definition is_send (t : DispatchTask) : nat :=
  match at_pc t with PSend _ _ _ => 1%nat | _ => 0%nat end.

(** RPCs the task may still issue. *)
Definition sends_left (t : DispatchTask) : Z :=
  match at_pc t with
  | PDone | PStoreNoNode | PStoreExhausted | PRecordSuccess _ _ | PStoreSuccess _ _ => 0
  | PRecordFailure _ => (2 - error_retries t) + (30 - capacity_waits t)
  | _ => (2 - error_retries t) + (30 - capacity_waits t) + 1
  end.

(** Runs of one task, with arbitrary changes to the world by others in between;
    the indices count its steps and the RPCs it issues. *)
Inductive own_run : nat -> nat -> DispatchTask -> DispatchTask -> Prop :=
| own_refl t : own_run 0 0 t t
| own_step e w w' t t1 t2 steps sends :
    dispatch_step e t w = Some (t1, w') ->
    own_run steps sends t1 t2 ->
    own_run (S steps) (is_send t + sends) t t2.

(** [k] steps of one dispatch nobody interferes with; [es] is what it reads at
    each of them. *)
Fixpoint dispatch_run (k : nat) (es : nat -> Env) (t : DispatchTask) (w : CPWorld)
    : option (DispatchTask * CPWorld) :=
  match k with
  | O => Some (t, w)
  | S k' => '(t', w') ← dispatch_step (es 0%nat) t w;
            dispatch_run k' (fun i => es (S i)) t' w'
  end.

(** The error of an attempt that counts against the node. *)
Definition attempt_error (r : result Status ExecuteTaskResponse) : option string :=
  match r with
  | Ok resp => if resp_success resp then None else Some (resp_error resp)
  | Err status => if decide (code status = ResourceExhausted) then None
                  else Some (status_to_string status)
  end.

(** A write of total_submitted is all that precedes the first selection. *)
Definition counted (st : AppState) : AppState :=
  set_total_submitted (u64_add (total_submitted st) 1) st.

End dispatch_defs.

Arguments on_result : simpl never.

(** Inputs for concrete evaluations. *)
Definition demo_args : TaskArgs :=
  {| task_id := "task-1"; trace_id := "trace"; input := []; wasm_source := SrcWasmBytes [];
     function_name := "process"; timeout_ms := 5000; memory_limit_mb := 64 |}.
Definition demo_resp : ExecuteTaskResponse :=
  {| resp_task_id := "task-1"; resp_success := true; resp_output := [Byte.x2a];
     resp_execution_time_ms := 7; resp_error := EmptyString |}.
Definition demo_env (r : result Status ExecuteTaskResponse) : Env :=
  {| now := 10; clk := fun _ => 10; ord := std_order; seed := 0; rpc := r |}.
Definition demo_world : @CPWorld toy_tonic :=
  {| app := demo_state; pool := pool_new; mlog := [] |}.

(** A task about to send its first request. *)
Definition demo_sending : @DispatchTask toy_tonic :=
  goto (PSend (demo_node "n1" 3) ("http://n1" : @Channel toy_tonic) (grpc_request demo_args)) (init_task demo_args).

(** ** Lemmas *)

Section dispatch_lemmas.
Context `{!Tonic}.

(** A node handed out by selection has not been tried. *)
Lemma select_untried o c s tried st n :
  (select_node_for_task o c (Z.of_N s) tried st).1 = Some n -> id n ∉ tried.
Proof.
  pose proof (select_node_for_task_eq o c (Z.of_N s) tried st) as Heq.
  pose proof (sweep_breakers_excluded o c tried (circuit_breakers st)) as Hex.
  destruct (sweep_breakers _ _ _ _) as [excluded cbs]. rewrite Heq. simpl in Hex.
  case_decide; simpl.
  - intros Hsel. apply select_least_loaded_Some in Hsel as [Hin _]; [|lia].
    apply elem_of_ll_available in Hin as (_ & _ & Hn). rewrite Hex in Hn. tauto.
  - unfold select_node_excluded. destruct (rr_candidates o (nodes st) excluded) eqn:E; [done|].
    simpl. rewrite <- E. intros Hn%list_elem_of_lookup_2. apply elem_of_rr_candidates in Hn as (_ & _ & Hn).
    rewrite Hex in Hn. tauto.
Qed.

Lemma dispatch_run_S k es t w t1 w1 :
  dispatch_step (es 0%nat) t w = Some (t1, w1) ->
  dispatch_run (S k) es t w = dispatch_run k (fun i => es (S i)) t1 w1.
Proof. intros Hstep. simpl. by rewrite Hstep. Qed.

Lemma init_task_wf a : task_wf (init_task a).
Proof. constructor; simpl; try lia; done. Qed.

Lemma mark_failed_wf n err t :
  task_wf t -> chosen t = Some n -> task_wf (mark_failed n err t).
Proof.
  intros Hwf Hch. destruct Hwf as [H1 H2 H3 H4 H5 H6]. specialize (H6 n Hch).
  unfold chosen, pending_failure in *.
  constructor; simpl; [done|done|done| | |done].
  - by destruct (at_pc t).
  - rewrite size_union by set_solver. rewrite size_singleton. unfold pending_failure; simpl.
    destruct (at_pc t); simplify_eq; lia.
Qed.

Lemma on_result_wf e n r t :
  task_wf t -> chosen t = Some n -> task_wf (on_result e n r t).
Proof.
  intros Hwf Hch. unfold on_result. destruct r as [resp|status].
  - case_match; [|by apply mark_failed_wf]. destruct Hwf as [H1 H2 H3 H4 H5 H6].
    unfold chosen, pending_failure in *. constructor; simpl; try done.
    + by destruct (at_pc t).
    + rewrite H5. by destruct (at_pc t).
  - case_decide; [|by apply mark_failed_wf]. destruct Hwf as [H1 H2 H3 H4 H5 H6]. simpl.
    assert (u32_add (capacity_waits t) 1 = capacity_waits t + 1) as ->
      by (apply u32_add_id; unfold u32_mod; lia).
    unfold chosen, pending_failure in *.
    destruct (Z.ltb_spec MAX_CAPACITY_WAITS (capacity_waits t + 1)) as [Hlt|Hge];
      unfold MAX_CAPACITY_WAITS in *;
      (constructor; simpl; [done|destruct (at_pc t); simplify_eq; lia|done|destruct (at_pc t); simplify_eq; lia
        |rewrite H5; by destruct (at_pc t)|done]).
Qed.

(** Closes preservation goals where the step only moves the program point. *)
Ltac solve_task_wf :=
  constructor; simpl; unfold pending_failure, chosen; simpl;
  (done || lia || (intros; simplify_eq; by auto)).

Lemma dispatch_step_wf e t w t' w' :
  dispatch_step e t w = Some (t', w') -> task_wf t -> task_wf t'.
Proof.
  intros Hstep Hwf. unfold dispatch_step in Hstep.
  destruct (at_pc t) eqn:Hpc; simplify_eq/=; try done.
  all: try (destruct Hwf as [H1 H2 H3 H4 H5 H6]; unfold chosen, pending_failure in *; rewrite Hpc in *;
    repeat (case_match; simplify_eq/=); solve_task_wf; fail).
  - (* PSelect *)
    pose proof (select_untried (ord e) (clk e) (seed e) (tried_nodes t) (app w)) as Hfresh.
    destruct (select_node_for_task _ _ _ _ _) as [[n|] st']; simpl in Hfresh.
    + specialize (Hfresh n eq_refl).
      destruct Hwf as [H1 H2 H3 H4 H5 H6]; unfold chosen, pending_failure in *; rewrite Hpc in *.
      simplify_eq. solve_task_wf.
    + destruct Hwf as [H1 H2 H3 H4 H5 H6]; unfold chosen, pending_failure in *; rewrite Hpc in *.
      rewrite u32_add_id in Hstep by (unfold u32_mod; lia).
      destruct (Z.ltb_spec 3 (no_node_count t + 1)); simplify_eq; solve_task_wf.
  - (* PPoolGet *)
    destruct (get_or_create _ _ _) as [[ch|status] p']; simplify_eq.
    + destruct Hwf as [H1 H2 H3 H4 H5 H6]; unfold chosen, pending_failure in *; rewrite Hpc in *.
      solve_task_wf.
    + apply on_result_wf; [done|]. unfold chosen. by rewrite Hpc.
  - (* PSend *)
    apply on_result_wf; [done|]. unfold chosen. by rewrite Hpc.
  - (* PRecordFailure *)
    destruct Hwf as [H1 H2 H3 H4 H5 H6]; unfold chosen, pending_failure in *; rewrite Hpc in *.
    rewrite u32_add_id in Hstep by (unfold u32_mod; lia).
    destruct (Z.leb_spec 3 (error_retries t + 1)); simplify_eq; solve_task_wf.
Qed.

Lemma on_result_fuel e n r t :
  task_wf t -> chosen t = Some n -> 6 <= pc_rank (at_pc t) -> fuel (on_result e n r t) < fuel t.
Proof.
  intros [H1 H2 H3 H4 H5 H6] Hch Hr. unfold on_result, mark_failed, fuel.
  destruct r as [resp|status]; [destruct (resp_success resp); simpl; lia|].
  case_decide; [|simpl; lia]. simpl.
  rewrite u32_add_id by (unfold u32_mod; lia).
  destruct (MAX_CAPACITY_WAITS <? _); simpl; lia.
Qed.

Lemma dispatch_step_fuel e t w t' w' :
  dispatch_step e t w = Some (t', w') -> task_wf t -> fuel t' < fuel t.
Proof.
  intros Hstep Hwf. unfold dispatch_step in Hstep.
  assert (Hch : forall n, chosen t = Some n -> 6 <= pc_rank (at_pc t) ->
    forall r, fuel (on_result e n r t) < fuel t) by (intros; by apply on_result_fuel).
  unfold chosen in Hch. pose proof Hwf as [H1 H2 H3 _ _ _]. unfold fuel in *.
  destruct (at_pc t) eqn:Hpc; simplify_eq/=; try lia.
  all: try (apply Hch; [done|lia]).
  all: repeat (case_match; simplify_eq/=); simpl in *;
    rewrite ?u32_add_id by (unfold u32_mod; lia); try lia.
  all: apply Hch; [done|lia].
Qed.

Lemma fuel_nonneg t : task_wf t -> 0 <= fuel t.
Proof. intros [? ? ? _ _ _]. unfold fuel. destruct (at_pc t); simpl; lia. Qed.

Lemma dispatch_step_sends e t w t' w' :
  dispatch_step e t w = Some (t', w') -> task_wf t ->
  sends_left t' + Z.of_nat (is_send t) <= sends_left t.
Proof.
  intros Hstep Hwf. pose proof (dispatch_step_wf _ _ _ _ _ Hstep Hwf) as Hwf'.
  unfold dispatch_step in Hstep. destruct Hwf as [H1 H2 H3 H4 _ _].
  unfold sends_left, is_send, on_result, mark_failed in *.
  destruct (at_pc t) eqn:Hpc; simplify_eq/=; try lia.
  all: repeat (case_match; simplify_eq/=); simpl in *;
    rewrite ?u32_add_id by (unfold u32_mod; lia); try lia.
Qed.

Lemma sends_left_nonneg t : task_wf t -> 0 <= sends_left t.
Proof.
  intros [? ? ? Hpc _ _]. unfold sends_left. destruct (at_pc t); lia.
Qed.

Lemma own_run_bounds steps sends t t' :
  own_run steps sends t t' -> task_wf t ->
  task_wf t' /\ Z.of_nat steps + fuel t' <= fuel t /\ Z.of_nat sends + sends_left t' <= sends_left t.
Proof.
  induction 1 as [t|e w w' t t1 t2 steps sends Hstep _ IH]; intros Hwf; [lia||done|].
  pose proof (dispatch_step_wf _ _ _ _ _ Hstep Hwf) as Hwf1.
  pose proof (dispatch_step_fuel _ _ _ _ _ Hstep Hwf).
  pose proof (dispatch_step_sends _ _ _ _ _ Hstep Hwf).
  destruct (IH Hwf1) as (? & ? & ?). split; [done|lia].
Qed.

(** Away from the end, only a sleep that is not over can delay a step. *)
Lemma dispatch_can_step t w :
  finished t = false ->
  exists later, forall e', now e' = later -> is_Some (dispatch_step e' t w).
Proof.
  intros Hf. unfold finished in Hf. unfold dispatch_step.
  destruct (at_pc t) eqn:Hpc; try discriminate.
  all: try (exists 0; intros e' He'; repeat case_match; eauto; fail).
  all: exists wake; intros e' <-; rewrite Z.leb_refl; eauto.
Qed.

(** A task whose first attempt succeeds: run alone from its start, the
    dispatch selects a node, gets its channel, sends, and ends with exactly one
    result stored under its id, carrying the node, output and time of the
    response; the node's breaker is closed with no failures on record, and the
    submission and the success are each counted once. *)
Lemma dispatch_success_run es a w n ch p' st2 resp :
  select_node_for_task (ord (es 2%nat)) (clk (es 2%nat)) (Z.of_N (seed (es 2%nat))) ∅ (counted (app w))
    = (Some n, st2) ->
  get_or_create (id n) (address n) (pool w) = (Ok ch, p') ->
  rpc (es 6%nat) = Ok resp -> resp_success resp = true ->
  exists t' w', dispatch_run 9 es (init_task a) w = Some (t', w') /\ finished t' = true /\
    tasks (app w') = <[task_id a := success_result a n resp]> (tasks (app w)) /\
    (exists cb, circuit_breakers (app w') !! id n = Some cb /\ state cb = Closed /\ failure_count cb = 0) /\
    total_submitted (app w') = u64_add (total_submitted (app w)) 1 /\
    total_success (app w') = u64_add (total_success (app w)) 1 /\
    total_failed (app w') = total_failed (app w) /\ nodes (app w') = nodes (app w) /\ pool w' = p'.
Proof.
  intros Hsel Hget Hrpc Hok.
  pose proof (select_node_for_task_frame (ord (es 2%nat)) (clk (es 2%nat)) (Z.of_N (seed (es 2%nat))) ∅
    (counted (app w))) as Hfr.
  rewrite Hsel in Hfr. simpl in Hfr. destruct Hfr as (Hn & Ht & _ & Hs1 & Hs2 & Hs3 & _).
  do 2 eexists. split.
  { do 2 (erewrite dispatch_run_S; [|reflexivity]).
    erewrite dispatch_run_S; [|unfold dispatch_step; cbn [at_pc goto tried_nodes set_e2e_start init_task];
      simpl app; unfold counted in Hsel; rewrite Hsel; reflexivity].
    do 2 (erewrite dispatch_run_S; [|reflexivity]).
    erewrite dispatch_run_S; [|unfold dispatch_step; simpl at_pc; cbv iota; simpl pool; rewrite Hget; reflexivity].
    erewrite dispatch_run_S; [|unfold dispatch_step; simpl at_pc; cbv iota; unfold on_result; rewrite Hrpc, Hok; reflexivity].
    do 2 (erewrite dispatch_run_S; [|reflexivity]).
    reflexivity. }
  simpl. rewrite Hn, Ht, Hs1, Hs2, Hs3. split_and!; try done.
  eexists. rewrite lookup_insert_eq. done.
Qed.

End dispatch_lemmas.

Lemma demo_sending_wf : task_wf demo_sending.
Proof.
  constructor; simpl; try lia; [done|]. intros n _. apply not_elem_of_empty.
Defined.

(** ** Properties *)

(** C7. A dispatch always comes to an end: whatever the other tasks do to the
    shared state, whatever nodes are selected and whatever the RPCs return, one
    [dispatch_task] executes at most 772 steps, issues at most 33 RPCs, and the
    nodes on which it failed are at most three, all different. *)
Theorem dispatch_bounded `{!Tonic} a steps sends t :
  own_run steps sends (init_task a) t ->
  (steps <= 772)%nat /\ (sends <= 33)%nat /\
  Z.of_nat (size (tried_nodes t)) = error_retries t + pending_failure t /\
  (size (tried_nodes t) <= 3)%nat.
Proof.
  intros Hrun. pose proof (own_run_bounds _ _ _ _ Hrun (init_task_wf a)) as (Hwf & Hf & Hs).
  pose proof (fuel_nonneg t Hwf). pose proof (sends_left_nonneg t Hwf).
  destruct Hwf as [Her _ _ Hpc Htr _].
  change (fuel (init_task a)) with 772 in Hf. change (sends_left (init_task a)) with 33 in Hs.
  split; [lia|]. split; [lia|]. split; [done|].
  unfold pending_failure in *. destruct (at_pc t); lia.
Qed.

Lemma dispatch_bounded_witness :
  exists t, @own_run toy_tonic 1 0 (init_task demo_args) t /\ (size (tried_nodes t) <= 3)%nat.
Proof.
  assert (@own_run toy_tonic 1 0 (init_task demo_args) (goto PSubmit (init_task demo_args))) as H.
  { exact (@own_step toy_tonic (demo_env (Ok demo_resp)) demo_world
      (emit (CounterInc TASKS_SUBMITTED_TOTAL) demo_world) (init_task demo_args)
      (goto PSubmit (init_task demo_args)) _ 0 0 eq_refl (@own_refl toy_tonic _)). }
  eexists. split; [exact H|].
  exact (proj2 (proj2 (proj2 (@dispatch_bounded toy_tonic demo_args 1 0 _ H)))).
Defined.

(** A failed attempt (an unsuccessful response or a transport error, but not
    a full node): the node joins the tried ones, its breaker records the failure
    at that moment, and the error is kept. After the first and second failure
    the task backs off for 500 ms; the third ends it with the stored error
    [All nodes failed: <last error>], counted once as failed. *)
Theorem dispatch_failed_attempt `{!Tonic} es t w n ch req err :
  task_wf t -> at_pc t = PSend n ch req -> attempt_error (rpc (es 0%nat)) = Some err ->
  exists t2 w2, dispatch_run 2 es t w = Some (t2, w2) /\
    tried_nodes t2 = {[id n]} ∪ tried_nodes t /\ (id n ∉ tried_nodes t) /\ last_error t2 = err /\
    app w2 = with_breaker (id n) (record_failure (now (es 1%nat))) (app w) /\
    if decide (error_retries t < 2)
    then at_pc t2 = PBackoff (now (es 1%nat) + from_millis 500)
    else exists t3 w3, dispatch_run 3 es t w = Some (t3, w3) /\ finished t3 = true /\
      tasks (app w3) = <[task_id (args t) := failed_result (args t) ("All nodes failed: " +:+ err)]> (tasks (app w)) /\
      total_failed (app w3) = u64_add (total_failed (app w)) 1.
Proof.
  intros [Her _ _ Hpc _ Hfresh] Hat Herr. rewrite Hat in Hpc.
  assert (dispatch_step (es 0%nat) t w = Some (mark_failed n err t, w)) as H1'.
  { unfold dispatch_step. rewrite Hat. unfold on_result, attempt_error in *.
    repeat case_match; simplify_eq/=; done. }
  assert (u32_add (error_retries t) 1 = error_retries t + 1) as Hadd
    by (apply u32_add_id; unfold u32_mod; lia).
  rewrite !(dispatch_run_S _ _ _ _ _ _ H1').
  specialize (Hfresh n ltac:(unfold chosen; by rewrite Hat)).
  case_decide as Hlt.
  - do 2 eexists. split.
    { erewrite dispatch_run_S; [reflexivity|]. unfold dispatch_step. cbn -[u32_add Z.leb]. rewrite Hadd.
      rewrite (proj2 (Z.leb_gt _ _)) by lia. reflexivity. }
    done.
  - do 2 eexists. split.
    { erewrite dispatch_run_S; [reflexivity|]. unfold dispatch_step. cbn -[u32_add Z.leb]. rewrite Hadd.
      rewrite (proj2 (Z.leb_le _ _)) by lia. reflexivity. }
    split_and!; try done. do 2 eexists. split.
    { erewrite dispatch_run_S;
        [|unfold dispatch_step; cbn -[u32_add Z.leb]; rewrite Hadd, (proj2 (Z.leb_le _ _)) by lia; reflexivity].
      erewrite dispatch_run_S; reflexivity. }
    done.
Qed.

Lemma dispatch_failed_attempt_witness :
  exists t2 w2, dispatch_run 2 (fun _ => demo_env (Err {| code := Unavailable; message := "down" |}))
      demo_sending demo_world
      = Some (t2, w2) /\ tried_nodes t2 = {["n1"]} ∪ ∅.
Proof.
  destruct (@dispatch_failed_attempt toy_tonic (fun _ => demo_env (Err {| code := Unavailable; message := "down" |}))
    demo_sending demo_world
    (demo_node "n1" 3) "http://n1" (grpc_request demo_args) _
    demo_sending_wf
    eq_refl ltac:(reflexivity)) as (t2 & w2 & Hrun & Htr & _).
  exists t2, w2. split; [exact Hrun|exact Htr].
Defined.

(** Back-pressure: a full node ([ResourceExhausted]) is not held against
    anybody. The shared state, the tried nodes and the retry count stay as they
    are; the task waits 100 ms and selects again, up to thirty times, and ends
    with [All nodes failed: all nodes persistently at capacity] at the
    thirty-first. *)
Theorem dispatch_capacity_backpressure `{!Tonic} es t w n ch req status :
  task_wf t -> at_pc t = PSend n ch req -> rpc (es 0%nat) = Err status ->
  code status = ResourceExhausted ->
  exists t1, dispatch_run 1 es t w = Some (t1, w) /\
    tried_nodes t1 = tried_nodes t /\ error_retries t1 = error_retries t /\
    capacity_waits t1 = capacity_waits t + 1 /\
    if decide (capacity_waits t < 30)
    then at_pc t1 = PCapacitySleep (now (es 0%nat) + from_millis 100)
    else exists t2 w2, dispatch_run 2 es t w = Some (t2, w2) /\ finished t2 = true /\
      circuit_breakers (app w2) = circuit_breakers (app w) /\
      tasks (app w2) = <[task_id (args t) := failed_result (args t)
        "All nodes failed: all nodes persistently at capacity"]> (tasks (app w)).
Proof.
  intros [_ Hcw _ _ _ _] Hat Hrpc Hcode.
  assert (u32_add (capacity_waits t) 1 = capacity_waits t + 1) as Hadd
    by (apply u32_add_id; unfold u32_mod; lia).
  assert (dispatch_step (es 0%nat) t w = Some (on_result (es 0%nat) n (Err status) t, w)) as H1'.
  { unfold dispatch_step. by rewrite Hat, Hrpc. }
  rewrite !(dispatch_run_S _ _ _ _ _ _ H1'). unfold on_result. rewrite decide_True by done.
  cbn -[u32_add Z.ltb]. rewrite Hadd. unfold MAX_CAPACITY_WAITS. case_decide as Hlt.
  - rewrite (proj2 (Z.ltb_ge _ _)) by lia. eexists. by split_and!.
  - rewrite (proj2 (Z.ltb_lt _ _)) by lia. eexists. split_and!; try reflexivity; try done.
    do 2 eexists. split; [reflexivity|done].
Qed.

Lemma dispatch_capacity_backpressure_witness :
  exists t1, dispatch_run 1 (fun _ => demo_env (Err {| code := ResourceExhausted; message := "full" |}))
      demo_sending demo_world
      = Some (t1, demo_world) /\ capacity_waits t1 = 0 + 1.
Proof.
  destruct (@dispatch_capacity_backpressure toy_tonic
    (fun _ => demo_env (Err {| code := ResourceExhausted; message := "full" |}))
    demo_sending demo_world
    (demo_node "n1" 3) "http://n1" (grpc_request demo_args) _
    demo_sending_wf
    eq_refl eq_refl eq_refl) as (t1 & Hrun & _ & _ & Hcw & _).
  exists t1. split; [exact Hrun|exact Hcw].
Defined.
