(* ===== verification/Health.v ===== *)
(** * Health checks

    Models [services/control-plane/src/health.rs]. A probe ([connect] followed
    by the [Health] RPC under a two-second timeout, [probe_node] over the client of
    [crates/proto/src/client.rs]) has one of three outcomes; the rounds are
    stated for any outcomes. [check_all_nodes] is one round on an
    otherwise idle state; [health_step] is the same code cut at its suspension
    points, so that other tasks can run between the probes. *)

From S2P Require Import Prelude RustStd Common CircuitBreaker Scheduler Registry AppState Dispatch.

(** ** Data *)
Inductive ProbeResult :=
| ProbeOk (resp : HealthResponse)
| ProbeErr (e : string)
| ProbeTimeout.

(** ** The gRPC client (crates/proto/src/client.rs)

    The client tonic generates from [edge.proto] is an interface; the wrapper
    [EdgeNodeClient] around it is the program's. *)
Class EdgeServiceClient := {
  Inner : Type;
  inner_connect : string -> result string Inner;
  inner_execute_task : Inner -> ExecuteTaskRequest -> result Status ExecuteTaskResponse;
  inner_health : Inner -> result Status HealthResponse;
  status_display : Status -> string
}.

Section client.
Context `{!EdgeServiceClient}.

Definition client_connect (addr : string) : result string Inner := inner_connect addr.

(** The raw status is kept. *)
Definition client_execute_task (c : Inner) (req : ExecuteTaskRequest) : result Status ExecuteTaskResponse :=
  inner_execute_task c req.

(** The status becomes an [anyhow::Error]. *)
Definition client_health_check (c : Inner) : result string HealthResponse :=
  map_err status_display (inner_health c).

(** [connect] and [health_check] under the timeout of two seconds; [slow] tells
    whether it ran out first. *)
Definition probe_node (slow : bool) (addr : string) : ProbeResult :=
  if slow then ProbeTimeout
  else match (c ← client_connect addr; client_health_check c) with
       | Ok resp => ProbeOk resp
       | Err e => ProbeErr e
       end.

End client.

Section health_defs.
Context `{!Tonic}.

(** ** Operations *)

(** [nodes.get_mut(node_id)] and the update of the record found. *)
Definition update_node (node_id : string) (f : NodeInfo -> NodeInfo) (st : AppState) : AppState :=
  set_nodes (alter f node_id (nodes st)) st.

(** The three arms of [match result]; returns the healthy count as well. *)
Definition apply_probe (node_id : string) (r : ProbeResult) (healthy_count : Z) (w : CPWorld)
    : Z * CPWorld :=
  match r with
  | ProbeOk resp =>
      (usize_add healthy_count 1,
       with_app (update_node node_id
         (fun n => set_active_tasks (hr_active_tasks resp) (set_healthy true n))) w)
  | ProbeErr _ | ProbeTimeout =>
      (healthy_count,
       emit (CounterInc (NODE_HEALTH_CHECK_FAILURES node_id))
         (with_app (update_node node_id (set_healthy false)) w))
  end.

(** The snapshot of (id, address) pairs. *)
Definition snapshot (ord : HashOrder) (st : AppState) : list (string * string) :=
  (fun n => (id n, address n)) <$> hash_values ord (nodes st).

Fixpoint probe_all (probe : string -> string -> ProbeResult) (l : list (string * string))
    (healthy_count : Z) (w : CPWorld) : Z * CPWorld :=
  match l with
  | [] => (healthy_count, w)
  | (node_id, addr) :: l' =>
      let '(c, w') := apply_probe node_id (probe node_id addr) healthy_count w in
      probe_all probe l' c w'
  end.

Definition check_all_nodes (ord : HashOrder) (probe : string -> string -> ProbeResult)
    (w : CPWorld) : CPWorld :=
  let '(c, w') := probe_all probe (snapshot ord (app w)) 0 w in
  emit (GaugeSet HEALTHY_NODES_GAUGE c) w'.

(** ** The background loop, between suspension points *)
Inductive health_pc :=
| HTick
| HProbe (todo : list (string * string)) (healthy_count : Z)
| HApply (node_id : string) (r : ProbeResult) (todo : list (string * string)) (healthy_count : Z).

Definition health_step (ord : HashOrder) (r : ProbeResult) (h : health_pc) (w : CPWorld)
    : health_pc * CPWorld :=
  match h with
  | HTick => (HProbe (snapshot ord (app w)) 0, w)
  | HProbe [] c => (HTick, emit (GaugeSet HEALTHY_NODES_GAUGE c) w)
  | HProbe ((node_id, _) :: todo) c => (HApply node_id r todo c, w)
  | HApply node_id r' todo c => let '(c', w') := apply_probe node_id r' c w in (HProbe todo c', w')
  end.

Definition health_lock_use (h : health_pc) : LockUse :=
  match h with HTick => ReadLock | HProbe _ _ => NoLock | HApply _ _ _ _ => WriteLock end.

(** The round of [health_step]s an idle state goes through, for a probe oracle. *)
Fixpoint health_run (fuel : nat) (ord : HashOrder) (probe : string -> string -> ProbeResult)
    (h : health_pc) (w : CPWorld) : health_pc * CPWorld :=
  match fuel with
  | O => (h, w)
  | S fuel' =>
      let r := match h with HProbe ((i, a) :: _) _ => probe i a | _ => ProbeTimeout end in
      let '(h', w') := health_step ord r h w in
      match h' with HTick => (h', w') | _ => health_run fuel' ord probe h' w' end
  end.

(** ** Specification of a round *)

(** What a round makes of a node. *)
Definition probed (probe : string -> string -> ProbeResult) (n : NodeInfo) : NodeInfo :=
  match probe (id n) (address n) with
  | ProbeOk resp => set_active_tasks (hr_active_tasks resp) (set_healthy true n)
  | _ => set_healthy false n
  end.

Definition probe_ok (probe : string -> string -> ProbeResult) (p : string * string) : bool :=
  match probe p.1 p.2 with ProbeOk _ => true | _ => false end.

End health_defs.

(** ** Lemmas *)
Section health_lemmas.
Context `{!Tonic}.
Implicit Types (probe : string -> string -> ProbeResult).

Lemma apply_probe_nodes node_id r c w :
  nodes (app (apply_probe node_id r c w).2) =
  alter (match r with
         | ProbeOk resp => fun n => set_active_tasks (hr_active_tasks resp) (set_healthy true n)
         | _ => set_healthy false
         end) node_id (nodes (app w)).
Proof. by destruct r. Qed.

(** Outside the node map a probe changes no application state. *)
Lemma apply_probe_frame node_id r c w :
  app (apply_probe node_id r c w).2 = set_nodes (nodes (app (apply_probe node_id r c w).2)) (app w).
Proof. by destruct r. Qed.

Lemma probe_all_nodes probe l c w :
  NoDup l.*1 ->
  forall k, nodes (app (probe_all probe l c w).2) !! k =
    match list_to_map (M := gmap string string) l !! k with
    | Some addr =>
        match probe k addr with
        | ProbeOk resp => (fun n => set_active_tasks (hr_active_tasks resp) (set_healthy true n)) <$> nodes (app w) !! k
        | _ => set_healthy false <$> nodes (app w) !! k
        end
    | None => nodes (app w) !! k
    end.
Proof.
  revert c w. induction l as [|[i a] l IH]; intros c w Hnd k; [done|].
  simpl in Hnd. apply NoDup_cons in Hnd as [Hi Hnd]. cbn [probe_all list_to_map foldr uncurry].
  pose proof (apply_probe_nodes i (probe i a) c w) as Hn.
  destruct (apply_probe i (probe i a) c w) as [c' w'] eqn:E. simpl in Hn.
  simpl. rewrite IH by done. rewrite Hn. destruct (decide (k = i)) as [->|Hne].
  - rewrite lookup_insert_eq, not_elem_of_list_to_map_1 by done.
    rewrite lookup_alter_eq. by destruct (probe i a).
  - rewrite lookup_insert_ne, lookup_alter_ne by done. done.
Qed.

Lemma probe_all_count probe l c w :
  0 <= c -> c + Z.of_nat (length l) < u64_mod ->
  (probe_all probe l c w).1 = c + Z.of_nat (length (filter (probe_ok probe) l)).
Proof.
  revert c w. induction l as [|[i a] l IH]; intros c w Hc Hlen; simpl in *; [lia|].
  unfold apply_probe. rewrite filter_cons.
  assert (probe_ok probe (i, a) = match probe i a with ProbeOk _ => true | _ => false end) as Hok by done.
  destruct (probe i a); [rewrite decide_True by (rewrite Hok; exact I)|rewrite decide_False by (rewrite Hok; simpl; tauto)..].
  - rewrite IH; rewrite ?usize_add_id by lia; try lia. simpl. lia.
  - rewrite IH by lia. done.
  - rewrite IH by lia. done.
Qed.

Lemma probe_all_frame probe l c w :
  app (probe_all probe l c w).2 = set_nodes (nodes (app (probe_all probe l c w).2)) (app w).
Proof.
  revert c w. induction l as [|[i a] l IH]; intros c w; simpl; [by destruct (app w)|].
  pose proof (apply_probe_frame i (probe i a) c w) as Hf.
  destruct (apply_probe i (probe i a) c w) as [c' w'] eqn:E. simpl in Hf.
  rewrite IH. rewrite Hf. done.
Qed.

(** The snapshot lists every node once under its key when nodes are keyed by id. *)
Lemma snapshot_keys ord st :
  (forall k n, nodes st !! k = Some n -> id n = k) ->
  (snapshot ord st).*1 = hash_keys ord (nodes st).
Proof.
  intros Hid. unfold snapshot, hash_keys, hash_values.
  rewrite <- !list_fmap_compose. apply list_fmap_ext. intros i [k n] Hin.
  simpl. apply Hid. eapply elem_of_hash_iter, list_elem_of_lookup_2. done.
Qed.

Lemma snapshot_NoDup ord st :
  (forall k n, nodes st !! k = Some n -> id n = k) -> NoDup (snapshot ord st).*1.
Proof. intros Hid. rewrite snapshot_keys by done. apply hash_keys_NoDup. Qed.

Lemma snapshot_lookup ord st :
  (forall k n, nodes st !! k = Some n -> id n = k) ->
  forall k, list_to_map (M := gmap string string) (snapshot ord st) !! k = address <$> nodes st !! k.
Proof.
  intros Hid k. destruct (nodes st !! k) as [n|] eqn:E; simpl.
  - apply elem_of_list_to_map_1; [by apply snapshot_NoDup|].
    unfold snapshot. apply list_elem_of_fmap. exists n.
    split; [f_equal; by rewrite (Hid k n)|]. apply elem_of_hash_values. eauto.
  - apply not_elem_of_list_to_map_1. rewrite snapshot_keys by done.
    unfold hash_keys. rewrite list_elem_of_fmap. intros ([k' n] & -> & Hin).
    apply elem_of_hash_iter in Hin. simpl in E. congruence.
Qed.

Lemma length_snapshot ord st : length (snapshot ord st) = size (nodes st).
Proof.
  unfold snapshot, hash_values. rewrite !length_fmap. apply hash_iter_length.
Qed.

(** Cutting the round at its suspension points does not change what it does. *)
Lemma health_run_probe_all ord probe l c w fuel :
  (2 * length l < fuel)%nat ->
  health_run fuel ord probe (HProbe l c) w =
    (HTick, emit (GaugeSet HEALTHY_NODES_GAUGE (probe_all probe l c w).1) (probe_all probe l c w).2).
Proof.
  revert fuel c w. induction l as [|[i a] l IH]; intros fuel c w Hf; simpl in Hf.
  - destruct fuel; [lia|]. done.
  - destruct fuel as [|[|fuel]]; [lia|lia|]. simpl.
    destruct (apply_probe i (probe i a) c w) as [c' w']. rewrite IH by lia. done.
Qed.

(** The node map after a round, and that nothing else of the state changes. *)
Lemma check_all_nodes_spec ord probe w :
  (forall k n, nodes (app w) !! k = Some n -> id n = k) ->
  nodes (app (check_all_nodes ord probe w)) = probed probe <$> nodes (app w) /\
  app (check_all_nodes ord probe w) = set_nodes (nodes (app (check_all_nodes ord probe w))) (app w).
Proof.
  intros Hid. unfold check_all_nodes.
  pose proof (probe_all_nodes probe _ 0 w (snapshot_NoDup ord (app w) Hid)) as Hn.
  pose proof (probe_all_frame probe (snapshot ord (app w)) 0 w) as Hf.
  destruct (probe_all _ _ _ _) as [c w']. simpl in *. split; [|done].
  apply map_eq. intros k. rewrite Hn, snapshot_lookup, lookup_fmap by done.
  destruct (nodes (app w) !! k) as [n|] eqn:E; [|done]. simpl.
  unfold probed. rewrite (Hid k n E). by destruct (probe k (address n)).
Qed.

End health_lemmas.

(** ** Properties *)

(** One health-check round on an idle control plane, with nodes keyed by
    their id: every registered node is probed, those that answered are healthy
    with the load they reported, all others are unhealthy with their load
    unchanged, no node appears or disappears, nothing else of the state
    changes, and the gauge is set to the number of answers. *)
Theorem check_all_nodes_correct `{!Tonic} ord probe w :
  (forall k n, nodes (app w) !! k = Some n -> id n = k) ->
  Z.of_nat (size (nodes (app w))) < u64_mod ->
  let w' := check_all_nodes ord probe w in
  nodes (app w') = probed probe <$> nodes (app w) /\
  app w' = set_nodes (nodes (app w')) (app w) /\
  head (mlog w') = Some (GaugeSet HEALTHY_NODES_GAUGE
    (Z.of_nat (length (filter (probe_ok probe) (snapshot ord (app w)))))).
Proof.
  intros Hid Hsz w'. destruct (check_all_nodes_spec ord probe w Hid) as [Hn Hf].
  split_and!; [done|done|]. subst w'. unfold check_all_nodes.
  pose proof (probe_all_count probe (snapshot ord (app w)) 0 w) as Hc.
  rewrite length_snapshot in Hc. specialize (Hc ltac:(lia) ltac:(lia)).
  destruct (probe_all _ _ _ _) as [c w']. simpl in *. by rewrite Hc.
Qed.

Lemma check_all_nodes_correct_witness :
  nodes (app (check_all_nodes std_order (fun _ _ => ProbeTimeout) demo_world)) =
    set_healthy false <$> demo_nodes.
Proof.
  refine (proj1 (@check_all_nodes_correct toy_tonic std_order (fun _ _ => ProbeTimeout) demo_world _ _)).
  - intros k n Hk. unfold demo_world, demo_state, demo_nodes in Hk. simpl in Hk.
    apply lookup_insert_Some in Hk as [[<- <-]|[_ Hk]]; [reflexivity|].
    apply lookup_insert_Some in Hk as [[<- <-]|[_ Hk]]; [reflexivity|].
    rewrite lookup_empty in Hk. discriminate Hk.
  - vm_compute. reflexivity.
Defined.

(** The background task's round, interrupted at every await, has the
    effect of the uninterrupted [check_all_nodes] when nobody else acts, and it
    always gets back to waiting for the next tick within [2 n + 2] steps. *)
Theorem health_round_terminates `{!Tonic} ord probe w :
  health_run (2 * size (nodes (app w)) + 2) ord probe HTick w =
    (HTick, check_all_nodes ord probe w).
Proof.
  assert (forall k, health_run (S k) ord probe HTick w =
    health_run k ord probe (HProbe (snapshot ord (app w)) 0) w) as Hstart by done.
  replace (2 * size (nodes (app w)) + 2)%nat with (S (S (2 * size (nodes (app w))))) by lia.
  rewrite Hstart, health_run_probe_all by (rewrite length_snapshot; lia).
  unfold check_all_nodes. by destruct (probe_all _ _ _ _).
Qed.
