(* ===== verification/Handlers.v ===== *)
(** * HTTP handlers of the control plane

    Models the request handlers of [services/control-plane/src/api/handlers.rs]
    other than the dispatch loop: request bodies, response envelope and status
    mapping, input resolution, task submission (single and batch), module
    upload with pre-warming, node registration and the read-only endpoints.
    UUIDs and the wall clock are arguments; base64, SHA-256 and the transport
    are interfaces. A handler that only reads takes the [AppState] its read
    guard shows it; one that writes returns the new state. *)

From S2P Require Import Prelude RustStd Common CircuitBreaker Scheduler Registry AppState Dispatch.

(** ** Response envelope and errors *)

Record ApiResponse (T : Type) := { data : option T; error : option string }.
Arguments data {T} _.
Arguments error {T} _.

Definition api_ok {T} (d : T) : ApiResponse T := {| data := Some d; error := None |}.
Definition error_response {T} (msg : string) : ApiResponse T := {| data := None; error := Some msg |}.

(** [impl IntoResponse for AppError]: status code and body. *)
Definition into_response {T} (e : EdgeError) : Z * ApiResponse T :=
  let status := match e with
                | TaskNotFound _ => 404
                | NodeUnavailable _ => 503
                | Timeout => 504
                | InvalidWasm _ => 400
                | _ => 500
                end in
  (status, error_response (EdgeError_to_string e)).

(** A handler's [Result] as axum sends it. *)
Definition respond {T} (r : result EdgeError (ApiResponse T)) : Z * ApiResponse T :=
  match r with Ok d => (200, d) | Err e => into_response e end.

(** ** Request bodies *)

Record SubmitTaskRequest := {
  sub_wasm_base64 : option string;
  sub_module_name : option string;
  sub_module_version : option string;
  sub_function_name : string;
  sub_input_base64 : string;
  sub_timeout_ms : option Z;
  sub_memory_limit_mb : option Z
}.

Record RegisterNodeRequest := {
  reg_node_id : string;
  reg_address : string;
  reg_http_address : option string;
  reg_max_concurrent_tasks : option Z
}.

Record UploadModuleRequest := {
  up_name : string;
  up_version : string;
  up_wasm_base64 : string
}.

Record BatchTaskItem := {
  bti_wasm_base64 : option string;
  bti_module_name : option string;
  bti_module_version : option string;
  bti_function_name : string;
  bti_input_base64 : string;
  bti_timeout_ms : option Z;
  bti_memory_limit_mb : option Z
}.

(** ** Task submission *)
Section handlers.
Context `{!Base64} `{!Sha2} `{!Tonic}.

Definition module_not_found (name version : string) : EdgeError :=
  TaskNotFound (name +:+ ":" +:+ version).

Definition resolve_task_inputs (st : AppState) (body : SubmitTaskRequest)
    : result EdgeError (bytes * WasmSource) :=
  inp ← map_err InvalidWasm (b64_decode (sub_input_base64 body));
  src ← (match sub_module_name body, sub_module_version body with
         | Some name, Some version =>
             e ← ok_or (module_not_found name version) (get name version (module_registry st));
             let fetch_url := self_url st +:+ "/modules/" +:+ name +:+ "/" +:+ version in
             Ok (SrcModuleRef {| mr_name := name; mr_version := version;
                                 mr_hash := mm_hash e.1; mr_fetch_url := fetch_url |})
         | _, _ =>
             s ← ok_or (InvalidWasm "provide wasm_base64 or module_name+module_version")
                   (sub_wasm_base64 body);
             b ← map_err InvalidWasm (b64_decode s);
             Ok (SrcWasmBytes b)
         end);
  Ok (inp, src).

(** The arguments a submission passes to [dispatch_task]. *)
Definition dispatch_args (task_id trace_id : string) (body : SubmitTaskRequest)
    (r : bytes * WasmSource) : TaskArgs :=
  {| task_id := task_id; trace_id := trace_id; input := r.1; wasm_source := r.2;
     function_name := sub_function_name body;
     timeout_ms := default 5000 (sub_timeout_ms body);
     memory_limit_mb := default 64 (sub_memory_limit_mb body) |}.

(** [submit_task] up to the call of [dispatch_task]; the response carries the id
    [dispatch_task] returns, which is the one it was given. *)
Definition submit_task (st : AppState) (uuid trace_id : string) (body : SubmitTaskRequest)
    : result EdgeError TaskArgs :=
  r ← resolve_task_inputs st body;
  Ok (dispatch_args uuid trace_id body r).

Definition submit_task_response (a : TaskArgs) : ApiResponse string := api_ok (task_id a).

Definition request_of_item (i : BatchTaskItem) : SubmitTaskRequest :=
  {| sub_wasm_base64 := bti_wasm_base64 i; sub_module_name := bti_module_name i;
     sub_module_version := bti_module_version i; sub_function_name := bti_function_name i;
     sub_input_base64 := bti_input_base64 i; sub_timeout_ms := bti_timeout_ms i;
     sub_memory_limit_mb := bti_memory_limit_mb i |}.

(** The loop over the items: each one is resolved against the state its own
    read guard shows ([seen k]) and spawned at once; the first error returns
    from the handler, leaving the earlier items running. *)
Fixpoint batch_loop (trace_id : string) (uuid : nat -> string) (seen : nat -> AppState)
    (k : nat) (items : list BatchTaskItem) : result EdgeError unit * list TaskArgs :=
  match items with
  | [] => (Ok tt, [])
  | i :: items' =>
      match resolve_task_inputs (seen k) (request_of_item i) with
      | Err e => (Err e, [])
      | Ok r =>
          let '(res, spawned) := batch_loop trace_id uuid seen (S k) items' in
          (res, dispatch_args (uuid k) trace_id (request_of_item i) r :: spawned)
      end
  end.

(** [join_all] and [unwrap_or_else]: a task that panicked shows as ["error"]. *)
Definition joined_ids (panicked : nat -> bool) (spawned : list TaskArgs) : list string :=
  imap (fun k a => if panicked k then "error" else task_id a) spawned.

(** The response and the tasks spawned on the way. *)
Definition submit_tasks_batch (trace_id : string) (uuid : nat -> string) (seen : nat -> AppState)
    (panicked : nat -> bool) (items : list BatchTaskItem)
    : result EdgeError (ApiResponse (list string)) * list TaskArgs :=
  match items with
  | [] => (Ok (api_ok []), [])
  | _ =>
      if decide (100 < length items)%nat
      then (Err (InvalidWasm "batch limit is 100 tasks per request"), [])
      else
        let '(res, spawned) := batch_loop trace_id uuid seen 0 items in
        match res with
        | Err e => (Err e, spawned)
        | Ok _ => (Ok (api_ok (joined_ids panicked spawned)), spawned)
        end
  end.

Definition get_task (st : AppState) (task : string) : ApiResponse (TaskResult + string) :=
  match tasks st !! task with
  | Some r => api_ok (inl r)
  | None => api_ok (inr "pending")
  end.

(** ** Modules *)

(** A POST to an edge node's [/cache/warm]. *)
Record WarmRequest := {
  warm_url : string;
  warm_name : string;
  warm_version : string;
  warm_wasm_bytes_base64 : string
}.

Definition warm_nodes (addrs : list string) (name version b64 : string) : list WarmRequest :=
  (fun addr => {| warm_url := addr +:+ "/cache/warm"; warm_name := name; warm_version := version;
                  warm_wasm_bytes_base64 := b64 |}) <$> addrs.

(** The HTTP addresses of the healthy nodes that have one. *)
Definition warm_targets (ord : HashOrder) (st : AppState) : list string :=
  http_address <$>
    filter (fun n => healthy n = true /\ http_address n <> EmptyString) (hash_values ord (nodes st)).

(** Response, state after the write, and the warm-up requests sent in the
    background; [seen] is the state of the second (read) guard. *)
Definition upload_module (ord : HashOrder) (uuid : string) (utc_now : Z) (body : UploadModuleRequest)
    (st seen : AppState)
    : result EdgeError (ApiResponse string) * AppState * list WarmRequest :=
  match b64_decode (up_wasm_base64 body) with
  | Err e => (Err (InvalidWasm e), st, [])
  | Ok b =>
      let '(r, reg') := store uuid utc_now (up_name body) (up_version body) b (module_registry st) in
      match r with
      | Err e => (Err (InvalidWasm (RegistryError_to_string e)), set_module_registry reg' st, [])
      | Ok meta =>
          let addrs := warm_targets ord seen in
          let posts := match addrs with
                       | [] => []
                       | _ => warm_nodes addrs (up_name body) (up_version body) (b64_encode b)
                       end in
          (Ok (api_ok (mm_id meta)), set_module_registry reg' st, posts)
      end
  end.

Definition list_modules (ord : HashOrder) (st : AppState) : ApiResponse (list ModuleMetadata) :=
  api_ok (registry_list ord (module_registry st)).

Definition get_module_bytes (st : AppState) (name version : string) : result EdgeError bytes :=
  e ← ok_or (module_not_found name version) (get name version (module_registry st));
  Ok e.2.

(** ** Nodes and metrics *)

Definition register_node (body : RegisterNodeRequest) (st : AppState) : AppState :=
  let node := {| id := reg_node_id body; address := reg_address body;
                 http_address := default EmptyString (reg_http_address body);
                 active_tasks := 0; healthy := true;
                 max_concurrent_tasks := default 10 (reg_max_concurrent_tasks body) |} in
  set_nodes (<[reg_node_id body := node]> (nodes st)) st.

Definition list_nodes (ord : HashOrder) (st : AppState) : ApiResponse (list NodeInfo) :=
  api_ok (hash_values ord (nodes st)).

Definition health (st : AppState) : ApiResponse Z := api_ok (Z.of_nat (size (nodes st))).

Record MetricsReport := {
  rep_strategy : string;
  rep_healthy_nodes : nat;
  rep_unhealthy_nodes : nat;
  rep_circuit_breakers : gmap string string;
  rep_total_submitted : Z;
  rep_total_success : Z;
  rep_total_failed : Z;
  rep_retried : Z;
  rep_queued : Z
}.

Definition metrics (ord : HashOrder) (st : AppState) : MetricsReport :=
  let cb_state i := match circuit_breakers st !! i with
                    | Some cb => state_name cb
                    | None => "closed"
                    end in
  {| rep_strategy := scheduling_strategy st;
     rep_healthy_nodes := length (filter (fun n => healthy n = true) (hash_values ord (nodes st)));
     rep_unhealthy_nodes := length (filter (fun n => ~ healthy n = true) (hash_values ord (nodes st)));
     rep_circuit_breakers := list_to_map ((fun i => (i, cb_state i)) <$> hash_keys ord (nodes st));
     rep_total_submitted := total_submitted st; rep_total_success := total_success st;
     rep_total_failed := total_failed st; rep_retried := total_retried st;
     rep_queued := queued st |}.

End handlers.

(** A decodable encoding, for evaluations only. *)
Definition toy_base64 : Base64 :=
  {| b64_encode := String.string_of_list_byte;
     b64_decode := fun s => Ok (String.list_byte_of_string s);
     b64_roundtrip := fun b => f_equal Ok (String.list_byte_of_string_of_list_byte b) |}.

(** Inputs for evaluations. *)
Definition demo_registry_state : AppState :=
  set_module_registry (@store toy_sha2 "uuid" 0 "echo" "1.0" [Byte.x00] registry_new).2 AppState_default.
Definition demo_submit : SubmitTaskRequest :=
  {| sub_wasm_base64 := None; sub_module_name := Some "echo"; sub_module_version := Some "1.0";
     sub_function_name := "process"; sub_input_base64 := "aGk"; sub_timeout_ms := None;
     sub_memory_limit_mb := None |}.
Definition demo_inline : SubmitTaskRequest :=
  {| sub_wasm_base64 := Some (@b64_encode toy_base64 [Byte.x00]); sub_module_name := Some "echo";
     sub_module_version := None; sub_function_name := "process";
     sub_input_base64 := @b64_encode toy_base64 [Byte.x01]; sub_timeout_ms := Some 7;
     sub_memory_limit_mb := None |}.

(** ** Lemmas *)
Section handler_lemmas.
Context `{!Base64} `{!Sha2}.

(** The error of a rejected submission. *)
Definition client_error (e : EdgeError) : Prop :=
  match e with TaskNotFound _ | InvalidWasm _ => True | _ => False end.

Lemma resolve_error_is_client_error st body e :
  resolve_task_inputs st body = Err e -> client_error e.
Proof.
  unfold resolve_task_inputs, mbind, result_bind, map_err, ok_or.
  destruct (b64_decode _); [|by intros; simplify_eq].
  by repeat (case_match; simplify_eq/=); intros; simplify_eq.
Qed.

Lemma upload_keeps_modules o uuid utc body st seen k x :
  modules (module_registry st) !! k = Some x ->
  modules (module_registry (upload_module o uuid utc body st seen).1.2) !! k = Some x.
Proof.
  intros Hk. unfold upload_module. case_match; [|done].
  match goal with |- context [store ?u ?t ?n ?v ?b ?r] =>
    pose proof (store_keeps u t n v b r k x Hk); destruct (store u t n v b r) as [[]] end; done.
Qed.

(** The batch loop stops at the first item that does not resolve. *)
Lemma batch_loop_spec trace uuid seen k items :
  let '(res, spawned) := batch_loop trace uuid seen k items in
  match res with
  | Ok _ => length spawned = length items
  | Err e => exists i, items !! length spawned = Some i /\
               resolve_task_inputs (seen (k + length spawned)%nat) (request_of_item i) = Err e
  end /\
  forall j a, spawned !! j = Some a -> exists i r, items !! j = Some i /\
    resolve_task_inputs (seen (k + j)%nat) (request_of_item i) = Ok r /\
    a = dispatch_args (uuid (k + j)%nat) trace (request_of_item i) r.
Proof.
  revert k. induction items as [|i items IH]; intros k; simpl; [done|].
  destruct (resolve_task_inputs (seen k) (request_of_item i)) as [r|e] eqn:E; simpl.
  - specialize (IH (S k)). destruct (batch_loop trace uuid seen (S k) items) as [res spawned].
    destruct IH as [IH1 IH2]. split.
    + destruct res; simpl; [by f_equal|].
      destruct IH1 as (i' & ? & He). exists i'. split; [done|].
      by replace (k + S (length spawned))%nat with (S k + length spawned)%nat by lia.
    + intros [|j] a Ha; simplify_eq/=.
      * exists i, r. rewrite Nat.add_0_r. done.
      * destruct (IH2 j a Ha) as (i' & r' & ? & ? & ->). exists i', r'.
        by replace (k + S j)%nat with (S k + j)%nat by lia.
  - split; [|done]. exists i. by rewrite Nat.add_0_r.
Qed.

End handler_lemmas.

Lemma register_node_wf `{!Sha2} body st : app_wf st -> app_wf (register_node body st).
Proof.
  intros [Hn Ht Hb Hi Hr]. constructor; try done. intros k n. simpl.
  intros [[<- <-]|[? ?]]%lookup_insert_Some; [done|by apply Hn].
Qed.

Lemma upload_module_wf `{!Base64} `{!Sha2} ord uuid utc body st seen :
  app_wf st -> app_wf (upload_module ord uuid utc body st seen).1.2.
Proof.
  intros Hwf. unfold upload_module. destruct (b64_decode _) as [b|]; [|done].
  pose proof (store_wf uuid utc (up_name body) (up_version body) b (module_registry st)
    (wf_registry st Hwf)) as Hreg.
  destruct (store _ _ _ _ _ _) as [[meta|] reg']; simpl in *;
    destruct Hwf; by constructor.
Qed.

#[export] Hint Resolve register_node_wf upload_module_wf : ferro.

(** ** Properties *)

(** Integrity of module references: when a submission names a registered
    module, the reference sent to the edge node carries that name and version
    and exactly the SHA-256 of the bytes the control plane serves for them,
    whether or not inline bytes were also given. *)
Theorem submit_module_ref_integrity `{!Base64} `{!Sha2} st uuid trace body name version a :
  app_wf st ->
  sub_module_name body = Some name -> sub_module_version body = Some version ->
  submit_task st uuid trace body = Ok a ->
  exists mr b, wasm_source a = SrcModuleRef mr /\ mr_name mr = name /\ mr_version mr = version /\
    get_module_bytes st name version = Ok b /\ mr_hash mr = sha256_hex b /\
    mr_fetch_url mr = self_url st +:+ "/modules/" +:+ name +:+ "/" +:+ version.
Proof.
  intros Hwf Hn Hv. unfold submit_task, resolve_task_inputs. rewrite Hn, Hv.
  unfold get_module_bytes, mbind, result_bind.
  destruct (map_err _ _); [|done].
  destruct (get name version (module_registry st)) as [[meta b]|] eqn:E; [|done].
  simpl. intros [= <-]. destruct (wf_registry st Hwf _ _ _ E) as (_ & Hh & _).
  eexists _, b. split; [reflexivity|]. simpl. done.
Qed.

Lemma demo_registry_state_wf : @app_wf toy_sha2 demo_registry_state.
Proof.
  constructor; simpl; try (intros ? ?; rewrite lookup_empty; intros Hk; discriminate Hk).
  - split; [apply Z.le_refl|reflexivity].
  - apply store_wf, registry_new_wf.
Defined.

Lemma submit_module_ref_integrity_witness :
  exists a mr, @submit_task toy_base64 demo_registry_state "t1" "tr" demo_submit = Ok a /\
    wasm_source a = SrcModuleRef mr /\ mr_name mr = "echo".
Proof.
  destruct (@submit_module_ref_integrity toy_base64 toy_sha2 demo_registry_state "t1" "tr" demo_submit
    "echo" "1.0" _ demo_registry_state_wf eq_refl eq_refl eq_refl) as (mr & b & H1 & H2 & _).
  eexists _, mr. split; [reflexivity|]. split; [exact H1|exact H2].
Defined.

(** Inline submissions reach the edge node unchanged: encoding input and
    module in base64 and submitting them gives a task with exactly those bytes,
    the given function name, and 5000 ms / 64 MB where no limit is set. *)
Theorem submit_inline_roundtrip `{!Base64} st uuid trace inp wasm body :
  sub_module_name body = None \/ sub_module_version body = None ->
  sub_input_base64 body = b64_encode inp -> sub_wasm_base64 body = Some (b64_encode wasm) ->
  submit_task st uuid trace body =
    Ok {| task_id := uuid; trace_id := trace; input := inp; wasm_source := SrcWasmBytes wasm;
          function_name := sub_function_name body;
          timeout_ms := default 5000 (sub_timeout_ms body);
          memory_limit_mb := default 64 (sub_memory_limit_mb body) |}.
Proof.
  intros Hm Hi Hw. unfold submit_task, resolve_task_inputs. rewrite Hi, Hw, b64_roundtrip.
  destruct Hm as [-> | ->]; [|destruct (sub_module_name body)]; simpl; by rewrite b64_roundtrip.
Qed.

Lemma submit_inline_roundtrip_witness :
  exists a, @submit_task toy_base64 AppState_default "t1" "tr" demo_inline = Ok a /\
    wasm_source a = SrcWasmBytes [Byte.x00].
Proof.
  eexists. split.
  - exact (@submit_inline_roundtrip toy_base64 AppState_default "t1" "tr" [Byte.x01] [Byte.x00] demo_inline
      (or_intror eq_refl) eq_refl eq_refl).
  - reflexivity.
Defined.

(** A rejected submission, single or batch, is answered with 400 or 404,
    never with a server error. *)
Theorem submit_rejections_are_client_errors `{!Base64} st uuid trace body uuids seen panicked items e :
  (submit_task st uuid trace body = Err e \/
   (submit_tasks_batch trace uuids seen panicked items).1 = Err e) ->
  exists msg, respond (T := string) (Err e) = (404, error_response msg) \/
              respond (T := string) (Err e) = (400, error_response msg).
Proof.
  intros He. assert (client_error e) as Hce.
  { destruct He as [He|He].
    - unfold submit_task, mbind, result_bind in He.
      destruct (resolve_task_inputs st body) eqn:E; simplify_eq.
      by eapply resolve_error_is_client_error.
    - unfold submit_tasks_batch in He. destruct items as [|i items]; [done|].
      case_decide; [by simplify_eq/=|].
      pose proof (batch_loop_spec trace uuids seen 0 (i :: items)) as Hspec.
      destruct (batch_loop _ _ _ _ _) as [[|e'] spawned]; simplify_eq/=.
      destruct Hspec as ((j & _ & Hj) & _). by eapply resolve_error_is_client_error. }
  exists (EdgeError_to_string e). destruct e; try done; simpl; tauto.
Qed.

Lemma submit_rejections_are_client_errors_witness :
  exists msg, respond (T := string) (Err (module_not_found "echo" "1.0")) = (404, error_response msg) \/
    respond (T := string) (Err (module_not_found "echo" "1.0")) = (400, error_response msg).
Proof.
  exact (@submit_rejections_are_client_errors toy_base64 AppState_default "t1" "tr" demo_submit
    (fun _ => "u") (fun _ => AppState_default) (fun _ => false) [] (module_not_found "echo" "1.0")
    (or_introl eq_refl)).
Defined.

(** Batch submission: more than 100 items are refused with nothing
    spawned; otherwise either all items resolve and the response lists their
    ids in submission order, or the response is the error of the first item
    that does not resolve, while exactly the items before it have been spawned
    and keep running. *)
Theorem batch_submission `{!Base64} trace uuid seen items :
  let '(res, spawned) := submit_tasks_batch trace uuid seen (fun _ => false) items in
  if decide (100 < length items)%nat
  then res = Err (InvalidWasm "batch limit is 100 tasks per request") /\ spawned = []
  else
    (forall j a, spawned !! j = Some a -> exists i r, items !! j = Some i /\
       resolve_task_inputs (seen j) (request_of_item i) = Ok r /\
       a = dispatch_args (uuid j) trace (request_of_item i) r) /\
    match res with
    | Ok resp => length spawned = length items /\ resp = api_ok (task_id <$> spawned)
    | Err e => exists i, items !! length spawned = Some i /\
                 resolve_task_inputs (seen (length spawned)) (request_of_item i) = Err e
    end.
Proof.
  unfold submit_tasks_batch. destruct items as [|i items]; [by simpl|].
  case_decide; [done|].
  pose proof (batch_loop_spec trace uuid seen 0 (i :: items)) as Hspec.
  destruct (batch_loop _ _ _ _ _) as [[u|e] spawned]; destruct Hspec as [H1 H2]; (split; [exact H2|]).
  - split; [done|]. f_equal. unfold joined_ids. clear. by rewrite (imap_const task_id).
  - exact H1.
Qed.

(** Upload and fetch round trip: a module uploaded in base64 is served back
    byte for byte, and uploading under the same name and version again is
    answered with 400 and changes nothing. *)
Theorem upload_fetch_roundtrip `{!Base64} `{!Sha2} ord uuid utc name version b st seen r st' posts :
  upload_module ord uuid utc {| up_name := name; up_version := version; up_wasm_base64 := b64_encode b |}
    st seen = (Ok r, st', posts) ->
  get_module_bytes st' name version = Ok b /\
  (forall uuid' utc' b' seen', exists msg,
     let again := upload_module ord uuid' utc'
       {| up_name := name; up_version := version; up_wasm_base64 := b64_encode b' |} st' seen' in
     respond again.1.1 = (400, error_response msg) /\ nodes again.1.2 = nodes st' /\
     get_module_bytes again.1.2 name version = Ok b).
Proof.
  unfold upload_module. simpl. rewrite b64_roundtrip. unfold store.
  destruct (modules (module_registry st) !! module_key name version) eqn:E; [done|].
  intros [= _ <- _]. unfold get_module_bytes, get. simpl. rewrite lookup_insert_eq.
  split; [done|]. intros uuid' utc' b' seen'. rewrite b64_roundtrip. simpl.
  rewrite lookup_insert_eq. simpl. eexists. split; [reflexivity|].
  split; [reflexivity|]. by rewrite ?lookup_insert_eq.
Qed.

Lemma upload_fetch_roundtrip_witness :
  exists r st' posts,
    @upload_module toy_base64 toy_sha2 std_order "u" 0
      {| up_name := "echo"; up_version := "1"; up_wasm_base64 := @b64_encode toy_base64 [Byte.x07] |}
      AppState_default AppState_default = (Ok r, st', posts) /\
    get_module_bytes st' "echo" "1" = Ok [Byte.x07].
Proof.
  eexists _, _, _. split; [reflexivity|].
  exact (proj1 (@upload_fetch_roundtrip toy_base64 toy_sha2 std_order "u" 0 "echo" "1" [Byte.x07]
    AppState_default AppState_default _ _ _ eq_refl)).
Defined.

(** The metrics report is consistent: healthy and unhealthy nodes add up to
    the registered ones, and a breaker state is reported for exactly the
    registered nodes, ["closed"] when the node has never been used. *)
Theorem metrics_consistent ord st :
  (rep_healthy_nodes (metrics ord st) + rep_unhealthy_nodes (metrics ord st))%nat = size (nodes st) /\
  forall k, rep_circuit_breakers (metrics ord st) !! k =
    match nodes st !! k with
    | Some _ => Some (match circuit_breakers st !! k with Some cb => state_name cb | None => "closed" end)
    | None => None
    end.
Proof.
  split.
  - simpl. rewrite length_filter_split. unfold hash_values. rewrite length_fmap. apply hash_iter_length.
  - intros k. simpl. set (f := fun i : string => (i, _)).
    assert ((f <$> hash_keys ord (nodes st)).*1 = hash_keys ord (nodes st)) as Hfst.
    { rewrite <- list_fmap_compose. apply list_fmap_id. }
    destruct (nodes st !! k) as [n|] eqn:E.
    + apply elem_of_list_to_map_1; [rewrite Hfst; apply hash_keys_NoDup|].
      change (f k ∈ f <$> hash_keys ord (nodes st)). apply list_elem_of_fmap_2.
      apply (elem_of_hash_iter ord) in E. by apply (list_elem_of_fmap_2 fst) in E.
    + apply not_elem_of_list_to_map_1. rewrite Hfst. unfold hash_keys.
      rewrite list_elem_of_fmap. intros ([k' n'] & -> & Hin). apply elem_of_hash_iter in Hin.
      simpl in E. congruence.
Qed.
