(* ===== verification/Routes.v ===== *)
(** * Routes and the trace-id middleware of the control plane

    Models [services/control-plane/src/api/routes.rs]: the route table of
    [build_router], the middleware around it, and, through them, the whole HTTP
    side of the control plane as one function from a request and a state to a
    response, the next state, the tasks handed to [dispatch_task] and the warm-up
    requests. That function says what the response is and what it waits for
    ([awaited]); when it is sent, or whether it ever is, is said in [HttpSystem],
    which runs the dispatches. The request bodies are read the way serde's [Deserialize] derives
    it from the structs of [handlers.rs]. *)

From Stdlib Require Import Ascii.
From S2P Require Import Prelude RustStd RustText Common Http CircuitBreaker Scheduler Registry AppState Dispatch.
From S2P Require Import Handlers.

(** ** Request bodies: [#[derive(Deserialize)]] *)

(** [SubmitTaskRequest] and [BatchTaskItem] have the same fields. *)
Definition task_fields : list string :=
  ["wasm_base64"; "module_name"; "module_version"; "function_name"; "input_base64"; "timeout_ms";
   "memory_limit_mb"].

Definition de_SubmitTaskRequest (j : Json) : option SubmitTaskRequest :=
  fs ← struct_fields task_fields j;
  match fs with
  | [w; mn; mv; fn; inp; t; m] =>
      wasm_base64 ← de_opt de_string w; module_name ← de_opt de_string mn;
      module_version ← de_opt de_string mv; function_name ← de_req de_string fn;
      input_base64 ← de_req de_string inp; timeout_ms ← de_opt de_u64 t;
      memory_limit_mb ← de_opt de_u64 m;
      Some {| sub_wasm_base64 := wasm_base64; sub_module_name := module_name;
              sub_module_version := module_version; sub_function_name := function_name;
              sub_input_base64 := input_base64; sub_timeout_ms := timeout_ms;
              sub_memory_limit_mb := memory_limit_mb |}
  | _ => None
  end.

Definition de_BatchTaskItem (j : Json) : option BatchTaskItem :=
  fs ← struct_fields task_fields j;
  match fs with
  | [w; mn; mv; fn; inp; t; m] =>
      wasm_base64 ← de_opt de_string w; module_name ← de_opt de_string mn;
      module_version ← de_opt de_string mv; function_name ← de_req de_string fn;
      input_base64 ← de_req de_string inp; timeout_ms ← de_opt de_u64 t;
      memory_limit_mb ← de_opt de_u64 m;
      Some {| bti_wasm_base64 := wasm_base64; bti_module_name := module_name;
              bti_module_version := module_version; bti_function_name := function_name;
              bti_input_base64 := input_base64; bti_timeout_ms := timeout_ms;
              bti_memory_limit_mb := memory_limit_mb |}
  | _ => None
  end.

Definition de_BatchSubmitRequest (j : Json) : option (list BatchTaskItem) :=
  fs ← struct_fields ["tasks"] j;
  match fs with [tasks] => de_req (de_vec de_BatchTaskItem) tasks | _ => None end.

Definition de_RegisterNodeRequest (j : Json) : option RegisterNodeRequest :=
  fs ← struct_fields ["node_id"; "address"; "http_address"; "max_concurrent_tasks"] j;
  match fs with
  | [i; a; h; m] =>
      node_id ← de_req de_string i; address ← de_req de_string a;
      http_address ← de_opt de_string h; max_concurrent_tasks ← de_opt de_u64 m;
      Some {| reg_node_id := node_id; reg_address := address; reg_http_address := http_address;
              reg_max_concurrent_tasks := max_concurrent_tasks |}
  | _ => None
  end.

Definition de_UploadModuleRequest (j : Json) : option UploadModuleRequest :=
  fs ← struct_fields ["name"; "version"; "wasm_base64"] j;
  match fs with
  | [n; v; w] =>
      name ← de_req de_string n; version ← de_req de_string v; wasm_base64 ← de_req de_string w;
      Some {| up_name := name; up_version := version; up_wasm_base64 := wasm_base64 |}
  | _ => None
  end.

(** ** The route table *)

Inductive Endpoint :=
| EpHealth | EpMetrics | EpSubmitTask | EpSubmitTasksBatch | EpGetTask | EpRegisterNode | EpListNodes
| EpUploadModule | EpListModules | EpGetModuleBytes.

#[export] Instance Endpoint_eq_dec : EqDecision Endpoint.
Proof. solve_decision. Defined.

Definition get_route (path : string) (ep : Endpoint) : Route Endpoint :=
  {| rt_path := path; rt_method := GET; rt_endpoint := ep |}.
Definition post_route (path : string) (ep : Endpoint) : Route Endpoint :=
  {| rt_path := path; rt_method := POST; rt_endpoint := ep |}.

Definition build_router : list (Route Endpoint) :=
  [get_route "/health" EpHealth;
   get_route "/metrics" EpMetrics;
   post_route "/tasks" EpSubmitTask;
   post_route "/tasks/batch" EpSubmitTasksBatch;
   get_route "/tasks/:id" EpGetTask;
   post_route "/nodes/register" EpRegisterNode;
   get_route "/nodes" EpListNodes;
   post_route "/modules" EpUploadModule;
   get_route "/modules" EpListModules;
   get_route "/modules/:name/:version" EpGetModuleBytes].

(** ** Handlers behind the extractors *)

(** Response bodies, one constructor per shape. *)
Inductive Payload :=
| PHealth (r : ApiResponse Z)
| PMetrics (r : MetricsReport)
| PTaskId (r : ApiResponse string)
| PTaskIds (r : ApiResponse (list string))
| PTask (r : ApiResponse (TaskResult + string))
| PRegistered (r : ApiResponse bool)
| PNodes (r : ApiResponse (list NodeInfo))
| PModuleId (r : ApiResponse string)
| PModules (r : ApiResponse (list ModuleMetadata))
| PBytes (content_type : string) (b : bytes)
| PError (r : ApiResponse unit)
| PRejection.

(** What a request does: the response its handler will return, the state it
    leaves, the tasks it hands to [dispatch_task], and the warm-up requests sent in
    the background. The response of a submission is not sent before [awaited]. *)
Record Served := {
  sv_status : Z;
  sv_payload : Payload;
  sv_state : AppState;
  sv_spawned : list TaskArgs;
  sv_posts : list WarmRequest
}.

(** What handling a request reads from outside: fresh UUIDs, the wall clock, the
    hash order, the state a later lock guard shows, and which spawned tasks
    panicked. *)
Record ServeEnv := {
  se_uuid : nat -> string;
  se_utc : Z;
  se_ord : HashOrder;
  se_later : AppState -> nat -> AppState;
  se_panicked : nat -> bool
}.

(** The dispatches a handler awaits before it returns: POST /tasks its own,
    POST /tasks/batch all it has spawned, unless an item was refused: then it
    returns the error at once and those spawned before run on. *)
Definition awaited (s : Served) : list TaskArgs := if sv_status s =? 200 then sv_spawned s else [].

(** The task ids a response lists. *)
Definition listed_ids (p : Payload) : list string :=
  match p with
  | PTaskId r => match data r with Some i => [i] | None => [] end
  | PTaskIds r => default [] (data r)
  | _ => []
  end.

Section routes.
Context `{!Base64} `{!Sha2} `{!Axum}.

Definition reply (status : Z) (p : Payload) (st : AppState) : Served :=
  {| sv_status := status; sv_payload := p; sv_state := st; sv_spawned := []; sv_posts := [] |}.

(** [AppError] as a response. *)
Definition reply_error (e : EdgeError) (st : AppState) : Served :=
  let '(status, r) := into_response e in reply status (PError r) st.

(** The [Json<T>] extractor: 422 for JSON of the wrong shape. (serde reads the
    text as a stream, so a text that is both may get either rejection.) *)
Definition with_json {T} (de : Json -> option T) (b : Body) (st : AppState) (k : T -> Served) : Served :=
  match json_extract b with
  | Err status => reply status PRejection st
  | Ok j => match de j with None => reply 422 PRejection st | Some t => k t end
  end.

(** The [Path<..>] extractor: 400 when a segment is not percent-encoded UTF-8. *)
Definition with_path (captures : list string) (st : AppState) (k : list string -> Served) : Served :=
  match mapM percent_decode captures with
  | None => reply 400 PRejection st
  | Some caps => k caps
  end.

Definition handle (e : ServeEnv) (trace : string) (ep : Endpoint) (captures : list string) (b : Body)
    (st : AppState) : Served :=
  match ep with
  | EpHealth => reply 200 (PHealth (health st)) st
  | EpMetrics => reply 200 (PMetrics (metrics (se_ord e) st)) st
  | EpSubmitTask =>
      with_json de_SubmitTaskRequest b st (fun body =>
        match submit_task st (se_uuid e 0%nat) trace body with
        | Err err => reply_error err st
        | Ok a => {| sv_status := 200; sv_payload := PTaskId (submit_task_response a); sv_state := st;
                     sv_spawned := [a]; sv_posts := [] |}
        end)
  | EpSubmitTasksBatch =>
      with_json de_BatchSubmitRequest b st (fun items =>
        let '(r, spawned) :=
          submit_tasks_batch trace (se_uuid e) (se_later e st) (se_panicked e) items in
        let out := match r with Ok d => reply 200 (PTaskIds d) st | Err err => reply_error err st end in
        {| sv_status := sv_status out; sv_payload := sv_payload out; sv_state := st;
           sv_spawned := spawned; sv_posts := [] |})
  | EpGetTask =>
      with_path captures st (fun caps =>
        match caps with
        | [i] => reply 200 (PTask (get_task st i)) st
        | _ => reply 500 PRejection st
        end)
  | EpRegisterNode =>
      with_json de_RegisterNodeRequest b st (fun body =>
        reply 200 (PRegistered (api_ok true)) (register_node body st))
  | EpListNodes => reply 200 (PNodes (list_nodes (se_ord e) st)) st
  | EpUploadModule =>
      with_json de_UploadModuleRequest b st (fun body =>
        let '(r, st', posts) :=
          upload_module (se_ord e) (se_uuid e 0%nat) (se_utc e) body st (se_later e st 0%nat) in
        match r with
        | Err err => reply_error err st'
        | Ok d => {| sv_status := 200; sv_payload := PModuleId d; sv_state := st';
                     sv_spawned := []; sv_posts := posts |}
        end)
  | EpListModules => reply 200 (PModules (list_modules (se_ord e) st)) st
  | EpGetModuleBytes =>
      with_path captures st (fun caps =>
        match caps with
        | [name; version] =>
            match get_module_bytes st name version with
            | Err err => reply_error err st
            | Ok bs => reply 200 (PBytes "application/octet-stream" bs) st
            end
        | _ => reply 500 PRejection st
        end)
  end.

(** The router: 405 and 404 are axum's own answers. *)
Definition route_request (e : ServeEnv) (trace : string) (m : Method) (path : string) (b : Body)
    (st : AppState) : Served :=
  match route Endpoint build_router m path with
  | Matched ep caps => handle e trace ep caps b st
  | MethodNotAllowed => reply 405 PRejection st
  | NoRoute => reply 404 PRejection st
  end.

(** ** The middleware *)

Record HttpRequest := { hq_method : Method; hq_path : string; hq_headers : HeaderMap; hq_body : Body }.
Record HttpResponse := { hp_served : Served; hp_headers : HeaderMap }.

(** The id of a request: its [X-Trace-Id] header, or a fresh UUID. *)
Definition trace_id_of (uuid : string) (req : HttpRequest) : string :=
  default uuid (v ← hm_get "X-Trace-Id" (hq_headers req); to_str v).

(** [next] gets the trace id through the request extensions. *)
Definition trace_id_middleware (uuid : string) (req : HttpRequest)
    (next : string -> HttpRequest -> HttpResponse) : HttpResponse :=
  let trace := trace_id_of uuid req in
  let response := next trace req in
  match from_str trace with
  | Some val => {| hp_served := hp_served response;
                   hp_headers := hm_insert "X-Trace-Id" val (hp_headers response) |}
  | None => response
  end.

(** A request to the control plane, from the socket to the response its handler
    returns once what it awaits has ended; [uuid] is the UUID the middleware draws,
    [hdrs] what axum puts on the response. *)
Definition serve (uuid : string) (hdrs : Served -> HeaderMap) (e : ServeEnv) (req : HttpRequest)
    (st : AppState) : HttpResponse :=
  trace_id_middleware uuid req (fun trace req =>
    let s := route_request e trace (hq_method req) (hq_path req) (hq_body req) st in
    {| hp_served := s; hp_headers := hdrs s |}).

End routes.

(** ** Lemmas *)

Definition no_slash (s : string) : bool := all_chars (fun c => bool_decide (c <> "/"%char)) s.

Lemma all_chars_impl f g s :
  (forall c, f c = true -> g c = true) -> all_chars f s = true -> all_chars g s = true.
Proof.
  intros Hfg. induction s as [|c s IH]; [done|]. simpl. rewrite !andb_true_iff. intros [? ?]. auto.
Qed.

Lemma plain_no_slash s : plain_segment s = true -> no_slash s = true /\ s <> EmptyString.
Proof.
  unfold plain_segment. rewrite !andb_true_iff, !bool_decide_eq_true. intros [[[? _] _] Hs].
  split; [|done]. revert Hs. apply all_chars_impl. intros c Hc. apply bool_decide_eq_true.
  intros ->. by vm_compute in Hc.
Qed.

Lemma no_slash_cons c s : no_slash (String c s) = true <-> c <> "/"%char /\ no_slash s = true.
Proof. unfold no_slash. simpl. by rewrite andb_true_iff, bool_decide_eq_true. Qed.

Lemma segments_no_slash s : no_slash s = true -> segments s = [s].
Proof.
  induction s as [|c s IH]; [done|]. intros [Hc Hs]%no_slash_cons. simpl.
  rewrite decide_False by done. by rewrite IH.
Qed.

Lemma segments_slash s t : no_slash s = true -> segments (s +:+ "/" +:+ t) = s :: segments t.
Proof.
  induction s as [|c s IH]; [done|]. intros [Hc Hs]%no_slash_cons.
  change ((String c s) +:+ "/" +:+ t) with (String c (s +:+ "/" +:+ t)). simpl.
  rewrite decide_False by done. by rewrite IH.
Qed.

Lemma match_segments_length pat seg caps :
  match_segments pat seg = Some caps -> length caps = length (filter (fun q => is_capture q = true) pat).
Proof.
  revert seg caps. induction pat as [|q pat IH]; intros [|x seg] caps Hm; simplify_eq/=; [done|].
  rewrite filter_cons. destruct (is_capture q); simpl in *.
  - case_decide; [done|]. apply fmap_Some in Hm as (cs & Hcs & ->). simpl. f_equal. by eapply IH.
  - case_decide; [|done]. by eapply IH.
Qed.

(** Every route of the table, one goal each. *)
Ltac each_route H := unfold build_router in H; each_elem H.

Ltac in_table := unfold build_router; in_list.

Section route_lemmas.
Context `{!Base64} `{!Sha2} `{!Axum}.
Implicit Types (st : AppState) (e : ServeEnv).

(** An endpoint is reached with its method and its number of captures. *)
Definition expects (ep : Endpoint) : Method * nat :=
  match ep with
  | EpSubmitTask | EpSubmitTasksBatch | EpRegisterNode | EpUploadModule => (POST, 0%nat)
  | EpGetTask => (GET, 1%nat)
  | EpGetModuleBytes => (GET, 2%nat)
  | _ => (GET, 0%nat)
  end.

Lemma routed m path ep caps :
  route Endpoint build_router m path = Matched ep caps ->
  serves (expects ep).1 m = true /\ length caps = (expects ep).2.
Proof.
  intros (r & Hin & <- & Hs & Hm%match_segments_length)%route_matched.
  each_route Hin; simpl in Hs |- *; (split; [done|rewrite Hm; by vm_compute]).
Qed.

Lemma mapM_length {A B} (f : A -> option B) l k : mapM f l = Some k -> length k = length l.
Proof. intros Hm%mapM_Some. symmetry. by eapply Forall2_length. Qed.

Definition status_ok (n : Z) : Prop := n = 200 \/ 400 <= n < 500.

Lemma with_json_ok {T} (de : Json -> option T) b st k :
  (forall t, status_ok (sv_status (k t))) -> status_ok (sv_status (with_json de b st k)).
Proof.
  intros Hk. unfold with_json. destruct (json_extract b) eqn:Ej.
  - case_match; [apply Hk|right; simpl; lia].
  - right. by apply (json_extract_status b).
Qed.

Lemma with_path_ok caps n st k :
  length caps = n -> (forall l, length l = n -> status_ok (sv_status (k l))) ->
  status_ok (sv_status (with_path caps st k)).
Proof.
  intros Hn Hk. unfold with_path. case_match eqn:E; [|right; simpl; lia].
  apply Hk. apply mapM_length in E. lia.
Qed.

Lemma reply_client_error err st : client_error err -> status_ok (sv_status (reply_error err st)).
Proof. destruct err; try done; intros _; right; simpl; lia. Qed.

Lemma submit_task_error st uuid trace body err :
  submit_task st uuid trace body = Err err -> client_error err.
Proof.
  unfold submit_task, mbind, result_bind. destruct (resolve_task_inputs st body) eqn:E; intros; simplify_eq.
  by eapply resolve_error_is_client_error.
Qed.

Lemma batch_error trace uuids seen panicked items err :
  (submit_tasks_batch trace uuids seen panicked items).1 = Err err -> client_error err.
Proof.
  unfold submit_tasks_batch. destruct items as [|i items]; [done|].
  case_decide; [by intros [= <-]|].
  pose proof (batch_loop_spec trace uuids seen 0 (i :: items)) as Hspec.
  destruct (batch_loop _ _ _ _ _) as [[|e'] spawned]; intros; simplify_eq/=.
  destruct Hspec as ((j & _ & Hj) & _). by eapply resolve_error_is_client_error.
Qed.

Lemma upload_error ord uuid utc body st seen err :
  (upload_module ord uuid utc body st seen).1.1 = Err err -> client_error err.
Proof. unfold upload_module. repeat case_match; simpl; intros; by simplify_eq. Qed.

Lemma handle_status e trace ep caps b st :
  length caps = (expects ep).2 -> status_ok (sv_status (handle e trace ep caps b st)).
Proof.
  intros Hlen. destruct ep; simpl in *; try (left; done).
  - apply with_json_ok. intros body. case_match eqn:E; [by left|].
    by eapply reply_client_error, submit_task_error.
  - apply with_json_ok. intros items. case_match eqn:E. simpl. case_match; [by left|].
    eapply reply_client_error, batch_error. rewrite E. by simplify_eq.
  - apply (with_path_ok _ 1); [done|]. intros [|i [|]] Hl; try done. by left.
  - apply with_json_ok. intros body. by left.
  - apply with_json_ok. intros body. case_match eqn:E. case_match. case_match; [by left|].
    eapply reply_client_error, upload_error. rewrite E. by simplify_eq.
  - apply (with_path_ok _ 2); [done|]. intros [|n [|v [|]]] Hl; try done.
    unfold get_module_bytes, mbind, result_bind, ok_or. case_match eqn:Eg; [by left|].
    apply reply_client_error. repeat case_match; by simplify_eq/=.
Qed.

(** Read-only endpoints have no effect. *)
Lemma handle_get e trace ep caps b st :
  (expects ep).1 = GET ->
  let s := handle e trace ep caps b st in sv_state s = st /\ sv_spawned s = [] /\ sv_posts s = [].
Proof.
  unfold handle, with_path, reply_error. destruct ep; simpl; intros Hep; try done;
    repeat case_match; done.
Qed.

Lemma serves_GET m : m = GET \/ m = HEAD -> forall ep, serves (expects ep).1 m = true -> (expects ep).1 = GET.
Proof. intros [-> | ->] ep; by destruct ep. Qed.

(** Spawned tasks carry the trace id of the request. *)
Lemma handle_trace e trace ep caps b st a :
  a ∈ sv_spawned (handle e trace ep caps b st) -> trace_id a = trace.
Proof.
  unfold handle, with_json, with_path, reply_error. intros Ha.
  destruct ep; repeat (case_match; simplify_eq/=); try (by apply not_elem_of_nil in Ha).
  - apply list_elem_of_singleton in Ha as ->.
    match goal with Hs : submit_task _ _ _ _ = Ok _ |- _ => rename Hs into Hsub end.
    unfold submit_task, mbind, result_bind in Hsub. case_match; by simplify_eq.
  - match goal with Hs : submit_tasks_batch _ _ _ _ ?its = _ |- _ => rename Hs into Hsub; rename its into items end.
    unfold submit_tasks_batch in Hsub. destruct items as [|i items]; simplify_eq; [by apply not_elem_of_nil in Ha|].
    case_decide; simplify_eq; [by apply not_elem_of_nil in Ha|].
    pose proof (batch_loop_spec trace (se_uuid e) (se_later e st) 0 (i :: items)) as Hspec.
    destruct (batch_loop _ _ _ _ _) as [res' spawned']. destruct Hspec as [_ Hspec].
    assert (a ∈ spawned') as Hin by (destruct res'; by simplify_eq).
    apply list_elem_of_lookup in Hin as [j Hj]. by destruct (Hspec j a Hj) as (? & ? & _ & _ & ->).
Qed.

Lemma serve_served uuid hdrs e req st :
  hp_served (serve uuid hdrs e req st) =
  route_request e (trace_id_of uuid req) (hq_method req) (hq_path req) (hq_body req) st.
Proof. unfold serve, trace_id_middleware. by case_match. Qed.

(** *** Where requests go *)

Lemma route_module_bytes n v :
  no_slash n = true -> n <> EmptyString -> no_slash v = true -> v <> EmptyString ->
  route Endpoint build_router GET ("/modules/" +:+ n +:+ "/" +:+ v) = Matched EpGetModuleBytes [n; v].
Proof.
  intros Hn Hn0 Hv Hv0. set (path := _ +:+ _).
  assert (segments path = [EmptyString; "modules"; n; v]) as Hseg.
  { change path with (EmptyString +:+ "/" +:+ ("modules" +:+ "/" +:+ (n +:+ "/" +:+ v))).
    by rewrite !segments_slash, segments_no_slash. }
  set (r := get_route "/modules/:name/:version" EpGetModuleBytes).
  assert (match_path (rt_path r) path = Some [n; v]) as Hm.
  { unfold match_path. rewrite Hseg. change (segments (rt_path r)) with [EmptyString; "modules"; ":name"; ":version"].
    simpl. by rewrite !decide_False. }
  apply (route_found Endpoint build_router GET path r [n; v]); try done.
  - in_table.
  - split; [by rewrite Hm|]. intros r' Hin. unfold match_path at 1. rewrite Hseg.
    each_route Hin; intros [caps Hc]; vm_compute in Hc; try done. by left.
  - intros r' Hin. by each_route Hin.
Qed.

Lemma route_get_task i :
  no_slash i = true -> i <> EmptyString -> i <> "batch" ->
  route Endpoint build_router GET ("/tasks/" +:+ i) = Matched EpGetTask [i].
Proof.
  intros Hi Hi0 Hb. set (path := _ +:+ _).
  assert (segments path = [EmptyString; "tasks"; i]) as Hseg.
  { change path with (EmptyString +:+ "/" +:+ ("tasks" +:+ "/" +:+ i)).
    by rewrite !segments_slash, segments_no_slash. }
  set (r := get_route "/tasks/:id" EpGetTask).
  assert (match_path (rt_path r) path = Some [i]) as Hm.
  { unfold match_path. rewrite Hseg. change (segments (rt_path r)) with [EmptyString; "tasks"; ":id"].
    simpl. by rewrite decide_False. }
  apply (route_found Endpoint build_router GET path r [i]); try done.
  - in_table.
  - split; [by rewrite Hm|]. intros r' Hin. unfold match_path at 1. rewrite Hseg.
    each_route Hin; intros [caps Hc]; try (by vm_compute in Hc); [|by left].
    exfalso. change (segments _) with [EmptyString; "tasks"; "batch"] in Hc. simpl in Hc. by rewrite decide_False in Hc.
  - intros r' Hin. by each_route Hin.
Qed.

(** A path without captures leads to its own endpoint. *)
Lemma route_static r :
  r ∈ build_router -> is_static (rt_path r) = true ->
  route Endpoint build_router (rt_method r) (rt_path r) = Matched (rt_endpoint r) [].
Proof.
  intros Hr Hstat.
  assert (match_path (rt_path r) (rt_path r) = Some []) as Hm by (each_route Hr; by vm_compute).
  apply route_found; [done|..|done].
  - split; [by rewrite Hm|]. intros r' Hin [caps Hc]. clear Hm.
    each_route Hr; try (by vm_compute in Hstat); each_route Hin; vm_compute in Hc; try done; (by left) || (by right).
  - by destruct (rt_method r).
  - intros r' Hin Hp Hs. each_route Hr; each_route Hin; by vm_compute in Hp, Hs.
Qed.

(** *** Modules are never changed by a request *)

Definition upload_json (name version b64 : string) : Json :=
  JObj [("name", JStr name); ("version", JStr version); ("wasm_base64", JStr b64)].

Lemma handle_keeps_modules e trace ep caps b st k x :
  modules (module_registry st) !! k = Some x ->
  modules (module_registry (sv_state (handle e trace ep caps b st))) !! k = Some x.
Proof.
  intros Hk. unfold handle, with_json, with_path, reply_error.
  destruct ep; repeat (case_match; simplify_eq/=); try done;
    match goal with Hs : upload_module ?o ?u ?t ?bd ?st ?sn = _ |- _ =>
      pose proof (upload_keeps_modules o u t bd st sn k x Hk) as Hst; by rewrite Hs in Hst end.
Qed.

Lemma route_request_keeps_modules e trace m path b st k x :
  modules (module_registry st) !! k = Some x ->
  modules (module_registry (sv_state (route_request e trace m path b st))) !! k = Some x.
Proof. unfold route_request. case_match; [by apply handle_keeps_modules|done..]. Qed.

(** The state after a series of requests, each with its UUID and environment. *)
Definition serve_all (hdrs : Served -> HeaderMap) (reqs : list (string * ServeEnv * HttpRequest)) (st : AppState)
    : AppState :=
  foldl (fun st q => sv_state (hp_served (serve q.1.1 hdrs q.1.2 q.2 st))) st reqs.

Lemma serve_all_keeps_modules hdrs reqs st k x :
  modules (module_registry st) !! k = Some x ->
  modules (module_registry (serve_all hdrs reqs st)) !! k = Some x.
Proof.
  revert st. induction reqs as [|q reqs IH]; intros st Hk; [done|]. simpl. apply IH.
  rewrite serve_served. by apply route_request_keeps_modules.
Qed.

(** A module that is registered under plain names is served as it is. *)
Lemma get_registered_module uuid hdrs e hs b st name version meta bs :
  plain_segment name = true -> plain_segment version = true ->
  Registry.get name version (module_registry st) = Some (meta, bs) ->
  hp_served (serve uuid hdrs e {| hq_method := GET; hq_path := "/modules/" +:+ name +:+ "/" +:+ version;
                                  hq_headers := hs; hq_body := b |} st) =
  reply 200 (PBytes "application/octet-stream" bs) st.
Proof.
  intros Hn Hv Hg. rewrite serve_served. unfold route_request. simpl.
  destruct (plain_no_slash _ Hn), (plain_no_slash _ Hv).
  rewrite route_module_bytes by done. unfold handle, with_path. simpl.
  rewrite !percent_decode_plain by done. simpl. unfold get_module_bytes. by rewrite Hg.
Qed.

(** Posting JSON to a route without captures reaches its handler. *)
Lemma serve_post uuid hdrs e hs j st path ep :
  post_route path ep ∈ build_router -> is_static path = true ->
  hp_served (serve uuid hdrs e {| hq_method := POST; hq_path := path; hq_headers := hs; hq_body := json_body j |} st) =
  handle e (trace_id_of uuid {| hq_method := POST; hq_path := path; hq_headers := hs; hq_body := json_body j |})
    ep [] (json_body j) st.
Proof.
  intros Hin Hs. rewrite serve_served. unfold route_request. simpl.
  pose proof (route_static _ Hin Hs) as Hr. simpl in Hr. by rewrite Hr.
Qed.

End route_lemmas.

(** Inputs for evaluations. *)
Definition demo_serve_env : ServeEnv :=
  {| se_uuid := fun _ => "u1"; se_utc := 0; se_ord := std_order; se_later := fun st _ => st;
     se_panicked := fun _ => false |}.
Definition demo_traced : @HttpRequest toy_axum :=
  {| hq_method := GET; hq_path := "/nowhere"; hq_headers := ([("X-Trace-Id", "abc")] : @HeaderMap toy_axum);
     hq_body := @no_body toy_axum |}.
Definition demo_hdrs (s : Served) : @HeaderMap toy_axum := @no_headers toy_axum.

(** What a response is, should it be sent: 200 or a client error, whatever the
    request; for GET and HEAD nothing is changed or started; and only a request
    answered with 200 changes a node. *)
Lemma served_status `{!Base64} `{!Sha2} `{!Axum} uuid hdrs e req st :
  let s := hp_served (serve uuid hdrs e req st) in
  (sv_status s = 200 \/ 400 <= sv_status s < 500) /\
  (hq_method req = GET \/ hq_method req = HEAD ->
     sv_state s = st /\ sv_spawned s = [] /\ sv_posts s = []) /\
  (sv_status s <> 200 -> nodes (sv_state s) = nodes st).
Proof.
  cbv zeta. rewrite serve_served. unfold route_request.
  destruct (route _ _ _ _) as [ep caps| |] eqn:Er; [|by split_and!; [right; simpl; lia|..]..].
  apply routed in Er as [Hs Hl]. split_and!.
  - by apply handle_status.
  - intros Hm. apply handle_get. by eapply serves_GET.
  - unfold handle, with_json, with_path, reply_error. unfold upload_module.
    destruct ep; repeat (case_match; simplify_eq/=); done.
Qed.

Lemma batch_listed `{!Base64} trace uuid seen panicked items r spawned :
  (forall j, panicked j = false) -> submit_tasks_batch trace uuid seen panicked items = (Ok r, spawned) ->
  default [] (data r) = task_id <$> spawned.
Proof.
  intros Hp Hb. unfold submit_tasks_batch in Hb. destruct items as [|i items]; [by simplify_eq/=|].
  case_decide; [done|]. destruct (batch_loop _ _ _ _ _) as [[[]|] sp]; simplify_eq/=.
  unfold joined_ids. rewrite <- (imap_const task_id). apply imap_ext. intros j a _. simpl. by rewrite Hp.
Qed.

(** A response lists the tasks it waits for, in the order of the request. *)
Lemma served_listed `{!Base64} `{!Sha2} `{!Axum} uuid hdrs e req st :
  (forall j, se_panicked e j = false) -> let s := hp_served (serve uuid hdrs e req st) in
  listed_ids (sv_payload s) = task_id <$> awaited s.
Proof.
  intros Hp. cbv zeta. rewrite serve_served. unfold route_request, awaited.
  destruct (route _ _ _ _) as [ep caps| |]; [|done..].
  unfold handle, with_json, with_path, reply_error. destruct ep; repeat (case_match; simplify_eq/=); try done.
  by eapply batch_listed.
Qed.

(** ** Properties *)

(** C16. Trace ids. Whatever the request, the response carries an [X-Trace-Id]
    header: the one the client sent if it is readable text, else the UUID drawn
    for the request (404s and rejected bodies included); and every task the
    request starts sends that same id to the edge node. *)
Theorem trace_id_propagation `{!Base64} `{!Sha2} `{!Axum} uuid hdrs e req st :
  header_text uuid = true ->
  let trace := default uuid (v ← hm_get "X-Trace-Id" (hq_headers req); to_str v) in
  let resp := serve uuid hdrs e req st in
  (exists v, hm_get "X-Trace-Id" (hp_headers resp) = Some v /\ to_str v = Some trace) /\
  Forall (fun a => req_trace_id (grpc_request a) = trace) (sv_spawned (hp_served resp)).
Proof.
  intros Hu trace resp.
  assert (header_text trace = true) as Ht.
  { unfold trace. destruct (hm_get "X-Trace-Id" (hq_headers req)) as [v|]; [|done]. simpl.
    destruct (to_str v) eqn:Ev; [|done]. simpl. by eapply to_str_text. }
  split.
  - destruct (from_str_text trace Ht) as (v & Hf & Hs). exists v. split; [|done].
    unfold resp, serve, trace_id_middleware. change (trace_id_of uuid req) with trace. rewrite Hf.
    simpl. apply hm_get_insert.
  - apply Forall_forall. intros a. unfold resp. rewrite serve_served. unfold route_request.
    case_match; [|by intros ?%not_elem_of_nil..]. apply handle_trace.
Qed.

Lemma trace_id_propagation_witness :
  exists v, hm_get "X-Trace-Id" (hp_headers (@serve toy_base64 toy_sha2 toy_axum "fresh" demo_hdrs demo_serve_env
      demo_traced AppState_default)) = Some v /\ to_str v = Some "abc".
Proof.
  exact (proj1 (@trace_id_propagation toy_base64 toy_sha2 toy_axum "fresh" demo_hdrs demo_serve_env
    demo_traced AppState_default eq_refl)).
Defined.

(** C6. A module over HTTP. Uploading a module under plain, unused names is
    answered with 200 if the request fits axum's body limit, and from then on,
    whatever other requests come in between, GET /modules/name/version answers
    with exactly the uploaded bytes. *)
Theorem http_module_roundtrip `{!Base64} `{!Sha2} `{!Axum} uuid hdrs e hs st name version bs :
  plain_segment name = true -> plain_segment version = true ->
  Registry.get name version (module_registry st) = None ->
  body_len (json_body (upload_json name version (b64_encode bs))) <= default_body_limit ->
  let s := hp_served (serve uuid hdrs e {| hq_method := POST; hq_path := "/modules"; hq_headers := hs;
             hq_body := json_body (upload_json name version (b64_encode bs)) |} st) in
  sv_status s = 200 /\
  forall reqs uuid' e' hs' b',
    let s' := hp_served (serve uuid' hdrs e' {| hq_method := GET;
                hq_path := "/modules/" +:+ name +:+ "/" +:+ version; hq_headers := hs'; hq_body := b' |}
                (serve_all hdrs reqs (sv_state s))) in
    sv_status s' = 200 /\ sv_payload s' = PBytes "application/octet-stream" bs.
Proof.
  intros Hn Hv Hnone Hlen. cbv zeta. rewrite (serve_post _ _ _ _ _ _ _ EpUploadModule); [|in_table|done].
  unfold handle, with_json. rewrite json_extract_body by done. simpl.
  unfold upload_module. simpl. rewrite b64_roundtrip. unfold store, Registry.get in *. rewrite Hnone. simpl.
  split; [done|]. intros reqs uuid' e' hs' b'.
  erewrite get_registered_module; [done..|]. unfold Registry.get. apply serve_all_keeps_modules. simpl.
  apply lookup_insert_eq.
Qed.

Lemma http_module_roundtrip_witness :
  sv_payload (hp_served (@serve toy_base64 toy_sha2 toy_axum "u" demo_hdrs demo_serve_env
    {| hq_method := GET; hq_path := "/modules/echo/1.0"; hq_headers := @no_headers toy_axum; hq_body := @no_body toy_axum |}
    (sv_state (hp_served (@serve toy_base64 toy_sha2 toy_axum "u" demo_hdrs demo_serve_env
       {| hq_method := POST; hq_path := "/modules"; hq_headers := @no_headers toy_axum;
          hq_body := @json_body toy_axum (upload_json "echo" "1.0" (@b64_encode toy_base64 [Byte.x00; Byte.x61])) |}
       AppState_default))))) = PBytes "application/octet-stream" [Byte.x00; Byte.x61].
Proof.
  refine (proj2 (proj2 (@http_module_roundtrip toy_base64 toy_sha2 toy_axum "u" demo_hdrs demo_serve_env
    (@no_headers toy_axum) AppState_default "echo" "1.0" [Byte.x00; Byte.x61] eq_refl eq_refl eq_refl _)
    [] "u" demo_serve_env (@no_headers toy_axum) (@no_body toy_axum))).
  vm_compute. discriminate.
Defined.
