(* ===== verification/ControlPlane.v ===== *)
(** * The control plane as a system of interleaved tasks

    Every request handler, every running [dispatch_task] and the health loop of
    [services/control-plane] share one [Arc<RwLock<AppState>>]. A system state
    is the shared world, the dispatches started so far and the health loop; a
    step lets one of them run to its next suspension point, provided the lock
    grants the guard that step needs. Clock readings, hash orders, RPC and probe
    outcomes and request contents are chosen freely by the environment. Clients
    wait for their answers here; [Disconnect] lets them go away.

    The lock is tokio's and therefore an interface: [TokioRwLock] states the
    documented behaviour, that a write guard excludes all others and that no new
    read guard is given out while a writer is queued. *)

From S2P Require Import Prelude RustStd Common CircuitBreaker Scheduler Registry AppState Dispatch Health Handlers.

(** ** The lock *)

(** [grant_read r q] and [grant_write r]: whether a guard is granted while [r]
    read guards are alive and [q] writers are queued. *)
Class TokioRwLock := {
  grant_read : nat -> nat -> bool;
  grant_write : nat -> bool;
  write_exclusive : forall r, grant_write r = true -> r = 0%nat;
  write_preferring : forall r q, grant_read r q = true -> q = 0%nat;
  free_read : grant_read 0 0 = true;
  free_write : grant_write 0 = true
}.

(** ** The system *)
Section system.
Context `{!Base64} `{!Sha2} `{!Tonic} `{!TokioRwLock}.

Record Sys := {
  world : CPWorld;
  dispatches : list DispatchTask;
  hpc : health_pc
}.

Definition guard_count (t : DispatchTask) : nat := if holds_read_guard t then 1%nat else 0%nat.

(** Read guards kept alive across a suspension point; each such task is also a
    queued writer. *)
Definition readers (s : Sys) : nat := sum_list_with guard_count (dispatches s).

Definition lock_granted (u : LockUse) (s : Sys) : bool :=
  match u with
  | NoLock => true
  | ReadLock => grant_read (readers s) (readers s)
  | WriteLock => grant_write (readers s)
  end.

(** [resolve_task_inputs] takes the read guard only to look a module up. *)
Definition submit_lock (body : SubmitTaskRequest) : LockUse :=
  match sub_module_name body, sub_module_version body with
  | Some _, Some _ => ReadLock
  | _, _ => NoLock
  end.

(** A batch is a sequence of [sys_submit] steps, one per item. *)
Inductive sys_step : Sys -> Sys -> Prop :=
| sys_dispatch s i t e t' w' :
    dispatches s !! i = Some t ->
    lock_granted (lock_use t) s = true ->
    dispatch_step e t (world s) = Some (t', w') ->
    sys_step s {| world := w'; dispatches := <[i := t']> (dispatches s); hpc := hpc s |}
| sys_health s o r h' w' :
    lock_granted (health_lock_use (hpc s)) s = true ->
    health_step o r (hpc s) (world s) = (h', w') ->
    sys_step s {| world := w'; dispatches := dispatches s; hpc := h' |}
| sys_submit s uuid trace body a :
    lock_granted (submit_lock body) s = true ->
    submit_task (app (world s)) uuid trace body = Ok a ->
    sys_step s {| world := world s; dispatches := dispatches s ++ [init_task a]; hpc := hpc s |}
| sys_register s body :
    lock_granted WriteLock s = true ->
    sys_step s {| world := with_app (register_node body) (world s);
                  dispatches := dispatches s; hpc := hpc s |}
| sys_upload s o uuid utc body seen :
    lock_granted WriteLock s = true ->
    sys_step s {| world := with_app (fun st => (upload_module o uuid utc body st seen).1.2) (world s);
                  dispatches := dispatches s; hpc := hpc s |}.

Definition init_sys (url strategy : string) : Sys :=
  {| world := {| app := initial_state url strategy; pool := pool_new; mlog := [] |};
     dispatches := []; hpc := HTick |}.

Definition reachable (s : Sys) : Prop :=
  exists url strategy, rtc sys_step (init_sys url strategy) s.

(** ** What is counted *)

Definition accepted (t : DispatchTask) : nat :=
  match at_pc t with PStart | PSubmit => 0%nat | _ => 1%nat end.
Definition done_count (t : DispatchTask) : nat := if finished t then 1%nat else 0%nat.
(** Submitted, counted and not yet answered. *)
Definition in_flight (t : DispatchTask) : nat :=
  match at_pc t with PStart | PSubmit | PDone => 0%nat | _ => 1%nat end.

(** Prometheus increments a task has caused. *)
Definition submit_marks (t : DispatchTask) : nat :=
  match at_pc t with PStart => 0%nat | _ => 1%nat end.
Definition outcome_marks (t : DispatchTask) : nat :=
  match at_pc t with PStoreSuccess _ _ | PStoreNoNode | PDone => 1%nat | _ => 0%nat end.

Definition waits_in_queue (t : DispatchTask) : Prop :=
  match at_pc t with
  | PQueueInc | PQueueSleep _ | PQueueRead | PQueueWrite _ => True
  | _ => False
  end.

(** Steps of one dispatch while all others stand still. *)
Inductive own_path : DispatchTask -> CPWorld -> DispatchTask -> CPWorld -> Prop :=
| path_refl t w : own_path t w t w
| path_step e t w t1 w1 t2 w2 :
    dispatch_step e t w = Some (t1, w1) -> own_path t1 w1 t2 w2 -> holds_read_guard t = false ->
    own_path t w t2 w2.

(** The invariant of reachable states. *)
Record sys_inv (s : Sys) : Prop := {
  inv_app : app_wf (app (world s));
  inv_tasks : Forall task_wf (dispatches s);
  inv_submitted : total_submitted (app (world s)) mod u64_mod =
    Z.of_nat (sum_list_with accepted (dispatches s)) mod u64_mod;
  inv_closed : (total_success (app (world s)) + total_failed (app (world s))) mod u64_mod =
    Z.of_nat (sum_list_with done_count (dispatches s)) mod u64_mod;
  inv_stored : Forall (fun t => finished t = true ->
    is_Some (tasks (app (world s)) !! task_id (args t))) (dispatches s);
  inv_submit_marks : counter_value TASKS_SUBMITTED_TOTAL (mlog (world s)) =
    sum_list_with submit_marks (dispatches s);
  inv_outcome_marks : (counter_value TASKS_SUCCESS_TOTAL (mlog (world s)) +
    counter_value TASKS_FAILED_TOTAL (mlog (world s)))%nat =
    sum_list_with outcome_marks (dispatches s);
  inv_queue : Forall (fun t => no_node_count t <> 0 -> no_node_count t = 1 /\ waits_in_queue t)
    (dispatches s)
}.

End system.

(** The simplest lock with the documented behaviour. *)
Definition simple_rwlock : TokioRwLock.
Proof.
  refine {| grant_read := fun _ q => (q =? 0)%nat; grant_write := fun r => (r =? 0)%nat |}.
  - intros r. apply Nat.eqb_eq.
  - intros _ q. apply Nat.eqb_eq.
  - reflexivity.
  - reflexivity.
Defined.

(** A stuck system, for evaluation. *)
Definition stuck_sys : @Sys toy_tonic :=
  {| world := demo_world; dispatches := [goto (PQueueWrite 0) (init_task demo_args)]; hpc := HTick |}.

Definition demo_register : RegisterNodeRequest :=
  {| reg_node_id := "n1"; reg_address := "http://n1"; reg_http_address := None;
     reg_max_concurrent_tasks := None |}.

(** ** Lemmas on one dispatch step *)
Section step_lemmas.
Context `{!Sha2} `{!Tonic}.

(** Unfolds a dispatch step into its cases, keeping selection, pool lookup and
    result handling folded. *)
Ltac dispatch_cases Hstep t :=
  unfold dispatch_step in Hstep; destruct (at_pc t) eqn:Hpc; simplify_eq/=;
  repeat match type of Hstep with
  | context [select_node_for_task ?o ?c ?s ?tr ?st] =>
      let F := fresh "Hframe" in
      pose proof (select_node_for_task_frame o c s tr st) as F; simpl in F;
      destruct (select_node_for_task o c s tr st) as [[?|] ?] eqn:?; simpl in F, Hstep
  | context [get_or_create ?i ?a ?p] => destruct (get_or_create i a p) as [[?|?] ?] eqn:?
  | context [if ?b then _ else _] => destruct b eqn:?
  end; simplify_eq/=.

Lemma with_breaker_wf node_id f st :
  (forall cb, cb_wf cb -> cb_wf (f cb)) -> app_wf st -> app_wf (with_breaker node_id f st).
Proof.
  intros Hf [Hn Ht Hb Hi Hr]. constructor; try done. simpl. intros k cb.
  intros [[<- <-]|[? ?]]%lookup_insert_Some; [|by eapply Hb].
  apply Hf. destruct (circuit_breakers st !! node_id) eqn:E; simpl; eauto with ferro.
Qed.

Lemma store_result_wf a r st :
  tr_task_id r = task_id a -> (tr_success r = true <-> tr_error r = None) ->
  app_wf st -> app_wf (store_result a r st).
Proof.
  intros Hid Hse [Hn Ht Hb Hi Hr]. constructor; try done. simpl. intros k r'.
  intros [[<- <-]|[? ?]]%lookup_insert_Some; [done|by apply Ht].
Qed.

(** Counter updates do not touch what [app_wf] speaks of. *)
Lemma app_wf_counters st st' :
  nodes st' = nodes st -> tasks st' = tasks st -> circuit_breakers st' = circuit_breakers st ->
  scheduler_index st' = scheduler_index st -> module_registry st' = module_registry st ->
  app_wf st -> app_wf st'.
Proof.
  intros H1 H2 H3 H4 H5 [? ? ? ? ?].
  constructor; rewrite ?H1, ?H2, ?H3, ?H4, ?H5; done.
Qed.

Lemma dispatch_step_app_wf e t w t' w' :
  dispatch_step e t w = Some (t', w') -> app_wf (app w) -> app_wf (app w').
Proof.
  intros Hstep Hwf.
  assert (forall o c s tr, app_wf (select_node_for_task o c s tr (app w)).2) as Hsel
    by (intros; by apply select_node_for_task_wf).
  unfold dispatch_step in Hstep. destruct (at_pc t) eqn:Hpc; simplify_eq/=.
  all: try (repeat (case_match; simplify_eq/=);
            first [done | by (eapply app_wf_counters; [..|exact Hwf])]).
  - specialize (Hsel (ord e) (clk e) (Z.of_N (seed e)) (tried_nodes t)).
    destruct (select_node_for_task _ _ _ _ _) as [[n|] st']; simplify_eq/=; [done|].
    by case_match; simplify_eq/=.
  - apply store_result_wf; [done|done|]. by (eapply app_wf_counters; [..|exact Hwf]).
  - apply with_breaker_wf; [|done]. auto with ferro.
  - eapply (app_wf_counters (store_result _ _ (app w))); [reflexivity..|]. by apply store_result_wf.
  - repeat (case_match; simplify_eq/=); apply with_breaker_wf; auto with ferro.
  - eapply (app_wf_counters (store_result _ _ (app w))); [reflexivity..|]. by apply store_result_wf.
Qed.

Lemma dispatch_step_args e t w t' w' :
  dispatch_step e t w = Some (t', w') -> args t' = args t.
Proof. intros Hstep. unfold on_result in *. dispatch_cases Hstep t; try done; unfold on_result; repeat case_match; done. Qed.

(** [on_result] moves to one of the four continuations. *)
Lemma on_result_pc e n r t :
  match at_pc (on_result e n r t) with
  | PRecordSuccess _ _ | PRecordFailure _ | PStoreExhausted | PCapacitySleep _ => True
  | _ => False
  end.
Proof. unfold on_result, mark_failed. repeat case_match; done. Qed.

Lemma on_result_no_node_count e n r t : no_node_count (on_result e n r t) = no_node_count t.
Proof. unfold on_result, mark_failed. repeat case_match; done. Qed.

Lemma dispatch_step_submitted e t w t' w' :
  dispatch_step e t w = Some (t', w') ->
  total_submitted (app w') mod u64_mod =
    (total_submitted (app w) + Z.of_nat (accepted t') - Z.of_nat (accepted t)) mod u64_mod.
Proof.
  intros Hstep.
  assert (forall n r, accepted (on_result e n r t) = 1%nat) as Hor.
  { intros n r. pose proof (on_result_pc e n r t). unfold accepted. by destruct (at_pc (on_result _ _ _ _)). }
  unfold accepted in *.
  dispatch_cases Hstep t; rewrite ?Hpc, ?Hor; destruct_and?; try (f_equal; (done || lia || congruence)).
  unfold u64_add. rewrite Zmod_mod. f_equal. lia.
Qed.

Lemma dispatch_step_closed e t w t' w' :
  dispatch_step e t w = Some (t', w') ->
  (total_success (app w') + total_failed (app w')) mod u64_mod =
    (total_success (app w) + total_failed (app w)
       + Z.of_nat (done_count t') - Z.of_nat (done_count t)) mod u64_mod.
Proof.
  intros Hstep.
  assert (forall n r, finished (on_result e n r t) = false) as Hor.
  { intros n r. pose proof (on_result_pc e n r t). unfold finished. by destruct (at_pc (on_result _ _ _ _)). }
  assert (forall a b, (u64_add a 1 + b) mod u64_mod = (a + b + 1) mod u64_mod) as Hadd.
  { intros a b. unfold u64_add. rewrite Zplus_mod_idemp_l. f_equal. lia. }
  unfold done_count. rewrite <- ?Hadd.
  dispatch_cases Hstep t; rewrite ?Hor; unfold finished; simpl; rewrite ?Hpc;
    destruct_and?; try (f_equal; (done || lia || congruence)).
  all: try (rewrite Hadd; f_equal; lia).
  all: rewrite Z.add_comm, Hadd; f_equal; lia.
Qed.

(** Results are only added or replaced, and the last step stores one. *)
Lemma dispatch_step_stored e t w t' w' :
  dispatch_step e t w = Some (t', w') ->
  (forall k, is_Some (tasks (app w) !! k) -> is_Some (tasks (app w') !! k)) /\
  (finished t' = true -> is_Some (tasks (app w') !! task_id (args t))).
Proof.
  intros Hstep.
  assert (forall n r, finished (on_result e n r t) = false) as Hor.
  { intros n r. pose proof (on_result_pc e n r t). unfold finished. by destruct (at_pc (on_result _ _ _ _)). }
  dispatch_cases Hstep t; rewrite ?Hor; destruct_and?; split; try done; try congruence.
  all: try (intros; rewrite lookup_insert_eq; eauto; fail).
  all: intros k Hk; rewrite lookup_insert; case_decide; eauto.
Qed.

Lemma dispatch_step_registry e t w t' w' :
  dispatch_step e t w = Some (t', w') -> module_registry (app w') = module_registry (app w).
Proof. intros Hstep. dispatch_cases Hstep t; destruct_and?; done. Qed.

Lemma dispatch_step_marks e t w t' w' :
  dispatch_step e t w = Some (t', w') ->
  (counter_value TASKS_SUBMITTED_TOTAL (mlog w') + submit_marks t =
     counter_value TASKS_SUBMITTED_TOTAL (mlog w) + submit_marks t')%nat /\
  (counter_value TASKS_SUCCESS_TOTAL (mlog w') + counter_value TASKS_FAILED_TOTAL (mlog w')
     + outcome_marks t =
   counter_value TASKS_SUCCESS_TOTAL (mlog w) + counter_value TASKS_FAILED_TOTAL (mlog w)
     + outcome_marks t')%nat.
Proof.
  intros Hstep.
  assert (forall n r, submit_marks (on_result e n r t) = 1%nat /\ outcome_marks (on_result e n r t) = 0%nat) as Hor.
  { intros n r. pose proof (on_result_pc e n r t). unfold submit_marks, outcome_marks.
    by destruct (at_pc (on_result _ _ _ _)). }
  dispatch_cases Hstep t;
    try match goal with |- context [on_result e ?n ?r t] => destruct (Hor n r) as [-> ->] end;
    unfold submit_marks, outcome_marks; rewrite ?Hpc; simpl; split; lia.
Qed.

(** Unless it waits for the write guard with its read guard alive, a task that
    has never missed a node either goes on without a miss or enters the queue. *)
Lemma dispatch_step_queue e t w t' w' :
  dispatch_step e t w = Some (t', w') -> holds_read_guard t = false ->
  (no_node_count t <> 0 -> no_node_count t = 1 /\ waits_in_queue t) ->
  (no_node_count t' <> 0 -> no_node_count t' = 1 /\ waits_in_queue t').
Proof.
  intros Hstep Hg Hq. unfold holds_read_guard, waits_in_queue in *.
  destruct (decide (no_node_count t = 0)) as [H00|H00].
  - dispatch_cases Hstep t; rewrite ?on_result_no_node_count; try done; rewrite H00 in *; done.
  - destruct (Hq H00) as [Hq1 Hq2]. dispatch_cases Hstep t; done.
Qed.

(** Steps that need no guard leave the application state alone, never finish a
    task and never release a guard. *)
Lemma dispatch_step_nolock e t w t' w' :
  dispatch_step e t w = Some (t', w') -> lock_use t = NoLock ->
  app w' = app w /\ finished t' = false /\ finished t = false /\ holds_read_guard t = false
  /\ holds_read_guard t' = false.
Proof.
  intros Hstep Hl.
  assert (forall n r, finished (on_result e n r t) = false /\ holds_read_guard (on_result e n r t) = false) as Hor.
  { intros n r. pose proof (on_result_pc e n r t). unfold finished, holds_read_guard.
    by destruct (at_pc (on_result _ _ _ _)). }
  unfold lock_use in Hl.
  dispatch_cases Hstep t; try done;
    try match goal with |- context [on_result e ?n ?r t] => destruct (Hor n r) as [-> ->] end;
    unfold finished, holds_read_guard; simpl; rewrite ?Hpc; done.
Qed.

(** Holding a guard across a suspension point means waiting for the write guard. *)
Lemma guard_holder_lock t : holds_read_guard t = true -> lock_use t = WriteLock.
Proof. unfold holds_read_guard, lock_use. by destruct (at_pc t). Qed.

End step_lemmas.

(** ** Lemmas on the system *)
Section system_lemmas.
Context `{!Base64} `{!Sha2} `{!Tonic} `{!TokioRwLock}.

Lemma mod_shift (m a b d : Z) : a mod m = b mod m -> (a + d) mod m = (b + d) mod m.
Proof. intros Hab. by rewrite <- Zplus_mod_idemp_l, Hab, Zplus_mod_idemp_l. Qed.

(** A count of tasks after one of them has moved. *)
Lemma count_moved (f : DispatchTask -> nat) (s : Sys) i t t' (T T' : Z) :
  dispatches s !! i = Some t ->
  T mod u64_mod = Z.of_nat (sum_list_with f (dispatches s)) mod u64_mod ->
  T' mod u64_mod = (T + Z.of_nat (f t') - Z.of_nat (f t)) mod u64_mod ->
  T' mod u64_mod = Z.of_nat (sum_list_with f (<[i := t']> (dispatches s))) mod u64_mod.
Proof.
  intros Hi HT ->. pose proof (sum_list_with_insert f _ _ _ t' Hi) as Hs.
  replace (T + Z.of_nat (f t') - Z.of_nat (f t)) with (T + (Z.of_nat (f t') - Z.of_nat (f t))) by lia.
  rewrite (mod_shift _ _ _ _ HT). f_equal. lia.
Qed.

Lemma readers_pos s i t :
  dispatches s !! i = Some t -> holds_read_guard t = true -> (0 < readers s)%nat.
Proof.
  intros Hi Hg. pose proof (sum_list_with_lookup guard_count _ _ _ Hi) as Hle.
  unfold guard_count at 1 in Hle. rewrite Hg in Hle. unfold readers. lia.
Qed.

(** A task that holds its own read guard is never granted the write guard. *)
Lemma granted_not_holding s i t :
  dispatches s !! i = Some t -> lock_granted (lock_use t) s = true -> holds_read_guard t = false.
Proof.
  intros Hi Hl. destruct (holds_read_guard t) eqn:Hg; [|done].
  pose proof (readers_pos s i t Hi Hg). rewrite guard_holder_lock in Hl by done.
  apply write_exclusive in Hl. lia.
Qed.

Lemma init_sys_inv url strategy : sys_inv (init_sys url strategy).
Proof.
  split; simpl; try done; try constructor; simpl;
    try (intros ? ?; rewrite lookup_empty; done); try done.
Qed.

Lemma sys_step_dispatch_inv s i t e t' w' :
  sys_inv s -> dispatches s !! i = Some t -> holds_read_guard t = false ->
  dispatch_step e t (world s) = Some (t', w') ->
  sys_inv {| world := w'; dispatches := <[i := t']> (dispatches s); hpc := hpc s |}.
Proof.
  intros [Happ Htw Hsub Hcl Hst Hsm Hom Hq] Hi Hg Hstep.
  pose proof (dispatch_step_stored _ _ _ _ _ Hstep) as [Hkeep Hdone].
  pose proof (dispatch_step_marks _ _ _ _ _ Hstep) as [Hm1 Hm2].
  split; simpl.
  - by eapply dispatch_step_app_wf.
  - apply Forall_insert; [done|]. eapply dispatch_step_wf; [done|].
    by eapply Forall_lookup_1.
  - eapply count_moved; [done..|]. by eapply dispatch_step_submitted.
  - eapply count_moved; [done..|]. by eapply dispatch_step_closed.
  - apply Forall_insert.
    + eapply Forall_impl; [exact Hst|]. intros u Hu Hf. by apply Hkeep, Hu.
    + rewrite (dispatch_step_args _ _ _ _ _ Hstep). done.
  - pose proof (sum_list_with_insert submit_marks _ _ _ t' Hi). lia.
  - pose proof (sum_list_with_insert outcome_marks _ _ _ t' Hi). lia.
  - apply Forall_insert; [done|]. eapply dispatch_step_queue; [done..|].
    by eapply (Forall_lookup_1 _ _ _ _ Hq).
Qed.

(** Steps that keep the dispatches and the counters, and only add results. *)
Lemma sys_inv_frame s w' h' :
  sys_inv s -> app_wf (app w') ->
  total_submitted (app w') = total_submitted (app (world s)) ->
  total_success (app w') = total_success (app (world s)) ->
  total_failed (app w') = total_failed (app (world s)) ->
  tasks (app w') = tasks (app (world s)) ->
  (forall c, c = TASKS_SUBMITTED_TOTAL \/ c = TASKS_SUCCESS_TOTAL \/ c = TASKS_FAILED_TOTAL ->
     counter_value c (mlog w') = counter_value c (mlog (world s))) ->
  sys_inv {| world := w'; dispatches := dispatches s; hpc := h' |}.
Proof.
  intros [Happ Htw Hsub Hcl Hst Hsm Hom Hq] Hwf H1' H2' H3' H4' H5'.
  split; simpl; rewrite ?H1', ?H2', ?H3', ?H4', ?H5' by tauto; done.
Qed.

(** A counted dispatch is under way or has ended. *)
Lemma accepted_split l :
  sum_list_with accepted l = (sum_list_with in_flight l + sum_list_with done_count l)%nat.
Proof.
  induction l as [|t l IH]; [done|]. cbn [sum_list_with]. rewrite IH.
  unfold accepted, in_flight, done_count, finished. destruct (at_pc t); simpl; lia.
Qed.

Lemma health_step_frame o r h w h' w' :
  health_step o r h w = (h', w') -> app_wf (app w) ->
  app_wf (app w') /\ total_submitted (app w') = total_submitted (app w) /\
  total_success (app w') = total_success (app w) /\ total_failed (app w') = total_failed (app w) /\
  tasks (app w') = tasks (app w) /\
  (forall c, c = TASKS_SUBMITTED_TOTAL \/ c = TASKS_SUCCESS_TOTAL \/ c = TASKS_FAILED_TOTAL ->
     counter_value c (mlog w') = counter_value c (mlog w)).
Proof.
  intros Hstep Hwf.
  assert (forall i f, (forall n, id (f n) = id n) -> app_wf (update_node i f (app w))) as Hup.
  { intros i f Hf. destruct Hwf as [Hn ? ? ? ?]. constructor; try done. simpl. intros k n.
    rewrite lookup_alter. case_decide; [subst k|by apply Hn].
    intros (n0 & Hn0 & ->)%fmap_Some_1. rewrite Hf. by apply Hn. }
  destruct h as [|[|[i a] todo] c|i r' todo c]; simplify_eq/=; [done| |done|].
  - split_and!; try done; by intros c' [->|[->| ->]].
  - destruct r'; simplify_eq/=; split_and!; try done; try (by apply Hup); by intros c' [->|[->| ->]].
Qed.

(** The system with further dispatches that take no part in its steps. *)
Definition beside (l : list DispatchTask) (s : Sys) : Sys :=
  {| world := world s; dispatches := l ++ dispatches s; hpc := hpc s |}.

Lemma sys_inv_submit s a :
  sys_inv s -> sys_inv {| world := world s; dispatches := dispatches s ++ [init_task a]; hpc := hpc s |}.
Proof.
  intros [Happ Htw Hsub Hcl Hst Hsm Hom Hq].
  split; simpl; rewrite ?sum_list_with_app; simpl; rewrite ?Nat.add_0_r; try done.
  - apply Forall_app. split; [done|]. constructor; [apply init_task_wf|done].
  - apply Forall_app. split; [done|]. by repeat constructor.
  - apply Forall_app. split; [done|]. by repeat constructor.
Qed.

(** The invariant does not depend on the order of the dispatches. *)
Lemma sys_inv_perm s s' :
  sys_inv s -> world s' = world s -> dispatches s' ≡ₚ dispatches s -> sys_inv s'.
Proof.
  intros [Happ Htw Hsub Hcl Hst Hsm Hom Hq] Hw Hp.
  split; rewrite ?Hw; try done; rewrite Hp; done.
Qed.

Lemma sys_step_inv_beside l s s' : sys_step s s' -> sys_inv (beside l s) -> sys_inv (beside l s').
Proof.
  intros Hstep Hinv. destruct Hstep as [s i t e t' w' Hi Hl Hd|s o r h' w' Hl Hh|s uuid trace body a Hl Ha|s body Hl|s o uuid utc body seen Hl].
  - unfold beside. simpl. rewrite <- insert_app_r.
    eapply (sys_step_dispatch_inv (beside l s)); [done| |by eapply granted_not_holding|done].
    simpl. by rewrite lookup_app_r, Nat.add_sub_swap, Nat.sub_diag by lia.
  - destruct (health_step_frame _ _ _ _ _ _ Hh (inv_app (beside l s) Hinv)) as (? & ? & ? & ? & ? & ?).
    by apply (sys_inv_frame (beside l s)).
  - unfold beside. simpl. rewrite app_assoc. by apply (sys_inv_submit (beside l s)).
  - apply (sys_inv_frame (beside l s)); try done. simpl. apply register_node_wf. by apply (inv_app (beside l s)).
  - apply (sys_inv_frame (beside l s)); try done; simpl; try by (unfold upload_module; repeat case_match).
    apply upload_module_wf. by apply (inv_app (beside l s)).
Qed.

Lemma sys_step_inv s s' : sys_step s s' -> sys_inv s -> sys_inv s'.
Proof.
  intros Hstep Hinv. apply (sys_inv_perm (beside [] s')); [|done..].
  eapply sys_step_inv_beside; [done|]. by apply (sys_inv_perm s).
Qed.

(** *** The registry only grows *)

Lemma health_step_registry o r h w h' w' :
  health_step o r h w = (h', w') -> module_registry (app w') = module_registry (app w).
Proof.
  intros Hstep. destruct h as [|[|[i a] todo] c|i r' todo c]; simplify_eq/=; try done.
  by destruct r'; simplify_eq/=.
Qed.

Lemma sys_step_modules s s' k x :
  sys_step s s' -> modules (module_registry (app (world s))) !! k = Some x ->
  modules (module_registry (app (world s'))) !! k = Some x.
Proof.
  intros Hstep Hk. destruct Hstep; simpl.
  - by erewrite dispatch_step_registry.
  - by erewrite health_step_registry.
  - done.
  - done.
  - by apply upload_keeps_modules.
Qed.

Lemma sys_steps_modules s s' k x :
  rtc sys_step s s' -> modules (module_registry (app (world s))) !! k = Some x ->
  modules (module_registry (app (world s'))) !! k = Some x.
Proof. induction 1; eauto using sys_step_modules. Qed.

Lemma reachable_inv s : reachable s -> sys_inv s.
Proof.
  intros (url & strategy & Hrtc). pose proof (init_sys_inv url strategy) as Hinit.
  induction Hrtc; eauto using sys_step_inv.
Qed.

End system_lemmas.

(** ** Deadlock: lemmas *)
Section deadlock.
Context `{!Base64} `{!Sha2} `{!Tonic} `{!TokioRwLock}.

(** With a read guard alive only guard-free steps are possible. *)
Lemma blocked_grants u s : (0 < readers s)%nat -> lock_granted u s = true -> u = NoLock.
Proof.
  intros Hr. destruct u; simpl; [done|..].
  - intros ?%write_preferring. lia.
  - intros ?%write_exclusive. lia.
Qed.

Definition finished_count (s : Sys) : nat := sum_list_with done_count (dispatches s).

Lemma blocked_step s s' :
  sys_step s s' -> (0 < readers s)%nat ->
  app (world s') = app (world s) /\ readers s' = readers s /\ finished_count s' = finished_count s /\
  (forall i t, dispatches s !! i = Some t -> holds_read_guard t = true -> dispatches s' !! i = Some t).
Proof.
  intros Hstep Hr. destruct Hstep as [s i t e t' w' Hi Hl Hd|s o r h' w' Hl Hh|s uuid trace body a Hl Ha|s body Hl|s o uuid utc body seen Hl];
    apply blocked_grants in Hl; try done.
  - destruct (dispatch_step_nolock _ _ _ _ _ Hd Hl) as (Happ & Hf' & Hf & Hg & Hg').
    pose proof (sum_list_with_insert guard_count _ _ _ t' Hi) as Hs1.
    pose proof (sum_list_with_insert done_count _ _ _ t' Hi) as Hs2.
    unfold readers, finished_count, guard_count, done_count in *. simpl.
    rewrite Hg, Hg' in Hs1. rewrite Hf, Hf' in Hs2. split_and!; [done|lia|lia|].
    intros j u Hj Hu. rewrite list_lookup_insert_ne; [done|]. intros <-. congruence.
  - destruct (hpc s) as [|[|[i a] todo] c|i r' todo c]; simplify_eq/=; done.
  - unfold readers, finished_count. simpl. rewrite !sum_list_with_app. simpl.
    rewrite !Nat.add_0_r. split_and!; try done.
    intros i t Hi _. by apply lookup_app_l_Some.
Qed.

Lemma blocked_forever s s' :
  rtc sys_step s s' -> (0 < readers s)%nat ->
  app (world s') = app (world s) /\ readers s' = readers s /\ finished_count s' = finished_count s /\
  (forall i t, dispatches s !! i = Some t -> holds_read_guard t = true -> dispatches s' !! i = Some t).
Proof.
  induction 1 as [|s1 s2 s3 Hstep _ IH]; intros Hr; [done|].
  destruct (blocked_step _ _ Hstep Hr) as (Ha & Hb & Hc & Hd).
  destruct IH as (Ha' & Hb' & Hc' & Hd'); [lia|].
  split_and!; [congruence..|]. intros i t Hi Ht. apply Hd'; [by apply Hd|done].
Qed.

(** One dispatch moves, nobody holding a guard. *)
Lemma free_dispatch_step s i t e t' w' :
  readers s = 0%nat -> dispatches s !! i = Some t -> dispatch_step e t (world s) = Some (t', w') ->
  sys_step s {| world := w'; dispatches := <[i := t']> (dispatches s); hpc := hpc s |}.
Proof.
  intros Hr Hi Hd. eapply sys_dispatch; [done| |done].
  unfold lock_granted. rewrite Hr. destruct (lock_use t); [done|apply free_read|apply free_write].
Qed.

(** Readers after one dispatch has moved between points where it holds none. *)
Lemma readers_moved s i t t' w' :
  readers s = 0%nat -> dispatches s !! i = Some t -> holds_read_guard t' = false ->
  readers {| world := w'; dispatches := <[i := t']> (dispatches s); hpc := hpc s |} = 0%nat.
Proof.
  intros Hr Hi Hg. pose proof (sum_list_with_insert guard_count _ _ _ t' Hi) as Hs.
  unfold readers in *. simpl. unfold guard_count at 2 4 in Hs. rewrite Hg in Hs. lia.
Qed.

Lemma own_path_rtc t w t' w' s i :
  own_path t w t' w' -> readers s = 0%nat -> world s = w -> dispatches s !! i = Some t ->
  rtc sys_step s {| world := w'; dispatches := <[i := t']> (dispatches s); hpc := hpc s |}.
Proof.
  intros Hp. revert s. induction Hp as [t w|e t w t1 w1 t2 w2 Hd Hp IH Hg]; intros s Hr <- Hi.
  - rewrite list_insert_id by done. destruct s. apply rtc_refl.
  - eapply rtc_l; [eapply free_dispatch_step; eauto|].
    destruct (holds_read_guard t1) eqn:Hg1.
    + inversion Hp as [|? ? ? ? ? ? ? ? ? Hg']; subst; [apply rtc_refl|congruence].
    + specialize (IH {| world := w1; dispatches := <[i := t1]> (dispatches s); hpc := hpc s |}).
      simpl in IH. rewrite list_insert_insert_eq in IH. apply IH; [by eapply readers_moved|done|].
      apply list_lookup_insert_eq. by eapply lookup_lt_Some.
Qed.

Lemma own_path_trans t w t1 w1 t2 w2 : own_path t w t1 w1 -> own_path t1 w1 t2 w2 -> own_path t w t2 w2.
Proof. induction 1; eauto using path_step. Qed.

Lemma own_path_app_wf t w t' w' : own_path t w t' w' -> app_wf (app w) -> app_wf (app w').
Proof. induction 1; eauto using dispatch_step_app_wf. Qed.

(** What a dispatch reads while every RPC it makes fails with [r]. *)
Definition failing_env (r : result Status ExecuteTaskResponse) (t : Instant) : Env :=
  {| now := t; clk := fun _ => 0; ord := std_order; seed := 0; rpc := r |}.

(** What selection depends on, beside breakers and the cursor, and the results. *)
Definition same_nodes (st st' : AppState) : Prop :=
  nodes st' = nodes st /\ scheduling_strategy st' = scheduling_strategy st /\ tasks st' = tasks st.

(** A dispatch that finds no node comes to hold the read guard. *)
Lemma select_none_path (r : result Status ExecuteTaskResponse) t w st' :
  at_pc t = PSelect -> no_node_count t = 0 ->
  select_node_for_task std_order (fun _ => 0) 0 (tried_nodes t) (app w) = (None, st') ->
  exists t' w', own_path t w t' w' /\ holds_read_guard t' = true /\ args t' = args t /\ no_node_count t' = 1 /\
    same_nodes (app w) (app w').
Proof.
  intros Hpc Hnn Es. pose proof (select_node_for_task_frame std_order (fun _ => 0) 0 (tried_nodes t) (app w)) as Hfr.
  rewrite Es in Hfr. simpl in Hfr. do 2 eexists. split.
  { eapply (path_step (failing_env r 0)); [unfold dispatch_step; rewrite Hpc; cbn -[select_node_for_task u32_add Z.ltb];
      rewrite Es, Hnn; reflexivity| |by unfold holds_read_guard; rewrite Hpc].
    eapply (path_step (failing_env r 0)); [reflexivity| |done].
    eapply (path_step (failing_env r (from_secs 1))); [reflexivity| |done].
    eapply (path_step (failing_env r 0)); [reflexivity|apply path_refl|done]. }
  split_and!; [done|done|done|]. unfold same_nodes. simpl. tauto.
Qed.

(** The first steps of a dispatch. *)
Definition entered (w : CPWorld) : CPWorld :=
  with_app (fun st => set_total_submitted (u64_add (total_submitted st) 1) st)
    (emit (CounterInc TASKS_SUBMITTED_TOTAL) w).

Lemma start_path (r : result Status ExecuteTaskResponse) a w :
  own_path (init_task a) w (goto PSelect (init_task a)) (entered w).
Proof.
  apply (path_step (failing_env r 0) _ _ (goto PSubmit (init_task a)) (emit (CounterInc TASKS_SUBMITTED_TOTAL) w)); [done| |done].
  by apply (path_step (failing_env r 0) _ _ (goto PSelect (init_task a)) (entered w)); [|apply path_refl|].
Qed.

(** A new dispatch that finds nobody to run on walks into the queueing branch
    and comes to hold the read guard. *)
Lemma queue_path a w :
  0 <= scheduler_index (app w) -> (forall k n, nodes (app w) !! k = Some n -> eligible (app w) n -> False) ->
  exists t' w', own_path (init_task a) w t' w' /\ holds_read_guard t' = true /\
    tasks (app w') = tasks (app w) /\ no_node_count t' = 1 /\ args t' = a.
Proof.
  intros Hidx Hno. set (r := Err {| code := Unavailable; message := EmptyString |} : result Status ExecuteTaskResponse).
  pose proof (select_node_for_task_policy std_order (fun _ => 0) 0 ∅ (app (entered w)) (Z.le_refl 0) Hidx) as Hsel.
  destruct (select_node_for_task std_order (fun _ => 0) 0 ∅ (app (entered w))) as [[n|] st'] eqn:Es; simpl in Hsel.
  { exfalso. destruct Hsel as ((k & Hk) & Hel & _). by apply (Hno k n Hk). }
  destruct (select_none_path r (goto PSelect (init_task a)) (entered w) st') as (t' & w' & Hp & Hg & Ha & Hn & _ & _ & Ht); [done..|].
  exists t', w'. split_and!; [|done..]. eapply own_path_trans; [apply (start_path r)|done].
Qed.

(** Steps of one dispatch, all others standing still, while every RPC it makes is
    answered with [r]. *)
Inductive failing_run (r : result Status ExecuteTaskResponse)
    : DispatchTask -> CPWorld -> DispatchTask -> CPWorld -> Prop :=
| failing_refl t w : failing_run r t w t w
| failing_step e t w t1 w1 t2 w2 :
    rpc e = r -> dispatch_step e t w = Some (t1, w1) -> failing_run r t1 w1 t2 w2 -> holds_read_guard t = false ->
    failing_run r t w t2 w2.

Lemma failing_run_own r t w t' w' : failing_run r t w t' w' -> own_path t w t' w'.
Proof. induction 1; eauto using path_refl, path_step. Qed.

(** What holds of a dispatch on its way there, [l] being the ids of the nodes that
    may be handed out. *)
Record failing_wf (l : list string) (st : AppState) (t : DispatchTask) (w : CPWorld) : Prop := {
  fw_task : task_wf t;
  fw_app : app_wf (app w);
  fw_same : same_nodes st (app w);
  fw_tried : forall x, x ∈ tried_nodes t -> x ∈ l;
  fw_chosen : forall n, chosen t = Some n -> id n ∈ l;
  fw_pc : match at_pc t with
          | PQueueInc | PQueueSleep _ | PQueueRead | PQueueWrite _ => no_node_count t = 1
          | PStart | PSubmit | PSelect | PChosen _ | PPoolArc _ | PPoolGet _ | PSend _ _ _ | PRecordFailure _ | PBackoff _ =>
              no_node_count t = 0
          | _ => False
          end
}.

(** A failed attempt on a node that was chosen. *)
Lemma marked_failing_wf l st e n r' err' t w :
  attempt_error r' = Some err' -> failing_wf l st t w -> chosen t = Some n -> failing_wf l st (on_result e n r' t) w.
Proof.
  intros Hr' [Ht Ha Hs Htr Hch Hpc] Hn. pose proof (on_result_wf e n r' t Ht Hn) as Ht'.
  assert (on_result e n r' t = mark_failed n err' t) as Heq.
  { unfold on_result, attempt_error in *. by repeat case_match; simplify_eq/=. }
  rewrite Heq in *. split; [done|done|done| |done|].
  - simpl. intros x [->%elem_of_singleton|Hx]%elem_of_union; [by apply Hch|by apply Htr].
  - simpl. unfold chosen in Hn. by destruct (at_pc t).
Qed.

Section failing.
Context (r : result Status ExecuteTaskResponse) (err : string) (Hr : attempt_error r = Some err).
Context (l : list string) (Hl : (length l <= 2)%nat) (st : AppState).
Context (Hel : forall k n, nodes st !! k = Some n -> eligible st n -> id n ∈ l).

Lemma tried_bound (X : gset string) : (forall x, x ∈ X -> x ∈ l) -> (size X <= 2)%nat.
Proof.
  intros HX. etrans; [|exact Hl]. change (size X) with (length (elements X)). apply submseteq_length, NoDup_submseteq.
  - apply NoDup_elements.
  - intros x Hx. apply HX. by apply elem_of_elements.
Qed.

Lemma failing_step_wf e t w t' w' :
  rpc e = r -> dispatch_step e t w = Some (t', w') -> holds_read_guard t = false ->
  failing_wf l st t w -> failing_wf l st t' w'.
Proof.
  intros He Hstep Hg Hwf. pose proof (dispatch_step_wf _ _ _ _ _ Hstep (fw_task _ _ _ _ Hwf)) as Ht'.
  pose proof (dispatch_step_app_wf _ _ _ _ _ Hstep (fw_app _ _ _ _ Hwf)) as Ha'.
  pose proof Hwf as [Ht Ha Hs Htr Hch Hpc]. unfold chosen in Hch. unfold dispatch_step in Hstep. unfold holds_read_guard in Hg.
  destruct (at_pc t) eqn:Epc; try done; simplify_eq/=.
  - by split.
  - by split.
  - pose proof (select_node_for_task_frame (ord e) (clk e) (Z.of_N (seed e)) (tried_nodes t) (app w)) as Hfr.
    pose proof (select_node_for_task_policy (ord e) (clk e) (Z.of_N (seed e)) (tried_nodes t) (app w) (N2Z.is_nonneg _)
      (proj1 (wf_index _ Ha))) as Hsel.
    destruct Hs as (Hs1 & Hs2 & Hs3).
    destruct (select_node_for_task _ _ _ _ _) as [[n|] st']; simpl in Hfr, Hsel; rewrite ?Hpc in Hstep; simplify_eq/=.
    + destruct Hsel as ((k & Hk) & Helig & _). rewrite Hs1 in Hk. unfold eligible in Helig. rewrite Hs2 in Helig.
      split; try done; [unfold same_nodes; simpl; intuition congruence|]. intros n' [= <-]. by eapply Hel.
    + split; try done. unfold same_nodes. simpl. intuition congruence.
  - by split.
  - case_match; simplify_eq. by split.
  - by split.
  - case_match; simplify_eq/=; by split.
  - by split.
  - destruct (get_or_create _ _ _) as [[ch|status] p'] eqn:Eg; simplify_eq/=; [by split|].
    assert (exists err', attempt_error (Err status) = Some err') as [err' Herr'].
    { unfold get_or_create in Eg. repeat case_match; simplify_eq/=. by eexists. }
    apply (marked_failing_wf _ _ _ _ _ err'); [done|by destruct Hwf; split|unfold chosen; by rewrite Epc].
  - apply (marked_failing_wf _ _ _ _ _ err); [done|done|unfold chosen; by rewrite Epc].
  - pose proof (twf_tried _ Ht) as Hsz. unfold pending_failure in Hsz. rewrite Epc in Hsz.
    pose proof (tried_bound _ Htr). pose proof (twf_error_retries _ Ht).
    rewrite u32_add_id in Hstep by (unfold u32_mod; lia). rewrite (proj2 (Z.leb_gt _ _)) in Hstep by lia.
    simplify_eq/=. by split.
  - case_match; simplify_eq. by split.
Qed.

Lemma failing_run_wf t w t' w' : failing_run r t w t' w' -> failing_wf l st t w -> failing_wf l st t' w'.
Proof. induction 1; eauto using failing_step_wf. Qed.

(** It can always go on, and cannot but end up inside the queueing statement. *)
Lemma failing_run_queues t w :
  failing_wf l st t w -> exists t' w', failing_run r t w t' w' /\ holds_read_guard t' = true.
Proof.
  remember (Z.to_nat (fuel t)) as m eqn:Hm. revert t w Hm. induction m as [m IH] using lt_wf_ind. intros t w -> Hwf.
  destruct (holds_read_guard t) eqn:Hg; [exists t, w; split; [apply failing_refl|done]|].
  assert (finished t = false) as Hf by (destruct Hwf as [_ _ _ _ _ Hpc]; unfold finished; by destruct (at_pc t)).
  destruct (dispatch_can_step t w Hf) as [later Hl']. destruct (Hl' (failing_env r later) eq_refl) as [[t1 w1] Hs].
  pose proof (failing_step_wf (failing_env r later) _ _ _ _ eq_refl Hs Hg Hwf) as Hwf1.
  pose proof (dispatch_step_fuel _ _ _ _ _ Hs (fw_task _ _ _ _ Hwf)) as Hlt.
  destruct (IH (Z.to_nat (fuel t1))) with (t := t1) (w := w1) as (t' & w' & Hrun & Hg'); [|done..|].
  { pose proof (fuel_nonneg _ (fw_task _ _ _ _ Hwf1)). lia. }
  exists t', w'. split; [by apply (failing_step r (failing_env r later) t w t1 w1)|done].
Qed.

End failing.

Lemma failing_start_wf l a w : app_wf (app w) -> failing_wf l (app w) (init_task a) w.
Proof. intros Ha. by split; [apply init_task_wf|..]. Qed.

(** A submission followed by steps of its own dispatch only. *)
Lemma submit_then_path s uuid trace body a t' w' :
  readers s = 0%nat -> submit_task (app (world s)) uuid trace body = Ok a ->
  own_path (init_task a) (world s) t' w' ->
  exists s', rtc sys_step s s' /\ world s' = w' /\ dispatches s' !! length (dispatches s) = Some t' /\
    length (dispatches s') = S (length (dispatches s)).
Proof.
  intros Hr Hsub Hp.
  set (s1 := {| world := world s; dispatches := dispatches s ++ [init_task a]; hpc := hpc s |}).
  assert (dispatches s1 !! length (dispatches s) = Some (init_task a)) as Hi by (by apply list_lookup_middle).
  assert (readers s1 = 0%nat) as Hr1.
  { unfold readers in *. simpl. rewrite sum_list_with_app, Hr. done. }
  pose proof (own_path_rtc _ _ _ _ s1 _ Hp Hr1 eq_refl Hi) as Hrtc.
  eexists. split_and!.
  - eapply rtc_l; [|exact Hrtc]. eapply sys_submit; [|done].
    unfold lock_granted. rewrite Hr. destruct (submit_lock body); [done|apply free_read|apply free_write].
  - done.
  - simpl. apply list_lookup_insert_eq. by eapply lookup_lt_Some.
  - simpl. rewrite length_insert, length_app. simpl. lia.
Qed.

Lemma list_eq_one {A} (l : list A) x : l !! 0%nat = Some x -> length l = 1%nat -> l = [x].
Proof. destruct l as [|y [|z l]]; naive_solver. Qed.

End deadlock.

(** A reachable control plane without nodes whose first task waits in the queue. *)
Lemma queued_reachable :
  exists s t, @reachable toy_base64 toy_sha2 toy_tonic simple_rwlock s /\
    dispatches s !! 0%nat = Some t /\ no_node_count t = 1.
Proof.
  set (s0 := @init_sys toy_tonic "u" "round_robin").
  destruct (@submit_task toy_base64 (app (world s0)) "t" "tr" demo_inline) as [a|] eqn:Ha;
    [|by vm_compute in Ha].
  destruct (@queue_path toy_tonic a (world s0)) as (t' & w' & Hp & _ & _ & Hn & _); [done|done|].
  destruct (@submit_then_path toy_base64 toy_sha2 toy_tonic simple_rwlock s0 "t" "tr" demo_inline a t' w')
    as (s' & Hrtc & _ & Hi & _); [done|done|done|].
  exists s', t'. split_and!; [by exists "u", "round_robin"|done|done].
Qed.

(** A control plane with one node, and its first task anywhere on its way. *)
Definition demo_joined : @Sys toy_tonic :=
  {| world := with_app (register_node demo_register) (world (@init_sys toy_tonic "u" "round_robin"));
     dispatches := []; hpc := HTick |}.

Lemma demo_path_reachable a t' w' :
  @submit_task toy_base64 (app (world demo_joined)) "t" "tr" demo_inline = Ok a ->
  own_path (init_task a) (world demo_joined) t' w' ->
  exists s, rtc (@sys_step toy_base64 toy_sha2 toy_tonic simple_rwlock) (init_sys "u" "round_robin") s /\
    dispatches s = [t'] /\ world s = w'.
Proof.
  intros Ha Hp.
  destruct (@submit_then_path toy_base64 toy_sha2 toy_tonic simple_rwlock demo_joined "t" "tr" demo_inline a t' w')
    as (s' & Hrtc & Hw & Hi & Hlen); [done|done|done|].
  exists s'. split_and!; [|by apply list_eq_one|done]. eapply rtc_l; [|exact Hrtc].
  exact (@sys_register toy_base64 toy_sha2 toy_tonic simple_rwlock (init_sys "u" "round_robin") demo_register eq_refl).
Qed.

(** A reachable control plane with one node whose only task has been served. *)
Lemma served_reachable :
  exists s t, @reachable toy_base64 toy_sha2 toy_tonic simple_rwlock s /\
    dispatches s !! 0%nat = Some t /\ finished t = true /\
    Forall (fun t => finished t = true) (dispatches s).
Proof.
  destruct (@submit_task toy_base64 (app (world demo_joined)) "t" "tr" demo_inline) as [a|] eqn:Ha;
    [|by vm_compute in Ha].
  assert (exists t' w', own_path (init_task a) (world demo_joined) t' w' /\ finished t' = true) as (t' & w' & Hp & Hf).
  { vm_compute in Ha. simplify_eq. do 2 eexists. split.
    - do 9 (eapply (path_step (demo_env (Ok demo_resp))); [vm_compute; reflexivity| |reflexivity]). apply path_refl.
    - reflexivity. }
  destruct (demo_path_reachable a t' w' Ha Hp) as (s & Hrtc & Hd & _).
  exists s, t'. rewrite Hd. split_and!; [by exists "u", "round_robin"|done|done|by constructor].
Qed.

(** ** Properties *)

(** Deadlock. Once any dispatch has come back from its one-second wait for
    a node and asks for the write guard, with the read guard of the same
    statement still alive, the control plane is stuck while clients wait for
    their answers: in every state reached from there the application state is the same (no result is ever
    stored, no node registered, no health update applied, no module uploaded),
    no further task finishes, and that dispatch is still waiting. *)
Theorem queue_wakeup_deadlocks `{!Base64} `{!Sha2} `{!Tonic} `{!TokioRwLock} s s' i t :
  dispatches s !! i = Some t -> holds_read_guard t = true -> rtc sys_step s s' ->
  app (world s') = app (world s) /\ dispatches s' !! i = Some t /\
  finished_count s' = finished_count s.
Proof.
  intros Hi Hg Hrtc. pose proof (readers_pos s i t Hi Hg) as Hr.
  destruct (blocked_forever _ _ Hrtc Hr) as (Ha & _ & Hc & Hd).
  split_and!; [done|by apply Hd|done].
Qed.

Lemma queue_wakeup_deadlocks_witness :
  app (world stuck_sys) = app (world stuck_sys) /\
  dispatches stuck_sys !! 0%nat = Some (goto (PQueueWrite 0) (init_task demo_args)) /\
  finished_count stuck_sys = finished_count stuck_sys.
Proof.
  exact (@queue_wakeup_deadlocks toy_base64 toy_sha2 toy_tonic simple_rwlock stuck_sys stuck_sys 0%nat
    (goto (PQueueWrite 0) (init_task demo_args)) eq_refl eq_refl (rtc_refl _ _)).
Defined.

(** A dispatch that finds no schedulable node even once is never answered:
    in every reachable state it sits in the queueing branch, so the three
    announced queueing retries do not happen and the message that no nodes are
    available is never stored. *)
Theorem queued_task_never_answered `{!Base64} `{!Sha2} `{!Tonic} `{!TokioRwLock} s i t :
  reachable s -> dispatches s !! i = Some t -> no_node_count t <> 0 ->
  no_node_count t = 1 /\ waits_in_queue t /\ finished t = false /\ at_pc t <> PStoreNoNode.
Proof.
  intros Hre Hi Hnn. apply reachable_inv in Hre as [_ _ _ _ _ _ _ Hq].
  destruct (Forall_lookup_1 _ _ _ _ Hq Hi Hnn) as [Hc1 Hc2].
  unfold waits_in_queue, finished in *. destruct (at_pc t); done.
Qed.

Lemma queued_task_never_answered_witness :
  exists s t, @reachable toy_base64 toy_sha2 toy_tonic simple_rwlock s /\
    dispatches s !! 0%nat = Some t /\ no_node_count t = 1 /\ finished t = false.
Proof.
  destruct queued_reachable as (s & t & Hre & Hi & Hn). exists s, t. split_and!; [done|done|done|].
  assert (no_node_count t <> 0) as Hn0 by lia.
  exact (proj1 (proj2 (proj2 (@queued_task_never_answered toy_base64 toy_sha2 toy_tonic simple_rwlock
    s 0%nat t Hre Hi Hn0)))).
Defined.

(** The deadlock is reached by ordinary use: in any reachable state in which
    nobody waits in the queueing branch and no registered node is eligible (none
    registered yet, all unhealthy, or all full under least-loaded), one accepted
    submission can bring the service to a state from which nothing changes any
    more while clients wait; the submitted task, unless its id had an answer
    before, does not get one. *)
Theorem deadlock_reachable `{!Base64} `{!Sha2} `{!Tonic} `{!TokioRwLock} s uuid trace body a :
  reachable s -> readers s = 0%nat ->
  (forall k n, nodes (app (world s)) !! k = Some n -> eligible (app (world s)) n -> False) ->
  submit_task (app (world s)) uuid trace body = Ok a ->
  exists s', rtc sys_step s s' /\ forall s'', rtc sys_step s' s'' ->
    app (world s'') = app (world s') /\ finished_count s'' = finished_count s' /\
    tasks (app (world s'')) !! task_id a = tasks (app (world s)) !! task_id a.
Proof.
  intros Hre Hr Hno Hsub. apply reachable_inv in Hre as [Happ _ _ _ _ _ _ _].
  destruct (queue_path a (world s)) as (t' & w' & Hp & Hg & Ht & _); [apply (wf_index _ Happ)|done|].
  destruct (submit_then_path s uuid trace body a t' w') as (s' & Hrtc & Hw & Hi & _); [done..|].
  exists s'. split; [done|]. intros s'' Hs''. apply blocked_forever in Hs'' as (Ha & _ & Hf & _).
  - split_and!; [done|done|]. by rewrite Ha, Hw, Ht.
  - by eapply readers_pos.
Qed.

Lemma deadlock_reachable_witness :
  exists a s', @submit_task toy_base64 (app (world (@init_sys toy_tonic "u" "round_robin"))) "t" "tr" demo_inline = Ok a /\
    forall s'', rtc (@sys_step toy_base64 toy_sha2 toy_tonic simple_rwlock) s' s'' ->
      tasks (app (world s'')) !! task_id a = None.
Proof.
  destruct (@deadlock_reachable toy_base64 toy_sha2 toy_tonic simple_rwlock (init_sys "u" "round_robin")
    "t" "tr" demo_inline _ ltac:(exists "u", "round_robin"; apply rtc_refl) eq_refl
    ltac:(intros k n Hk; discriminate Hk) eq_refl) as (s' & _ & Hs').
  eexists _, s'. split; [reflexivity|]. intros s'' Hrtc.
  destruct (Hs' s'' Hrtc) as (_ & _ & Ht). rewrite Ht. reflexivity.
Defined.

(** Task accounting. In every reachable state the counters of [/metrics]
    agree with what has happened: modulo 2^64, [total_submitted] less
    [total_success] less [total_failed] is the number of dispatches that are
    under way, each finished dispatch having been counted exactly once. *)
Theorem task_accounting `{!Base64} `{!Sha2} `{!Tonic} `{!TokioRwLock} s :
  reachable s ->
  let st := app (world s) in
  (total_submitted st - total_success st - total_failed st) mod u64_mod =
    Z.of_nat (sum_list_with in_flight (dispatches s)) mod u64_mod /\
  (total_success st + total_failed st) mod u64_mod = Z.of_nat (finished_count s) mod u64_mod.
Proof.
  intros Hre. apply reachable_inv in Hre as [_ _ Hsub Hcl _ _ _ _]. split; [|done].
  replace (total_submitted (app (world s)) - total_success (app (world s)) - total_failed (app (world s)))
    with (total_submitted (app (world s)) - (total_success (app (world s)) + total_failed (app (world s)))) by lia.
  rewrite Zminus_mod, Hsub, Hcl, <- Zminus_mod, accepted_split. f_equal. lia.
Qed.

Lemma task_accounting_witness :
  exists s, @reachable toy_base64 toy_sha2 toy_tonic simple_rwlock s /\ dispatches s <> [] /\
    (total_success (app (world s)) + total_failed (app (world s))) mod u64_mod =
      Z.of_nat (finished_count s) mod u64_mod.
Proof.
  destruct served_reachable as (s & t & Hre & Hi & _). exists s. split_and!; [exact Hre| |].
  - intros Hnil. rewrite Hnil in Hi. discriminate Hi.
  - exact (proj2 (@task_accounting toy_base64 toy_sha2 toy_tonic simple_rwlock s Hre)).
Defined.

(** When no dispatch is under way, the Prometheus counters of the process
    agree with the counters the state reports (modulo 2^64): tasks submitted,
    and successes plus failures; and every task that was submitted has ended. *)
Theorem prometheus_agrees_at_rest `{!Base64} `{!Sha2} `{!Tonic} `{!TokioRwLock} s :
  reachable s -> Forall (fun t => finished t = true) (dispatches s) ->
  let st := app (world s) in let c m := Z.of_nat (counter_value m (mlog (world s))) in
  total_submitted st mod u64_mod = c TASKS_SUBMITTED_TOTAL mod u64_mod /\
  (total_success st + total_failed st) mod u64_mod =
    (c TASKS_SUCCESS_TOTAL + c TASKS_FAILED_TOTAL) mod u64_mod /\
  c TASKS_SUBMITTED_TOTAL = c TASKS_SUCCESS_TOTAL + c TASKS_FAILED_TOTAL.
Proof.
  intros Hre Hall. apply reachable_inv in Hre as [_ _ Hsub Hcl _ Hsm Hom _]. simpl.
  assert (forall f, (forall t, at_pc t = PDone -> f t = 1%nat) ->
    sum_list_with f (dispatches s) = length (dispatches s)) as Hf.
  { intros f Hf. clear Hsub Hcl Hsm Hom. induction Hall as [|t l Ht _ IH]; [done|]. cbn [sum_list_with length].
    rewrite IH. rewrite Hf; [done|]. unfold finished in Ht. by destruct (at_pc t). }
  rewrite Hsub, Hcl, <- Nat2Z.inj_add, Hom, Hsm.
  rewrite !Hf; try done; intros t Ht; unfold accepted, done_count, submit_marks, outcome_marks, finished; by rewrite Ht.
Qed.

Lemma prometheus_agrees_at_rest_witness :
  exists s, @reachable toy_base64 toy_sha2 toy_tonic simple_rwlock s /\ dispatches s <> [] /\
    total_submitted (app (world s)) mod u64_mod =
      Z.of_nat (counter_value TASKS_SUBMITTED_TOTAL (mlog (world s))) mod u64_mod.
Proof.
  destruct served_reachable as (s & t & Hre & Hi & _ & Hall). exists s. split_and!; [exact Hre| |].
  - intros Hnil. rewrite Hnil in Hi. discriminate Hi.
  - exact (proj1 (@prometheus_agrees_at_rest toy_base64 toy_sha2 toy_tonic simple_rwlock s Hre Hall)).
Defined.

(** Whatever the interleaving, a dispatch that has ended has its answer in
    the task table: [get_task] reports a result filed under the id of the task,
    with an error message exactly when it failed, and never [pending]. *)
Theorem finished_task_has_result `{!Base64} `{!Sha2} `{!Tonic} `{!TokioRwLock} s i t :
  reachable s -> dispatches s !! i = Some t -> finished t = true ->
  exists r, get_task (app (world s)) (task_id (args t)) = api_ok (inl r) /\
    tr_task_id r = task_id (args t) /\ (tr_success r = true <-> tr_error r = None).
Proof.
  intros Hre Hi Hf. apply reachable_inv in Hre as [Happ _ _ _ Hst _ _ _].
  destruct (Forall_lookup_1 _ _ _ _ Hst Hi Hf) as [r Hr]. exists r.
  unfold get_task. rewrite Hr. split; [done|]. by apply (wf_tasks _ Happ).
Qed.

Lemma finished_task_has_result_witness :
  exists s t r, @reachable toy_base64 toy_sha2 toy_tonic simple_rwlock s /\ dispatches s !! 0%nat = Some t /\
    get_task (app (world s)) (task_id (args t)) = api_ok (inl r).
Proof.
  destruct served_reachable as (s & t & Hre & Hi & Hf & _).
  destruct (@finished_task_has_result toy_base64 toy_sha2 toy_tonic simple_rwlock s 0%nat t Hre Hi Hf) as (r & Hr & _).
  exists s, t, r. split_and!; [exact Hre|exact Hi|exact Hr].
Defined.
