(* ===== verification/Disconnect.v ===== *)
(** * Clients that go away

    [submit_task] of [services/control-plane/src/api/handlers.rs] awaits its
    [dispatch_task] inside the handler, so when the client closes its connection
    and the server drops the handler's future, the dispatch goes with it, at
    whatever suspension point it is; [submit_tasks_batch] spawns its dispatches,
    which go on without their client. [dis_step] adds this to the system of
    [ControlPlane]: every dispatch has an owner, and one that is [Awaited] may be
    dropped. Dropping a future releases the guards it holds and takes it out of
    the queue of the lock; it undoes nothing else.

    The theorems say what then holds of the counters and the results, and when
    the deadlock of the queueing statement is for good. *)

From S2P Require Import Prelude RustStd Common CircuitBreaker Scheduler Registry AppState Dispatch Health Handlers ControlPlane.

(** Who keeps a dispatch going: the handler of POST /tasks awaits it, the handler
    of POST /tasks/batch spawns it. *)
Inductive Owner := Awaited | Spawned.

#[export] Instance Owner_eq_dec : EqDecision Owner.
Proof. solve_decision. Defined.

Section disconnect.
Context `{!Base64} `{!Sha2} `{!Tonic} `{!TokioRwLock}.

(** [owners] runs parallel to the dispatches of [core]; [gone] are the dropped ones. *)
Record DSys := { core : Sys; owners : list Owner; gone : list DispatchTask }.

(** The client of the [i]-th dispatch has gone away. *)
Definition drop_dispatch (i : nat) (t : DispatchTask) (d : DSys) : DSys :=
  {| core := {| world := world (core d); dispatches := delete i (dispatches (core d)); hpc := hpc (core d) |};
     owners := delete i (owners d); gone := t :: gone d |}.

(** A step that starts no dispatch, one that starts one, or a client going away. *)
Inductive dis_step : DSys -> DSys -> Prop :=
| dis_run d s' :
    sys_step (core d) s' -> length (dispatches s') = length (dispatches (core d)) ->
    dis_step d {| core := s'; owners := owners d; gone := gone d |}
| dis_submit d s' t o :
    sys_step (core d) s' -> dispatches s' = dispatches (core d) ++ [t] ->
    dis_step d {| core := s'; owners := owners d ++ [o]; gone := gone d |}
| dis_drop d i t :
    dispatches (core d) !! i = Some t -> owners d !! i = Some Awaited -> finished t = false ->
    dis_step d (drop_dispatch i t d).

Definition dis_init (url strategy : string) : DSys :=
  {| core := init_sys url strategy; owners := []; gone := [] |}.

Definition dis_reachable (d : DSys) : Prop := exists url strategy, rtc dis_step (dis_init url strategy) d.

(** All dispatches there ever were. *)
Definition all_tasks (d : DSys) : list DispatchTask := gone d ++ dispatches (core d).
Definition ids (d : DSys) : list string := task_id ∘ args <$> all_tasks d.

(** A spawned dispatch holds its own read guard while it waits for the write guard. *)
Definition stuck_for_good (d : DSys) : Prop :=
  exists i t, dispatches (core d) !! i = Some t /\ owners d !! i = Some Spawned /\ holds_read_guard t = true.

Record dis_inv (d : DSys) : Prop := {
  dinv_sys : sys_inv (beside (gone d) (core d));
  dinv_owners : length (owners d) = length (dispatches (core d));
  dinv_gone : Forall (fun t => finished t = false) (gone d);
  (** results are those of dispatches that ended *)
  dinv_results : forall k, is_Some (tasks (app (world (core d))) !! k) ->
    exists t, t ∈ dispatches (core d) /\ finished t = true /\ task_id (args t) = k
}.

(** ** Lemmas *)

(** A dispatch writes the task table once, under its own id, when it ends. *)
Lemma dispatch_step_tasks e t w t' w' :
  dispatch_step e t w = Some (t', w') ->
  finished t = false /\
  (tasks (app w') = tasks (app w) \/
   (finished t' = true /\ exists r, tasks (app w') = <[task_id (args t) := r]> (tasks (app w)))).
Proof.
  intros Hstep. unfold dispatch_step in Hstep. unfold finished. destruct (at_pc t); simplify_eq/=.
  all: try (split; [done|]; first [by left | by right; split; [done|]; eexists]).
  - pose proof (select_node_for_task_frame (ord e) (clk e) (Z.of_N (seed e)) (tried_nodes t) (app w)) as Hf.
    destruct (select_node_for_task _ _ _ _ _) as [[n|] st']; simpl in Hf, Hstep; destruct_and?;
      repeat case_match; simplify_eq/=; (split; [done|by left]).
  - case_match; simplify_eq/=. split; [done|by left].
  - case_match; simplify_eq/=; (split; [done|by left]).
  - destruct (get_or_create _ _ _) as [[?|?] ?]; simplify_eq/=; (split; [done|by left]).
  - case_match; simplify_eq/=; (split; [done|by left]).
  - case_match; simplify_eq/=; (split; [done|by left]).
  - case_match; simplify_eq/=; (split; [done|by left]).
Qed.

(** Either the dispatches are those before, or one of them moved, or one is new. *)
Lemma sys_step_shape s s' :
  sys_step s s' ->
  (tasks (app (world s')) = tasks (app (world s)) /\
     (dispatches s' = dispatches s \/ exists a, dispatches s' = dispatches s ++ [init_task a])) \/
  (exists i t e t' w', dispatches s !! i = Some t /\ dispatch_step e t (world s) = Some (t', w') /\
     world s' = w' /\ dispatches s' = <[i := t']> (dispatches s)).
Proof.
  intros [s0 i t e t' w' Hi Hl Hd|s0 o r h' w' Hl Hh|s0 uuid trace body a Hl Ha|s0 body Hl|s0 o uuid utc body seen Hl]; simpl.
  - right. by exists i, t, e, t', w'.
  - left. split; [|by left]. destruct (hpc s0) as [|[|[i a] todo] c|i r' todo c]; simplify_eq/=; try done.
    by destruct r'; simplify_eq/=.
  - left. split; [done|]. right. by exists a.
  - left. split; [done|by left].
  - left. split; [|by left]. unfold upload_module. by repeat case_match.
Qed.

Lemma sys_step_length s s' :
  sys_step s s' -> length (dispatches s') = length (dispatches s) \/ exists t, dispatches s' = dispatches s ++ [t].
Proof.
  intros [[_ [->|[a ->]]]|(i & t & e & t' & w' & _ & _ & _ & ->)]%sys_step_shape; [by left|by right; eauto|].
  left. by rewrite length_insert.
Qed.

(** Results after a step, and the dispatches they belong to. *)
Lemma sys_step_results s s' :
  sys_step s s' ->
  (forall k, is_Some (tasks (app (world s)) !! k) ->
     exists t, t ∈ dispatches s /\ finished t = true /\ task_id (args t) = k) ->
  (forall k, is_Some (tasks (app (world s')) !! k) ->
     exists t, t ∈ dispatches s' /\ finished t = true /\ task_id (args t) = k).
Proof.
  intros [[Ht Hd]|(i & t & e & t' & w' & Hi & Hstep & <- & Hd)]%sys_step_shape Hinv k.
  - rewrite Ht. intros (t & Hin & ?)%Hinv. exists t. split; [|done].
    destruct Hd as [->|[a ->]]; [done|]. by apply elem_of_app; left.
  - destruct (dispatch_step_tasks _ _ _ _ _ Hstep) as [Hf Hcase]. pose proof (dispatch_step_args _ _ _ _ _ Hstep) as Ha.
    assert (length (dispatches s) > i)%nat as Hlt by by eapply lookup_lt_Some.
    assert (forall u, u ∈ dispatches s -> finished u = true -> u ∈ dispatches s') as Hkeep.
    { intros u [j Hj]%list_elem_of_lookup Hu. rewrite Hd. apply list_elem_of_lookup. exists j.
      rewrite list_lookup_insert_ne; [done|]. intros <-. congruence. }
    destruct Hcase as [->|(Hf' & r & ->)]; [intros (u & ? & ? & ?)%Hinv; eauto|].
    rewrite lookup_insert. case_decide as Hk; [|intros (u & ? & ? & ?)%Hinv; eauto].
    intros _. exists t'. split_and!; [|done|congruence].
    rewrite Hd. apply list_elem_of_lookup. exists i. by apply list_lookup_insert_eq.
Qed.

Lemma dis_init_inv url strategy : dis_inv (dis_init url strategy).
Proof.
  split; [apply init_sys_inv|done|constructor|]. simpl. intros k. rewrite lookup_empty. by intros [? ?].
Qed.

Lemma dis_step_inv d d' : dis_step d d' -> dis_inv d -> dis_inv d'.
Proof.
  intros [d0 s' Hs Hlen|d0 s' t o Hs Hd|d0 i t Hi Ho Hf] [Hinv Hown Hgone Hres].
  - split; simpl; [by eapply sys_step_inv_beside|congruence|done|by eapply sys_step_results].
  - split; simpl; [by eapply sys_step_inv_beside| |done|by eapply sys_step_results].
    rewrite Hd, !length_app. simpl. lia.
  - split; simpl.
    + apply (sys_inv_perm (beside (gone d0) (core d0))); [done|done|]. simpl.
      etrans; [apply Permutation_middle|]. by rewrite <- (delete_Permutation _ _ _ Hi).
    + rewrite !length_delete; [lia|by eexists..].
    + by constructor.
    + intros k (u & Hu & Hfu & Hid)%Hres. exists u. split_and!; [|done|done].
      rewrite (delete_Permutation _ _ _ Hi) in Hu. apply elem_of_cons in Hu as [->|Hu]; [congruence|done].
Qed.

Lemma dis_reachable_inv d : dis_reachable d -> dis_inv d.
Proof.
  intros (url & strategy & Hrtc). pose proof (dis_init_inv url strategy) as Hinit.
  induction Hrtc; eauto using dis_step_inv.
Qed.

Lemma dis_steps_inv d d' : rtc dis_step d d' -> dis_inv d -> dis_inv d'.
Proof. induction 1; eauto using dis_step_inv. Qed.

(** *** Task ids *)

(** Dispatches keep their arguments, so ids are only added. *)
Lemma dis_step_ids d d' : dis_step d d' -> exists l, ids d' ≡ₚ ids d ++ l.
Proof.
  unfold ids, all_tasks. intros [d0 s' Hs Hlen|d0 s' t o Hs Hd|d0 i t Hi Ho Hf]; simpl; rewrite !fmap_app.
  - exists []. rewrite app_nil_r. apply sys_step_shape in Hs as [[_ [->|[a Ha]]]|(i & t & e & t' & w' & Hi & Hstep & _ & ->)].
    + done.
    + rewrite Ha, length_app in Hlen. simpl in Hlen. lia.
    + rewrite list_fmap_insert, list_insert_id; [done|]. rewrite list_lookup_fmap, Hi. simpl.
      by rewrite (dispatch_step_args _ _ _ _ _ Hstep).
  - exists [task_id (args t)]. by rewrite Hd, fmap_app, <- app_assoc.
  - exists []. rewrite app_nil_r. rewrite (delete_Permutation _ _ _ Hi) at 2. simpl. by rewrite Permutation_middle.
Qed.

Lemma dis_step_ids_NoDup d d' : dis_step d d' -> NoDup (ids d') -> NoDup (ids d).
Proof. intros [l ->]%dis_step_ids. by intros [? _]%NoDup_app. Qed.

(** An ended dispatch and one with its id under way are the same. *)
Lemma same_id_same_end d i t u :
  NoDup (ids d) -> dispatches (core d) !! i = Some t -> u ∈ dispatches (core d) ->
  task_id (args u) = task_id (args t) -> finished u = finished t.
Proof.
  unfold ids, all_tasks. rewrite fmap_app. intros (_ & _ & Hnd)%NoDup_app Hi [j Hj]%list_elem_of_lookup Hid.
  assert (i = j) as <-; [|congruence].
  eapply NoDup_lookup; [exact Hnd|by rewrite list_lookup_fmap, Hi|]. rewrite list_lookup_fmap, Hj. simpl. by rewrite Hid.
Qed.

(** *** Results *)

Lemma gone_without_result d t :
  dis_inv d -> NoDup (ids d) -> t ∈ gone d -> tasks (app (world (core d))) !! task_id (args t) = None.
Proof.
  intros Hinv Hnd Ht. apply eq_None_not_Some. intros (u & Hu & _ & Hid)%(dinv_results _ Hinv).
  unfold ids, all_tasks in Hnd. rewrite fmap_app in Hnd. apply NoDup_app in Hnd as (_ & Hdisj & _).
  apply (Hdisj (task_id (args t))); apply list_elem_of_fmap; [by exists t|by exists u].
Qed.

Lemma dis_step_result_kept d d' k r :
  dis_step d d' -> dis_inv d -> NoDup (ids d) ->
  tasks (app (world (core d))) !! k = Some r -> tasks (app (world (core d'))) !! k = Some r.
Proof.
  intros Hstep Hinv Hnd Hk.
  assert (forall s', sys_step (core d) s' -> tasks (app (world s')) !! k = Some r) as Hsys;
    [|by destruct Hstep; simpl; auto].
  intros s' [[-> _]|(i & t & e & t' & w' & Hi & Hd & <- & _)]%sys_step_shape; [done|].
  destruct (dispatch_step_tasks _ _ _ _ _ Hd) as [Hf [->|(_ & r' & ->)]]; [done|].
  rewrite lookup_insert_ne; [done|]. intros <-.
  destruct (dinv_results _ Hinv (task_id (args t)) ltac:(by eexists)) as (u & Hu & Hfu & Hid).
  pose proof (same_id_same_end d i t u Hnd Hi Hu Hid). congruence.
Qed.

Lemma dis_step_gone d d' t : dis_step d d' -> t ∈ gone d -> t ∈ gone d'.
Proof. intros [?|?|?]; simpl; try done. by right. Qed.

Lemma dis_steps_results d d' :
  rtc dis_step d d' -> dis_inv d -> NoDup (ids d') ->
  NoDup (ids d) /\ (forall t, t ∈ gone d -> t ∈ gone d') /\
  (forall k r, tasks (app (world (core d))) !! k = Some r -> tasks (app (world (core d'))) !! k = Some r).
Proof.
  induction 1 as [|d1 d2 d3 Hs _ IH]; intros Hinv Hnd; [done|].
  destruct IH as (Hnd2 & Hg & Hk); [by eapply dis_step_inv|done|].
  pose proof (dis_step_ids_NoDup _ _ Hs Hnd2) as Hnd1. split_and!; [done| |].
  - eauto using dis_step_gone.
  - eauto using dis_step_result_kept.
Qed.

(** *** The deadlock *)

(** While some dispatch holds a guard, only guard-free steps and disconnects happen. *)
Lemma dis_blocked_step d d' :
  dis_step d d' -> (0 < readers (core d))%nat -> app (world (core d')) = app (world (core d)).
Proof. intros [? ? Hs|? ? ? ? Hs|] Hr; [by apply blocked_step in Hs as (? & _)..|done]. Qed.

Lemma stuck_readers d : stuck_for_good d -> (0 < readers (core d))%nat.
Proof. intros (i & t & Hi & _ & Hg). by eapply readers_pos. Qed.

Lemma stuck_step d d' : dis_step d d' -> stuck_for_good d -> stuck_for_good d'.
Proof.
  intros Hstep Hst. pose proof (stuck_readers d Hst) as Hr. destruct Hst as (i & t & Hi & Ho & Hg).
  destruct Hstep as [d0 s' Hs Hlen|d0 s' u o Hs Hd|d0 j u Hj Hoj Hf].
  - exists i, t. apply blocked_step in Hs as (_ & _ & _ & Hkeep); [|done]. simpl. split_and!; [by apply Hkeep|done|done].
  - exists i, t. apply blocked_step in Hs as (_ & _ & _ & Hkeep); [|done]. simpl.
    split_and!; [by apply Hkeep|by apply lookup_app_l_Some|done].
  - assert (i <> j) as Hne by (intros ->; congruence). destruct (decide (i < j)%nat).
    + exists i, t. simpl. rewrite !list_lookup_delete_lt by done. done.
    + exists (pred i), t. simpl. rewrite !list_lookup_delete_ge by lia.
      replace (S (pred i)) with i by lia. done.
Qed.

Lemma stuck_steps d d' :
  rtc dis_step d d' -> stuck_for_good d ->
  stuck_for_good d' /\ app (world (core d')) = app (world (core d)).
Proof.
  induction 1 as [|d1 d2 d3 Hs _ IH]; intros Hst; [done|].
  destruct IH as [Hst3 Heq]; [by eapply stuck_step|]. split; [done|]. rewrite Heq.
  apply (dis_blocked_step _ _ Hs). by apply stuck_readers.
Qed.

#[export] Instance stuck_dec d : Decision (stuck_for_good d).
Proof.
  destruct (decide (Exists (fun p : DispatchTask * Owner => p.2 = Spawned /\ holds_read_guard p.1 = true)
    (zip (dispatches (core d)) (owners d)))) as [He|He]; [left|right].
  - apply Exists_exists in He as ([t o] & [i Hi]%list_elem_of_lookup & Ho & Hg). exists i, t.
    apply lookup_zip_Some in Hi as [? ?]. simpl in *. by subst.
  - intros (i & t & Hi & Ho & Hg). apply He, Exists_exists. exists (t, Spawned). split; [|done].
    apply list_elem_of_lookup. exists i. by apply lookup_zip_Some.
Defined.

(** If every guard is held by an awaited dispatch, their clients going away frees
    the lock. *)
Lemma guards_released d :
  dis_inv d -> ~ stuck_for_good d ->
  exists d', rtc dis_step d d' /\ readers (core d') = 0%nat /\ world (core d') = world (core d) /\
    exists l, gone d' = l ++ gone d /\ Forall (fun t => holds_read_guard t = true) l.
Proof.
  remember (readers (core d)) as n eqn:Hn. revert d Hn. induction n as [|n IH]; intros d Hn Hinv Hns.
  { exists d. split_and!; [apply rtc_refl|done|done|]. by exists []. }
  assert (exists i t, dispatches (core d) !! i = Some t /\ holds_read_guard t = true) as (i & t & Hi & Hg).
  { destruct (decide (Exists (fun t => holds_read_guard t = true) (dispatches (core d)))) as [He|He].
    - apply Exists_exists in He as (t & [i Hi]%list_elem_of_lookup & Hg). by exists i, t.
    - exfalso. assert (readers (core d) = 0%nat); [|congruence]. apply sum_list_with_zero.
      apply not_Exists_Forall in He; [|solve_decision]. eapply Forall_impl; [exact He|].
      intros t Ht. unfold guard_count. simpl in Ht. destruct (holds_read_guard t); [by destruct Ht|done]. }
  assert (owners d !! i = Some Awaited) as Ho.
  { assert (is_Some (owners d !! i)) as [[] Ho].
    - apply lookup_lt_is_Some_2. rewrite (dinv_owners _ Hinv). by eapply lookup_lt_Some.
    - done.
    - destruct Hns. by exists i, t. }
  assert (dis_step d (drop_dispatch i t d)) as Hs.
  { apply dis_drop; [done..|]. unfold holds_read_guard, finished in *. by destruct (at_pc t). }
  destruct (IH (drop_dispatch i t d)) as (d' & Hrtc & Hr & Hw & l & Hl & Hall).
  - unfold readers in *. simpl. pose proof (delete_Permutation _ _ _ Hi) as Hp.
    rewrite Hp in Hn. simpl in Hn. unfold guard_count at 1 in Hn. rewrite Hg in Hn. lia.
  - by eapply dis_step_inv.
  - intros (j & u & Hj & Hoj & Hgu). destruct Hns. simpl in *.
    destruct (decide (j < i)%nat).
    + rewrite list_lookup_delete_lt in Hj by done. rewrite list_lookup_delete_lt in Hoj by done. by exists j, u.
    + rewrite list_lookup_delete_ge in Hj by lia. rewrite list_lookup_delete_ge in Hoj by lia. by exists (S j), u.
  - exists d'. split_and!; [by eapply rtc_l|done|done|]. exists (l ++ [t]).
    split; [rewrite Hl; simpl; by rewrite <- app_assoc|]. apply Forall_app. split; [done|by repeat constructor].
Qed.

(** Steps of the system are steps here, with any owner for the new dispatches. *)
Lemma sys_steps_dis o s s' os g :
  rtc sys_step s s' -> length os = length (dispatches s) ->
  exists k, length (dispatches s') = (length (dispatches s) + k)%nat /\
    rtc dis_step {| core := s; owners := os; gone := g |} {| core := s'; owners := os ++ replicate k o; gone := g |}.
Proof.
  intros Hrtc. revert os. induction Hrtc as [s|s1 s2 s3 Hs _ IH]; intros os Hlen.
  - exists 0%nat. simpl. rewrite app_nil_r. split; [lia|apply rtc_refl].
  - destruct (sys_step_length _ _ Hs) as [Hl|[t Ht]].
    + destruct (IH os) as (k & Hk & Hd); [congruence|]. exists k. split; [lia|].
      eapply rtc_l; [by apply (dis_run {| core := s1; owners := os; gone := g |} s2)|done].
    + destruct (IH (os ++ [o])) as (k & Hk & Hd).
      { rewrite Ht, !length_app. simpl. lia. }
      exists (S k). rewrite Ht, length_app in Hk. simpl in Hk. split; [lia|].
      eapply rtc_l; [by apply (dis_submit {| core := s1; owners := os; gone := g |} s2 t o)|].
      simpl. by rewrite <- app_assoc in Hd.
Qed.

(** With the lock free a new node can always be registered. *)
Lemma registration_changes s :
  readers s = 0%nat ->
  exists s', sys_step s s' /\ length (dispatches s') = length (dispatches s) /\ app (world s') <> app (world s).
Proof.
  intros Hr. set (k := fresh (dom (nodes (app (world s))))).
  eexists. split; [apply (sys_register s {| reg_node_id := k; reg_address := EmptyString; reg_http_address := None;
    reg_max_concurrent_tasks := None |}); unfold lock_granted; rewrite Hr; apply free_write|].
  split; [done|]. simpl. intros Heq. apply (f_equal nodes) in Heq. simpl in Heq.
  assert (k ∈ dom (nodes (app (world s)))) as Hk by (rewrite <- Heq; set_solver).
  by apply is_fresh in Hk.
Qed.

End disconnect.

(** A client that submits a task to a control plane and leaves before it starts. *)
Lemma left_client :
  exists d a, @dis_reachable toy_base64 toy_sha2 toy_tonic simple_rwlock d /\
    gone d = [init_task a] /\ dispatches (core d) = [] /\ ids d = [task_id a] /\
    mlog (world (core d)) = [].
Proof.
  set (d0 := @dis_init toy_tonic "u" "round_robin").
  destruct (@submit_task toy_base64 (app (world (core d0))) "t" "tr" demo_inline) as [a|] eqn:Ha;
    [|by vm_compute in Ha].
  set (s1 := {| world := world (core d0); dispatches := [init_task a]; hpc := hpc (core d0) |}).
  exists (drop_dispatch 0 (init_task a) {| core := s1; owners := [Awaited]; gone := [] |}), a. split_and!; [|done..].
  exists "u", "round_robin". eapply rtc_l.
  - eapply (dis_submit d0 s1 (init_task a) Awaited); [|done].
    exact (@sys_submit toy_base64 toy_sha2 toy_tonic simple_rwlock (core d0) "t" "tr" demo_inline a eq_refl Ha).
  - apply rtc_once. by apply dis_drop.
Qed.

(** A client that submits a task to a control plane without nodes and waits. *)
Lemma stuck_client :
  exists d t, rtc (@dis_step toy_base64 toy_sha2 toy_tonic simple_rwlock) (dis_init "u" "round_robin") d /\
    dispatches (core d) !! 0%nat = Some t /\ owners d = [Awaited] /\ holds_read_guard t = true.
Proof.
  set (d0 := @dis_init toy_tonic "u" "round_robin").
  destruct (@submit_task toy_base64 (app (world (core d0))) "t" "tr" demo_inline) as [a|] eqn:Ha;
    [|by vm_compute in Ha].
  destruct (@queue_path toy_tonic a (world (core d0))) as (t' & w' & Hp & Hg & _); [done|done|].
  destruct (@submit_then_path toy_base64 toy_sha2 toy_tonic simple_rwlock (core d0) "t" "tr" demo_inline a t' w')
    as (s' & Hrtc & _ & Hi & Hlen); [done|done|done|].
  destruct (@sys_steps_dis toy_base64 toy_sha2 toy_tonic simple_rwlock Awaited _ _ [] [] Hrtc eq_refl) as (k & Hk & Hd).
  assert (k = 1%nat) as -> by (rewrite Hlen in Hk; simpl in Hk; lia).
  exists {| core := s'; owners := [Awaited]; gone := [] |}, t'. split_and!; [exact Hd|exact Hi|done|done].
Qed.

(** ** Properties *)

(** Results are written once, and never for clients that left. With task ids
    that are pairwise different (they are random UUIDs), whatever dispatches,
    requests, health checks and disconnects happen: the result of a dispatch that
    has ended is stored and never changes again, and a task whose client left
    while it was under way is [pending] for ever. *)
Theorem results_write_once `{!Base64} `{!Sha2} `{!Tonic} `{!TokioRwLock} d d' :
  dis_reachable d -> rtc dis_step d d' -> NoDup (ids d') ->
  (forall t, t ∈ dispatches (core d) -> finished t = true -> exists r,
     get_task (app (world (core d))) (task_id (args t)) = api_ok (inl r) /\
     get_task (app (world (core d'))) (task_id (args t)) = api_ok (inl r) /\ tr_task_id r = task_id (args t)) /\
  (forall t, t ∈ gone d -> get_task (app (world (core d'))) (task_id (args t)) = api_ok (inr "pending")).
Proof.
  intros Hre Hrtc Hnd. apply dis_reachable_inv in Hre as Hinv.
  destruct (dis_steps_results _ _ Hrtc Hinv Hnd) as (_ & Hgone & Hkeep).
  unfold get_task. split; intros t Ht.
  - intros Hf. destruct (dinv_sys _ Hinv) as [Happ _ _ _ Hst _ _ _].
    rewrite Forall_forall in Hst. destruct (Hst t) as [r Hr]; [by apply elem_of_app; right|done|].
    exists r. simpl in Hr. rewrite Hr, (Hkeep _ _ Hr). split_and!; [done..|]. by apply (wf_tasks _ Happ).
  - rewrite gone_without_result; [done|by eapply dis_steps_inv|done|by apply Hgone].
Qed.

Lemma results_write_once_witness :
  exists d t, @dis_reachable toy_base64 toy_sha2 toy_tonic simple_rwlock d /\ gone d = [t] /\
    get_task (app (world (core d))) (task_id (args t)) = api_ok (inr "pending").
Proof.
  destruct left_client as (d & a & Hre & Hg & _ & Hids & _).
  assert (NoDup (ids d)) as Hnd by (rewrite Hids; apply NoDup_singleton).
  exists d, (init_task a). split; [exact Hre|]. split; [exact Hg|].
  apply (proj2 (@results_write_once toy_base64 toy_sha2 toy_tonic simple_rwlock d d Hre (rtc_refl _ _) Hnd)).
  rewrite Hg. by left.
Defined.

(** Task accounting with clients that leave. In every reachable state, modulo
    2^64, [total_success] plus [total_failed] is the number of dispatches that
    have ended, and [total_submitted] less both is the number of dispatches under
    way plus the number of those whose client left after they were counted: a
    task that was abandoned stays submitted for ever and is neither a success
    nor a failure. *)
Theorem disconnect_accounting `{!Base64} `{!Sha2} `{!Tonic} `{!TokioRwLock} d :
  dis_reachable d ->
  let st := app (world (core d)) in
  (total_success st + total_failed st) mod u64_mod = Z.of_nat (finished_count (core d)) mod u64_mod /\
  (total_submitted st - total_success st - total_failed st) mod u64_mod =
    Z.of_nat (sum_list_with in_flight (dispatches (core d)) + sum_list_with in_flight (gone d)) mod u64_mod.
Proof.
  intros [[_ _ Hsub Hcl _ _ _ _] _ Hgone _]%dis_reachable_inv. simpl in *.
  assert (sum_list_with done_count (gone d) = 0%nat) as Hg0.
  { apply sum_list_with_zero. eapply Forall_impl; [exact Hgone|]. intros t Ht. unfold done_count. by rewrite Ht. }
  rewrite sum_list_with_app, Hg0 in Hcl. split; [done|].
  replace (total_submitted (app (world (core d))) - total_success (app (world (core d)))
      - total_failed (app (world (core d))))
    with (total_submitted (app (world (core d)))
      - (total_success (app (world (core d))) + total_failed (app (world (core d))))) by lia.
  rewrite Zminus_mod, Hsub, Hcl, <- Zminus_mod, !accepted_split, !sum_list_with_app, Hg0. f_equal. lia.
Qed.

Lemma disconnect_accounting_witness :
  exists d, @dis_reachable toy_base64 toy_sha2 toy_tonic simple_rwlock d /\ gone d <> [] /\
    (total_success (app (world (core d))) + total_failed (app (world (core d)))) mod u64_mod = 0.
Proof.
  destruct left_client as (d & a & Hre & Hg & Hd & _). exists d. split; [exact Hre|]. split; [rewrite Hg; discriminate|].
  rewrite (proj1 (@disconnect_accounting toy_base64 toy_sha2 toy_tonic simple_rwlock d Hre)).
  unfold finished_count. rewrite Hd. reflexivity.
Defined.

(** C22. When the deadlock is for good. In a reachable state, no request, dispatch,
    health check or disconnect can change the application state any more exactly
    when a dispatch of a batch is inside the queueing statement, waiting for the
    write guard with its own read guard alive. As long as only dispatches of
    POST /tasks are, their clients leaving frees the lock, with the state as it
    was and nobody else dropped. *)
Theorem deadlock_permanent_iff `{!Base64} `{!Sha2} `{!Tonic} `{!TokioRwLock} d :
  dis_reachable d ->
  ((forall d', rtc dis_step d d' -> app (world (core d')) = app (world (core d))) <-> stuck_for_good d) /\
  (~ stuck_for_good d -> exists d' l, rtc dis_step d d' /\ world (core d') = world (core d) /\
     gone d' = l ++ gone d /\ Forall (fun t => holds_read_guard t = true) l /\
     forall i t, dispatches (core d') !! i = Some t -> holds_read_guard t = false).
Proof.
  intros Hinv%dis_reachable_inv. split; [split|].
  - intros Hsame. destruct (decide (stuck_for_good d)) as [|Hns]; [done|]. exfalso.
    destruct (guards_released d Hinv Hns) as (d1 & Hd1 & Hr & Hw & _).
    destruct (registration_changes (core d1) Hr) as (s2 & Hs & Hlen & Hne).
    apply Hne. rewrite Hw. apply (Hsame {| core := s2; owners := owners d1; gone := gone d1 |}).
    eapply rtc_r; [exact Hd1|by apply dis_run].
  - intros Hst d' Hrtc. by destruct (stuck_steps _ _ Hrtc Hst).
  - intros Hns. destruct (guards_released d Hinv Hns) as (d1 & Hd1 & Hr & Hw & l & Hl & Hall).
    exists d1, l. split_and!; [done..|]. intros i t Hi.
    destruct (holds_read_guard t) eqn:Hg; [|done]. pose proof (readers_pos _ _ _ Hi Hg). lia.
Qed.

(** C23. The permanent deadlock is reached by ordinary use: in any reachable state
    in which nobody waits in the queueing statement and no registered node is
    eligible (none registered yet, all unhealthy, or all full under
    least-loaded), one accepted item of a batch can bring the service to a state
    from which nothing changes any more, whatever clients do or however they
    leave; the task never gets an answer. *)
Theorem batch_deadlock_permanent `{!Base64} `{!Sha2} `{!Tonic} `{!TokioRwLock} d uuid trace body a :
  dis_reachable d -> readers (core d) = 0%nat ->
  (forall k n, nodes (app (world (core d))) !! k = Some n -> eligible (app (world (core d))) n -> False) ->
  submit_task (app (world (core d))) uuid trace body = Ok a ->
  exists d', rtc dis_step d d' /\ stuck_for_good d' /\ forall d'', rtc dis_step d' d'' ->
    app (world (core d'')) = app (world (core d')) /\
    tasks (app (world (core d''))) !! task_id a = tasks (app (world (core d))) !! task_id a.
Proof.
  intros Hre Hr Hno Hsub. apply dis_reachable_inv in Hre as [Hinv Hown _ _].
  destruct (queue_path a (world (core d))) as (t' & w' & Hp & Hg & Ht & _); [apply (wf_index _ (inv_app _ Hinv))|done|].
  destruct (submit_then_path (core d) uuid trace body a t' w') as (s' & Hrtc & Hw & Hi & Hlen); [done..|].
  destruct (sys_steps_dis Spawned _ _ (owners d) (gone d) Hrtc Hown) as (k & Hk & Hd).
  replace k with 1%nat in Hd by lia. rewrite <- Hown in Hi.
  assert (stuck_for_good {| core := s'; owners := owners d ++ [Spawned]; gone := gone d |}) as Hst.
  { exists (length (owners d)), t'. split_and!; [done|by apply list_lookup_middle|done]. }
  eexists. split; [by destruct d|]. split; [done|]. intros d'' Hd''. destruct (stuck_steps _ _ Hd'' Hst) as [_ Heq].
  split; [done|]. rewrite Heq. simpl. by rewrite Hw, Ht.
Qed.

Lemma batch_deadlock_permanent_witness :
  exists a d', @submit_task toy_base64 (app (world (core (@dis_init toy_tonic "u" "round_robin")))) "t" "tr" demo_inline = Ok a /\
    forall d'', rtc (@dis_step toy_base64 toy_sha2 toy_tonic simple_rwlock) d' d'' ->
      tasks (app (world (core d''))) !! task_id a = None.
Proof.
  destruct (@batch_deadlock_permanent toy_base64 toy_sha2 toy_tonic simple_rwlock (dis_init "u" "round_robin")
    "t" "tr" demo_inline _ ltac:(exists "u", "round_robin"; apply rtc_refl) eq_refl
    ltac:(intros k n Hk; discriminate Hk) eq_refl) as (d' & _ & _ & Hd').
  eexists _, d'. split; [reflexivity|]. intros d'' Hrtc. rewrite (proj2 (Hd' d'' Hrtc)). reflexivity.
Defined.

(** C24. On one or two nodes a failing task takes the control plane down. Let no
    guard be kept and at most two registered nodes be eligible, and let an item of
    a batch be accepted whose every RPC is answered with the same failure (a guest
    that traps, say, or a node that cannot be reached). Its dispatch, running alone,
    never ends: it does not report the failure, since that takes three failed
    attempts and every attempt excludes its node from the next. From every point
    it can be at, it can only go on into the queueing statement, and then nothing
    changes any more, whatever clients do or however they leave. *)
Theorem failing_task_deadlocks `{!Base64} `{!Sha2} `{!Tonic} `{!TokioRwLock} d uuid trace body a r err l t w :
  dis_reachable d -> readers (core d) = 0%nat -> submit_task (app (world (core d))) uuid trace body = Ok a ->
  attempt_error r = Some err -> (length l <= 2)%nat ->
  (forall k n, nodes (app (world (core d))) !! k = Some n -> eligible (app (world (core d))) n -> id n ∈ l) ->
  failing_run r (init_task a) (world (core d)) t w ->
  finished t = false /\ tasks (app w) = tasks (app (world (core d))) /\
  exists t' d', failing_run r t w t' (world (core d')) /\ holds_read_guard t' = true /\ rtc dis_step d d' /\
    dispatches (core d') !! length (dispatches (core d)) = Some t' /\ stuck_for_good d' /\
    forall d'', rtc dis_step d' d'' -> app (world (core d'')) = app (world (core d')) /\
      tasks (app (world (core d''))) !! task_id a = tasks (app (world (core d))) !! task_id a.
Proof.
  intros Hre Hrd Hsub Hr Hl Hel Hrun. apply dis_reachable_inv in Hre as [Hinv Hown _ _].
  pose proof (failing_start_wf l a (world (core d)) (inv_app _ Hinv)) as Hwf0.
  pose proof (failing_run_wf r err Hr l Hl _ Hel _ _ _ _ Hrun Hwf0) as Hwf.
  destruct (failing_run_queues r err Hr l Hl _ Hel t w Hwf) as (t' & w' & Hrun' & Hg).
  pose proof (failing_run_wf r err Hr l Hl _ Hel _ _ _ _ Hrun' Hwf) as Hwf'.
  destruct (submit_then_path (core d) uuid trace body a t' w') as (s' & Hrtc & Hw & Hi & Hlen); [done|done| |].
  { by eapply own_path_trans; eapply failing_run_own. }
  destruct (sys_steps_dis Spawned _ _ (owners d) (gone d) Hrtc Hown) as (k & Hk & Hd).
  replace k with 1%nat in Hd by lia.
  assert (stuck_for_good {| core := s'; owners := owners d ++ [Spawned]; gone := gone d |}) as Hst.
  { exists (length (owners d)), t'. rewrite Hown. split_and!; [done| |done]. rewrite <- Hown. by apply list_lookup_middle. }
  split_and!; [|apply (fw_same _ _ _ _ Hwf)|].
  - destruct Hwf as [_ _ _ _ _ Hpc]. unfold finished. by destruct (at_pc t).
  - exists t', {| core := s'; owners := owners d ++ [Spawned]; gone := gone d |}. simpl. rewrite Hw.
    split_and!; [done|done|by destruct d|done|done|]. intros d'' Hd''. destruct (stuck_steps _ _ Hd'' Hst) as [_ Heq].
    rewrite Heq. simpl. rewrite Hw. split; [done|]. by destruct (fw_same _ _ _ _ Hwf') as (_ & _ & ->).
Qed.

(** One healthy node, and a task whose guest traps. *)
Definition demo_trap : result Status ExecuteTaskResponse :=
  Ok {| resp_task_id := "t"; resp_success := false; resp_output := []; resp_execution_time_ms := 0; resp_error := "trap" |}.
Definition demo_joined_sys : @DSys toy_tonic := {| core := demo_joined; owners := []; gone := [] |}.

Lemma demo_joined_reachable : @dis_reachable toy_base64 toy_sha2 toy_tonic simple_rwlock demo_joined_sys.
Proof.
  exists "u", "round_robin". apply rtc_once.
  refine (@dis_run toy_base64 toy_sha2 toy_tonic simple_rwlock (dis_init "u" "round_robin") demo_joined _ eq_refl).
  exact (@sys_register toy_base64 toy_sha2 toy_tonic simple_rwlock (init_sys "u" "round_robin") demo_register eq_refl).
Qed.

Lemma demo_joined_nodes k n :
  nodes (app (world (core demo_joined_sys))) !! k = Some n -> eligible (app (world (core demo_joined_sys))) n -> id n ∈ ["n1"].
Proof.
  intros Hk _. unfold demo_joined_sys, demo_joined in Hk. simpl in Hk.
  apply lookup_insert_Some in Hk as [[_ <-]|[_ Hk]]; [by left|]. by rewrite lookup_empty in Hk.
Qed.

Lemma failing_task_deadlocks_witness :
  exists a d', @submit_task toy_base64 (app (world demo_joined)) "t" "tr" demo_inline = Ok a /\
    is_Some (nodes (app (world demo_joined)) !! "n1") /\
    rtc (@dis_step toy_base64 toy_sha2 toy_tonic simple_rwlock) demo_joined_sys d' /\ stuck_for_good d'.
Proof.
  destruct (@failing_task_deadlocks toy_base64 toy_sha2 toy_tonic simple_rwlock demo_joined_sys "t" "tr" demo_inline _
    demo_trap "trap" ["n1"] _ _ demo_joined_reachable eq_refl eq_refl eq_refl ltac:(apply le_S, le_n) demo_joined_nodes
    (failing_refl _ _ _)) as (_ & _ & t' & d' & _ & _ & Hd & _ & Hst & _).
  eexists _, d'. split; [reflexivity|]. split; [eexists; reflexivity|]. split; [exact Hd|exact Hst].
Defined.

(** Once the stuck client leaves, the lock is free again. *)
Lemma deadlock_permanent_iff_witness :
  exists d, @dis_reachable toy_base64 toy_sha2 toy_tonic simple_rwlock d /\ (0 < readers (core d))%nat /\
    exists d', rtc (@dis_step toy_base64 toy_sha2 toy_tonic simple_rwlock) d d' /\ readers (core d') = 0%nat.
Proof.
  destruct stuck_client as (d & t & Hd & Hi & Ho & Hg).
  assert (@dis_reachable toy_base64 toy_sha2 toy_tonic simple_rwlock d) as Hre by (exists "u", "round_robin"; exact Hd).
  exists d. split; [exact Hre|]. split; [exact (readers_pos (core d) _ _ Hi Hg)|].
  destruct (@deadlock_permanent_iff toy_base64 toy_sha2 toy_tonic simple_rwlock d Hre) as [_ Hlift].
  destruct Hlift as (d' & l & Hd' & _ & _ & _ & Hfree).
  - intros ([|i] & u & _ & Hu & _); rewrite Ho in Hu; discriminate Hu.
  - exists d'. split; [exact Hd'|]. apply sum_list_with_zero, Forall_lookup_2. intros i u Hit.
    unfold guard_count. rewrite (Hfree i u Hit). reflexivity.
Defined.
