(* ===== verification/EdgeNode.v ===== *)
(** * The edge node

    Models [services/edge-node]: [state.rs], [downloader.rs], the gRPC service of
    [server/grpc.rs] and the admin handlers of [metrics.rs]. [execute_task] is a
    state machine like [dispatch_task]: a program point for every place where it
    can be suspended (the state lock, the cache mutex, the download, the
    compilation, the guest), and [exec_step] runs it to the next one.

    tokio's semaphore is a parameter ([TokioSemaphore]); the permit a call holds
    is a local variable of the source and is given back by every return. *)

From S2P Require Import Prelude RustStd Common Sandbox ModuleCache.

(** ** Third-party interfaces *)

Class TokioSemaphore := {
  Semaphore : Type;
  sem_new : nat -> Semaphore;
  available_permits : Semaphore -> nat;
  try_acquire : Semaphore -> option Semaphore;
  release : Semaphore -> Semaphore;
  sem_new_spec : forall n, available_permits (sem_new n) = n;
  try_acquire_spec : forall s, match try_acquire s with
    | Some s' => available_permits s = S (available_permits s')
    | None => available_permits s = 0%nat
    end;
  release_spec : forall s, available_permits (release s) = S (available_permits s)
}.

(** The counting semaphore. *)
Definition nat_semaphore : TokioSemaphore.
Proof.
  refine {| Semaphore := nat; sem_new := fun n => n; available_permits := fun n => n;
    try_acquire := fun n => match n with O => None | S n' => Some n' end; release := S |}; try done.
  by intros [|n].
Defined.

(** What an HTTP GET may come back with (reqwest). *)
Inductive HttpReply :=
| HttpFailed (err : string)
| HttpStatus (success : bool) (display : string) (body : result string bytes).

(** ** Node state (state.rs) *)
Record NodeState := {
  ns_node_id : string;
  ns_active_tasks : Z;
  total_executed : Z;
  ns_total_failed : Z;
  total_execution_time_ms : Z
}.

Definition NodeState_new (node_id : string) : NodeState :=
  {| ns_node_id := node_id; ns_active_tasks := 0; total_executed := 0; ns_total_failed := 0;
     total_execution_time_ms := 0 |}.

Definition task_begins (st : NodeState) : NodeState :=
  {| ns_node_id := ns_node_id st; ns_active_tasks := usize_add (ns_active_tasks st) 1;
     total_executed := total_executed st; ns_total_failed := ns_total_failed st;
     total_execution_time_ms := total_execution_time_ms st |}.

(** [active_tasks] down by one and [total_failed] up by one. *)
Definition task_fails (st : NodeState) : NodeState :=
  {| ns_node_id := ns_node_id st; ns_active_tasks := saturating_sub (ns_active_tasks st) 1;
     total_executed := total_executed st; ns_total_failed := u64_add (ns_total_failed st) 1;
     total_execution_time_ms := total_execution_time_ms st |}.

Definition task_succeeds (ms : Z) (st : NodeState) : NodeState :=
  {| ns_node_id := ns_node_id st; ns_active_tasks := saturating_sub (ns_active_tasks st) 1;
     total_executed := u64_add (total_executed st) 1; ns_total_failed := ns_total_failed st;
     total_execution_time_ms := u64_add (total_execution_time_ms st) ms |}.

(** ** Downloader (downloader.rs) *)
Definition download_url (control_plane_url name version : string) : string :=
  control_plane_url +:+ "/modules/" +:+ name +:+ "/" +:+ version.

(** [http url] is the reply of the control plane. *)
Definition download (http : string -> HttpReply) (control_plane_url name version : string)
    : result string bytes :=
  match http (download_url control_plane_url name version) with
  | HttpFailed e => Err e
  | HttpStatus success display body =>
      if negb success
      then Err ("control-plane returned " +:+ display +:+ " for module " +:+ name +:+ ":" +:+ version)
      else body
  end.

Definition verify_hash `{!Sha2} (b : bytes) (expected_hash : string) : bool :=
  bool_decide (sha256_hex b = expected_hash).

(** ** The gRPC service (server/grpc.rs) *)
Section edge_defs.
Context `{!Wasmtime} `{!Lru CachedModule} `{!Sha2} `{!TokioSemaphore}.

Record NodeWorld := {
  node : NodeState;
  cache : CompiledModuleCache;
  semaphore : Semaphore;
  nlog : MetricLog
}.

Definition on_node (f : NodeState -> NodeState) (w : NodeWorld) : NodeWorld :=
  {| node := f (node w); cache := cache w; semaphore := semaphore w; nlog := nlog w |}.
Definition on_cache (c : CompiledModuleCache) (w : NodeWorld) : NodeWorld :=
  {| node := node w; cache := c; semaphore := semaphore w; nlog := nlog w |}.
Definition on_semaphore (s : Semaphore) (w : NodeWorld) : NodeWorld :=
  {| node := node w; cache := cache w; semaphore := s; nlog := nlog w |}.
Definition nemit (op : MetricOp) (w : NodeWorld) : NodeWorld :=
  {| node := node w; cache := cache w; semaphore := semaphore w; nlog := op :: nlog w |}.

Inductive exec_pc :=
| XStart
| XBegin
| XResolve
| XLookup (mr : ModuleRef) (key : string)
| XDownload (mr : ModuleRef) (key : string)
| XHashMismatch
| XGocLookup (key : string) (wasm : bytes)
| XCompile (key : string) (wasm : bytes)
| XGocInsert (key : string) (wasm : bytes) (m : Module)
| XCacheStats (m : Module)
| XExecBytes (b : bytes)
| XExecModule (m : Module)
| XNoSource
| XFinish (r : result WasmError ExecutionResult)
| XDone (r : result Status ExecuteTaskResponse)
(** the caller went away while the call was suspended there *)
| XDropped (p : exec_pc).

Record ExecTask := { xreq : ExecuteTaskRequest; xpc : exec_pc }.

Definition xgoto (p : exec_pc) (t : ExecTask) : ExecTask := {| xreq := xreq t; xpc := p |}.

(** What a step reads from outside. *)
Record NodeEnv := {
  nnow : Instant;
  http : string -> HttpReply;
  panic : option string;
  exec_env : ExecEnv
}.

Definition exec_config (req : ExecuteTaskRequest) : ExecutionConfig :=
  {| memory_limit_bytes := u64_mul (u64_mul (Z.max (req_memory_limit_mb req) 1) 1024) 1024;
     cfg_timeout_ms := if req_timeout_ms req =? 0 then 5000 else req_timeout_ms req;
     cfg_function_name := req_function_name req |}.

Definition module_cache_key (mr : ModuleRef) : string := mr_name mr +:+ ":" +:+ mr_version mr.

(** The response to a task that ran. *)
Definition exec_response (req : ExecuteTaskRequest) (r : result WasmError ExecutionResult)
    : ExecuteTaskResponse :=
  match r with
  | Ok exec =>
      {| resp_task_id := req_task_id req; resp_success := true; resp_output := er_output exec;
         resp_execution_time_ms := er_execution_time_ms exec; resp_error := EmptyString |}
  | Err e =>
      {| resp_task_id := req_task_id req; resp_success := false; resp_output := [];
         resp_execution_time_ms := 0; resp_error := WasmError_to_string e |}
  end.

(** Every return gives the permit back. *)
Definition return_ (r : result Status ExecuteTaskResponse) (t : ExecTask) (w : NodeWorld)
    : option (ExecTask * NodeWorld) :=
  Some (xgoto (XDone r) t, on_semaphore (release (semaphore w)) w).

Definition exec_step (node_id control_plane_url : string) (e : NodeEnv) (t : ExecTask) (w : NodeWorld)
    : option (ExecTask * NodeWorld) :=
  match xpc t with
  | XStart =>
      match try_acquire (semaphore w) with
      | None =>
          Some (xgoto (XDone (Err {| code := ResourceExhausted;
                  message := "node is at maximum concurrent task capacity" |})) t, w)
      | Some s => Some (xgoto XBegin t, on_semaphore s w)
      end
  | XBegin =>
      Some (xgoto XResolve t, nemit (GaugeInc (ACTIVE_TASKS_GAUGE node_id)) (on_node task_begins w))
  | XResolve =>
      match req_wasm_source (xreq t) with
      | Some (SrcWasmBytes b) => Some (xgoto (XExecBytes b) t, nemit (CounterInc WASM_CACHE_MISSES_TOTAL) w)
      | Some (SrcModuleRef mr) => Some (xgoto (XLookup mr (module_cache_key mr)) t, w)
      | None => Some (xgoto XNoSource t, w)
      end
  | XLookup mr key =>
      let '(m, c) := get_cached (nnow e) key (cache w) in
      match m with
      | Some m => Some (xgoto (XExecModule m) t, nemit (CounterInc WASM_CACHE_HITS_TOTAL) (on_cache c w))
      | None => Some (xgoto (XDownload mr key) t, nemit (CounterInc WASM_CACHE_MISSES_TOTAL) (on_cache c w))
      end
  | XDownload mr key =>
      match download (http e) control_plane_url (mr_name mr) (mr_version mr) with
      | Err err => return_ (Err {| code := Internal; message := "module download failed: " +:+ err |}) t w
      | Ok wasm =>
          if bool_decide (mr_hash mr <> EmptyString) && negb (verify_hash wasm (mr_hash mr))
          then Some (xgoto XHashMismatch t, w)
          else Some (xgoto (XGocLookup key wasm) t, w)
      end
  | XHashMismatch =>
      return_ (Err {| code := DataLoss; message := "module hash mismatch — possible tampering" |}) t
        (nemit (GaugeDec (ACTIVE_TASKS_GAUGE node_id)) (on_node task_fails w))
  | XGocLookup key wasm =>
      let '(m, c) := goc_lookup (nnow e) key (cache w) in
      match m with
      | Some m => Some (xgoto (XCacheStats m) t, on_cache c w)
      | None => Some (xgoto (XCompile key wasm) t, on_cache c w)
      end
  | XCompile key wasm =>
      match compile (panic e) wasm with
      | Err err => return_ (Err {| code := Internal;
                              message := "compilation failed: " +:+ WasmError_to_string err |}) t w
      | Ok m => Some (xgoto (XGocInsert key wasm m) t, w)
      end
  | XGocInsert key wasm m =>
      Some (xgoto (XCacheStats m) t, on_cache (goc_insert (nnow e) key wasm m (cache w)) w)
  | XCacheStats m =>
      Some (xgoto (XExecModule m) t, nemit (GaugeSet CACHE_SIZE_GAUGE (cs_size (stats (cache w)))) w)
  (* The run of the guest: a call whose guest has not returned stays here. *)
  | XExecBytes b =>
      Some (xgoto (XFinish (execute (panic e) (exec_env e) b (exec_config (xreq t)) (req_input (xreq t)))) t, w)
  | XExecModule m =>
      Some (xgoto (XFinish (execute_compiled (panic e) (exec_env e) m (exec_config (xreq t))
                              (req_input (xreq t)))) t, w)
  | XNoSource =>
      return_ (Err {| code := InvalidArgument;
                      message := "wasm_source must be set (wasm_bytes or module_ref)" |}) t
        (nemit (GaugeDec (ACTIVE_TASKS_GAUGE node_id)) (on_node task_fails w))
  | XFinish r =>
      let w' := match r with
                | Ok ex => nemit (HistObserve TASK_EXECUTION_DURATION_MS (er_execution_time_ms ex))
                             (on_node (task_succeeds (er_execution_time_ms ex)) w)
                | Err _ => on_node task_fails w
                end in
      return_ (Ok (exec_response (xreq t) r)) t (nemit (GaugeDec (ACTIVE_TASKS_GAUGE node_id)) w')
  | XDone _ | XDropped _ => None
  end.

(** The points at which the call awaits something ([XResolve] is passed without
    awaiting); only there can its future be dropped. *)
Definition suspended (t : ExecTask) : bool :=
  match xpc t with XResolve | XDone _ | XDropped _ => false | _ => true end.

(** The call holds a permit. *)
Definition holds_permit (t : ExecTask) : nat :=
  match xpc t with XStart | XDone _ | XDropped _ => 0%nat | _ => 1%nat end.

(** The future of the call is dropped: [_permit] is given back, and nothing else
    is undone. *)
Definition drop_call (t : ExecTask) (w : NodeWorld) : ExecTask * NodeWorld :=
  (xgoto (XDropped (xpc t)) t,
   match holds_permit t with O => w | S _ => on_semaphore (release (semaphore w)) w end).

(** [health] of the gRPC service. *)
Definition node_health (node_id : string) (st : NodeState) : HealthResponse :=
  {| hr_node_id := node_id; hr_active_tasks := as_u32 (ns_active_tasks st); hr_ready := true |}.

(** ** Admin handlers (metrics.rs) *)

Record MemoryReport := {
  heap_allocated_bytes : Z;
  wasm_memory_bytes : Z;
  cache_memory_estimate_bytes : Z;
  active_stores : Z
}.

Definition memory_handler (rss : Z) (w : NodeWorld) : MemoryReport :=
  {| heap_allocated_bytes := rss;
     wasm_memory_bytes := u64_mul (u64_mul (u64_mul (ns_active_tasks (node w)) 64) 1024) 1024;
     cache_memory_estimate_bytes := cs_total_wasm_bytes (stats (cache w));
     active_stores := ns_active_tasks (node w) |}.

(** [CACHE_SIZE_GAUGE.set(stats.size)]. *)
Definition sync_cache_gauge (w : NodeWorld) : NodeWorld :=
  nemit (GaugeSet CACHE_SIZE_GAUGE (cs_size (stats (cache w)))) w.

Record WarmCacheRequest := { wc_name : string; wc_version : string; wc_wasm_bytes_base64 : string }.

(** HTTP status and body: the key that was warmed, or an error text. *)
Definition warm_cache_handler `{!Base64} (now1 now2 : Instant) (pn : option string)
    (body : WarmCacheRequest) (w : NodeWorld) : (Z * (string + string)) * NodeWorld :=
  match b64_decode (wc_wasm_bytes_base64 body) with
  | Err e => ((400, inr ("invalid base64: " +:+ e)), w)
  | Ok b =>
      let key := wc_name body +:+ ":" +:+ wc_version body in
      let '(r, c) := get_or_compile now1 now2 pn key b (cache w) in
      match r with
      | Ok _ => ((200, inl key), sync_cache_gauge (on_cache c w))
      | Err e => ((500, inr (WasmError_to_string e)), on_cache c w)
      end
  end.

(** ** The node as a system of calls *)

Record NodeSys := { nworld : NodeWorld; calls : list ExecTask }.

(** A call arrives, a call takes a step, the caller of one goes away (tonic then
    drops the handler's future), an admin request uses the cache, or the
    cache-size gauge is brought up to date (at start-up and after a warm-up). *)
Inductive node_step (node_id url : string) : NodeSys -> NodeSys -> Prop :=
| node_arrive s req :
    node_step node_id url s {| nworld := nworld s; calls := calls s ++ [{| xreq := req; xpc := XStart |}] |}
| node_exec s i t e t' w' :
    calls s !! i = Some t -> exec_step node_id url e t (nworld s) = Some (t', w') ->
    node_step node_id url s {| nworld := w'; calls := <[i := t']> (calls s) |}
| node_drop s i t :
    calls s !! i = Some t -> suspended t = true ->
    node_step node_id url s {| nworld := (drop_call t (nworld s)).2;
                               calls := <[i := (drop_call t (nworld s)).1]> (calls s) |}
| node_cache s op :
    node_step node_id url s {| nworld := on_cache (cache_apply (cache (nworld s)) op) (nworld s);
                               calls := calls s |}
| node_sync s :
    node_step node_id url s {| nworld := sync_cache_gauge (nworld s); calls := calls s |}.

Definition init_node (node_id : string) (max_tasks max_cached : nat) (t : Duration) : NodeSys :=
  {| nworld := {| node := NodeState_new node_id; cache := new_with_ttl max_cached t;
                  semaphore := sem_new max_tasks; nlog := [] |};
     calls := [] |}.

(** ** What is counted *)

(** The call is counted in [active_tasks] and is still running. *)
Definition pc_counted (p : exec_pc) : nat :=
  match p with XStart | XBegin | XDone _ | XDropped _ => 0%nat | _ => 1%nat end.
Definition counted_active (t : ExecTask) : nat := pc_counted (xpc t).
(** The call was dropped after it had been counted, and is still counted. *)
Definition abandoned (t : ExecTask) : nat :=
  match xpc t with XDropped p => pc_counted p | _ => 0%nat end.
(** The call has returned and is still counted: its download or compilation
    failed (the only [Internal] statuses). *)
Definition leaked (t : ExecTask) : nat :=
  match xpc t with
  | XDone (Err s) => if decide (code s = Internal) then 1%nat else 0%nat
  | _ => 0%nat
  end.
(** The call was turned away for lack of a permit. *)
Definition rejected (t : ExecTask) : nat :=
  match xpc t with
  | XDone (Err s) => if decide (code s = ResourceExhausted) then 1%nat else 0%nat
  | _ => 0%nat
  end.
Definition returned_call (t : ExecTask) : nat := match xpc t with XDone _ => 1%nat | _ => 0%nat end.
(** The call was dropped while its guest ran on the blocking pool, where nothing
    stops it. *)
Definition detached_guest (t : ExecTask) : nat :=
  match xpc t with XDropped (XExecBytes _) | XDropped (XExecModule _) => 1%nat | _ => 0%nat end.

Definition total (f : ExecTask -> nat) (s : NodeSys) : nat := sum_list_with f (calls s).

(** A downloaded module on its way into the cache has the announced hash. *)
Definition verified (t : ExecTask) : Prop :=
  match xpc t with
  | XLookup mr key | XDownload mr key =>
      req_wasm_source (xreq t) = Some (SrcModuleRef mr) /\ key = module_cache_key mr
  | XGocInsert key wasm m =>
      module_new wasm = Ok m /\ exists mr, req_wasm_source (xreq t) = Some (SrcModuleRef mr) /\
        key = module_cache_key mr /\ (mr_hash mr = EmptyString \/ sha256_hex wasm = mr_hash mr)
  | XGocLookup key wasm | XCompile key wasm =>
      exists mr, req_wasm_source (xreq t) = Some (SrcModuleRef mr) /\ key = module_cache_key mr /\
        (mr_hash mr = EmptyString \/ sha256_hex wasm = mr_hash mr)
  | _ => True
  end.

(** Answers name the task they are for and carry an error text iff they failed. *)
Definition answered_well (t : ExecTask) : Prop :=
  match xpc t with
  | XDone (Ok r) => resp_task_id r = req_task_id (xreq t) /\
                    (resp_success r = true <-> resp_error r = EmptyString)
  | _ => True
  end.

(** [k] steps of one call nobody interferes with. *)
Fixpoint exec_run (node_id url : string) (k : nat) (es : nat -> NodeEnv) (t : ExecTask) (w : NodeWorld)
    : option (ExecTask * NodeWorld) :=
  match k with
  | O => Some (t, w)
  | S k' => '(t', w') ← exec_step node_id url (es 0%nat) t w;
            exec_run node_id url k' (fun i => es (S i)) t' w'
  end.

(** Steps a call has left at most. *)
Definition exec_rank (p : exec_pc) : nat :=
  match p with
  | XStart => 12 | XBegin => 11 | XResolve => 10 | XLookup _ _ => 9 | XDownload _ _ => 8
  | XHashMismatch => 1 | XGocLookup _ _ => 7 | XCompile _ _ => 6 | XGocInsert _ _ _ => 5
  | XCacheStats _ => 4 | XExecBytes _ | XExecModule _ => 3 | XNoSource => 1 | XFinish _ => 2
  | XDone _ | XDropped _ => 0
  end.

Inductive own_exec (node_id url : string) : nat -> ExecTask -> ExecTask -> Prop :=
| own_exec_refl t : own_exec node_id url 0 t t
| own_exec_step e w w' t t1 t2 k :
    exec_step node_id url e t w = Some (t1, w') -> own_exec node_id url k t1 t2 ->
    own_exec node_id url (S k) t t2.

Record node_inv (node_id : string) (max_tasks : nat) (s : NodeSys) : Prop := {
  ninv_permits : (available_permits (semaphore (nworld s)) + total holds_permit s)%nat = max_tasks;
  ninv_active : Z.of_nat (length (calls s)) < u64_mod ->
    ns_active_tasks (node (nworld s)) = Z.of_nat (total counted_active s + total leaked s + total abandoned s);
  ninv_gauge : gauge_value (ACTIVE_TASKS_GAUGE node_id) (nlog (nworld s)) =
    Z.of_nat (total counted_active s + total leaked s + total abandoned s);
  ninv_outcomes : (total_executed (node (nworld s)) + ns_total_failed (node (nworld s))
      + Z.of_nat (total leaked s + total rejected s)) mod u64_mod =
    Z.of_nat (total returned_call s) mod u64_mod;
  ninv_verified : Forall verified (calls s);
  ninv_answers : Forall answered_well (calls s);
  ninv_cache : cache_wf (cache (nworld s))
}.

End edge_defs.

Definition arrival `{!Wasmtime} (req : ExecuteTaskRequest) : ExecTask := {| xreq := req; xpc := XStart |}.

(** Inputs for evaluations: a node with one slot, and its environments. *)
Definition demo_request (src : option WasmSource) : ExecuteTaskRequest :=
  {| req_task_id := "task-1"; req_function_name := "process"; req_input := [Byte.x01];
     req_timeout_ms := 0; req_memory_limit_mb := 0; req_trace_id := "tr"; req_wasm_source := src |}.
Definition demo_ref : ModuleRef :=
  {| mr_name := "echo"; mr_version := "1"; mr_hash := "2"; mr_fetch_url := "http://cp" |}.
Definition demo_nenv (reply : HttpReply) : NodeEnv :=
  {| nnow := 0; http := fun _ => reply; panic := None; exec_env := demo_exec 0 |}.
Definition demo_wasm : bytes := [Byte.x00; Byte.x61].
Definition demo_node_sys : @NodeSys echo_wasmtime (list_lru _) nat_semaphore :=
  @init_node echo_wasmtime (list_lru _) nat_semaphore "n1" 1 4 10.

(** ** Lemmas *)
(** Unfolds a step into its cases. *)
Ltac exec_cases Hstep t :=
  unfold exec_step, return_ in Hstep; destruct (xpc t) eqn:Hpc;
  try match type of Hpc with _ = XFinish ?r => destruct r end; simplify_eq/=;
  repeat match type of Hstep with
  | context [get_cached ?n ?k ?c] => destruct (get_cached n k c) as [[?|] ?] eqn:?
  | context [goc_lookup ?n ?k ?c] => destruct (goc_lookup n k c) as [[?|] ?] eqn:?
  | context [match ?x with _ => _ end] => destruct x eqn:?
  end; simplify_eq/=.

Section edge_lemmas.
Context `{!Wasmtime} `{!Lru CachedModule} `{!Sha2} `{!TokioSemaphore}.
Implicit Types (t : ExecTask) (w : NodeWorld) (s : NodeSys).

Definition load t : nat := (counted_active t + leaked t + abandoned t)%nat.

Lemma exec_step_permits id url e t w t' w' :
  exec_step id url e t w = Some (t', w') ->
  (available_permits (semaphore w') + holds_permit t' =
   available_permits (semaphore w) + holds_permit t)%nat.
Proof.
  intros Hstep. pose proof (try_acquire_spec (semaphore w)) as Hacq.
  unfold holds_permit. exec_cases Hstep t; rewrite ?Hpc, ?release_spec; lia.
Qed.

(** The count of active tasks and its gauge move together. *)
Lemma exec_step_active id url e t w t' w' :
  exec_step id url e t w = Some (t', w') ->
  gauge_value (ACTIVE_TASKS_GAUGE id) (nlog w') =
    gauge_value (ACTIVE_TASKS_GAUGE id) (nlog w) + Z.of_nat (load t') - Z.of_nat (load t) /\
  ((ns_active_tasks (node w') = ns_active_tasks (node w) /\ load t' = load t) \/
   (ns_active_tasks (node w') = usize_add (ns_active_tasks (node w)) 1 /\ load t' = S (load t)) \/
   (ns_active_tasks (node w') = saturating_sub (ns_active_tasks (node w)) 1 /\ load t = S (load t'))).
Proof.
  intros Hstep. unfold load, counted_active, leaked, abandoned, pc_counted.
  exec_cases Hstep t; rewrite ?Hpc; simpl; rewrite ?decide_True by done; (split; [lia|]);
    first [left; by split | right; left; by split | right; right; by split].
Qed.

Lemma exec_step_outcomes id url e t w t' w' :
  exec_step id url e t w = Some (t', w') ->
  let outcome t w := total_executed (node w) + ns_total_failed (node w) + Z.of_nat (leaked t + rejected t) in
  (outcome t' w') mod u64_mod =
    (outcome t w + Z.of_nat (returned_call t') - Z.of_nat (returned_call t)) mod u64_mod.
Proof.
  intros Hstep. unfold leaked, rejected, returned_call. simpl.
  assert (forall a b, (u64_add a 1 + b) mod u64_mod = (a + b + 1) mod u64_mod) as Hadd.
  { intros a b. unfold u64_add. rewrite Zplus_mod_idemp_l. f_equal. lia. }
  exec_cases Hstep t; rewrite ?Hpc; simpl; try (f_equal; lia).
  all: rewrite <- ?Z.add_assoc; rewrite ?(Z.add_comm (total_executed _) (u64_add _ _ + _)), ?Z.add_assoc.
  all: try (rewrite <- Z.add_assoc, Hadd; f_equal; lia).
  all: rewrite <- !Z.add_assoc, Hadd; f_equal; lia.
Qed.

Lemma exec_step_verified id url e t w t' w' :
  exec_step id url e t w = Some (t', w') -> verified t -> verified t'.
Proof.
  intros Hstep Hv. unfold verified in *. exec_cases Hstep t; rewrite ?Hpc in Hv; try done.
  2:{ split; [|done]. unfold compile in *. destruct (panic e); simplify_eq/=.
      destruct (module_new wasm); simplify_eq/=; done. }
  destruct Hv as [Hsrc ->]. eexists. split_and!; [done|done|].
  match goal with Hb : _ && _ = false |- _ => apply andb_false_iff in Hb as [Hmr|Hmr] end.
  - left. apply bool_decide_eq_false in Hmr. by apply dec_stable in Hmr.
  - right. apply negb_false_iff in Hmr. by apply bool_decide_eq_true in Hmr.
Qed.

Lemma WasmError_text e : WasmError_to_string e <> EmptyString.
Proof. by destruct e. Qed.

Lemma exec_step_answers id url e t w t' w' :
  exec_step id url e t w = Some (t', w') -> answered_well t'.
Proof.
  intros Hstep. unfold answered_well. exec_cases Hstep t; try done.
  split; [done|]. split; [done|]. intros Ht. by apply WasmError_text in Ht.
Qed.

Lemma exec_step_cache_wf id url e t w t' w' :
  exec_step id url e t w = Some (t', w') -> cache_wf (cache w) -> cache_wf (cache w').
Proof.
  intros Hstep Hwf.
  assert (forall op, cache_wf (cache_apply (cache w) op)) as Hop by (intros op; by apply cache_apply_wf).
  exec_cases Hstep t; try done.
  all: try match goal with Hg : get_cached ?n ?k _ = (_, ?c) |- cache_wf ?c =>
    specialize (Hop (OGetCached n k)); simpl in Hop; by rewrite Hg in Hop end.
  all: try match goal with Hg : goc_lookup ?n ?k _ = (_, ?c) |- cache_wf ?c =>
    specialize (Hop (OLookup n k)); simpl in Hop; by rewrite Hg in Hop end.
  apply (Hop (OInsert _ _ _ _)).
Qed.

(** The metric calls of a step: one observation when a run succeeds, together
    with the counters of the node, and otherwise none. *)
Definition quiet_op (op : MetricOp) : Prop :=
  match op with HistObserve _ _ => False | GaugeSet g _ => g = CACHE_SIZE_GAUGE | _ => True end.

Lemma exec_step_log id url e t w t' w' :
  exec_step id url e t w = Some (t', w') ->
  (exists ms, nlog w' = GaugeDec (ACTIVE_TASKS_GAUGE id) :: HistObserve TASK_EXECUTION_DURATION_MS ms :: nlog w /\
     total_executed (node w') = u64_add (total_executed (node w)) 1 /\
     total_execution_time_ms (node w') = u64_add (total_execution_time_ms (node w)) ms) \/
  (exists ops, nlog w' = ops ++ nlog w /\ Forall quiet_op ops /\ total_executed (node w') = total_executed (node w) /\
     total_execution_time_ms (node w') = total_execution_time_ms (node w)).
Proof.
  intros Hstep. exec_cases Hstep t;
    try (right; first [by exists [] | eexists [_]; split_and!; [reflexivity|by repeat constructor|done|done]]).
  left. by eexists.
Qed.

(** *** The invariant *)

Lemma total_moved (f : ExecTask -> nat) s i t t' w' :
  calls s !! i = Some t ->
  (total f {| nworld := w'; calls := <[i := t']> (calls s) |} + f t = total f s + f t')%nat.
Proof. intros Hi. unfold total. simpl. pose proof (sum_list_with_insert f _ _ _ t' Hi). lia. Qed.

Lemma total_arrived (f : ExecTask -> nat) s t :
  total f {| nworld := nworld s; calls := calls s ++ [t] |} = (total f s + f t)%nat.
Proof. unfold total. simpl. rewrite sum_list_with_app. simpl. lia. Qed.

Lemma load_bound s : (total counted_active s + total leaked s + total abandoned s <= length (calls s))%nat.
Proof.
  unfold total. induction (calls s) as [|t l IH]; simpl; [lia|].
  assert (counted_active t + leaked t + abandoned t <= 1)%nat; [|lia].
  unfold counted_active, leaked, abandoned, pc_counted. repeat case_match; lia.
Qed.

Lemma init_node_inv id n k d : node_inv id n (init_node id n k d).
Proof.
  split; try done.
  - simpl. rewrite sem_new_spec. unfold total. simpl. lia.
  - apply new_wf.
Qed.

Lemma node_exec_inv id url n s i t e t' w' :
  node_inv id n s -> calls s !! i = Some t -> exec_step id url e t (nworld s) = Some (t', w') ->
  node_inv id n {| nworld := w'; calls := <[i := t']> (calls s) |}.
Proof.
  intros [Hp Ha Hg Ho Hv Hw Hc] Hi Hstep.
  pose proof (exec_step_permits _ _ _ _ _ _ _ Hstep) as Sp.
  pose proof (exec_step_active _ _ _ _ _ _ _ Hstep) as [Sg Sa].
  pose proof (exec_step_outcomes _ _ _ _ _ _ _ Hstep) as So.
  pose proof (fun f => total_moved f s i t t' w' Hi) as Hm. unfold load in *.
  pose proof (Hm holds_permit) as M1. pose proof (Hm counted_active) as M2. pose proof (Hm leaked) as M3.
  pose proof (Hm rejected) as M4. pose proof (Hm returned_call) as M5. pose proof (Hm abandoned) as M6.
  pose proof (load_bound {| nworld := w'; calls := <[i := t']> (calls s) |}) as Hb.
  split; cbn [nworld].
  - lia.
  - simpl. rewrite length_insert. simpl in Hb. rewrite length_insert in Hb. intros Hlen. specialize (Ha Hlen).
    destruct Sa as [[-> ?]|[[-> ?]|[-> ?]]]; rewrite ?Ha; [lia| |unfold saturating_sub; lia].
    rewrite usize_add_id; lia.
  - rewrite Sg, Hg. lia.
  - simpl in So.
    replace (total_executed (node w') + ns_total_failed (node w') +
      Z.of_nat (total leaked {| nworld := w'; calls := <[i := t']> (calls s) |} +
                total rejected {| nworld := w'; calls := <[i := t']> (calls s) |}))
      with ((total_executed (node w') + ns_total_failed (node w') + Z.of_nat (leaked t' + rejected t')) +
            (Z.of_nat (total leaked s + total rejected s) - Z.of_nat (leaked t + rejected t))) by lia.
    rewrite <- Zplus_mod_idemp_l, So, Zplus_mod_idemp_l.
    replace (total_executed (node (nworld s)) + ns_total_failed (node (nworld s)) +
        Z.of_nat (leaked t + rejected t) + Z.of_nat (returned_call t') - Z.of_nat (returned_call t) +
        (Z.of_nat (total leaked s + total rejected s) - Z.of_nat (leaked t + rejected t)))
      with ((total_executed (node (nworld s)) + ns_total_failed (node (nworld s)) +
             Z.of_nat (total leaked s + total rejected s)) +
            (Z.of_nat (returned_call t') - Z.of_nat (returned_call t))) by lia.
    rewrite <- Zplus_mod_idemp_l, Ho, Zplus_mod_idemp_l. f_equal. lia.
  - apply Forall_insert; [done|]. eapply exec_step_verified; [done|]. by eapply Forall_lookup_1.
  - apply Forall_insert; [done|]. by eapply exec_step_answers.
  - by eapply exec_step_cache_wf.
Qed.

(** What dropping a suspended call changes. *)
Lemma drop_call_counts t w :
  suspended t = true ->
  let t' := (drop_call t w).1 in let w' := (drop_call t w).2 in
  (available_permits (semaphore w') + holds_permit t' = available_permits (semaphore w) + holds_permit t)%nat /\
  load t' = load t /\ leaked t' = leaked t /\ rejected t' = rejected t /\ returned_call t' = returned_call t /\
  node w' = node w /\ nlog w' = nlog w /\ cache w' = cache w /\ xreq t' = xreq t.
Proof.
  intros Hs. unfold drop_call, load, counted_active, abandoned, leaked, rejected, returned_call, holds_permit, suspended in *.
  destruct (xpc t) eqn:Hpc; try done; simpl; rewrite ?release_spec; split_and!; done || lia.
Qed.

Lemma node_drop_inv id n s i t :
  node_inv id n s -> calls s !! i = Some t -> suspended t = true ->
  node_inv id n {| nworld := (drop_call t (nworld s)).2; calls := <[i := (drop_call t (nworld s)).1]> (calls s) |}.
Proof.
  intros [Hp Ha Hg Ho Hv Hw Hc] Hi Hs.
  destruct (drop_call_counts t (nworld s) Hs) as (D1 & D2 & D3 & D4 & D5 & D6 & D7 & D8 & D9).
  assert (verified (drop_call t (nworld s)).1 /\ answered_well (drop_call t (nworld s)).1) as [Hv' Hw'] by done.
  destruct (drop_call t (nworld s)) as [t' w'] eqn:Hd. simpl in *.
  pose proof (fun f => total_moved f s i t t' w' Hi) as Hm. unfold load in D2.
  pose proof (Hm holds_permit) as M1. pose proof (Hm counted_active) as M2. pose proof (Hm leaked) as M3.
  pose proof (Hm rejected) as M4. pose proof (Hm returned_call) as M5. pose proof (Hm abandoned) as M6.
  split; cbn [nworld]; rewrite ?D6, ?D7, ?D8.
  - lia.
  - simpl. rewrite length_insert. intros Hlen. rewrite Ha by done. lia.
  - rewrite Hg. lia.
  - replace (total leaked {| nworld := w'; calls := <[i := t']> (calls s) |}) with (total leaked s) by lia.
    replace (total rejected {| nworld := w'; calls := <[i := t']> (calls s) |}) with (total rejected s) by lia.
    replace (total returned_call {| nworld := w'; calls := <[i := t']> (calls s) |}) with (total returned_call s) by lia.
    done.
  - by apply Forall_insert.
  - by apply Forall_insert.
  - done.
Qed.

Lemma node_step_inv id url n s s' : node_step id url s s' -> node_inv id n s -> node_inv id n s'.
Proof.
  intros Hstep Hinv. destruct Hstep as [s req|s i t e t' w' Hi Hd|s i t Hi Hs|s op|s].
  - destruct Hinv as [Hp Ha Hg Ho Hv Hw Hc]. split; rewrite ?total_arrived, ?Nat.add_0_r; simpl; try done.
    + rewrite length_app. simpl. intros Hlen. rewrite ?Nat.add_0_r. apply Ha. lia.
    + apply Forall_app. split; [done|]. by repeat constructor.
    + apply Forall_app. split; [done|]. by repeat constructor.
  - by eapply node_exec_inv.
  - by apply node_drop_inv.
  - destruct Hinv as [Hp Ha Hg Ho Hv Hw Hc]. split; try done. simpl. by apply cache_apply_wf.
  - by destruct Hinv.
Qed.

Lemma node_reachable_inv id url n k d s :
  rtc (node_step id url) (init_node id n k d) s -> node_inv id n s.
Proof.
  intros Hrtc. pose proof (init_node_inv id n k d) as Hinit.
  induction Hrtc; eauto using node_step_inv.
Qed.

(** The parameters of the cache never change. *)
Lemma exec_step_cache_params id url e t w t' w' :
  exec_step id url e t w = Some (t', w') ->
  capacity (cache w') = capacity (cache w) /\ ttl (cache w') = ttl (cache w).
Proof.
  intros Hstep. exec_cases Hstep t; try done;
    try match goal with
    | Hg : get_cached ?n ?k ?c = _ |- _ => pose proof (get_cached_entries n k c) as (_ & Hp); by rewrite Hg in Hp
    | Hg : goc_lookup ?n ?k ?c = _ |- _ => pose proof (goc_lookup_entries n k c) as (_ & Hp); by rewrite Hg in Hp
    end; by apply (cache_apply_params _ (OInsert _ _ _ _)).
Qed.

Lemma node_cache_params id url s s' :
  rtc (node_step id url) s s' ->
  capacity (cache (nworld s')) = capacity (cache (nworld s)) /\ ttl (cache (nworld s')) = ttl (cache (nworld s)).
Proof.
  induction 1 as [|s1 s2 s3 Hstep _ [IH1 IH2]]; [done|]. rewrite IH1, IH2.
  destruct Hstep as [s req|s i t e t' w' Hi Hd|s i t Hi Hs|s op|s]; simpl; [done| | | |done].
  - by eapply exec_step_cache_params.
  - by destruct (holds_permit t).
  - apply cache_apply_params.
Qed.

Lemma exec_run_S id url k es t w t1 w1 :
  exec_step id url (es 0%nat) t w = Some (t1, w1) ->
  exec_run id url (S k) es t w = exec_run id url k (fun i => es (S i)) t1 w1.
Proof. intros Hstep. simpl. by rewrite Hstep. Qed.

Lemma exec_step_rank id url e t w t' w' :
  exec_step id url e t w = Some (t', w') -> (exec_rank (xpc t') < exec_rank (xpc t))%nat.
Proof. intros Hstep. exec_cases Hstep t; simpl; lia. Qed.

(** A call does not drop itself. *)
Lemma own_exec_not_dropped id url k t t' :
  own_exec id url k t t' -> (forall p, xpc t <> XDropped p) -> forall p, xpc t' <> XDropped p.
Proof.
  induction 1 as [|e w w' t1 t2 t3 k' Hstep _ IH]; [done|]. intros _. apply IH. exec_cases Hstep t1; done.
Qed.

(** The latest call moves, or its caller goes away. *)
Lemma last_inserted {A} (l : list A) x y : <[length l := y]> (l ++ [x]) = l ++ [y].
Proof. induction l as [|z l IH]; [done|]. simpl. by f_equal. Qed.

Lemma last_call_steps id url w l t e t' w' :
  exec_step id url e t w = Some (t', w') ->
  node_step id url {| nworld := w; calls := l ++ [t] |} {| nworld := w'; calls := l ++ [t'] |}.
Proof.
  intros Hstep. rewrite <- (last_inserted l t t').
  apply (node_exec id url {| nworld := w; calls := l ++ [t] |} (length l) t e t' w'); [by apply list_lookup_middle|done].
Qed.

Lemma last_call_dropped id url w l t :
  suspended t = true ->
  node_step id url {| nworld := w; calls := l ++ [t] |}
    {| nworld := (drop_call t w).2; calls := l ++ [(drop_call t w).1] |}.
Proof.
  intros Hs. rewrite <- (last_inserted l t (drop_call t w).1).
  apply (node_drop id url {| nworld := w; calls := l ++ [t] |} (length l) t); [by apply list_lookup_middle|done].
Qed.

(** A call with inline bytes on its way to the guest. *)
Lemma last_call_started id url w l req b :
  req_wasm_source req = Some (SrcWasmBytes b) -> (0 < available_permits (semaphore w))%nat ->
  exists w', rtc (node_step id url) {| nworld := w; calls := l |}
      {| nworld := w'; calls := l ++ [{| xreq := req; xpc := XExecBytes b |}] |} /\
    available_permits (semaphore w) = S (available_permits (semaphore w')).
Proof.
  intros Hsrc Hfree. pose proof (try_acquire_spec (semaphore w)) as Hacq.
  destruct (try_acquire (semaphore w)) as [sm|] eqn:Ea; [|lia].
  set (e := {| nnow := 0; http := fun _ => HttpFailed EmptyString; panic := None;
    exec_env := {| ex_start := 0; ex_end := 0; ep_now := 0; ep_instantiate := fun _ => 0;
                   ep_alloc := fun _ => 0; ep_process := fun _ => 0 |} |}).
  eexists. split.
  { eapply rtc_l; [apply (node_arrive id url {| nworld := w; calls := l |} req)|].
    eapply rtc_l; [apply (last_call_steps id url w l _ e); unfold exec_step; simpl; rewrite Ea; reflexivity|].
    eapply rtc_l; [eapply (last_call_steps id url _ l _ e); reflexivity|].
    eapply rtc_l; [eapply (last_call_steps id url _ l _ e); unfold exec_step; simpl; rewrite Hsrc; reflexivity|].
    apply rtc_refl. }
  done.
Qed.

(** A call with inline bytes whose caller goes away while the guest runs. *)
Lemma guest_left_behind id url w l req b :
  req_wasm_source req = Some (SrcWasmBytes b) -> (0 < available_permits (semaphore w))%nat ->
  exists w', rtc (node_step id url) {| nworld := w; calls := l |}
      {| nworld := w'; calls := l ++ [{| xreq := req; xpc := XDropped (XExecBytes b) |}] |} /\
    available_permits (semaphore w') = available_permits (semaphore w).
Proof.
  intros Hsrc Hfree. destruct (last_call_started id url w l req b Hsrc Hfree) as (w1 & Hrtc & Hp).
  eexists. split; [eapply rtc_r; [exact Hrtc|by apply (last_call_dropped id url)]|].
  simpl. by rewrite release_spec.
Qed.

(** Load that no running call stands for: it is for good. *)
Definition phantom (t : ExecTask) : nat := (leaked t + abandoned t)%nat.

Lemma exec_step_phantom id url e t w t' w' :
  exec_step id url e t w = Some (t', w') -> (phantom t <= phantom t')%nat.
Proof. intros Hstep. unfold phantom, leaked, abandoned. exec_cases Hstep t; lia. Qed.

Lemma node_step_phantom id url s s' : node_step id url s s' -> (total phantom s <= total phantom s')%nat.
Proof.
  intros [s0 req|s0 i t e t' w' Hi Hd|s0 i t Hi Hs|s0 op|s0]; [rewrite total_arrived; lia| | |done..].
  - pose proof (total_moved phantom s0 i t t' w' Hi). pose proof (exec_step_phantom _ _ _ _ _ _ _ Hd). lia.
  - pose proof (total_moved phantom s0 i t (drop_call t (nworld s0)).1 (drop_call t (nworld s0)).2 Hi).
    assert (phantom t = 0%nat); [|lia].
    unfold phantom, leaked, abandoned, suspended in *. by destruct (xpc t).
Qed.

(** A counted call that is dropped is load nobody stands for. *)
Lemma drop_call_phantom s i t :
  calls s !! i = Some t -> suspended t = true -> counted_active t = 1%nat ->
  total phantom {| nworld := (drop_call t (nworld s)).2; calls := <[i := (drop_call t (nworld s)).1]> (calls s) |}
    = S (total phantom s).
Proof.
  intros Hi Hs Hc. pose proof (total_moved phantom s i t (drop_call t (nworld s)).1 (drop_call t (nworld s)).2 Hi) as Hm.
  assert (phantom t = 0%nat /\ phantom (drop_call t (nworld s)).1 = 1%nat) as [H1' H2']; [|lia].
  unfold phantom, leaked, abandoned, counted_active, suspended in *. simpl. rewrite Hc. by destruct (xpc t).
Qed.

Lemma total_phantom s : total phantom s = (total leaked s + total abandoned s)%nat.
Proof. unfold total, phantom. induction (calls s) as [|t l IH]; simpl; lia. Qed.

Lemma node_rtc_phantom id url s s' :
  rtc (node_step id url) s s' -> (total phantom s <= total phantom s')%nat.
Proof.
  induction 1 as [|s1 s2 s3 Hstep _ IH]; [lia|]. pose proof (node_step_phantom _ _ _ _ Hstep). lia.
Qed.

(** A call alone on the node. *)
Lemma exec_run_rtc id url k es t w t' w' :
  exec_run id url k es t w = Some (t', w') ->
  rtc (node_step id url) {| nworld := w; calls := [t] |} {| nworld := w'; calls := [t'] |}.
Proof.
  revert es t w. induction k as [|k IH]; intros es t w Hrun; simpl in Hrun; [by simplify_eq|].
  apply bind_Some in Hrun as ([t1 w1] & Hstep & Hrun). eapply rtc_l; [|by eapply IH].
  exact (node_exec id url {| nworld := w; calls := [t] |} 0%nat t (es 0%nat) t1 w1 eq_refl Hstep).
Qed.

(** The reported load is at least the phantom load of any earlier state. *)
Lemma node_reported_load id url n k d s s' :
  rtc (node_step id url) (init_node id n k d) s -> rtc (node_step id url) s s' ->
  Z.of_nat (length (calls s')) < u32_mod ->
  Z.of_nat (total phantom s) <= hr_active_tasks (node_health id (node (nworld s'))).
Proof.
  intros Hs Hs' Hlen.
  assert (rtc (node_step id url) (init_node id n k d) s') as Hr by by etrans.
  apply node_reachable_inv in Hr as [_ Ha _ _ _ _ _].
  pose proof (node_rtc_phantom _ _ _ _ Hs') as Hph. rewrite !total_phantom in *. pose proof (load_bound s') as Hb.
  unfold node_health, as_u32. simpl. rewrite Ha by (unfold u32_mod, u64_mod in *; lia).
  rewrite Z.mod_small; lia.
Qed.

End edge_lemmas.

(** *** Concrete runs *)

Abbreviation demo_step := (@node_step echo_wasmtime (list_lru _) toy_sha2 nat_semaphore "n1" "http://cp").

(** One call, run to its end. *)
Lemma demo_call_rtc reply src k t' w' :
  exec_run (Lru0 := list_lru _) (H0 := toy_sha2) "n1" "http://cp" k (fun _ => demo_nenv reply)
    (arrival (demo_request src)) (nworld demo_node_sys) = Some (t', w') ->
  rtc demo_step demo_node_sys {| nworld := w'; calls := [t'] |}.
Proof.
  intros Hrun%exec_run_rtc. eapply rtc_l; [|exact Hrun].
  exact (node_arrive "n1" "http://cp" demo_node_sys (demo_request src)).
Qed.

(** A call whose download fails. *)
Definition demo_leaky_node : @NodeSys echo_wasmtime (list_lru _) nat_semaphore :=
  match exec_run (Lru0 := list_lru _) (H0 := toy_sha2) "n1" "http://cp" 5
          (fun _ => demo_nenv (HttpFailed "down"))
          (arrival (demo_request (Some (SrcModuleRef demo_ref)))) (nworld demo_node_sys) with
  | Some (t, w) => {| nworld := w; calls := [t] |}
  | None => demo_node_sys
  end.

Lemma demo_failed_download :
  rtc demo_step demo_node_sys demo_leaky_node /\ total leaked demo_leaky_node = 1%nat /\
  total counted_active demo_leaky_node = 0%nat /\ total abandoned demo_leaky_node = 0%nat /\ length (calls demo_leaky_node) = 1%nat.
Proof.
  split; [apply (demo_call_rtc (HttpFailed "down") (Some (SrcModuleRef demo_ref)) 5); reflexivity|].
  split_and!; reflexivity.
Qed.

(** A call that is served from a downloaded module. *)
Lemma demo_served_call :
  exists s t r, rtc demo_step demo_node_sys s /\ calls s = [t] /\ xpc t = XDone (Ok r).
Proof.
  eexists _, _, _. split; [apply (demo_call_rtc (HttpStatus true "200" (Ok demo_wasm)) (Some (SrcModuleRef demo_ref)) 11); reflexivity|].
  split; reflexivity.
Qed.

(** ** Properties *)

(** C11. Admission control. However calls interleave, at most [max_tasks] of them
    hold a permit at any time, and a call is turned away with
    [ResourceExhausted] exactly when that many are being served. *)
Theorem node_admission `{!Wasmtime} `{!Lru CachedModule} `{!Sha2} `{!TokioSemaphore} id url n k d s e t :
  rtc (node_step id url) (init_node id n k d) s -> xpc t = XStart ->
  (total holds_permit s <= n)%nat /\
  exists t' w', exec_step id url e t (nworld s) = Some (t', w') /\
    ((exists st, xpc t' = XDone (Err st) /\ code st = ResourceExhausted) <-> total holds_permit s = n).
Proof.
  intros Hrtc Hpc. apply node_reachable_inv in Hrtc as [Hp _ _ _ _ _ _]. split; [lia|].
  pose proof (try_acquire_spec (semaphore (nworld s))) as Hacq.
  unfold exec_step. rewrite Hpc. destruct (try_acquire _) as [sm|]; do 2 eexists; (split; [reflexivity|]); simpl.
  - split; [intros (st & Heq & _); done|lia].
  - split; [lia|]. intros _. eauto.
Qed.

Lemma node_admission_witness :
  exists t' w', exec_step (H0 := toy_sha2) "n1" "http://cp" (demo_nenv (HttpFailed "down"))
      (arrival (demo_request None)) (nworld demo_node_sys) = Some (t', w') /\
    (total holds_permit demo_node_sys <= 1)%nat.
Proof.
  destruct (@node_admission echo_wasmtime (list_lru _) toy_sha2 nat_semaphore "n1" "http://cp" 1 4 10
    demo_node_sys (demo_nenv (HttpFailed "down")) (arrival (demo_request None)) (rtc_refl _ _) eq_refl)
    as (Hle & t' & w' & Hstep & _).
  exists t', w'. split; [exact Hstep|exact Hle].
Defined.

(** C27. Load accounting. In every reachable state of a node (up to 2^64 calls),
    [active_tasks] and its Prometheus gauge both equal the calls being served
    plus the calls that have ended in a failed download or compilation, whose
    early returns never take the count back, plus the calls whose caller went
    away after they had been counted, since nothing takes the count back when a
    future is dropped. *)
Theorem node_load_accounting `{!Wasmtime} `{!Lru CachedModule} `{!Sha2} `{!TokioSemaphore} id url n k d s :
  rtc (node_step id url) (init_node id n k d) s -> Z.of_nat (length (calls s)) < u64_mod ->
  ns_active_tasks (node (nworld s)) = Z.of_nat (total counted_active s + total leaked s + total abandoned s) /\
  gauge_value (ACTIVE_TASKS_GAUGE id) (nlog (nworld s)) = Z.of_nat (total counted_active s + total leaked s + total abandoned s).
Proof. intros Hrtc Hlen. apply node_reachable_inv in Hrtc as [_ Ha Hg _ _ _ _]. auto. Qed.

Lemma node_load_accounting_witness :
  exists s, rtc demo_step demo_node_sys s /\ ns_active_tasks (node (nworld s)) = 1 /\ total counted_active s = 0%nat.
Proof.
  destruct demo_failed_download as (Hrtc & Hl & Hc & Ha & Hn). exists demo_leaky_node. split; [exact Hrtc|]. split; [|exact Hc].
  assert (Z.of_nat (length (calls demo_leaky_node)) < u64_mod) as Hlen by (rewrite Hn; reflexivity).
  rewrite (proj1 (@node_load_accounting echo_wasmtime (list_lru _) toy_sha2 nat_semaphore "n1" "http://cp" 1 4 10
    demo_leaky_node Hrtc Hlen)), Hl, Hc, Ha. reflexivity.
Defined.

(** The permits bound the calls, not the guests. On a node with any number of
    slots, callers that go away while their guest runs leave behind as many
    guests on the blocking pool as they like, with all permits free: a guest is
    not stopped when its call is dropped, and its permit is given back. *)
Theorem dropped_guests_unbounded `{!Wasmtime} `{!Lru CachedModule} `{!Sha2} `{!TokioSemaphore} id url n k d m req b :
  (0 < n)%nat -> req_wasm_source req = Some (SrcWasmBytes b) ->
  exists s, rtc (node_step id url) (init_node id n k d) s /\
    total detached_guest s = m /\ total holds_permit s = 0%nat /\
    available_permits (semaphore (nworld s)) = n.
Proof.
  intros Hn Hsrc. induction m as [|m (s & Hrtc & Hd & Hh & Hp)].
  - exists (init_node id n k d). split_and!; [apply rtc_refl|done|done|apply sem_new_spec].
  - destruct s as [w l]. simpl in Hp.
    destruct (guest_left_behind id url w l req b Hsrc) as (w' & Hs & Hsem); [lia|].
    eexists. split; [by etrans|]. unfold total in *. simpl in *. rewrite !sum_list_with_app, Hd, Hh. simpl.
    split_and!; [lia|done|lia].
Qed.

Lemma dropped_guests_unbounded_witness :
  exists s, rtc demo_step demo_node_sys s /\ total detached_guest s = 7%nat /\ total holds_permit s = 0%nat.
Proof.
  destruct (@dropped_guests_unbounded echo_wasmtime (list_lru _) toy_sha2 nat_semaphore "n1" "http://cp" 1 4 10
    7 (demo_request (Some (SrcWasmBytes demo_wasm))) demo_wasm ltac:(apply le_n) eq_refl) as (s & Hrtc & Hd & Hh & _).
  exists s. split; [exact Hrtc|]. split; [exact Hd|exact Hh].
Defined.

(** Outcome accounting. Every call that has returned was either executed,
    counted as failed, turned away for lack of a permit, or lost to a failed
    download or compilation, which no counter records. *)
Theorem node_outcome_accounting `{!Wasmtime} `{!Lru CachedModule} `{!Sha2} `{!TokioSemaphore} id url n k d s :
  rtc (node_step id url) (init_node id n k d) s ->
  (total_executed (node (nworld s)) + ns_total_failed (node (nworld s))
     + Z.of_nat (total leaked s + total rejected s)) mod u64_mod =
  Z.of_nat (total returned_call s) mod u64_mod.
Proof. intros Hrtc. by apply node_reachable_inv in Hrtc as [_ _ _ Ho _ _ _]. Qed.

Lemma node_outcome_accounting_witness :
  exists s, rtc demo_step demo_node_sys s /\
    (total_executed (node (nworld s)) + ns_total_failed (node (nworld s))
      + Z.of_nat (total leaked s + total rejected s)) mod u64_mod = 1.
Proof.
  destruct demo_served_call as (s & t & r & Hrtc & Hc & Ht). exists s. split; [exact Hrtc|].
  rewrite (@node_outcome_accounting echo_wasmtime (list_lru _) toy_sha2 nat_semaphore "n1" "http://cp" 1 4 10
    s Hrtc).
  unfold total. rewrite Hc. simpl. unfold returned_call. rewrite Ht. reflexivity.
Defined.

(** Answers are faithful. Under any interleaving, a call that returned a
    response returned one with its own task id, and the response reports success
    exactly when it carries no error text. *)
Theorem node_answers `{!Wasmtime} `{!Lru CachedModule} `{!Sha2} `{!TokioSemaphore} id url n k d s i t r :
  rtc (node_step id url) (init_node id n k d) s -> calls s !! i = Some t -> xpc t = XDone (Ok r) ->
  resp_task_id r = req_task_id (xreq t) /\ (resp_success r = true <-> resp_error r = EmptyString).
Proof.
  intros Hrtc Hi Ht. apply node_reachable_inv in Hrtc as [_ _ _ _ _ Hw _].
  pose proof (Forall_lookup_1 _ _ _ _ Hw Hi) as Ha. unfold answered_well in Ha. by rewrite Ht in Ha.
Qed.

Lemma node_answers_witness :
  exists s t r, rtc demo_step demo_node_sys s /\ calls s !! 0%nat = Some t /\
    resp_task_id r = req_task_id (xreq t).
Proof.
  destruct demo_served_call as (s & t & r & Hrtc & Hc & Ht).
  assert (calls s !! 0%nat = Some t) as Hi by (rewrite Hc; reflexivity).
  exists s, t, r. split; [exact Hrtc|]. split; [exact Hi|].
  exact (proj1 (@node_answers echo_wasmtime (list_lru _) toy_sha2 nat_semaphore "n1" "http://cp" 1 4 10
    s 0%nat t r Hrtc Hi Ht)).
Defined.

(** ** Where downloads come from *)
Section fed.
Context `{!Wasmtime} `{!Lru CachedModule} `{!Sha2} `{!TokioSemaphore}.

(** [content u b]: a GET of [u] is answered with success and the bytes [b]. *)
Context (content : string -> bytes -> Prop) (id url : string).

Definition fed (e : NodeEnv) : Prop :=
  forall u display b, http e u = HttpStatus true display (Ok b) -> content u b.

(** The steps of a node whose downloads are answered from [content]: those in which
    a call runs, and those in which none does. *)
Inductive fed_step : NodeSys -> NodeSys -> Prop :=
| fed_exec s i t e t' w' :
    calls s !! i = Some t -> exec_step id url e t (nworld s) = Some (t', w') -> fed e ->
    fed_step s {| nworld := w'; calls := <[i := t']> (calls s) |}
| fed_idle s s' :
    node_step id url s s' ->
    (forall i t, calls s' !! i = Some t -> calls s !! i = Some t \/ xpc t = XStart \/ exists p, xpc t = XDropped p) ->
    fed_step s s'.

(** The bytes a call is working on were served at the URL of its module. *)
Definition fetched (t : ExecTask) : Prop :=
  match xpc t with
  | XGocLookup _ wasm | XCompile _ wasm | XGocInsert _ wasm _ =>
      exists mr, req_wasm_source (xreq t) = Some (SrcModuleRef mr) /\
        content (url +:+ "/modules/" +:+ mr_name mr +:+ "/" +:+ mr_version mr) wasm
  | _ => True
  end.

Lemma fed_step_node s s' : fed_step s s' -> node_step id url s s'.
Proof. intros [s0 i t e t' w' Hi Hs _|s0 s1 Hs _]; [by eapply node_exec|done]. Qed.

Lemma exec_step_fetched e t w t' w' :
  exec_step id url e t w = Some (t', w') -> fed e -> verified t -> fetched t -> fetched t'.
Proof.
  intros Hstep Hfed Hv Hf. unfold fetched, verified in *. exec_cases Hstep t; rewrite ?Hpc in Hf, Hv; try done.
  destruct Hv as [Hsrc _]. exists mr. split; [done|].
  match goal with Hd : download _ _ _ _ = Ok _ |- _ => unfold download, download_url in Hd end.
  repeat case_match; simplify_eq/=. match goal with Hb : negb ?b = false |- _ => destruct b; [|done] end. by eapply Hfed.
Qed.

Lemma fed_steps_fetched n k d s :
  rtc fed_step (init_node id n k d) s -> Forall fetched (calls s).
Proof.
  intros Hrtc. assert (forall s1 s2, rtc fed_step s1 s2 -> rtc (node_step id url) s1 s2) as Hnode
    by (intros s1 s2; apply rtc_subrel; apply fed_step_node).
  revert s Hrtc. refine (rtc_ind_r _ _ _ _); [constructor|]. intros s1 s2 Hrtc Hstep IH.
  pose proof (node_reachable_inv _ _ _ _ _ _ (Hnode _ _ Hrtc)) as [_ _ _ _ Hv _ _].
  destruct Hstep as [s i t e t' w' Hi Hex Hfed|s s' Hs Hq].
  - apply Forall_insert; [done|]. by eapply exec_step_fetched; [| |eapply Forall_lookup_1|eapply Forall_lookup_1].
  - apply Forall_lookup_2. intros i t [Hi|[Hx|[p Hx]]]%Hq; [by eapply Forall_lookup_1|unfold fetched; by rewrite Hx..].
Qed.

(** One call on an idle node, its downloads answered from [content]. *)
Lemma fed_run_rtc k es t w t' w' :
  exec_run id url k es t w = Some (t', w') -> (forall i, fed (es i)) ->
  rtc fed_step {| nworld := w; calls := [t] |} {| nworld := w'; calls := [t'] |}.
Proof.
  revert es t w. induction k as [|k IH]; intros es t w Hrun Hfed; simpl in Hrun; [by simplify_eq|].
  apply bind_Some in Hrun as ([t1 w1] & Hs & Hrun). eapply rtc_l.
  - by eapply (fed_exec {| nworld := w; calls := [t] |} 0 t (es 0%nat)).
  - simpl. by apply (IH (fun i => es (S i)) t1 w1).
Qed.

Lemma fed_call_rtc k es req n c d t' w' :
  exec_run id url k es (arrival req) (nworld (init_node id n c d)) = Some (t', w') -> (forall i, fed (es i)) ->
  rtc fed_step (init_node id n c d) {| nworld := w'; calls := [t'] |}.
Proof.
  intros Hrun Hfed. eapply rtc_l; [|by eapply fed_run_rtc].
  apply fed_idle; [apply (node_arrive id url (init_node id n c d) req)|].
  intros [|i] t; [|done]. intros [= <-]. right. by left.
Qed.

End fed.

(** C13. Integrity of downloaded modules. Let the control plane answer successful
    GETs with what [content] says is at a URL, and nothing else be assumed of the
    network. Under any interleaving, the module a call is about to put into the
    cache was compiled from bytes that were served at
    [<control plane>/modules/<name>/<version>] for the name and version of that
    call's module reference; it is filed under that name and version, and the
    SHA-256 of those bytes is the announced one (unless the reference announces none). *)
Theorem node_download_integrity `{!Wasmtime} `{!Lru CachedModule} `{!Sha2} `{!TokioSemaphore}
    (content : string -> bytes -> Prop) id url n k d s i t key wasm m :
  rtc (fed_step content id url) (init_node id n k d) s -> calls s !! i = Some t -> xpc t = XGocInsert key wasm m ->
  module_new wasm = Ok m /\
  exists mr, req_wasm_source (xreq t) = Some (SrcModuleRef mr) /\ key = mr_name mr +:+ ":" +:+ mr_version mr /\
    content (url +:+ "/modules/" +:+ mr_name mr +:+ "/" +:+ mr_version mr) wasm /\
    (mr_hash mr = EmptyString \/ sha256_hex wasm = mr_hash mr).
Proof.
  intros Hrtc Hi Ht. pose proof (fed_steps_fetched _ _ _ _ _ _ _ Hrtc) as Hf.
  apply (rtc_subrel _ _ _ _ (fed_step_node content id url)) in Hrtc.
  apply node_reachable_inv in Hrtc as [_ _ _ _ Hv _ _].
  pose proof (Forall_lookup_1 _ _ _ _ Hv Hi) as Ha. pose proof (Forall_lookup_1 _ _ _ _ Hf Hi) as Hb.
  unfold verified, fetched in Ha, Hb. rewrite Ht in Ha, Hb. destruct Ha as (Hm & mr & Hsrc & -> & Hh).
  destruct Hb as (mr' & Hsrc' & Hc). rewrite Hsrc in Hsrc'. injection Hsrc' as <-. split; [done|]. by exists mr.
Qed.

(** A reference that announces a hash, a server that has one module, and a call
    that has compiled its download. *)
Definition demo_hashed_ref : ModuleRef :=
  {| mr_name := "echo"; mr_version := "1"; mr_hash := @sha256_hex toy_sha2 demo_wasm; mr_fetch_url := EmptyString |}.
Definition demo_content (u : string) (b : bytes) : Prop := u = "http://cp/modules/echo/1" /\ b = demo_wasm.
Definition demo_fed_env : NodeEnv :=
  {| nnow := 0; http := fun u => if decide (u = "http://cp/modules/echo/1") then HttpStatus true "200" (Ok demo_wasm)
                                 else HttpStatus false "404" (Ok []);
     panic := None; exec_env := demo_exec 0 |}.

Lemma demo_fed_call :
  exists s t, rtc (@fed_step echo_wasmtime (list_lru _) toy_sha2 nat_semaphore demo_content "n1" "http://cp") demo_node_sys s /\
    calls s = [t] /\ xpc t = XGocInsert "echo:1" demo_wasm (tt : @Module echo_wasmtime) /\
    req_wasm_source (xreq t) = Some (SrcModuleRef demo_hashed_ref).
Proof.
  eexists _, _. split.
  { apply (@fed_call_rtc echo_wasmtime (list_lru _) toy_sha2 nat_semaphore demo_content "n1" "http://cp" 7
      (fun _ => demo_fed_env) (demo_request (Some (SrcModuleRef demo_hashed_ref))) 1 4 10).
    - reflexivity.
    - intros _ u display b. simpl. case_decide; intros [= _ <-]. by split. }
  split_and!; reflexivity.
Qed.

Lemma node_download_integrity_witness :
  exists t : @ExecTask echo_wasmtime,
    req_wasm_source (xreq t) = Some (SrcModuleRef demo_hashed_ref) /\ mr_hash demo_hashed_ref <> EmptyString /\
    demo_content ("http://cp" +:+ "/modules/" +:+ mr_name demo_hashed_ref +:+ "/" +:+ mr_version demo_hashed_ref) demo_wasm /\
    (mr_hash demo_hashed_ref = EmptyString \/ @sha256_hex toy_sha2 demo_wasm = mr_hash demo_hashed_ref).
Proof.
  destruct demo_fed_call as (s & t & Hrtc & Hc & Ht & Hr).
  assert (calls s !! 0%nat = Some t) as Hi by (rewrite Hc; reflexivity).
  destruct (@node_download_integrity echo_wasmtime (list_lru _) toy_sha2 nat_semaphore demo_content "n1" "http://cp" 1 4 10
    s 0%nat t "echo:1" demo_wasm tt Hrtc Hi Ht) as (_ & mr & Hsrc & _ & Hct & Hh).
  rewrite Hr in Hsrc. injection Hsrc as <-. exists t. split; [exact Hr|]. split; [vm_compute; discriminate|].
  split; [exact Hct|exact Hh].
Defined.

(** The hash is only checked on a download: when the module is in the cache,
    the step is the same whatever hash the reference announces, so a new upload
    under a cached name and version is not noticed before the TTL is over. *)
Theorem cache_hit_ignores_hash `{!Wasmtime} `{!Lru CachedModule} `{!Sha2} `{!TokioSemaphore}
    id url e t w mr mr' key m :
  xpc t = XLookup mr key -> (get_cached (nnow e) key (cache w)).1 = Some m ->
  exec_step id url e t w = exec_step id url e (xgoto (XLookup mr' key) t) w /\
  exists w', exec_step id url e t w = Some (xgoto (XExecModule m) t, w').
Proof.
  intros Ht Hm. unfold exec_step. rewrite Ht. simpl.
  destruct (get_cached _ _ _) as [[m'|] c]; simplify_eq/=. split; [done|]. eauto.
Qed.

Lemma cache_hit_ignores_hash_witness :
  exists w w', (get_cached (Lru0 := list_lru _) 0 "echo:1" (cache w)).1 = Some (tt : @Module echo_wasmtime) /\
    exec_step (H0 := toy_sha2) (H1 := nat_semaphore) "n1" "http://cp" (demo_nenv (HttpFailed "down"))
      {| xreq := demo_request (Some (SrcModuleRef demo_ref)); xpc := XLookup demo_ref "echo:1" |} w =
    Some (xgoto (XExecModule (tt : @Module echo_wasmtime))
      {| xreq := demo_request (Some (SrcModuleRef demo_ref)); xpc := XLookup demo_ref "echo:1" |}, w').
Proof.
  set (w := on_cache (@goc_insert echo_wasmtime (list_lru _) 0 "echo:1" demo_wasm tt (cache (nworld demo_node_sys)))
    (nworld demo_node_sys)).
  assert ((get_cached (Lru0 := list_lru _) 0 "echo:1" (cache w)).1 = Some (tt : @Module echo_wasmtime)) as Hg
    by reflexivity.
  destruct (@cache_hit_ignores_hash echo_wasmtime (list_lru _) toy_sha2 nat_semaphore "n1" "http://cp"
    (demo_nenv (HttpFailed "down"))
    {| xreq := demo_request (Some (SrcModuleRef demo_ref)); xpc := XLookup demo_ref "echo:1" |}
    w demo_ref demo_ref "echo:1" tt eq_refl Hg) as (_ & w' & Hw').
  exists w, w'. split; [exact Hg|exact Hw'].
Defined.

(** A call comes to an end: whatever other calls do in between, it takes at
    most twelve steps, and as long as it has not returned it can always take the
    next one. *)
Theorem node_call_terminates `{!Wasmtime} `{!Lru CachedModule} `{!Sha2} `{!TokioSemaphore} id url req k t :
  own_exec id url k (arrival req) t ->
  (k <= 12)%nat /\ (returned_call t = 1%nat \/ forall e w, is_Some (exec_step id url e t w)).
Proof.
  intros Hrun. split.
  - assert (forall k t1 t2, own_exec id url k t1 t2 -> (k + exec_rank (xpc t2) <= exec_rank (xpc t1))%nat) as Hr.
    { induction 1 as [|e w w' t1 t2 t3 k' Hstep _ IH]; [lia|].
      pose proof (exec_step_rank _ _ _ _ _ _ _ Hstep). lia. }
    specialize (Hr _ _ _ Hrun). simpl in Hr. lia.
  - pose proof (own_exec_not_dropped id url k _ t Hrun ltac:(done)) as Hnd.
    unfold returned_call, exec_step, return_. destruct (xpc t) eqn:Hpc; [right..|by left|by edestruct Hnd];
      intros e w; repeat case_match; eauto.
Qed.

Lemma node_call_terminates_witness :
  own_exec (Lru0 := list_lru _) (H0 := toy_sha2) (H1 := nat_semaphore) "n1" "http://cp" 0
    (arrival (demo_request None)) (@arrival echo_wasmtime (demo_request None)) /\ (0 <= 12)%nat.
Proof.
  assert (own_exec (Lru0 := list_lru _) (H0 := toy_sha2) (H1 := nat_semaphore) "n1" "http://cp" 0
    (arrival (demo_request None)) (@arrival echo_wasmtime (demo_request None))) as Hr by constructor.
  split; [exact Hr|].
  exact (proj1 (@node_call_terminates echo_wasmtime (list_lru _) toy_sha2 nat_semaphore "n1" "http://cp"
    (demo_request None) 0 _ Hr)).
Defined.

(** Running a module by reference gives what running its bytes gives: for
    bytes that validate and compile to [m], the guest step on the cached [m] and
    the guest step on the bytes produce the same outcome for the same request
    and environment. *)
Theorem cached_execution_equivalent `{!Wasmtime} `{!Lru CachedModule} `{!Sha2} `{!TokioSemaphore}
    id url e t w b m :
  validate b = Ok tt -> module_new b = Ok m ->
  exec_step id url e (xgoto (XExecModule m) t) w = exec_step id url e (xgoto (XExecBytes b) t) w.
Proof.
  intros Hv Hm. unfold exec_step, execute, execute_compiled, execute_sync. simpl. rewrite Hv, Hm. done.
Qed.

Lemma cached_execution_equivalent_witness :
  exec_step (Lru0 := list_lru _) (H0 := toy_sha2) (H1 := nat_semaphore) "n1" "http://cp" (demo_nenv (HttpFailed "down"))
    (xgoto (XExecModule (tt : @Module echo_wasmtime)) (arrival (demo_request None))) (nworld demo_node_sys) =
  exec_step (Lru0 := list_lru _) (H0 := toy_sha2) (H1 := nat_semaphore) "n1" "http://cp" (demo_nenv (HttpFailed "down"))
    (xgoto (XExecBytes demo_wasm) (arrival (demo_request None))) (nworld demo_node_sys).
Proof.
  exact (@cached_execution_equivalent echo_wasmtime (list_lru _) toy_sha2 nat_semaphore "n1" "http://cp"
    (demo_nenv (HttpFailed "down")) (arrival (demo_request None)) (nworld demo_node_sys) demo_wasm tt eq_refl eq_refl).
Defined.
