(* ===== verification/NodeMain.v ===== *)
(** * The edge node process: start-up, registration and admin server

    Models [services/edge-node/src/main.rs] (what [main] builds from the
    environment, and the registration request it sends) and the HTTP admin
    server of [services/edge-node/src/metrics.rs] (its routes, the warm-up
    handler behind its extractor, the memory report with the resident set size
    read from [/proc/self/status]); and the start-up of the control plane
    ([services/control-plane/src/main.rs]). Composed with [Routes], this is how a
    node gets into the control plane's table and how an upload gets into a
    node's cache before its first task. *)

From Stdlib Require Import Ascii.
From S2P Require Import Prelude RustStd RustText Common Config Http Registry Sandbox ModuleCache AppState.
From S2P Require Import Dispatch Handlers Routes EdgeNode.
(** [Env] is the process environment here, not the inputs of a dispatch step. *)
Abbreviation Env := RustText.Env.

(** ** Memory report (metrics.rs) *)

(** One line of the status file. *)
Definition rss_of_line (line : string) : option Z :=
  if String.prefix "VmRSS:" line
  then match split_whitespace line !! 1%nat with
       | Some kb_str => match parse_u64 kb_str with Ok kb => Some (u64_mul kb 1024) | Err _ => None end
       | None => None
       end
  else None.

(** [content] is what reading [/proc/self/status] gives. *)
Definition read_rss_bytes (content : option string) : Z :=
  match content with
  | None => 0
  | Some text => default 0 (head (omap rss_of_line (lines text)))
  end.

(** ** Admin server (metrics.rs) *)

Inductive AdminEndpoint := AeMetrics | AeDebugMemory | AeCacheWarm.

(** The router of [spawn_metrics_server]. *)
Definition admin_router : list (Route AdminEndpoint) :=
  [{| rt_path := "/metrics"; rt_method := GET; rt_endpoint := AeMetrics |};
   {| rt_path := "/debug/memory"; rt_method := GET; rt_endpoint := AeDebugMemory |};
   {| rt_path := "/cache/warm"; rt_method := POST; rt_endpoint := AeCacheWarm |}].

Definition de_WarmCacheRequest (j : Json) : option WarmCacheRequest :=
  fs ← struct_fields ["name"; "version"; "wasm_bytes_base64"] j;
  match fs with
  | [n; v; w] =>
      name ← de_req de_string n; version ← de_req de_string v; wasm ← de_req de_string w;
      Some {| wc_name := name; wc_version := version; wc_wasm_bytes_base64 := wasm |}
  | _ => None
  end.

(** Response bodies; the text of the Prometheus exporter is in [Metrics]. *)
Inductive AdminPayload :=
| APMetricsText
| APMemory (r : MemoryReport)
| APWarmed (key : string)
| APError (msg : string)
| APRejection.

(** What an admin request reads from outside. *)
Record AdminEnv := {
  ae_now1 : Instant;
  ae_now2 : Instant;
  ae_panic : option string;
  ae_status_file : option string
}.

Section admin.
Context `{!Wasmtime} `{!Lru CachedModule} `{!TokioSemaphore} `{!Base64} `{!Axum}.

Definition admin_serve (e : AdminEnv) (m : Method) (path : string) (b : Body) (w : NodeWorld)
    : Z * AdminPayload * NodeWorld :=
  match route AdminEndpoint admin_router m path with
  | NoRoute => (404, APRejection, w)
  | MethodNotAllowed => (405, APRejection, w)
  | Matched AeMetrics _ => (200, APMetricsText, w)
  | Matched AeDebugMemory _ => (200, APMemory (memory_handler (read_rss_bytes (ae_status_file e)) w), w)
  | Matched AeCacheWarm _ =>
      match json_extract b with
      | Err status => (status, APRejection, w)
      | Ok j =>
          match de_WarmCacheRequest j with
          | None => (422, APRejection, w)
          | Some body =>
              let '((status, out), w') := warm_cache_handler (ae_now1 e) (ae_now2 e) (ae_panic e) body w in
              (status, match out with inl key => APWarmed key | inr msg => APError msg end, w')
          end
      end
  end.

(** *** A warm-up between its guards

    [admin_serve] answers a request in one go. The handler of a warm-up suspends
    between the critical sections of the cache, and calls may use the cache in
    between: [warm_step] takes it from one section to the next. *)

(** The warm-up a request starts, if it reaches its handler. *)
Definition admin_warm (m : Method) (path : string) (b : Body) : option WarmCacheRequest :=
  match route AdminEndpoint admin_router m path, json_extract b with
  | Matched AeCacheWarm _, Ok j => de_WarmCacheRequest j
  | _, _ => None
  end.

Inductive warm_pc :=
| WBody (body : WarmCacheRequest)
| WLookup (key : string) (wasm : bytes)
| WCompile (key : string) (wasm : bytes)
| WInsert (key : string) (wasm : bytes) (m : Module)
| WStats (key : string)
| WDone (status : Z) (out : string + string).

(** One section of [warm_cache_handler] and of the [get_or_compile] it calls. *)
Definition warm_step (now : Instant) (pn : option string) (p : warm_pc) (w : NodeWorld) : warm_pc * NodeWorld :=
  match p with
  | WBody body =>
      match b64_decode (wc_wasm_bytes_base64 body) with
      | Err e => (WDone 400 (inr ("invalid base64: " +:+ e)), w)
      | Ok b => (WLookup (wc_name body +:+ ":" +:+ wc_version body) b, w)
      end
  | WLookup key b =>
      let '(hit, c) := goc_lookup now key (cache w) in
      (match hit with Some _ => WStats key | None => WCompile key b end, on_cache c w)
  | WCompile key b =>
      match compile pn b with
      | Ok m => (WInsert key b m, w)
      | Err e => (WDone 500 (inr (WasmError_to_string e)), w)
      end
  | WInsert key b m => (WStats key, on_cache (goc_insert now key b m (cache w)) w)
  | WStats key => (WDone 200 (inl key), sync_cache_gauge w)
  | WDone status out => (WDone status out, w)
  end.

(** [n] sections that nobody comes between. *)
Fixpoint warm_run (n : nat) (nows : nat -> Instant) (pn : option string) (p : warm_pc) (w : NodeWorld)
    : warm_pc * NodeWorld :=
  match n with
  | O => (p, w)
  | S n' => let '(p', w') := warm_step (nows 0%nat) pn p w in warm_run n' (fun i => nows (S i)) pn p' w'
  end.

(** The body [warm_nodes] of the control plane posts. *)
Definition warm_json (p : WarmRequest) : Json :=
  JObj [("name", JStr (warm_name p)); ("version", JStr (warm_version p));
        ("wasm_bytes_base64", JStr (warm_wasm_bytes_base64 p))].

End admin.

(** ** Start-up of the edge node (main.rs) *)

Definition local_hostname (env : Env) : string := setting env "HOSTNAME" "127.0.0.1".

Definition registration_body (node_id address http_address : string) : Json :=
  JObj [("node_id", JStr node_id); ("address", JStr address); ("http_address", JStr http_address)].

(** What becomes of the registration: it is only logged. *)
Inductive Registration := Registered | RegistrationRejected (status : Z) | ControlPlaneUnreachable (err : string).

(** [post] is reqwest's POST of a JSON body, answered by a status. *)
Definition register_with_control_plane (post : string -> Json -> result string Z)
    (url node_id address http_address : string) : Registration :=
  match post url (registration_body node_id address http_address) with
  | Ok status => if (200 <=? status) && (status <? 300) then Registered else RegistrationRejected status
  | Err e => ControlPlaneUnreachable e
  end.

Inductive StartError := BadConfig (e : ConfigError) | EngineFailed (err : string) | CachePanic | SemaphorePanic.

(** tokio's [Semaphore::MAX_PERMITS]; [Semaphore::new] panics above it. *)
Definition max_permits : Z := Z.shiftr u64_max 3.

(** [LruCache::new] allocates its table at once: a power of two of 16-byte slots
    that is at most 7/8 full, with a control byte each. Above this capacity the
    size of the table does not fit [isize] and the allocation panics. *)
Definition lru_max_capacity : Z := 7 * 2 ^ 55.

Section start.
Context `{!Wasmtime} `{!Lru CachedModule} `{!TokioSemaphore}.

(** The running process: the node, where it serves, and the arguments of the
    spawned [register_with_control_plane]. *)
Record Started := {
  sd_node_id : string;
  sd_control_plane_url : string;
  sd_sys : NodeSys;
  sd_grpc_port : Z;
  sd_metrics_port : Z;
  sd_registration_url : string;
  sd_grpc_addr : string;
  sd_http_addr : string
}.

(** [main] up to the point where it serves; [engine] is the outcome of
    [WasmEngine::new()]. *)
Definition edge_main (engine : result string unit) (env : Env) : result StartError Started :=
  config ← map_err BadConfig (edge_from_env env);
  _ ← map_err EngineFailed engine;
  if lru_max_capacity <? cache_max_size config then Err CachePanic
  else if max_permits <? max_tasks config then Err SemaphorePanic
  else
    let host := local_hostname env in
    Ok {| sd_node_id := node_id config; sd_control_plane_url := control_plane_url config;
          sd_sys := init_node (node_id config) (Z.to_nat (max_tasks config)) (Z.to_nat (cache_max_size config))
                      (from_secs (cache_ttl_secs config));
          sd_grpc_port := grpc_port config; sd_metrics_port := metrics_port config;
          sd_registration_url := control_plane_url config +:+ "/nodes/register";
          sd_grpc_addr := "http://" +:+ host +:+ ":" +:+ pretty (grpc_port config);
          sd_http_addr := "http://" +:+ host +:+ ":" +:+ pretty (metrics_port config) |}.

End start.

(** The running process: calls and cache as in [node_step], and requests to the
    admin server. *)
Inductive process_step `{!Wasmtime} `{!Lru CachedModule} `{!Sha2} `{!TokioSemaphore} `{!Base64} `{!Axum} (p : Started)
    : NodeSys -> NodeSys -> Prop :=
| process_node s s' : node_step (sd_node_id p) (sd_control_plane_url p) s s' -> process_step p s s'
| process_admin s e m path b :
    process_step p s {| nworld := (admin_serve e m path b (nworld s)).2; calls := calls s |}.

(** ** Start-up of the control plane (main.rs) *)

(** The port it listens on and the state it starts with. *)
Definition cp_main (env : Env) : result ConfigError (Z * AppState) :=
  config ← cp_from_env env;
  Ok (http_port config, initial_state (cp_self_url config) (cp_scheduling_strategy config)).

(** ** Lemmas *)

Definition rss_line (ws : string) (kb : Z) : string := "VmRSS:" +:+ ws +:+ pretty kb +:+ " kB".

Lemma prefix_app p s : String.prefix p (p +:+ s) = true.
Proof.
  induction p as [|c p IH]; [by destruct s|]. rewrite app_cons. simpl.
  destruct (Ascii.ascii_dec c c); [apply IH|done].
Qed.

Lemma rss_of_rss_line ws kb :
  ws <> EmptyString -> all_chars Ascii.is_space ws = true -> is_u64 kb ->
  rss_of_line (rss_line ws kb) = Some (u64_mul kb 1024).
Proof.
  intros Hne Hws Hkb. unfold rss_of_line, rss_line. rewrite prefix_app.
  unfold is_u64, u64_mod in Hkb. destruct (pretty_word kb) as [Hw Hw0]; [lia|].
  rewrite split_whitespace_word; [|done|done|by apply word_end_app].
  rewrite split_whitespace_spaces by done. rewrite split_whitespace_word by done. simpl.
  unfold parse_u64. by rewrite parse_pretty by (unfold u64_max; lia).
Qed.

Lemma rss_of_other_line l : String.prefix "VmRSS:" l = false -> rss_of_line l = None.
Proof. unfold rss_of_line. by intros ->. Qed.

Lemma read_rss_lines pre ws kb post :
  Forall (fun l => is_line l = true) (pre ++ rss_line ws kb :: post) ->
  Forall (fun l => String.prefix "VmRSS:" l = false) pre ->
  ws <> EmptyString -> all_chars Ascii.is_space ws = true -> is_u64 kb ->
  read_rss_bytes (Some (unlines (pre ++ rss_line ws kb :: post))) = u64_mul kb 1024.
Proof.
  intros Hl Hpre Hne Hws Hkb. unfold read_rss_bytes. rewrite lines_unlines by done.
  clear Hl. induction Hpre as [|l pre Hl _ IH]; simpl.
  - by rewrite rss_of_rss_line.
  - by rewrite rss_of_other_line.
Qed.

Lemma read_rss_none ls :
  Forall (fun l => is_line l = true) ls -> Forall (fun l => String.prefix "VmRSS:" l = false) ls ->
  read_rss_bytes (Some (unlines ls)) = 0.
Proof.
  intros Hl Hn. unfold read_rss_bytes. rewrite lines_unlines by done. clear Hl.
  induction Hn as [|l ls Hl _ IH]; simpl; [done|]. by rewrite rss_of_other_line.
Qed.

Section start_lemmas.
Context `{!Wasmtime} `{!Lru CachedModule} `{!TokioSemaphore} `{!Base64} `{!Axum}.

Lemma admin_route_warm : route AdminEndpoint admin_router POST "/cache/warm" = Matched AeCacheWarm [].
Proof.
  apply (route_found AdminEndpoint admin_router POST "/cache/warm"
    {| rt_path := "/cache/warm"; rt_method := POST; rt_endpoint := AeCacheWarm |}); try done.
  - unfold admin_router. in_list.
  - split; [by eexists|]. intros r Hin. unfold admin_router in Hin.
    each_elem Hin; intros [caps Hc]; vm_compute in Hc; try done; by left.
  - intros r Hin. unfold admin_router in Hin. by each_elem Hin.
Qed.

(** The outcome of a warm-up that compiles. *)
Lemma warm_up_compiles e p b m w :
  json_extract (json_body (warm_json p)) = Ok (warm_json p) ->
  warm_wasm_bytes_base64 p = b64_encode b -> ae_panic e = None -> module_new b = Ok m ->
  (get_cached (ae_now1 e) (warm_name p +:+ ":" +:+ warm_version p) (cache w)).1 = None ->
  exists w', admin_serve e POST "/cache/warm" (json_body (warm_json p)) w =
      (200, APWarmed (warm_name p +:+ ":" +:+ warm_version p), w') /\
    node w' = node w /\ semaphore w' = semaphore w /\
    forall now, elapsed now (ae_now2 e) < ttl (cache w) ->
      (get_cached now (warm_name p +:+ ":" +:+ warm_version p) (cache w')).1 = Some m.
Proof.
  intros Hj Hb Hp Hm Hmiss. unfold admin_serve. rewrite admin_route_warm, Hj. simpl.
  unfold warm_cache_handler. simpl. rewrite Hb, b64_roundtrip, Hp.
  rewrite (get_or_compile_miss _ _ _ b m) by (done || unfold compile; by rewrite Hm).
  eexists. split; [reflexivity|]. split_and!; [done..|]. intros now Hel. apply inserted_is_cached.
  by rewrite (proj2 (proj2 (goc_lookup_entries _ _ _))).
Qed.

(** What [main] builds. *)
Lemma edge_main_inv engine env s :
  edge_main engine env = Ok s -> exists c, edge_from_env env = Ok c /\ engine = Ok tt /\ max_tasks c <= max_permits /\
    sd_node_id s = node_id c /\ sd_control_plane_url s = control_plane_url c /\
    sd_registration_url s = control_plane_url c +:+ "/nodes/register" /\
    sd_sys s = init_node (node_id c) (Z.to_nat (max_tasks c)) (Z.to_nat (cache_max_size c)) (from_secs (cache_ttl_secs c)) /\
    cache (nworld (sd_sys s)) = cache_new (Z.to_nat (cache_max_size c)) (cache_ttl_secs c) /\
    cache_max_size c <= lru_max_capacity.
Proof.
  unfold edge_main, mbind, result_bind. destruct (edge_from_env env) as [c|] eqn:Ec; [|done].
  destruct engine as [[]|]; [|done]. simpl. case_match eqn:El; [done|]. case_match eqn:Em; [done|].
  intros [= <-]. exists c. apply Z.ltb_ge in El, Em. by split_and!.
Qed.

(** A warm-up nobody comes between is what [admin_serve] does in one go; every
    other request to the admin server changes nothing. *)
Lemma admin_serve_warm e m path b body w nows :
  admin_warm m path b = Some body -> nows 1%nat = ae_now1 e -> nows 3%nat = ae_now2 e ->
  exists status out, warm_run 5 nows (ae_panic e) (WBody body) w =
    (WDone status out, (admin_serve e m path b w).2) /\ (admin_serve e m path b w).1.1 = status.
Proof.
  unfold admin_warm, admin_serve. intros Hw Hn1 Hn3. destruct (route _ _ _ _) as [[| |] caps| |]; try done.
  destruct (json_extract b) as [j|]; [|done]. rewrite Hw. cbn [warm_run warm_step]. unfold warm_cache_handler.
  destruct (b64_decode _) as [bs|]; [|do 2 eexists; split; reflexivity]. unfold get_or_compile. rewrite Hn1, Hn3.
  cbn [warm_step]. destruct (goc_lookup _ _ _) as [[m'|] c1]; [do 2 eexists; split; reflexivity|].
  cbn [warm_step]. destruct (compile _ bs) as [m'|]; do 2 eexists; split; reflexivity.
Qed.

Lemma admin_serve_other e m path b w : admin_warm m path b = None -> (admin_serve e m path b w).2 = w.
Proof.
  unfold admin_warm, admin_serve. intros Hw. destruct (route _ _ _ _) as [[| |] caps| |]; try done.
  destruct (json_extract b) as [j|]; [|done]. by rewrite Hw.
Qed.

(** The request the control plane posts arrives as it was meant. *)
Lemma admin_warm_post path p body :
  admin_warm POST path (json_body (warm_json p)) = Some body ->
  body = {| wc_name := warm_name p; wc_version := warm_version p; wc_wasm_bytes_base64 := warm_wasm_bytes_base64 p |}.
Proof.
  unfold admin_warm. destruct (route _ _ _ _) as [[| |] caps| |]; try done.
  destruct (json_extract _) as [j|] eqn:Ej; [|done]. apply json_extract_inv in Ej as ->; [|done]. by intros [= <-].
Qed.

(** An admin request is made of cache operations and updates of the gauge. *)
Lemma admin_serve_steps `{!Sha2} id url e m path b s :
  rtc (node_step id url) s {| nworld := (admin_serve e m path b (nworld s)).2; calls := calls s |}.
Proof.
  assert (rtc (node_step id url) s {| nworld := nworld s; calls := calls s |}) as Hrefl by (by destruct s).
  unfold admin_serve. destruct (route _ _ _ _) as [[| |] caps| |]; try exact Hrefl.
  destruct (json_extract b) as [j|]; [|exact Hrefl]. destruct (de_WarmCacheRequest j) as [body|]; [|exact Hrefl].
  unfold warm_cache_handler. destruct (b64_decode _) as [bs|]; [|exact Hrefl].
  set (key := wc_name body +:+ _). unfold get_or_compile.
  pose proof (node_cache id url s (OLookup (ae_now1 e) key)) as Hlook. simpl in Hlook.
  destruct (goc_lookup _ key _) as [[m'|] c1]; simpl in *.
  - eapply rtc_l; [exact Hlook|]. eapply rtc_once, (node_sync id url {| nworld := on_cache c1 (nworld s); calls := calls s |}).
  - destruct (compile _ bs) as [m'|]; simpl; [|by apply rtc_once].
    eapply rtc_l; [exact Hlook|].
    eapply rtc_l; [exact (node_cache id url {| nworld := on_cache c1 (nworld s); calls := calls s |}
      (OInsert (ae_now2 e) key bs m'))|].
    eapply rtc_once, (node_sync id url {| nworld := on_cache _ (nworld s); calls := calls s |}).
Qed.

(** A section of a warm-up is a cache operation, an update of the gauge, or nothing. *)
Lemma warm_step_node `{!Sha2} id url now pn p s :
  rtc (node_step id url) s {| nworld := (warm_step now pn p (nworld s)).2; calls := calls s |}.
Proof.
  assert (rtc (node_step id url) s {| nworld := nworld s; calls := calls s |}) as Hrefl by (by destruct s).
  destruct p as [body|key b|key b|key b m|key|status out]; simpl; try exact Hrefl.
  - by destruct (b64_decode _).
  - pose proof (node_cache id url s (OLookup now key)) as Hlook. simpl in Hlook.
    destruct (goc_lookup _ _ _) as [hit c1]. by apply rtc_once.
  - by destruct (compile _ _).
  - apply rtc_once. exact (node_cache id url s (OInsert now key b m)).
  - apply rtc_once, node_sync.
Qed.

Lemma process_steps `{!Sha2} p s s' :
  rtc (process_step p) s s' -> rtc (node_step (sd_node_id p) (sd_control_plane_url p)) s s'.
Proof.
  induction 1 as [|s1 s2 s3 Hstep _ IH]; [done|]. etrans; [|exact IH].
  destruct Hstep as [s s' Hn|s e m path b]; [by apply rtc_once|apply admin_serve_steps].
Qed.

End start_lemmas.

(** ** Properties *)

(** The resident set size. From a status file as the kernel writes it, one
    item per line with a line [VmRSS:], white space, a decimal number and [kB],
    the report takes that number times 1024 (modulo 2^64), whatever the other
    lines are; from a file without such a line, or none, it takes 0. *)
Theorem rss_report_correct pre ws kb post :
  Forall (fun l => is_line l = true) (pre ++ rss_line ws kb :: post) ->
  Forall (fun l => String.prefix "VmRSS:" l = false) (pre ++ post) ->
  ws <> EmptyString -> all_chars Ascii.is_space ws = true -> is_u64 kb ->
  read_rss_bytes (Some (unlines (pre ++ rss_line ws kb :: post))) = (kb * 1024) mod 2 ^ 64 /\
  read_rss_bytes (Some (unlines (pre ++ post))) = 0 /\ read_rss_bytes None = 0.
Proof.
  intros Hl Hother Hne Hws Hkb. pose proof Hother as [Hpre _]%Forall_app.
  split_and!; [by apply read_rss_lines| |done].
  apply read_rss_none; [|done]. apply Forall_app in Hl as [? [_ ?]%Forall_cons_iff]. by apply Forall_app.
Qed.

Lemma rss_report_correct_witness :
  read_rss_bytes (Some (unlines (["Name: edge-node"] ++ rss_line "   " 2048 :: ["Threads: 4"]))) = 2097152.
Proof.
  refine (proj1 (rss_report_correct ["Name: edge-node"] "   " 2048 ["Threads: 4"] _ _ _ _ _)).
  - repeat constructor.
  - repeat constructor.
  - discriminate.
  - reflexivity.
  - split; [discriminate|reflexivity].
Defined.

(** What a node can be started with: numbers that fit their types, a cache whose
    table can be laid out and a semaphore tokio accepts. *)
Record startable (c : EdgeConfig) : Prop := {
  sta_typed : edge_config_ok c;
  sta_cache : cache_max_size c <= lru_max_capacity;
  sta_permits : max_tasks c <= max_permits
}.

Lemma edge_main_startable `{!Wasmtime} `{!Lru CachedModule} `{!TokioSemaphore} c :
  startable c -> exists s, edge_main (Ok tt) (edge_env c) = Ok s /\ sd_node_id s = node_id c /\
    sd_control_plane_url s = control_plane_url c /\ sd_grpc_port s = grpc_port c /\ sd_metrics_port s = metrics_port c.
Proof.
  intros [Hty Hca Hpe]. unfold edge_main. rewrite edge_from_env_env by done. simpl.
  rewrite (proj2 (Z.ltb_ge _ _)) by done. rewrite (proj2 (Z.ltb_ge _ _)) by done. eexists. by split_and!.
Qed.


(** C12. The configured limits hold. A node started on an environment, under any
    interleaving of calls and admin requests, never serves more than [MAX_TASKS]
    calls at once, never keeps more than [CACHE_MAX_SIZE] modules (one if that is
    0), and never hands out a module cached [CACHE_TTL_SECS] seconds ago or
    longer. *)
Theorem started_node_limits `{!Wasmtime} `{!Lru CachedModule} `{!Sha2} `{!TokioSemaphore} `{!Base64} `{!Axum}
    engine env p s :
  edge_main engine env = Ok p -> rtc (process_step p) (sd_sys p) s ->
  exists c, edge_from_env env = Ok c /\
    Z.of_nat (total holds_permit s) <= max_tasks c /\
    Z.of_nat (length (entries (cache (nworld s)))) <= Z.max (cache_max_size c) 1 /\
    NoDup (entries (cache (nworld s))).*1 /\
    forall now key m, (get_cached now key (cache (nworld s))).1 = Some m ->
      exists e, assoc key (entries (cache (nworld s))) = Some e /\ cm_module e = m /\
        elapsed now (cached_at e) < cache_ttl_secs c * 10 ^ 9.
Proof.
  intros Hmain Hrtc%process_steps. apply edge_main_inv in Hmain as (c & Hc & _ & _ & Hid & _ & _ & Hsys & _).
  exists c. split; [done|]. rewrite Hsys in Hrtc. rewrite Hid in Hrtc.
  pose proof (edge_from_env_table env) as Hok. rewrite Hc in Hok. destruct Hok as [_ [_ _ Ht Hs _]].
  destruct (node_cache_params _ _ _ _ Hrtc) as [Hcap Httl].
  assert (capacity (cache (nworld s)) = Z.to_nat (cache_max_size c) `max` 1)%nat as Hcap'.
  { rewrite Hcap. apply (proj2 (lru_new_spec _)). }
  apply node_reachable_inv in Hrtc as [Hp _ _ _ _ _ [Hnd Hsz _ _]]. unfold is_u64 in *.
  split_and!; [lia|lia|done|].
  intros now key m. rewrite get_cached_result. destruct (assoc key _) as [e|] eqn:He; [|done].
  destruct (fresh now _ e) eqn:Hf; [|done]. intros [= <-]. exists e. split_and!; [done..|].
  unfold fresh in Hf. apply Z.ltb_lt in Hf. rewrite Httl in Hf. simpl in Hf.
  unfold from_secs, nanos_per_ms in Hf. lia.
Qed.

(** The environment of a node with four slots. *)
Definition demo_node_env : Env :=
  {[ "NODE_ID" := Unicode "n1"; "CONTROL_PLANE_URL" := Unicode "http://cp"; "MAX_TASKS" := Unicode "4" ]}.

Lemma started_node_limits_witness :
  exists p c, @edge_main echo_wasmtime (list_lru _) nat_semaphore (Ok tt) demo_node_env = Ok p /\
    edge_from_env demo_node_env = Ok c /\ Z.of_nat (total holds_permit (sd_sys p)) <= max_tasks c /\ max_tasks c = 4.
Proof.
  eexists. destruct (@started_node_limits echo_wasmtime (list_lru _) toy_sha2 nat_semaphore toy_base64 toy_axum
    (Ok tt) demo_node_env _ _ eq_refl (rtc_refl _ _)) as (c & Hc & Hp & _).
  exists c. split; [reflexivity|]. split; [exact Hc|]. split; [exact Hp|]. injection Hc as <-. reflexivity.
Defined.
