(* ===== verification/Metrics.v ===== *)
(** * Prometheus metrics: registration, calls and scrapes

    Models [crates/telemetry/src/metrics.rs] (the [lazy_static] collectors and
    [init]), the [metrics_handler] of [crates/telemetry/src/prometheus_server.rs]
    and of [services/edge-node/src/metrics.rs], and the calls the two services
    make. Registration panics when it fails ([expect]), and so does
    [with_label_values] with the wrong number of labels: the first theorem is that
    neither ever happens. The crate's registry and text encoder are the interface
    [Prometheus]; what a collector shows after a log of calls is [reading]. *)

From Stdlib Require Import Ascii.
From S2P Require Import Prelude RustStd RustText Common Sandbox ModuleCache AppState Dispatch Health Handlers ControlPlane Disconnect EdgeNode.

(** ** Collectors *)
Inductive Kind := KCounter | KGauge | KHistogram (buckets : list Z).

Record Desc := { d_name : string; d_help : string; d_labels : list string; d_kind : Kind }.

(** The eleven statics. *)
Inductive Static :=
| StTasksSubmitted | StTasksSuccess | StTasksFailed | StCacheHits | StCacheMisses | StHealthFailures
| StExecDuration | StE2eDuration | StActiveTasks | StHealthyNodes | StCacheSize.

#[export] Instance Static_eq_dec : EqDecision Static.
Proof. solve_decision. Defined.

(** Histogram bounds, in milliseconds. *)
Definition duration_buckets : list Z := [1; 5; 10; 25; 50; 100; 250; 500; 1000; 5000].

Definition desc (s : Static) : Desc :=
  match s with
  | StTasksSubmitted => {| d_name := "tasks_submitted_total";
      d_help := "Total number of tasks submitted via POST /tasks"; d_labels := []; d_kind := KCounter |}
  | StTasksSuccess => {| d_name := "tasks_success_total";
      d_help := "Total number of tasks that completed successfully"; d_labels := []; d_kind := KCounter |}
  | StTasksFailed => {| d_name := "tasks_failed_total";
      d_help := "Total number of tasks that failed after all retries"; d_labels := []; d_kind := KCounter |}
  | StCacheHits => {| d_name := "wasm_cache_hits_total";
      d_help := "Number of WASM module cache hits"; d_labels := []; d_kind := KCounter |}
  | StCacheMisses => {| d_name := "wasm_cache_misses_total";
      d_help := "Number of WASM module cache misses (requires download + compile)"; d_labels := []; d_kind := KCounter |}
  | StHealthFailures => {| d_name := "node_health_check_failures_total";
      d_help := "Number of failed health-check probes per node"; d_labels := ["node_id"]; d_kind := KCounter |}
  | StExecDuration => {| d_name := "task_execution_duration_ms";
      d_help := "WASM task execution duration in milliseconds"; d_labels := []; d_kind := KHistogram duration_buckets |}
  | StE2eDuration => {| d_name := "task_e2e_duration_ms";
      d_help := "End-to-end task duration from HTTP submission to result stored (ms)"; d_labels := [];
      d_kind := KHistogram duration_buckets |}
  | StActiveTasks => {| d_name := "active_tasks";
      d_help := "Number of WASM tasks currently executing"; d_labels := ["node_id"]; d_kind := KGauge |}
  | StHealthyNodes => {| d_name := "healthy_nodes";
      d_help := "Number of edge-nodes that passed the last health check"; d_labels := []; d_kind := KGauge |}
  | StCacheSize => {| d_name := "wasm_cache_size";
      d_help := "Number of compiled WASM modules in the edge-node LRU cache"; d_labels := []; d_kind := KGauge |}
  end.

(** The collector a call is made on, and the label values it passes. *)
Definition op_static (op : MetricOp) : Static :=
  match op with
  | CounterInc TASKS_SUBMITTED_TOTAL => StTasksSubmitted
  | CounterInc TASKS_SUCCESS_TOTAL => StTasksSuccess
  | CounterInc TASKS_FAILED_TOTAL => StTasksFailed
  | CounterInc WASM_CACHE_HITS_TOTAL => StCacheHits
  | CounterInc WASM_CACHE_MISSES_TOTAL => StCacheMisses
  | CounterInc (NODE_HEALTH_CHECK_FAILURES _) => StHealthFailures
  | GaugeInc (ACTIVE_TASKS_GAUGE _) | GaugeDec (ACTIVE_TASKS_GAUGE _) | GaugeSet (ACTIVE_TASKS_GAUGE _) _ => StActiveTasks
  | GaugeInc HEALTHY_NODES_GAUGE | GaugeDec HEALTHY_NODES_GAUGE | GaugeSet HEALTHY_NODES_GAUGE _ => StHealthyNodes
  | GaugeInc CACHE_SIZE_GAUGE | GaugeDec CACHE_SIZE_GAUGE | GaugeSet CACHE_SIZE_GAUGE _ => StCacheSize
  | HistObserve TASK_EXECUTION_DURATION_MS _ => StExecDuration
  | HistObserve TASK_E2E_DURATION_MS _ => StE2eDuration
  end.

Definition op_labels (op : MetricOp) : list string :=
  match op with
  | CounterInc (NODE_HEALTH_CHECK_FAILURES n) => [n]
  | GaugeInc (ACTIVE_TASKS_GAUGE n) | GaugeDec (ACTIVE_TASKS_GAUGE n) | GaugeSet (ACTIVE_TASKS_GAUGE n) _ => [n]
  | _ => []
  end.

(** ** What the crate accepts *)

Definition name_start (c : ascii) : bool :=
  let n := nat_of_ascii c in
  ((65 <=? n) && (n <=? 90) || (97 <=? n) && (n <=? 122) || (n =? 95) || (n =? 58))%nat.
Definition name_char (c : ascii) : bool :=
  name_start c || (let n := nat_of_ascii c in ((48 <=? n) && (n <=? 57))%nat).
Definition valid_name (s : string) : bool :=
  match s with EmptyString => false | String c s' => name_start c && all_chars name_char s' end.
(** Labels have no colons; [le] belongs to the histograms. *)
Definition valid_label (s : string) : bool :=
  valid_name s && all_chars (fun c => negb (Nat.eqb (nat_of_ascii c) 58)) s && bool_decide (s <> "le").
Fixpoint increasing (l : list Z) : bool :=
  match l with
  | x :: (y :: _) as l' => (x <? y) && increasing l'
  | _ => true
  end.
Definition valid_desc (d : Desc) : bool :=
  valid_name (d_name d) && bool_decide (d_help d <> EmptyString) && forallb valid_label (d_labels d) && bool_decide (NoDup (d_labels d)) &&
  match d_kind d with KHistogram b => increasing b | _ => true end.

(** ** What a collector shows *)

Inductive Sample := SValue (v : Z) | SHistogram (cumulative : list (Z * nat)) (count : nat) (sum : Z).

(** A gauge after a log, most recent call first. *)
Fixpoint gauge_reading (g : Gauge) (log : MetricLog) : Z :=
  match log with
  | [] => 0
  | GaugeSet g' v :: log' => if decide (g = g') then v else gauge_reading g log'
  | op :: log' => gauge_delta g op + gauge_reading g log'
  end.

Definition observed (h : Static) (op : MetricOp) : option Z :=
  match op with HistObserve _ v => if decide (op_static op = h) then Some v else None | _ => None end.
Definition observations (h : Static) (log : MetricLog) : list Z := omap (observed h) log.

Definition hist_reading (h : Static) (buckets : list Z) (log : MetricLog) : Sample :=
  let vs := observations h log in
  SHistogram ((fun b => (b, length (filter (fun v => v <= b) vs))) <$> buckets) (length vs) (foldr Z.add 0 vs).

(** The sample of a collector for given label values; a child of a labelled
    collector exists once it has been used. *)
Definition reading (s : Static) (lv : list string) (log : MetricLog) : option Sample :=
  match s, lv with
  | StTasksSubmitted, [] => Some (SValue (Z.of_nat (counter_value TASKS_SUBMITTED_TOTAL log)))
  | StTasksSuccess, [] => Some (SValue (Z.of_nat (counter_value TASKS_SUCCESS_TOTAL log)))
  | StTasksFailed, [] => Some (SValue (Z.of_nat (counter_value TASKS_FAILED_TOTAL log)))
  | StCacheHits, [] => Some (SValue (Z.of_nat (counter_value WASM_CACHE_HITS_TOTAL log)))
  | StCacheMisses, [] => Some (SValue (Z.of_nat (counter_value WASM_CACHE_MISSES_TOTAL log)))
  | StHealthFailures, [n] =>
      if decide (Exists (fun op => op_static op = StHealthFailures /\ op_labels op = [n]) log)
      then Some (SValue (Z.of_nat (counter_value (NODE_HEALTH_CHECK_FAILURES n) log))) else None
  | StExecDuration, [] => Some (hist_reading StExecDuration duration_buckets log)
  | StE2eDuration, [] => Some (hist_reading StE2eDuration duration_buckets log)
  | StActiveTasks, [n] =>
      if decide (Exists (fun op => op_static op = StActiveTasks /\ op_labels op = [n]) log)
      then Some (SValue (gauge_reading (ACTIVE_TASKS_GAUGE n) log)) else None
  | StHealthyNodes, [] => Some (SValue (gauge_reading HEALTHY_NODES_GAUGE log))
  | StCacheSize, [] => Some (SValue (gauge_reading CACHE_SIZE_GAUGE log))
  | _, _ => None
  end.

(** Values an [f64] holds exactly. *)
Definition exact (log : MetricLog) : Prop :=
  Z.of_nat (length log) < 2 ^ 53 /\
  Forall (fun op => match op with GaugeSet _ v | HistObserve _ v => Z.abs v < 2 ^ 53 | _ => True end) log /\
  forall h, foldr Z.add 0 (Z.abs <$> observations h log) < 2 ^ 53.

(** ** The crate *)

(** A metric family as it is gathered. *)
Record Family := { f_desc : Desc; f_samples : list (list string * Sample) }.

Definition sample (fs : list Family) (name : string) (lv : list string) : option Sample :=
  f ← list_find (fun f => d_name (f_desc f) = name) fs;
  s ← list_find (fun s => s.1 = lv) (f_samples f.2);
  Some s.2.2.

(** [prometheus]: the default registry starts with at most the collectors of the
    process itself; a valid description under a fresh name can be registered;
    gathering shows what the registered collectors read; the encoder writes into
    the buffer even if it fails. *)
Class Prometheus := {
  PRegistry : Type;
  default_registry : PRegistry;
  registered : PRegistry -> list Desc;
  register : Desc -> PRegistry -> result string PRegistry;
  gather : PRegistry -> MetricLog -> list Family;
  encode : list Family -> bytes * result string unit;
  from_utf8_lossy : bytes -> string;
  registered_default : forall d, d ∈ registered default_registry -> String.prefix "process_" (d_name d) = true;
  register_fresh : forall d r, valid_desc d = true -> d_name d ∉ (d_name <$> registered r) ->
    exists r', register d r = Ok r' /\ registered r' = d :: registered r;
  gather_reads : forall r log s lv, desc s ∈ registered r -> NoDup (d_name <$> registered r) -> exact log ->
    sample (gather r log) (d_name (desc s)) lv = reading s lv log
}.

Section metrics.
Context `{!Prometheus}.

(** The registry, and the statics that have been initialised. *)
Record MetricState := { reg : PRegistry; forced : list Static }.

Definition fresh_metrics : MetricState := {| reg := default_registry; forced := [] |}.

(** First use of a static; a failed registration is a panic. *)
Definition force (s : Static) (st : MetricState) : result string MetricState :=
  if decide (s ∈ forced st) then Ok st
  else r ← map_err (fun e => "metric registration failed: " +:+ e) (register (desc s) (reg st));
       Ok {| reg := r; forced := s :: forced st |}.

(** [init]. *)
Definition init_order : list Static :=
  [StTasksSubmitted; StTasksSuccess; StTasksFailed; StCacheHits; StCacheMisses; StHealthFailures;
   StExecDuration; StE2eDuration; StActiveTasks; StHealthyNodes; StCacheSize].
Fixpoint force_all (l : list Static) (st : MetricState) : result string MetricState :=
  match l with
  | [] => Ok st
  | s :: l' => st' ← force s st; force_all l' st'
  end.
Definition metrics_init (st : MetricState) : result string MetricState := force_all init_order st.

(** One call on a collector; [with_label_values] panics on the wrong number. *)
Definition metric_call (op : MetricOp) (st : MetricState) : result string MetricState :=
  st' ← force (op_static op) st;
  if decide (length (op_labels op) = length (d_labels (desc (op_static op)))) then Ok st'
  else Err "inconsistent cardinality".

Fixpoint metric_calls (ops : list MetricOp) (st : MetricState) : result string MetricState :=
  match ops with
  | [] => Ok st
  | op :: ops' => st' ← metric_call op st; metric_calls ops' st'
  end.

(** GET /metrics of the control plane, and its copy on the edge node: the result
    of the encoder is ignored, whatever it has written is the answer. *)
Definition metrics_handler (st : MetricState) (log : MetricLog) : string :=
  from_utf8_lossy (encode (gather (reg st) log)).1.
Definition edge_metrics_handler (st : MetricState) (log : MetricLog) : string :=
  from_utf8_lossy (encode (gather (reg st) log)).1.

(** The statics that have been forced are registered, each under its name. *)
Record metrics_wf (st : MetricState) : Prop := {
  mwf_forced : NoDup (forced st);
  mwf_registered : registered (reg st) = (desc <$> forced st) ++ registered default_registry
}.

(** ** Lemmas *)

Lemma desc_valid s : valid_desc (desc s) = true.
Proof. by destruct s. Qed.

Lemma desc_name_inj s s' : d_name (desc s) = d_name (desc s') -> s = s'.
Proof. by destruct s, s'. Qed.

Lemma desc_not_process s : String.prefix "process_" (d_name (desc s)) = false.
Proof. by destruct s. Qed.

Lemma op_labels_match op : length (op_labels op) = length (d_labels (desc (op_static op))).
Proof. by destruct op as [[]|[]|[]|[] ?|[] ?]. Qed.

Lemma fresh_wf : metrics_wf fresh_metrics.
Proof. split; [constructor|done]. Qed.

Lemma name_fresh st s : metrics_wf st -> s ∉ forced st -> d_name (desc s) ∉ (d_name <$> registered (reg st)).
Proof.
  intros [_ Hreg] Hs Hin. rewrite Hreg, fmap_app in Hin. apply elem_of_app in Hin as [Hin|Hin].
  - apply list_elem_of_fmap in Hin as (d & Hd & (s' & -> & Hs')%list_elem_of_fmap). apply desc_name_inj in Hd as ->. done.
  - apply list_elem_of_fmap in Hin as (d & Hd & Hin). apply registered_default in Hin.
    rewrite <- Hd, desc_not_process in Hin. done.
Qed.

(** Forcing succeeds, registers the static, and does nothing the second time. *)
Lemma force_ok s st :
  metrics_wf st -> exists st', force s st = Ok st' /\ metrics_wf st' /\ s ∈ forced st' /\
    (forall s', s' ∈ forced st -> s' ∈ forced st') /\ (s ∈ forced st -> st' = st).
Proof.
  intros Hwf. unfold force. case_decide as Hs; [by exists st|].
  destruct (register_fresh (desc s) (reg st) (desc_valid s) (name_fresh st s Hwf Hs)) as (r' & Hr & Hreg).
  rewrite Hr. simpl. eexists. split; [done|]. split_and!; [|by left|by right|done].
  destruct Hwf as [Hnd Hreg0]. split; simpl; [by constructor|by rewrite Hreg, Hreg0].
Qed.

Lemma force_all_ok l st :
  metrics_wf st -> exists st', force_all l st = Ok st' /\ metrics_wf st' /\ (forall s, s ∈ l -> s ∈ forced st') /\
    (forall s', s' ∈ forced st -> s' ∈ forced st').
Proof.
  revert st. induction l as [|s l IH]; intros st Hwf; simpl.
  - exists st. split_and!; [done|done| |done]. by intros s ?%not_elem_of_nil.
  - destruct (force_ok s st Hwf) as (st1 & Hf & Hwf1 & Hs & Hkeep & _). rewrite Hf. simpl.
    destruct (IH st1 Hwf1) as (st' & Hall & Hwf' & Hl & Hkeep'). exists st'. split_and!; [done|done| |auto].
    intros s' [->|Hs']%elem_of_cons; auto.
Qed.

Lemma metric_calls_ok ops st :
  metrics_wf st -> exists st', metric_calls ops st = Ok st' /\ metrics_wf st' /\
    (forall s', s' ∈ forced st -> s' ∈ forced st') /\ ((forall s, s ∈ forced st) -> st' = st).
Proof.
  revert st. induction ops as [|op ops IH]; intros st Hwf; simpl; [by exists st|].
  unfold metric_call. destruct (force_ok (op_static op) st Hwf) as (st1 & Hf & Hwf1 & _ & Hkeep & Hsame).
  rewrite Hf. simpl. rewrite decide_True by apply op_labels_match.
  destruct (IH st1 Hwf1) as (st' & Hcalls & Hwf' & Hkeep' & Hsame'). exists st'. split_and!; [done|done|auto|].
  intros Hall. rewrite (Hsame (Hall _)) in Hsame'. auto.
Qed.

Lemma init_order_all s : s ∈ init_order.
Proof. unfold init_order. destruct s; in_list. Qed.

Lemma wf_names_NoDup st :
  metrics_wf st -> NoDup (d_name <$> registered default_registry) -> NoDup (d_name <$> registered (reg st)).
Proof.
  intros [Hnd Hreg] Hdef. rewrite Hreg, fmap_app. apply NoDup_app. split_and!; [| |done].
  - rewrite <- list_fmap_compose. apply NoDup_fmap_2_strong; [|done]. intros s s' _ _. apply desc_name_inj.
  - intros n (d & -> & (s & -> & _)%list_elem_of_fmap)%list_elem_of_fmap (d' & Hd & Hin)%list_elem_of_fmap.
    apply registered_default in Hin. rewrite <- Hd, desc_not_process in Hin. done.
Qed.

(** After [init] a scrape shows what the collectors read. *)
Lemma init_shows st log x lv :
  NoDup (d_name <$> registered default_registry) -> metrics_init fresh_metrics = Ok st -> exact log ->
  sample (gather (reg st) log) (d_name (desc x)) lv = reading x lv log.
Proof.
  intros Hdef Hinit Hexact. destruct (force_all_ok init_order fresh_metrics fresh_wf) as (st' & Hi & Hwf & Hall & _).
  unfold metrics_init in Hinit. rewrite Hi in Hinit. injection Hinit as ->.
  apply gather_reads; [|by apply wf_names_NoDup|done].
  rewrite (mwf_registered _ Hwf). apply elem_of_app. left. apply list_elem_of_fmap_2, Hall, init_order_all.
Qed.

End metrics.

(** ** What the services' logs amount to *)
Section readings.

(** A gauge that is never set is moved by [inc] and [dec] only. *)
Lemma gauge_reading_value g log :
  Forall (fun op => forall v, op <> GaugeSet g v) log -> gauge_reading g log = gauge_value g log.
Proof.
  induction 1 as [|op log Hop _ IH]; [done|]. destruct op; simpl; rewrite ?IH; try done.
  case_decide; [|done]. subst. by edestruct Hop.
Qed.

Lemma gauge_used g log : gauge_value g log <> 0 -> Exists (fun op => gauge_delta g op <> 0) log.
Proof.
  induction log as [|op log IH]; simpl; [done|]. intros Hne.
  destruct (decide (gauge_delta g op = 0)) as [H0|]; [|by left]. right. apply IH. lia.
Qed.

Context `{!Wasmtime} `{!Lru CachedModule} `{!Sha2} `{!TokioSemaphore}.

Definition exec_times (log : MetricLog) : list Z := observations StExecDuration log.

Record node_log_inv (id : string) (s : NodeSys) : Prop := {
  nlog_set : Forall (fun op => forall v, op <> GaugeSet (ACTIVE_TASKS_GAUGE id) v) (nlog (nworld s));
  nlog_count : Z.of_nat (length (exec_times (nlog (nworld s)))) mod u64_mod = total_executed (node (nworld s)) mod u64_mod;
  nlog_sum : foldr Z.add 0 (exec_times (nlog (nworld s))) mod u64_mod = total_execution_time_ms (node (nworld s)) mod u64_mod
}.

Lemma quiet_exec_times ops log : Forall quiet_op ops -> exec_times (ops ++ log) = exec_times log.
Proof.
  unfold exec_times, observations. intros Hq. rewrite omap_app. replace (omap (observed StExecDuration) ops) with (@nil Z); [done|].
  induction Hq as [|op ops Hop _ IH]; [done|]. by destruct op.
Qed.

Lemma quiet_not_set id ops :
  Forall quiet_op ops -> Forall (fun op => forall v, op <> GaugeSet (ACTIVE_TASKS_GAUGE id) v) ops.
Proof. intros Hq. eapply Forall_impl; [exact Hq|]. intros op Hop v ->. done. Qed.

Lemma node_step_log id url s s' : node_step id url s s' -> node_log_inv id s -> node_log_inv id s'.
Proof.
  intros Hstep [Hset Hcount Hsum]. destruct Hstep as [s req|s i t e t' w' Hi Hd|s i t Hi Hs|s op|s]; try done.
  - destruct (exec_step_log _ _ _ _ _ _ _ Hd) as [(ms & Hlog & Hex & Htime)|(ops & Hlog & Hq & Hex & Htime)];
      split; simpl; rewrite Hlog, ?Hex, ?Htime.
    + by repeat constructor.
    + simpl. rewrite Nat2Z.inj_succ. unfold u64_add. rewrite Zmod_mod, <- Z.add_1_r.
      by rewrite <- Zplus_mod_idemp_l, Hcount, Zplus_mod_idemp_l.
    + simpl. unfold u64_add. rewrite Zmod_mod, (Z.add_comm _ ms).
      by rewrite <- Zplus_mod_idemp_r, Hsum, Zplus_mod_idemp_r.
    + apply Forall_app. split; [by apply quiet_not_set|done].
    + by rewrite quiet_exec_times.
    + by rewrite quiet_exec_times.
  - split; simpl; destruct (holds_permit t); done.
  - split; simpl; [by constructor|done|done].
Qed.

Lemma node_reachable_log id url n k d s : rtc (node_step id url) (init_node id n k d) s -> node_log_inv id s.
Proof.
  intros Hrtc. assert (node_log_inv id (init_node id n k d)) as Hinit by (split; [constructor|done|done]).
  induction Hrtc; eauto using node_step_log.
Qed.

End readings.

(** A registry that is a list of descriptions and shows what is read, for
    evaluations. *)
Definition all_labels (s : Static) (log : MetricLog) : list (list string) :=
  match d_labels (desc s) with [] => [[]] | _ => op_labels <$> filter (fun op => op_static op = s) log end.
Definition list_family (log : MetricLog) (s : Static) : Family :=
  {| f_desc := desc s;
     f_samples := omap (fun lv => (fun v => (lv, v)) <$> reading s lv log) (all_labels s log) |}.
Definition list_gather (r : list Desc) (log : MetricLog) : list Family :=
  list_family log <$> filter (fun s => d_name (desc s) ∈ (d_name <$> r)) init_order.

Lemma find_family (l : list Static) log s :
  s ∈ l -> exists i, list_find (fun f => d_name (f_desc f) = d_name (desc s)) (list_family log <$> l) = Some (i, list_family log s).
Proof.
  induction l as [|s' l IH]; [by intros ?%not_elem_of_nil|]. intros Hin.
  rewrite fmap_cons. cbn [list_find]. case_decide as Hd; [apply desc_name_inj in Hd as ->; eauto|].
  apply elem_of_cons in Hin as [->|Hin]; [done|]. destruct (IH Hin) as [i ->]. by eexists.
Qed.

Lemma find_sample (g : list string -> option Sample) L lv :
  g lv = None \/ lv ∈ L ->
  (s ← list_find (fun s => s.1 = lv) (omap (fun l => (fun v => (l, v)) <$> g l) L); Some s.2.2) = g lv.
Proof.
  induction L as [|l L IH]; simpl.
  - intros [->|?%not_elem_of_nil]; done.
  - intros Hlv. destruct (g l) as [v|] eqn:Hg; simpl.
    + case_decide as Hl; simpl; [by subst|]. rewrite <- IH.
      * by destruct (list_find _ _) as [[i x]|].
      * destruct Hlv as [?|[->|?]%elem_of_cons]; [by left|done|by right].
    + apply IH. destruct Hlv as [?|[->|?]%elem_of_cons]; [by left|by left|by right].
Qed.

Lemma reading_labelled s lv log : reading s lv log = None \/ lv ∈ all_labels s log.
Proof.
  unfold all_labels, reading.
  destruct s; simpl; (destruct lv as [|n [|? ?]]; [try (right; by left); by left| |by left]); try (by left).
  all: case_decide as Hex; [|by left]; right; apply Exists_exists in Hex as (op & Hin & Hop & <-).
  all: apply list_elem_of_fmap_2, list_elem_of_filter; done.
Qed.

Definition list_prometheus : Prometheus.
Proof.
  refine {| PRegistry := list Desc; default_registry := []; registered := fun r => r;
    register := fun d r => if decide (valid_desc d = true /\ d_name d ∉ (d_name <$> r)) then Ok (d :: r) else Err "refused";
    gather := list_gather; encode := fun _ => ([], Ok tt); from_utf8_lossy := fun _ => EmptyString |}.
  - by intros d ?%not_elem_of_nil.
  - intros d r0 Hv Hn. rewrite decide_True by done. eauto.
  - intros r0 log s lv Hin _ _. unfold sample, list_gather.
    destruct (find_family (filter (fun s => d_name (desc s) ∈ (d_name <$> r0)) init_order) log s) as [i Hf].
    { apply list_elem_of_filter. split; [by apply list_elem_of_fmap_2|apply init_order_all]. }
    rewrite Hf. simpl. apply find_sample, reading_labelled.
Defined.

(** ** Properties *)

(** C30. Metrics never panic. Whatever calls the services make on their collectors,
    before or after [init] and in any order, every first use registers its
    collector successfully and every labelled call has the right number of
    labels; [init] succeeds at any time, leaves all eleven collectors registered
    under different names, and from then on neither calls nor another [init]
    change the registry. *)
Theorem metrics_never_panic `{!Prometheus} before after :
  exists st1 st2, metric_calls before fresh_metrics = Ok st1 /\ metrics_init st1 = Ok st2 /\
    (forall s, desc s ∈ registered (reg st2)) /\ NoDup (d_name ∘ desc <$> forced st2) /\
    metric_calls after st2 = Ok st2 /\ metrics_init st2 = Ok st2.
Proof.
  destruct (metric_calls_ok before fresh_metrics fresh_wf) as (st1 & Hb & Hwf1 & _).
  destruct (force_all_ok init_order st1 Hwf1) as (st2 & Hi & Hwf2 & Hall & _).
  assert (forall s, s ∈ forced st2) as Hforced by (intros s; apply Hall, init_order_all).
  exists st1, st2. split_and!; [done|done| | | |].
  - intros s. rewrite (mwf_registered _ Hwf2). apply elem_of_app. left. by apply list_elem_of_fmap_2.
  - apply NoDup_fmap_2_strong; [|apply mwf_forced, Hwf2]. intros s s' _ _. apply desc_name_inj.
  - destruct (metric_calls_ok after st2 Hwf2) as (st3 & Ha & _ & _ & Hsame). by rewrite Ha, Hsame.
  - unfold metrics_init. clear Hi. assert (forall l, force_all l st2 = Ok st2) as Hid; [|apply Hid].
    induction l as [|s l IH]; [done|]. simpl. unfold force. by rewrite decide_True.
Qed.

(** C31. What a scrape of an edge node shows. In every reachable state of a node
    whose metrics are initialised (while all values are exact in an [f64]), the
    gauge [active_tasks] of the node, if it is not zero, shows the calls being
    served plus those lost to failed downloads, failed compilations and dropped
    callers; and the histogram of execution times has, modulo 2^64, as many
    observations as tasks were executed and their total time as its sum. *)
Theorem node_scrape_correct `{!Prometheus} `{!Wasmtime} `{!Lru CachedModule} `{!Sha2} `{!TokioSemaphore}
    id url n k d s st :
  rtc (node_step id url) (init_node id n k d) s -> exact (nlog (nworld s)) ->
  NoDup (d_name <$> registered default_registry) -> metrics_init fresh_metrics = Ok st ->
  let shown := sample (gather (reg st) (nlog (nworld s))) in
  let load := (total counted_active s + total leaked s + total abandoned s)%nat in
  (load <> 0%nat -> shown "active_tasks" [id] = Some (SValue (Z.of_nat load))) /\
  exists buckets count sum, shown "task_execution_duration_ms" [] = Some (SHistogram buckets count sum) /\
    Z.of_nat count mod u64_mod = total_executed (node (nworld s)) mod u64_mod /\
    sum mod u64_mod = total_execution_time_ms (node (nworld s)) mod u64_mod.
Proof.
  intros Hrtc Hexact Hdef Hinit shown load.
  pose proof (fun x lv => init_shows st (nlog (nworld s)) x lv Hdef Hinit Hexact) as Hread.
  destruct (node_reachable_log _ _ _ _ _ _ Hrtc) as [Hset Hcount Hsum].
  apply node_reachable_inv in Hrtc as [_ _ Hg _ _ _ _]. split.
  - intros Hload. change (shown "active_tasks" [id]) with (shown (d_name (desc StActiveTasks)) [id]).
    unfold shown. rewrite Hread. simpl. rewrite decide_True.
    + by rewrite gauge_reading_value, Hg.
    + eapply Exists_impl; [apply (gauge_used (ACTIVE_TASKS_GAUGE id)); rewrite Hg; unfold load in Hload; lia|].
      intros op Hop. unfold gauge_delta in Hop. destruct op; try done; case_decide; simplify_eq; done.
  - eexists _, _, _. split; [exact (Hread StExecDuration [])|]. split; [exact Hcount|exact Hsum].
Qed.

Lemma node_scrape_correct_witness :
  exists st, @metrics_init list_prometheus fresh_metrics = Ok st /\
    sample (@gather list_prometheus (reg st) (nlog (nworld demo_leaky_node))) "active_tasks" ["n1"] = Some (SValue 1).
Proof.
  destruct demo_failed_download as (Hrtc & Hl & Hc & Ha & _).
  destruct (@force_all_ok list_prometheus init_order fresh_metrics fresh_wf) as (st & Hi & _).
  exists st. split; [exact Hi|].
  assert (exact (nlog (nworld demo_leaky_node))) as Hex.
  { split; [reflexivity|]. split; [repeat constructor|]. intros h. destruct h; reflexivity. }
  destruct (@node_scrape_correct list_prometheus echo_wasmtime (list_lru _) toy_sha2 nat_semaphore "n1" "http://cp" 1 4 10
    demo_leaky_node st Hrtc Hex (NoDup_nil_2) Hi) as [Hshown _].
  rewrite Hl, Hc, Ha in Hshown. apply Hshown. discriminate.
Defined.

(** What a scrape of the control plane shows: as many submitted tasks as
    dispatches have begun, those whose client left included, and as many
    successes and failures together as have come to their end. *)
Theorem cp_scrape_correct `{!Prometheus} `{!Base64} `{!Sha2} `{!Tonic} `{!TokioRwLock} d st :
  dis_reachable d -> exact (mlog (world (core d))) ->
  NoDup (d_name <$> registered default_registry) -> metrics_init fresh_metrics = Ok st ->
  let shown x := sample (gather (reg st) (mlog (world (core d)))) x [] in
  shown "tasks_submitted_total" = Some (SValue (Z.of_nat (sum_list_with submit_marks (all_tasks d)))) /\
  exists ok failed, shown "tasks_success_total" = Some (SValue (Z.of_nat ok)) /\
    shown "tasks_failed_total" = Some (SValue (Z.of_nat failed)) /\
    (ok + failed)%nat = sum_list_with outcome_marks (all_tasks d).
Proof.
  intros [[_ _ _ _ _ Hsm Hom _] _ _ _]%dis_reachable_inv Hexact Hdef Hinit shown.
  pose proof (fun x => init_shows st (mlog (world (core d))) x [] Hdef Hinit Hexact) as Hread.
  split; [refine (eq_trans (Hread StTasksSubmitted) _); simpl; do 3 f_equal; exact Hsm|].
  eexists _, _. split; [exact (Hread StTasksSuccess)|]. split; [exact (Hread StTasksFailed)|exact Hom].
Qed.

Lemma cp_scrape_correct_witness :
  exists d st, @dis_reachable toy_base64 toy_sha2 toy_tonic simple_rwlock d /\ gone d <> [] /\
    sample (@gather list_prometheus (reg st) (mlog (world (core d)))) "tasks_submitted_total" [] = Some (SValue 0).
Proof.
  destruct left_client as (d & a & Hre & Hg & Hd & _ & Hlog).
  destruct (@force_all_ok list_prometheus init_order fresh_metrics fresh_wf) as (st & Hi & _).
  exists d, st. split; [exact Hre|]. split; [rewrite Hg; discriminate|].
  assert (exact (mlog (world (core d)))) as Hex by (rewrite Hlog; split; [reflexivity|split; [constructor|reflexivity]]).
  rewrite (proj1 (@cp_scrape_correct list_prometheus toy_base64 toy_sha2 toy_tonic simple_rwlock d st Hre Hex
    NoDup_nil_2 Hi)).
  unfold all_tasks. rewrite Hg, Hd. reflexivity.
Defined.
