(* ===== verification/Lifecycle.v ===== *)
(** * The two processes from start to exit

    Models the rest of [services/control-plane/src/main.rs] and
    [services/edge-node/src/main.rs]: binding the sockets, [shutdown_signal], and
    serving until the server has shut down gracefully; and the spawned servers of
    [crates/telemetry/src/prometheus_server.rs] and
    [services/edge-node/src/metrics.rs], whose failure to bind is only logged.

    Graceful shutdown is axum's and tonic's and therefore an interface,
    [GracefulServer]: requests are accepted until the signal and not after it,
    and the server returns when the signal has come and no request is open. The
    machine [proc_step] runs a service under it; it is instantiated by the edge
    node's calls and by the control plane with its clients. *)

From S2P Require Import Prelude RustStd RustText Common Config Http CircuitBreaker Scheduler Registry Sandbox ModuleCache AppState.
From S2P Require Import Dispatch Health Handlers Routes ControlPlane Disconnect EdgeNode NodeMain.

(** ** Signals (shutdown_signal) *)
Inductive Signal := SigInt | SigTerm | SigOther.

(** [select!] over the two handlers: done at the first of either. *)
Definition shutdown_signal (received : list Signal) : bool :=
  existsb (fun s => match s with SigInt | SigTerm => true | SigOther => false end) received.

(** ** Graceful shutdown *)
Class GracefulServer := {
  accepts : bool -> bool;
  returns : bool -> nat -> bool;
  accepts_before : accepts false = true;
  accepts_not_after : accepts true = false;
  returns_drained : returns true 0 = true;
  returns_only_drained : forall sg n, returns sg n = true -> sg = true /\ n = 0%nat
}.

Definition simple_server : GracefulServer.
Proof.
  refine {| accepts := negb; returns := fun sg n => sg && (n =? 0)%nat |}; try done.
  intros sg n [-> Hn]%andb_true_iff. split; [done|by apply Nat.eqb_eq].
Defined.

(** A service that works on requests and is given new ones; [open_] counts
    requests that are known to be open. *)
Section process.
Context `{!GracefulServer} {S : Type} (work arrive : S -> S -> Prop) (open_ : S -> nat).

Record Proc := { pstate : S; received : list Signal; exited : bool }.

(** The process runs until [main] returns; [n] is the number of open requests. *)
Inductive proc_step : Proc -> Proc -> Prop :=
| proc_work p s' :
    exited p = false -> work (pstate p) s' ->
    proc_step p {| pstate := s'; received := received p; exited := false |}
| proc_arrive p s' :
    exited p = false -> accepts (shutdown_signal (received p)) = true -> arrive (pstate p) s' ->
    proc_step p {| pstate := s'; received := received p; exited := false |}
| proc_signal p sg :
    exited p = false ->
    proc_step p {| pstate := pstate p; received := sg :: received p; exited := false |}
| proc_exit p n :
    exited p = false -> (open_ (pstate p) <= n)%nat -> returns (shutdown_signal (received p)) n = true ->
    proc_step p {| pstate := pstate p; received := received p; exited := true |}.

Definition running (s : S) : Proc := {| pstate := s; received := []; exited := false |}.

Lemma proc_exited p p' : rtc proc_step p p' -> exited p = true -> p' = p.
Proof. destruct 1 as [|p1 p2 p3 Hs _]; [done|]. intros He. by destruct Hs; congruence. Qed.

Lemma shutdown_signal_cons sg l : shutdown_signal l = true -> shutdown_signal (sg :: l) = true.
Proof. unfold shutdown_signal. simpl. intros ->. by rewrite orb_true_r. Qed.

(** What the process does to the service. *)
Lemma proc_steps_state p p' :
  rtc proc_step p p' -> rtc (fun s s' => work s s' \/ arrive s s') (pstate p) (pstate p').
Proof.
  induction 1 as [|p1 p2 p3 Hs _ IH]; [done|].
  destruct Hs; simpl in IH; [by eapply rtc_l; [left|]|by eapply rtc_l; [right|]|done|done].
Qed.

(** The process exits on a signal, with nothing open. *)
Lemma proc_exit_drained p p' :
  rtc proc_step p p' -> exited p = false -> exited p' = true ->
  open_ (pstate p') = 0%nat /\ shutdown_signal (received p') = true.
Proof.
  induction 1 as [|p1 p2 p3 Hs Hrtc IH]; intros H1' H3'; [congruence|].
  destruct Hs as [p s' He Hw|p s' He Ha Hw|p sg He|p n He Hle Hret]; try (by apply IH).
  apply proc_exited in Hrtc as ->; [|done]. simpl. apply returns_only_drained in Hret as [? ?]. split; [lia|done].
Qed.

(** After the signal the service only works off what it has. *)
Lemma proc_no_arrivals p p' :
  rtc proc_step p p' -> shutdown_signal (received p) = true -> rtc work (pstate p) (pstate p').
Proof.
  induction 1 as [|p1 p2 p3 Hs _ IH]; intros Hsig; [done|].
  destruct Hs as [p s' He Hw|p s' He Ha Hw|p sg He|p n He Hle Hret]; simpl in *.
  - eapply rtc_l; [done|by apply IH].
  - rewrite Hsig, accepts_not_after in Ha. done.
  - apply IH. by apply shutdown_signal_cons.
  - by apply IH.
Qed.

End process.

(** ** Servers that are only best effort *)

(** The router behind the port, if it could be bound; otherwise an error is
    logged and nothing else happens. *)
Definition spawn_server {A} (bind : Z -> result string unit) (port : Z) (router : A) : option A :=
  match bind port with Ok _ => Some router | Err _ => None end.

Definition prometheus_router : list (Route unit) := [{| rt_path := "/metrics"; rt_method := GET; rt_endpoint := tt |}].

Definition spawn_prometheus_server (bind : Z -> result string unit) (port : Z) : option (list (Route unit)) :=
  spawn_server bind port prometheus_router.

(** The synchronisation of the cache gauge it spawns is a step of the node. *)
Definition spawn_metrics_server (bind : Z -> result string unit) (port : Z) : option (list (Route AdminEndpoint)) :=
  spawn_server bind port admin_router.

Inductive MainError := MainStart (e : StartError) | MainConfig (e : ConfigError) | MainBind (err : string).

(** ** The control plane *)
Section control_plane.
Context `{!Base64} `{!Sha2} `{!Tonic} `{!TokioRwLock} `{!GracefulServer}.

(** Steps without and with a new task. *)
Definition cp_work (d d' : DSys) : Prop := dis_step d d' /\ length (ids d') = length (ids d).
Definition cp_arrive (d d' : DSys) : Prop := dis_step d d' /\ length (ids d') = S (length (ids d)).
(** No client goes away. *)
Definition cp_work_staying (d d' : DSys) : Prop := cp_work d d' /\ gone d' = gone d.

(** A POST /tasks request is open while its dispatch is under way. *)
Definition open_request (to : DispatchTask * Owner) : nat :=
  match to.2 with Awaited => if finished to.1 then 0%nat else 1%nat | Spawned => 0%nat end.
Definition cp_open (d : DSys) : nat := sum_list_with open_request (zip (dispatches (core d)) (owners d)).

(** The process [main] serves with: its state, and whether /metrics is up. *)
Definition cp_process (env : RustText.Env) (bind : Z -> result string unit)
    : result MainError (Proc (S := DSys) * option (list (Route unit))) :=
  config ← map_err MainConfig (cp_from_env env);
  let prometheus := spawn_prometheus_server bind (cp_metrics_port config) in
  _ ← map_err MainBind (bind (http_port config));
  Ok (running (dis_init (cp_self_url config) (cp_scheduling_strategy config)), prometheus).

End control_plane.

(** ** The edge node *)
Section edge.
Context `{!Wasmtime} `{!Lru CachedModule} `{!Sha2} `{!TokioSemaphore} `{!GracefulServer}.

Definition node_work (id url : string) (s s' : NodeSys) : Prop :=
  node_step id url s s' /\ length (calls s') = length (calls s).
Definition node_accept (s s' : NodeSys) : Prop :=
  exists req, s' = {| nworld := nworld s; calls := calls s ++ [arrival req] |}.

Definition open_call (t : ExecTask) : nat :=
  match xpc t with XDone _ | XDropped _ => 0%nat | _ => 1%nat end.

(** The process [main] serves with; the admin server may be missing. *)
Definition edge_process (engine : result string unit) (env : RustText.Env) (bind : Z -> result string unit)
    : result MainError (Started * Proc (S := NodeSys) * option (list (Route AdminEndpoint))) :=
  p ← map_err MainStart (edge_main engine env);
  let admin := spawn_metrics_server bind (sd_metrics_port p) in
  _ ← map_err MainBind (bind (sd_grpc_port p));
  Ok (p, running (sd_sys p), admin).

End edge.

(** ** Lemmas *)

Section edge_lemmas.
Context `{!Wasmtime} `{!Lru CachedModule} `{!Sha2} `{!TokioSemaphore} `{!GracefulServer}.
Abbreviation node_proc id url := (proc_step (node_work id url) node_accept (total open_call)).

Lemma node_proc_steps id url p p' :
  rtc (node_proc id url) p p' -> rtc (node_step id url) (pstate p) (pstate p').
Proof.
  intros Hrtc%proc_steps_state. induction Hrtc as [|s1 s2 s3 Hs _ IH]; [done|]. eapply rtc_l; [|done].
  destruct Hs as [[? _]|[req ->]]; [done|]. apply node_arrive.
Qed.

End edge_lemmas.

Section cp_lemmas.
Context `{!Base64} `{!Sha2} `{!Tonic} `{!TokioRwLock} `{!GracefulServer}.
Implicit Types (d : DSys).

Lemma cp_proc_steps p p' :
  rtc (proc_step cp_work cp_arrive cp_open) p p' -> rtc dis_step (pstate p) (pstate p').
Proof.
  intros Hrtc%proc_steps_state. induction Hrtc as [|s1 s2 s3 Hs _ IH]; [done|]. eapply rtc_l; [|done].
  by destruct Hs as [[? _]|[? _]].
Qed.

(** Before the signal every history of the control plane is one of the process. *)
Lemma dis_steps_proc d d' :
  rtc dis_step d d' -> rtc (proc_step cp_work cp_arrive cp_open) (running d) (running d').
Proof.
  induction 1 as [|d1 d2 d3 Hs _ IH]; [done|]. eapply rtc_l; [|exact IH].
  assert (length (ids d2) = length (ids d1) \/ length (ids d2) = S (length (ids d1))) as [Hl|Hl].
  { unfold ids, all_tasks. rewrite !length_fmap, !length_app.
    destruct Hs as [d0 s' Hs Hlen|d0 s' u o Hs Hd|d0 j u Hj Hoj Hf]; simpl.
    - left. lia.
    - right. rewrite Hd, length_app. simpl. lia.
    - left. rewrite length_delete by (by eexists). apply lookup_lt_Some in Hj. lia. }
  - by apply (proc_work _ _ _ (running d1)).
  - apply (proc_arrive _ _ _ (running d1)); [done|apply accepts_before|done].
Qed.

Lemma open_zero d i t :
  cp_open d = 0%nat -> dispatches (core d) !! i = Some t -> owners d !! i = Some Awaited -> finished t = true.
Proof.
  intros Hz Hi Ho. assert (zip (dispatches (core d)) (owners d) !! i = Some (t, Awaited)) as Hzip
    by by apply lookup_zip_Some.
  pose proof (sum_list_with_lookup open_request _ _ _ Hzip) as Hle. unfold cp_open in Hz. unfold open_request in Hle at 1.
  simpl in Hle. destruct (finished t); [done|lia].
Qed.

(** A client that is stuck in the queueing statement and does not leave. *)
Definition waiting_client d : Prop :=
  exists i t, dispatches (core d) !! i = Some t /\ owners d !! i = Some Awaited /\ holds_read_guard t = true.

Lemma waiting_open d : waiting_client d -> (0 < cp_open d)%nat.
Proof.
  intros (i & t & Hi & Ho & Hg). destruct (cp_open d) eqn:Hz; [|lia]. exfalso.
  pose proof (open_zero d i t Hz Hi Ho). unfold holds_read_guard, finished in *. by destruct (at_pc t).
Qed.

Lemma waiting_step d d' :
  dis_step d d' -> gone d' = gone d -> waiting_client d ->
  waiting_client d' /\ app (world (core d')) = app (world (core d)).
Proof.
  intros Hs Hg (i & t & Hi & Ho & Hh). pose proof (readers_pos _ _ _ Hi Hh) as Hr.
  split; [|by apply dis_blocked_step].
  destruct Hs as [d0 s' Hs Hlen|d0 s' u o Hs Hd|d0 j u Hj Hoj Hf].
  - exists i, t. apply blocked_step in Hs as (_ & _ & _ & Hkeep); [|done]. by split_and!; [apply Hkeep|..].
  - exists i, t. apply blocked_step in Hs as (_ & _ & _ & Hkeep); [|done].
    split_and!; [by apply Hkeep|by apply lookup_app_l_Some|done].
  - simpl in Hg. apply (f_equal length) in Hg. simpl in Hg. lia.
Qed.

Lemma submit_keeps_gone d d' : cp_arrive d d' -> gone d' = gone d.
Proof.
  intros [[d0 s' Hs Hlen|d0 s' u o Hs Hd|d0 j u Hj Hoj Hf] Hids]; [done|done|]. exfalso.
  unfold ids, all_tasks in Hids. rewrite !length_fmap, !length_app in Hids. simpl in Hids.
  rewrite length_delete in Hids by (by eexists). apply lookup_lt_Some in Hj. lia.
Qed.

Lemma waiting_steps p p' :
  rtc (proc_step cp_work_staying cp_arrive cp_open) p p' -> waiting_client (pstate p) -> exited p = false ->
  waiting_client (pstate p') /\ exited p' = false /\ app (world (core (pstate p'))) = app (world (core (pstate p))).
Proof.
  induction 1 as [|p1 p2 p3 Hs _ IH]; intros Hw He; [done|].
  destruct Hs as [p s' _ [[Hd _] Hg]|p s' _ _ Ha|p sg _|p n _ Hle Hret]; simpl in *.
  - destruct (waiting_step _ _ Hd Hg Hw) as [Hw' Heq]. destruct IH as (? & ? & ?); [done..|]. split_and!; congruence || done.
  - destruct (waiting_step _ _ (proj1 Ha) (submit_keeps_gone _ _ Ha) Hw) as [Hw' Heq].
    destruct IH as (? & ? & ?); [done..|]. split_and!; congruence || done.
  - by apply IH.
  - apply returns_only_drained in Hret as [_ ->]. apply waiting_open in Hw. lia.
Qed.

End cp_lemmas.

Lemma waiting_demo :
  exists d, rtc (@dis_step toy_base64 toy_sha2 toy_tonic simple_rwlock) (dis_init "u" "round_robin") d /\ waiting_client d.
Proof.
  destruct stuck_client as (d & t & Hd & Hi & Ho & Hg). exists d. split; [done|]. exists 0%nat, t. by rewrite Ho.
Qed.

(** ** Properties *)

(** The metrics port is optional: a control plane starts exactly when its
    configuration is good and the HTTP port can be bound, whatever becomes of the
    metrics port; and an edge node likewise with its gRPC port. *)
Theorem metrics_port_optional `{!Tonic} `{!Wasmtime} `{!Lru CachedModule} `{!TokioSemaphore} env engine bind :
  (is_Some (match cp_process env bind with Ok p => Some p | Err _ => None end) <->
     exists c, cp_from_env env = Ok c /\ bind (http_port c) = Ok tt) /\
  (is_Some (match edge_process engine env bind with Ok p => Some p | Err _ => None end) <->
     exists p, edge_main engine env = Ok p /\ bind (sd_grpc_port p) = Ok tt).
Proof.
  unfold cp_process, edge_process, mbind, result_bind, map_err. split.
  - destruct (cp_from_env env) as [c|]; [|by split; [intros [? ?]|intros (? & ? & _)]].
    destruct (bind (http_port c)) as [[]|] eqn:Hb; (split; [intros [? ?]; try done; eauto|]);
      intros (c' & [= <-] & ?); [eauto|congruence].
  - destruct (edge_main engine env) as [p|]; [|by split; [intros [? ?]|intros (? & ? & _)]].
    destruct (bind (sd_grpc_port p)) as [[]|] eqn:Hb; (split; [intros [? ?]; try done; eauto|]);
      intros (c' & [= <-] & ?); [eauto|congruence].
Qed.

(** What an exited node leaves behind: every call it was given has been answered or
    was dropped by its caller, and all permits are back. Whether a node that was
    told to stop ever gets there depends on its guests: a call whose guest does not
    return stays open, and keeps the process. *)
Theorem node_exit_clean `{!Wasmtime} `{!Lru CachedModule} `{!Sha2} `{!TokioSemaphore} `{!GracefulServer}
    id url n k d p :
  rtc (proc_step (node_work id url) node_accept (total open_call)) (running (init_node id n k d)) p -> exited p = true ->
  Forall (fun t => open_call t = 0%nat) (calls (pstate p)) /\ available_permits (semaphore (nworld (pstate p))) = n.
Proof.
  intros Hrtc He. destruct (proc_exit_drained _ _ _ _ _ Hrtc eq_refl He) as [Hz _].
  apply node_proc_steps, node_reachable_inv in Hrtc as [Hp _ _ _ _ _ _].
  assert (Forall (fun t => open_call t = 0%nat) (calls (pstate p))) as Hall by by apply sum_list_with_zero.
  split; [done|]. assert (total holds_permit (pstate p) = 0%nat); [|lia].
  apply sum_list_with_zero. eapply Forall_impl; [exact Hall|]. intros t Ht.
  unfold open_call, holds_permit in *. by destruct (xpc t).
Qed.


