(* ===== verification/HttpSystem.v ===== *)
(** * HTTP requests as steps of the control plane

    [ControlPlane] and [Disconnect] let submissions, registrations and uploads
    happen as steps of a concurrent system; [Routes] says what a request on the
    socket does. Here the second refines the first: serving a request from
    [services/control-plane] started on its configuration is a sequence of steps
    of the system, so that every theorem about reachable states holds for every
    history of requests, dispatches, health checks and disconnects. *)

From S2P Require Import Prelude RustStd RustText Common Config Http CircuitBreaker Scheduler Registry AppState.
From S2P Require Import Dispatch Health Handlers Routes ControlPlane Disconnect NodeMain.

Section http_system.
Context `{!Base64} `{!Sha2} `{!Tonic} `{!TokioRwLock} `{!Axum}.
Implicit Types (s : Sys) (d : DSys) (st : AppState).

(** The system after a request: its new state, and its tasks at their start. *)
Definition after_request (sv : Served) (s : Sys) : Sys :=
  {| world := with_app (fun _ => sv_state sv) (world s);
     dispatches := dispatches s ++ (init_task <$> sv_spawned sv); hpc := hpc s |}.

(** Nothing else runs between the guards of one handler. *)
Definition undisturbed (e : ServeEnv) : Prop := forall st k, se_later e st k = st.

(** A batch that is served as one request; [http_accept] takes its items one by
    one. The second guard of an upload may see any later state. *)
Definition whole_batch (e : ServeEnv) (req : HttpRequest) : Prop :=
  match route Endpoint build_router (hq_method req) (hq_path req) with
  | Matched EpSubmitTasksBatch _ => undisturbed e
  | _ => True
  end.

(** The dispatch of POST /tasks is awaited by its handler, those of
    POST /tasks/batch are spawned. *)
Definition request_owner (req : HttpRequest) : Owner :=
  match route Endpoint build_router (hq_method req) (hq_path req) with
  | Matched EpSubmitTask _ => Awaited
  | _ => Spawned
  end.

Definition after_http (req : HttpRequest) (sv : Served) (d : DSys) : DSys :=
  {| core := after_request sv (core d);
     owners := owners d ++ replicate (length (sv_spawned sv)) (request_owner req); gone := gone d |}.

(** A task has been accepted: its dispatch is at its start. *)
Definition accept (o : Owner) (a : TaskArgs) (d : DSys) : DSys :=
  {| core := {| world := world (core d); dispatches := dispatches (core d) ++ [init_task a]; hpc := hpc (core d) |};
     owners := owners d ++ [o]; gone := gone d |}.

(** A history: requests served while no guard is held across a suspension point;
    single acceptances, of the body of POST /tasks or of one item of a batch, as
    soon as the guard that body needs is granted, so that the items of batches
    interleave with everything else and submissions with inline modules are
    accepted whoever holds a guard; steps of dispatches and the health loop; and
    clients that go away. *)
Inductive http_step : DSys -> DSys -> Prop :=
| http_request d uuid hdrs e req :
    readers (core d) = 0%nat -> whole_batch e req ->
    http_step d (after_http req (hp_served (serve uuid hdrs e req (app (world (core d))))) d)
| http_accept d uuid trace body a o :
    lock_granted (submit_lock body) (core d) = true ->
    submit_task (app (world (core d))) uuid trace body = Ok a ->
    http_step d (accept o a d)
| http_dispatch d i t e t' w' :
    dispatches (core d) !! i = Some t -> lock_granted (lock_use t) (core d) = true ->
    dispatch_step e t (world (core d)) = Some (t', w') ->
    http_step d {| core := {| world := w'; dispatches := <[i := t']> (dispatches (core d)); hpc := hpc (core d) |};
                   owners := owners d; gone := gone d |}
| http_health d o r h' w' :
    lock_granted (health_lock_use (hpc (core d))) (core d) = true ->
    health_step o r (hpc (core d)) (world (core d)) = (h', w') ->
    http_step d {| core := {| world := w'; dispatches := dispatches (core d); hpc := h' |};
                   owners := owners d; gone := gone d |}
| http_disconnect d i t :
    dispatches (core d) !! i = Some t -> owners d !! i = Some Awaited -> finished t = false ->
    http_step d (drop_dispatch i t d).

(** The response of a request goes out once the dispatches its handler awaits have
    ended; none of them panics. *)
Definition response_sent (sv : Served) (d : DSys) : Prop :=
  Forall (fun a => exists t, t ∈ dispatches (core d) /\ finished t = true /\ task_id (args t) = task_id a) (awaited sv).

(** The process right after start-up. *)
Definition started (st : AppState) : DSys :=
  {| core := {| world := {| app := st; pool := pool_new; mlog := [] |}; dispatches := []; hpc := HTick |};
     owners := []; gone := [] |}.

(** ** Lemmas *)

(** What a request can do to the state, and where its tasks come from. *)
Inductive effect (st : AppState) : AppState -> list TaskArgs -> Prop :=
| effect_submit l :
    Forall (fun a => exists uuid trace body, submit_task st uuid trace body = Ok a) l -> effect st st l
| effect_register body : effect st (register_node body st) []
| effect_upload o uuid utc body seen : effect st (upload_module o uuid utc body st seen).1.2 [].

Lemma batch_spawned e trace st items r spawned :
  undisturbed e -> submit_tasks_batch trace (se_uuid e) (se_later e st) (se_panicked e) items = (r, spawned) ->
  Forall (fun a => exists uuid trace body, submit_task st uuid trace body = Ok a) spawned.
Proof.
  intros Hq Hb. unfold submit_tasks_batch in Hb. destruct items as [|i items]; simplify_eq; [by constructor|].
  case_decide; simplify_eq; [by constructor|].
  pose proof (batch_loop_spec trace (se_uuid e) (se_later e st) 0 (i :: items)) as Hspec.
  destruct (batch_loop _ _ _ _ _) as [res spawned']. destruct Hspec as [_ Hspec].
  assert (spawned = spawned') as -> by (destruct res; by simplify_eq).
  apply Forall_lookup. intros j a Ha. destruct (Hspec j a Ha) as (i' & r' & _ & Hr & ->). rewrite Hq in Hr.
  eexists _, _, _. unfold submit_task. rewrite Hr. reflexivity.
Qed.

Lemma handle_effect e trace ep caps b st :
  (ep = EpSubmitTasksBatch -> undisturbed e) -> let sv := handle e trace ep caps b st in effect st (sv_state sv) (sv_spawned sv).
Proof.
  intros Hq. unfold handle, with_json, with_path, reply_error.
  destruct ep; simpl; repeat (case_match; simplify_eq/=); try (by apply effect_submit; constructor);
    try (by apply effect_register).
  - apply effect_submit. constructor; [eauto|constructor].
  - apply effect_submit. eapply batch_spawned; [by apply Hq|done].
  - match goal with Hu : upload_module ?o ?u ?t ?bd ?st0 ?sn = (_, ?st', _) |- _ =>
      replace st' with (upload_module o u t bd st0 sn).1.2 by (by rewrite Hu) end. apply effect_upload.
  - match goal with Hu : upload_module ?o ?u ?t ?bd ?st0 ?sn = (_, ?st', _) |- _ =>
      replace st' with (upload_module o u t bd st0 sn).1.2 by (by rewrite Hu) end. apply effect_upload.
Qed.

Lemma serve_effect uuid hdrs e req st :
  whole_batch e req -> let sv := hp_served (serve uuid hdrs e req st) in effect st (sv_state sv) (sv_spawned sv).
Proof.
  unfold whole_batch. intros Hq. cbv zeta. rewrite serve_served. unfold route_request.
  case_match; [|by apply effect_submit; constructor..]. apply handle_effect. by intros ->.
Qed.

(** Without guards across suspension points every lock is free. *)
Lemma free_locks s u : readers s = 0%nat -> lock_granted u s = true.
Proof. intros Hr. unfold lock_granted. rewrite Hr. destruct u; [done|apply free_read|apply free_write]. Qed.

(** Tasks are submitted one after the other. *)
Lemma submit_all l s :
  readers s = 0%nat ->
  Forall (fun a => exists uuid trace body, submit_task (app (world s)) uuid trace body = Ok a) l ->
  rtc sys_step s {| world := world s; dispatches := dispatches s ++ (init_task <$> l); hpc := hpc s |}.
Proof.
  intros Hr Hl. revert s Hr Hl. induction l as [|a l IH]; intros s Hr Hl.
  - simpl. rewrite app_nil_r. by destruct s.
  - apply Forall_cons_iff in Hl as [(uuid & trace & body & Ha) Hl].
    set (s1 := {| world := world s; dispatches := dispatches s ++ [init_task a]; hpc := hpc s |}).
    eapply rtc_l; [exact (sys_submit s uuid trace body a (free_locks s _ Hr) Ha)|].
    assert (readers s1 = 0%nat) as Hr1.
    { unfold readers, s1 in *. simpl. rewrite sum_list_with_app, Hr. done. }
    specialize (IH s1 Hr1 Hl). unfold s1 in IH. simpl in IH. by rewrite <- app_assoc in IH.
Qed.

Lemma request_steps sv s :
  readers s = 0%nat -> effect (app (world s)) (sv_state sv) (sv_spawned sv) -> rtc sys_step s (after_request sv s).
Proof.
  intros Hr He. unfold after_request. inversion He as [l Hl Hst|body Hst Hsp|o uuid utc body seen Hst Hsp].
  - replace (with_app (fun _ => app (world s)) (world s)) with (world s) by (by destruct (world s)).
    by apply submit_all.
  - rewrite app_nil_r. apply rtc_once. exact (sys_register s body (free_locks s _ Hr)).
  - rewrite app_nil_r. apply rtc_once. exact (sys_upload s o uuid utc body seen (free_locks s _ Hr)).
Qed.

Lemma http_step_dis d d' : http_step d d' -> dis_inv d -> rtc dis_step d d'.
Proof.
  intros [d0 uuid hdrs e req Hr Hq|d0 uuid trace body a o Hl Ha|d0 i t e t' w' Hi Hl Hd|d0 o r h' w' Hl Hh|d0 i t Hi Ho Hf] Hinv.
  - pose proof (serve_effect uuid hdrs e req (app (world (core d0))) Hq) as Heff. cbv zeta in Heff.
    set (sv := hp_served _) in *. pose proof (request_steps sv (core d0) Hr Heff) as Hsys.
    destruct (sys_steps_dis (request_owner req) _ _ (owners d0) (gone d0) Hsys (dinv_owners _ Hinv)) as (k & Hk & Hdis).
    simpl in Hk. rewrite length_app, length_fmap in Hk. replace k with (length (sv_spawned sv)) in Hdis by lia.
    by destruct d0.
  - apply rtc_once, (dis_submit d0 _ (init_task a) o); [by eapply sys_submit|done].
  - apply rtc_once, (dis_run d0); [by eapply sys_dispatch|simpl; by rewrite length_insert].
  - apply rtc_once, (dis_run d0); [by eapply sys_health|done].
  - by apply rtc_once, dis_drop.
Qed.

Lemma http_steps_dis d d' : rtc http_step d d' -> dis_inv d -> rtc dis_step d d'.
Proof.
  induction 1 as [|d1 d2 d3 Hs _ IH]; intros Hinv; [done|]. pose proof (http_step_dis _ _ Hs Hinv) as Hd.
  etrans; [exact Hd|]. apply IH. by eapply dis_steps_inv.
Qed.

Lemma started_init env port st :
  cp_main env = Ok (port, st) -> exists url strategy, started st = dis_init url strategy.
Proof.
  unfold cp_main, mbind, result_bind. destruct (cp_from_env env) as [c|]; [|done]. intros [= _ <-]. by do 2 eexists.
Qed.

(** A finished dispatch is answered for over HTTP. *)
Lemma get_finished_task uuid hdrs e hs b d i t :
  dis_inv d -> dispatches (core d) !! i = Some t -> finished t = true ->
  plain_segment (task_id (args t)) = true -> task_id (args t) <> "batch" ->
  exists r, hp_served (serve uuid hdrs e {| hq_method := GET; hq_path := "/tasks/" +:+ task_id (args t);
      hq_headers := hs; hq_body := b |} (app (world (core d)))) =
      reply 200 (PTask (api_ok (inl r))) (app (world (core d))) /\
    tr_task_id r = task_id (args t) /\ (tr_success r = true <-> tr_error r = None).
Proof.
  intros [[Happ _ _ _ Hst _ _ _] _ _ _] Hi Hf Hp Hb. rewrite Forall_forall in Hst.
  destruct (Hst t) as [r Hr]; [apply elem_of_app; right; by eapply list_elem_of_lookup_2|done|]. simpl in Hr, Happ.
  exists r. split; [|by apply (wf_tasks _ Happ)]. rewrite serve_served. unfold route_request. simpl.
  destruct (plain_no_slash _ Hp). rewrite route_get_task by done. unfold handle, with_path. simpl.
  rewrite percent_decode_plain by done. simpl. unfold get_task. by rewrite Hr.
Qed.

(** *** Responses *)

(** A response is sent exactly when the results it waits for are stored. *)
Lemma response_sent_stored sv d :
  dis_inv d ->
  response_sent sv d <-> Forall (fun a => is_Some (tasks (app (world (core d))) !! task_id a)) (awaited sv).
Proof.
  intros Hinv. unfold response_sent. split; intros Hall; (eapply Forall_impl; [exact Hall|]); intros a; simpl.
  - intros (t & Ht & Hf & <-). destruct (dinv_sys _ Hinv) as [_ _ _ _ Hst _ _ _]. rewrite Forall_forall in Hst.
    apply Hst; [by apply elem_of_app; right|done].
  - intros (t & Ht & Hf & Hid)%(dinv_results _ Hinv). eauto.
Qed.

(** A dispatch inside the queueing statement stays there, or its client leaves. *)
Lemma queued_stays d d' t :
  rtc dis_step d d' -> t ∈ all_tasks d -> holds_read_guard t = true -> t ∈ all_tasks d'.
Proof.
  induction 1 as [|d1 d2 d3 Hs _ IH]; intros Ht Hg; [done|]. apply IH; [|done].
  unfold all_tasks in *. apply elem_of_app in Ht as [Ht|[i Hi]%list_elem_of_lookup];
    apply elem_of_app; [left; by eapply dis_step_gone|].
  destruct Hs as [d0 s' Hs _|d0 s' u o Hs _|d0 j u Hj _ _]; simpl in *.
  1-2: right; apply blocked_step in Hs as (_ & _ & _ & Hkeep); [|by eapply readers_pos];
    eapply list_elem_of_lookup_2; by apply Hkeep.
  apply list_elem_of_lookup_2 in Hi. rewrite (delete_Permutation _ _ _ Hj) in Hi.
  apply elem_of_cons in Hi as [->|Hi]; [left; by left|by right].
Qed.

(** A response that waits for such a dispatch is never sent. *)
Lemma queued_never_sent sv d t :
  NoDup (ids d) -> t ∈ all_tasks d -> holds_read_guard t = true -> args t ∈ awaited sv -> ~ response_sent sv d.
Proof.
  intros Hnd Ht Hg Ha Hs. unfold response_sent in Hs. rewrite Forall_forall in Hs.
  destruct (Hs _ Ha) as (u & Hu & Hf & Hid).
  assert (u ∈ all_tasks d) as Hu' by (by apply elem_of_app; right).
  apply list_elem_of_lookup in Ht as [i Hi]. apply list_elem_of_lookup in Hu' as [j Hj].
  assert (i = j) as <-.
  { eapply NoDup_lookup; [exact Hnd|by unfold ids; rewrite list_lookup_fmap, Hi|].
    unfold ids. rewrite list_lookup_fmap, Hj. simpl. by rewrite Hid. }
  assert (u = t) as -> by congruence. unfold holds_read_guard, finished in *. by destruct (at_pc t).
Qed.

(** In a permanent deadlock no further response is sent. *)
Lemma stuck_never_sent sv d d' :
  dis_inv d -> stuck_for_good d -> rtc dis_step d d' -> response_sent sv d' -> response_sent sv d.
Proof.
  intros Hinv Hst Hrtc. pose proof (dis_steps_inv _ _ Hrtc Hinv) as Hinv'.
  rewrite !response_sent_stored by done. by destruct (stuck_steps _ _ Hrtc Hst) as [_ ->].
Qed.

(** The results a sent response lists. *)
Lemma sent_results sv d i :
  dis_inv d -> response_sent sv d -> i ∈ task_id <$> awaited sv ->
  exists r, get_task (app (world (core d))) i = api_ok (inl r) /\ tr_task_id r = i.
Proof.
  intros Hinv Hs (a & -> & Ha)%list_elem_of_fmap. apply response_sent_stored in Hs; [|done].
  rewrite Forall_forall in Hs. destruct (Hs a Ha) as [r Hr]. exists r. unfold get_task. rewrite Hr.
  split; [done|]. apply (wf_tasks _ (inv_app _ (dinv_sys _ Hinv)) _ _ Hr).
Qed.

(** Steps of one dispatch, nobody keeping a guard. *)
Lemma own_path_http t w t' w' d i :
  own_path t w t' w' -> readers (core d) = 0%nat -> world (core d) = w -> dispatches (core d) !! i = Some t ->
  rtc http_step d {| core := {| world := w'; dispatches := <[i := t']> (dispatches (core d)); hpc := hpc (core d) |};
                     owners := owners d; gone := gone d |}.
Proof.
  intros Hp. revert d. induction Hp as [t w|e t w t1 w1 t2 w2 Hd Hp IH Hg]; intros d Hr <- Hi.
  - rewrite list_insert_id by done. destruct d as [[] ? ?]. apply rtc_refl.
  - eapply rtc_l; [eapply http_dispatch; [exact Hi|by apply free_locks|exact Hd]|].
    destruct (holds_read_guard t1) eqn:Hg1.
    + inversion Hp as [|? ? ? ? ? ? ? ? ? Hg']; subst; [apply rtc_refl|congruence].
    + specialize (IH {| core := {| world := w1; dispatches := <[i := t1]> (dispatches (core d)); hpc := hpc (core d) |};
                        owners := owners d; gone := gone d |}).
      simpl in IH. rewrite list_insert_insert_eq in IH. apply IH; [by eapply readers_moved|done|].
      apply list_lookup_insert_eq. by eapply lookup_lt_Some.
Qed.

End http_system.

(** ** Properties *)

(** The HTTP interface refines the concurrent system. From a control plane
    started on any environment that configures it, every history of requests
    (any method, path and body), dispatch steps, health-check steps and clients
    going away leads to a reachable state of the system, so every theorem about
    reachable states holds of it; and in it, GET /tasks/id answers for every
    dispatch that has ended with the stored result of that very task. *)
Theorem http_refines_system `{!Base64} `{!Sha2} `{!Tonic} `{!TokioRwLock} `{!Axum} env port st d :
  cp_main env = Ok (port, st) -> rtc http_step (started st) d ->
  dis_reachable d /\
  forall i t uuid hdrs e hs b,
    dispatches (core d) !! i = Some t -> finished t = true ->
    plain_segment (task_id (args t)) = true -> task_id (args t) <> "batch" ->
    let sv := hp_served (serve uuid hdrs e {| hq_method := GET; hq_path := "/tasks/" +:+ task_id (args t);
                                              hq_headers := hs; hq_body := b |} (app (world (core d)))) in
    sv_status sv = 200 /\ exists r, sv_payload sv = PTask (api_ok (inl r)) /\ tr_task_id r = task_id (args t) /\
      (tr_success r = true <-> tr_error r = None).
Proof.
  intros Hmain Hrtc. apply started_init in Hmain as (url & strategy & Hs). rewrite Hs in Hrtc.
  apply http_steps_dis in Hrtc; [|apply dis_init_inv].
  assert (dis_reachable d) as Hre by (by exists url, strategy). split; [done|].
  intros i t uuid hdrs e hs b Hi Hf Hp Hb.
  destruct (get_finished_task uuid hdrs e hs b d i t) as (r & -> & Hr); [by apply dis_reachable_inv|done..|].
  simpl. eauto.
Qed.

(** C15. Responses of the HTTP interface. A request that is accepted while nobody
    keeps a guard, however malformed, can only be answered with 200 or a client
    error; a GET or HEAD changes nothing, starts nothing and, like every refusal,
    is answered without waiting for any dispatch. The answer to a submission waits
    for every dispatch it lists: when it is sent, each of the listed ids has its
    result in the table, and they are the ids of the accepted tasks in the order of
    the request. It need not be sent at all: from a state in which a dispatch it
    waits for is inside the queueing statement, or in which the control plane is
    stuck for good before it was sent, it never is, whatever happens. *)
Theorem http_responses `{!Base64} `{!Sha2} `{!Tonic} `{!TokioRwLock} `{!Axum} env port st d uuid hdrs e req :
  cp_main env = Ok (port, st) -> rtc http_step (started st) d -> readers (core d) = 0%nat -> whole_batch e req ->
  (forall j, se_panicked e j = false) ->
  let sv := hp_served (serve uuid hdrs e req (app (world (core d)))) in
  let d1 := after_http req sv d in
  (sv_status sv = 200 \/ 400 <= sv_status sv < 500) /\
  (hq_method req = GET \/ hq_method req = HEAD ->
     app (world (core d1)) = app (world (core d)) /\ all_tasks d1 = all_tasks d /\ sv_posts sv = [] /\ response_sent sv d1) /\
  (sv_status sv <> 200 -> response_sent sv d1) /\
  forall d2, rtc http_step d1 d2 ->
    (response_sent sv d2 -> listed_ids (sv_payload sv) = task_id <$> awaited sv /\
       forall i, i ∈ listed_ids (sv_payload sv) -> exists r,
         get_task (app (world (core d2))) i = api_ok (inl r) /\ tr_task_id r = i) /\
    (forall t d3, t ∈ all_tasks d2 -> holds_read_guard t = true -> args t ∈ awaited sv -> rtc http_step d2 d3 ->
       NoDup (ids d3) -> ~ response_sent sv d3) /\
    (forall d3, stuck_for_good d2 -> ~ response_sent sv d2 -> rtc http_step d2 d3 -> ~ response_sent sv d3).
Proof.
  intros Hmain Hd Hr Hb Hp sv d1. apply started_init in Hmain as (url & strategy & Hs). rewrite Hs in Hd.
  apply http_steps_dis in Hd; [|apply dis_init_inv]. pose proof (dis_steps_inv _ _ Hd (dis_init_inv _ _)) as Hinv.
  assert (dis_inv d1) as Hinv1.
  { eapply dis_steps_inv; [|exact Hinv]. apply http_step_dis; [by apply http_request|done]. }
  destruct (served_status uuid hdrs e req (app (world (core d)))) as (Hst & Hget & _). fold sv in Hst, Hget.
  split_and!; [done| | |].
  - intros (Heq & Hsp & Hpo)%Hget. unfold response_sent, awaited, d1, all_tasks. simpl. rewrite Hsp, Heq, Hpo.
    rewrite app_nil_r. split_and!; [done..|]. case_match; constructor.
  - intros Hne. unfold response_sent, awaited. rewrite (proj2 (Z.eqb_neq _ _) Hne). constructor.
  - intros d2 Hs2%http_steps_dis; [|done]. pose proof (dis_steps_inv _ _ Hs2 Hinv1) as Hinv2. split_and!.
    + intros Hsent. pose proof (served_listed uuid hdrs e req (app (world (core d))) Hp) as Hl. cbv zeta in Hl.
      fold sv in Hl. split; [done|]. rewrite Hl. intros i. by apply sent_results.
    + intros t d3 Ht Hg Ha Hs3%http_steps_dis Hnd; [|done]. eapply queued_never_sent; [done| |done|done].
      by eapply queued_stays.
    + intros d3 Hstk Hn Hs3%http_steps_dis; [|done]. intros Hsent. by apply Hn, (stuck_never_sent sv d2 d3).
Qed.

(** A registration, as a request. *)
Definition demo_register_request : @HttpRequest toy_axum :=
  {| hq_method := POST; hq_path := "/nodes/register"; hq_headers := @no_headers toy_axum;
     hq_body := @json_body toy_axum (registration_body "n1" "http://n1:1" "http://n1:2") |}.

Definition demo_started : @DSys toy_tonic := started (initial_state "http://127.0.0.1:8080" "round_robin").
Definition demo_registered : @DSys toy_tonic :=
  after_http demo_register_request (hp_served (@serve toy_base64 toy_sha2 toy_axum "u" demo_hdrs demo_serve_env demo_register_request
    (app (world (core demo_started))))) demo_started.

Lemma demo_registered_step :
  rtc (@http_step toy_base64 toy_sha2 toy_tonic simple_rwlock toy_axum) demo_started demo_registered.
Proof.
  apply rtc_once, (@http_request toy_base64 toy_sha2 toy_tonic simple_rwlock toy_axum demo_started "u" demo_hdrs
    demo_serve_env demo_register_request eq_refl). done.
Qed.

Lemma http_refines_system_witness :
  @dis_reachable toy_base64 toy_sha2 toy_tonic simple_rwlock demo_registered /\
  is_Some (nodes (app (world (core demo_registered))) !! "n1").
Proof.
  split; [|eexists; reflexivity].
  exact (proj1 (@http_refines_system toy_base64 toy_sha2 toy_tonic simple_rwlock toy_axum ∅ 8080
    (initial_state "http://127.0.0.1:8080" "round_robin") demo_registered eq_refl demo_registered_step)).
Defined.

(** A task submitted over HTTP. *)
Definition demo_task_request : @HttpRequest toy_axum :=
  {| hq_method := POST; hq_path := "/tasks"; hq_headers := @no_headers toy_axum;
     hq_body := @json_body toy_axum (JObj [("wasm_base64", JStr "m"); ("function_name", JStr "process");
       ("input_base64", JStr "i")]) |}.
Definition demo_served : Served :=
  hp_served (@serve toy_base64 toy_sha2 toy_axum "u" demo_hdrs demo_serve_env demo_task_request
    (app (world (core demo_started)))).
Definition demo_accepted : @DSys toy_tonic := after_http demo_task_request demo_served demo_started.

Definition demo_submitted_args : TaskArgs :=
  {| task_id := "u1"; trace_id := "u"; input := [Byte.x69]; wasm_source := SrcWasmBytes [Byte.x6d];
     function_name := "process"; timeout_ms := 5000; memory_limit_mb := 64 |}.

Lemma demo_accepted_task : dispatches (core demo_accepted) !! 0%nat = Some (init_task demo_submitted_args).
Proof. vm_compute. reflexivity. Qed.

Lemma demo_main : cp_main ∅ = Ok (8080, initial_state "http://127.0.0.1:8080" "round_robin").
Proof. reflexivity. Qed.

Lemma demo_accepted_step :
  rtc (@http_step toy_base64 toy_sha2 toy_tonic simple_rwlock toy_axum) demo_started demo_accepted.
Proof.
  apply rtc_once, (@http_request toy_base64 toy_sha2 toy_tonic simple_rwlock toy_axum demo_started "u" demo_hdrs
    demo_serve_env demo_task_request eq_refl). done.
Qed.

(** POST /tasks on a control plane without nodes: its client waits for ever. *)
Lemma http_responses_witness :
  exists d2, rtc (@http_step toy_base64 toy_sha2 toy_tonic simple_rwlock toy_axum) demo_accepted d2 /\
    sv_status demo_served = 200 /\
    forall d3, rtc (@http_step toy_base64 toy_sha2 toy_tonic simple_rwlock toy_axum) d2 d3 -> NoDup (ids d3) ->
      ~ response_sent demo_served d3.
Proof.
  destruct (@queue_path toy_tonic demo_submitted_args (world (core demo_accepted))) as (t & w & Hp & Hg & _ & _ & Ha);
    [discriminate|intros k n Hk; discriminate Hk|].
  pose proof (@own_path_http toy_base64 toy_sha2 toy_tonic simple_rwlock toy_axum _ _ _ _ demo_accepted 0%nat Hp
    eq_refl eq_refl demo_accepted_task) as H2.
  eexists. split; [exact H2|]. split; [reflexivity|].
  destruct (@http_responses toy_base64 toy_sha2 toy_tonic simple_rwlock toy_axum ∅ 8080 _ demo_started "u" demo_hdrs
    demo_serve_env demo_task_request demo_main (rtc_refl _ _) eq_refl I (fun _ => eq_refl)) as (_ & _ & _ & Hresp).
  destruct (Hresp _ H2) as (_ & Hq & _). intros d3 H3 Hnd. apply (Hq t d3); [|exact Hg| |exact H3|exact Hnd].
  - by left.
  - rewrite Ha. by left.
Defined.
