(* ===== verification/TaskSpec.v ===== *)
(** * What the control plane promises its clients

    The contract of the task interface of [services/control-plane], without
    locks, program points, retries and nodes: a table of task ids, each running,
    ended with one result or abandoned by its client ([Spec]). The detailed
    system of [ControlPlane], [Disconnect] and [HttpSystem] refines it: [abstract]
    reads the table off a state, every step of the system is a step of the
    contract or changes nothing of it, GET /tasks/id is [query], and the counters
    GET /metrics reports are sizes of parts of the table. *)

From S2P Require Import Prelude RustStd RustText Common Config Http CircuitBreaker Scheduler Registry AppState.
From S2P Require Import Dispatch Health Handlers Routes ControlPlane Disconnect NodeMain HttpSystem.

(** ** The contract *)
Module Spec.

Inductive TaskStatus :=
| Running
| Ended (r : TaskResult)
| Abandoned.

Abbreviation Table := (gmap string TaskStatus).

(** The result of a task carries its id, and an error exactly if it failed. *)
Definition result_of (k : string) (r : TaskResult) : Prop :=
  tr_task_id r = k /\ (tr_success r = true <-> tr_error r = None).

Inductive step : Table -> Table -> Prop :=
| accept m k : m !! k = None -> step m (<[k := Running]> m)
| finish m k r : m !! k = Some Running -> result_of k r -> step m (<[k := Ended r]> m)
| abandon m k : m !! k = Some Running -> step m (<[k := Abandoned]> m).

(** The answer to GET /tasks/id. *)
Definition query (m : Table) (k : string) : ApiResponse (TaskResult + string) :=
  match m !! k with
  | Some (Ended r) => api_ok (inl r)
  | _ => api_ok (inr "pending")
  end.

Definition ended (ok : bool) (s : TaskStatus) : bool :=
  match s with Ended r => Bool.eqb (tr_success r) ok | _ => false end.

(** How many tasks ended in success, or in failure. *)
Definition count (ok : bool) (m : Table) : nat := size (filter (fun kv => ended ok kv.2 = true) m).

End Spec.

Section refinement.
Context `{!Base64} `{!Sha2} `{!Tonic} `{!TokioRwLock} `{!Axum}.
Implicit Types (s : Sys) (d : DSys) (st : AppState) (t : DispatchTask).

(** ** The abstraction *)

Definition live_status (results : gmap string TaskResult) (t : DispatchTask) : Spec.TaskStatus :=
  if finished t then
    match results !! task_id (args t) with Some r => Spec.Ended r | None => Spec.Running end
  else Spec.Running.

Definition entries (d : DSys) : list (string * Spec.TaskStatus) :=
  ((fun t => (task_id (args t), Spec.Abandoned)) <$> gone d) ++
  ((fun t => (task_id (args t), live_status (tasks (app (world (core d)))) t)) <$> dispatches (core d)).

Definition abstract (d : DSys) : Spec.Table := list_to_map (entries d).

(** Dispatches that have entered the wait for a node and have not left it. *)
Definition parked (t : DispatchTask) : nat :=
  match at_pc t with PQueueSleep _ | PQueueRead | PQueueWrite _ => 1%nat | _ => 0%nat end.

(** ** Lemmas on tables *)

Lemma entries_keys d : (entries d).*1 = ids d.
Proof. unfold entries, ids, all_tasks. by rewrite !fmap_app, <- !list_fmap_compose. Qed.

(** Changing one entry of the list changes one key of the map. *)
Lemma list_to_map_update (l l' rest : list (string * Spec.TaskStatus)) k x y :
  l ≡ₚ (k, x) :: rest -> l' ≡ₚ (k, y) :: rest -> NoDup l.*1 ->
  (list_to_map l : Spec.Table) !! k = Some x /\
  (list_to_map l' : Spec.Table) = <[k := y]> (list_to_map l).
Proof.
  intros Hl Hl' Hnd.
  assert (NoDup l'.*1) as Hnd' by (rewrite Hl'; rewrite Hl in Hnd; exact Hnd).
  rewrite (list_to_map_proper l _ Hnd Hl), (list_to_map_proper l' _ Hnd' Hl'). simpl.
  rewrite lookup_insert_eq, insert_insert_eq. done.
Qed.

Lemma query_abstract d k :
  dis_inv d -> NoDup (ids d) -> get_task (app (world (core d))) k = Spec.query (abstract d) k.
Proof.
  intros Hinv Hnd. unfold get_task, Spec.query, abstract.
  destruct (list_to_map (entries d) !! k) as [s|] eqn:Hk.
  - apply elem_of_list_to_map_2 in Hk. unfold entries in Hk.
    apply elem_of_app in Hk as [(t & [= -> ->] & Ht)%list_elem_of_fmap|(t & [= -> ->] & Ht)%list_elem_of_fmap].
    + by rewrite (gone_without_result d t Hinv Hnd Ht).
    + unfold live_status. destruct (tasks _ !! _) as [r|] eqn:Hr; [|by destruct (finished t)].
      destruct (dinv_results _ Hinv (task_id (args t)) ltac:(by eexists)) as (u & Hu & Hfu & Hid).
      apply list_elem_of_lookup in Ht as [i Hi].
      by rewrite <- (same_id_same_end d i t u Hnd Hi Hu Hid), Hfu.
  - destruct (tasks _ !! k) as [r|] eqn:Hr; [|done].
    destruct (dinv_results _ Hinv k ltac:(by eexists)) as (u & Hu & Hfu & <-).
    apply not_elem_of_list_to_map_2 in Hk. destruct Hk. rewrite entries_keys. unfold ids, all_tasks.
    apply list_elem_of_fmap. exists u. split; [done|]. apply elem_of_app. by right.
Qed.

(** The counts after one task has ended. *)
Lemma count_finish ok (m : Spec.Table) k r :
  m !! k = Some Spec.Running ->
  Spec.count ok (<[k := Spec.Ended r]> m) = (Spec.count ok m + if Bool.eqb (tr_success r) ok then 1 else 0)%nat.
Proof.
  intros Hk. unfold Spec.count.
  assert (filter (fun kv => Spec.ended ok kv.2 = true) m !! k = None) as Hn.
  { apply map_lookup_filter_None. right. intros x Hx. simplify_eq/=. done. }
  destruct (Bool.eqb (tr_success r) ok) eqn:Hr.
  - rewrite map_filter_insert_True by done. rewrite map_size_insert_None by done. lia.
  - rewrite map_filter_insert_False by (simpl; congruence).
    rewrite map_filter_delete, delete_id by done. lia.
Qed.

(** Entries that are not results do not count. *)
Lemma count_other ok (m : Spec.Table) k x :
  Spec.ended ok x = false -> (forall y, m !! k = Some y -> Spec.ended ok y = false) ->
  Spec.count ok (<[k := x]> m) = Spec.count ok m.
Proof.
  intros Hx Hm. unfold Spec.count. rewrite map_filter_insert_False by (simpl; congruence).
  rewrite map_filter_delete, delete_id; [done|]. apply map_lookup_filter_None.
  destruct (m !! k) as [y|] eqn:Hk; [right|by left]. intros z [= <-]. simpl. rewrite Hm by done. done.
Qed.

(** ** Lemmas on steps *)

(** The results, the counters of the results and the queue length of a state. *)
Definition books (st : AppState) : gmap string TaskResult * Z * Z * Z :=
  (tasks st, total_success st, total_failed st, queued st).

(** A dispatch files one result, with its counter, when it ends, and nothing before. *)
Lemma dispatch_step_books e t w t' w' :
  dispatch_step e t w = Some (t', w') -> finished t = false /\
  ((finished t' = false /\ tasks (app w') = tasks (app w) /\
    total_success (app w') = total_success (app w) /\ total_failed (app w') = total_failed (app w)) \/
   (finished t' = true /\ exists r, Spec.result_of (task_id (args t)) r /\
    tasks (app w') = <[task_id (args t) := r]> (tasks (app w)) /\
    total_success (app w') = (if tr_success r then u64_add (total_success (app w)) 1 else total_success (app w)) /\
    total_failed (app w') = (if tr_success r then total_failed (app w) else u64_add (total_failed (app w)) 1))).
Proof.
  intros Hstep.
  assert (forall n r, finished (on_result e n r t) = false) as Hor.
  { intros n r. pose proof (on_result_pc e n r t). unfold finished. by destruct (at_pc (on_result _ _ _ _)). }
  unfold dispatch_step in Hstep. unfold finished at 1. destruct (at_pc t) eqn:Hpc; simplify_eq/=.
  all: try (split; [done|]; right; split; [done|]; eexists; split_and!; [..|reflexivity|reflexivity|reflexivity]; done).
  all: split; [done|]; left.
  all: try (repeat case_match; simplify_eq/=; rewrite ?Hor; done).
  pose proof (select_node_for_task_frame (ord e) (clk e) (Z.of_N (seed e)) (tried_nodes t) (app w)) as Hf.
  destruct (select_node_for_task _ _ _ _ _) as [[n|] st']; simpl in Hf, Hstep; destruct_and?;
    repeat case_match; by simplify_eq/=.
Qed.

(** The queue length follows the dispatches that enter the wait; the one step
    that would lower it needs a guard it is never given. *)
Lemma dispatch_step_queued e t w t' w' :
  dispatch_step e t w = Some (t', w') -> holds_read_guard t = false ->
  queued (app w') mod u64_mod = (queued (app w) + Z.of_nat (parked t') - Z.of_nat (parked t)) mod u64_mod.
Proof.
  intros Hstep Hg.
  assert (forall n r, parked (on_result e n r t) = 0%nat) as Hor.
  { intros n r. pose proof (on_result_pc e n r t). unfold parked. by destruct (at_pc (on_result _ _ _ _)). }
  unfold dispatch_step in Hstep. unfold holds_read_guard in Hg. unfold parked at 2.
  destruct (at_pc t) eqn:Hpc; simplify_eq/=.
  all: try (repeat case_match; simplify_eq/=; rewrite ?Hor; f_equal; unfold parked; simpl; lia).
  - pose proof (select_node_for_task_frame (ord e) (clk e) (Z.of_N (seed e)) (tried_nodes t) (app w)) as Hf.
    destruct (select_node_for_task _ _ _ _ _) as [[n|] st']; simpl in Hf, Hstep; destruct_and?;
      repeat case_match; simplify_eq/=; f_equal; unfold parked; simpl; lia.
  - unfold usize_add. rewrite Zmod_mod. f_equal. unfold parked. simpl. lia.
Qed.

Lemma dispatch_step_parked e t w t' w' :
  dispatch_step e t w = Some (t', w') -> holds_read_guard t = false -> (parked t <= parked t')%nat.
Proof.
  unfold dispatch_step, holds_read_guard, parked. intros Hstep Hg.
  destruct (at_pc t) eqn:Hpc; try lia; [case_match|..]; by simplify_eq/=.
Qed.

(** Either the books are those before and at most one dispatch is new, or one
    dispatch that holds no guard has moved. *)
Lemma sys_step_books s s' :
  sys_step s s' ->
  (books (app (world s')) = books (app (world s)) /\
     (dispatches s' = dispatches s \/ exists a, dispatches s' = dispatches s ++ [init_task a])) \/
  (exists i t e t', dispatches s !! i = Some t /\ holds_read_guard t = false /\
     dispatch_step e t (world s) = Some (t', world s') /\ dispatches s' = <[i := t']> (dispatches s)).
Proof.
  intros [s0 i t e t' w' Hi Hl Hd|s0 o r h' w' Hl Hh|s0 uuid trace body a Hl Ha|s0 body Hl|s0 o uuid utc body seen Hl]; simpl.
  - right. exists i, t, e, t'. split_and!; [done|by eapply granted_not_holding|done|done].
  - left. split; [|by left]. destruct (hpc s0) as [|[|[i a] todo] c|i r' todo c]; simplify_eq/=; try done.
    by destruct r'; simplify_eq/=.
  - left. split; [done|]. right. by exists a.
  - left. split; [done|by left].
  - left. split; [|by left]. unfold upload_module. by repeat case_match.
Qed.

(** The counters are those of the table and of the dispatches. *)
Record counters_agree (d : DSys) : Prop := {
  agree_success : total_success (app (world (core d))) mod u64_mod =
    Z.of_nat (Spec.count true (abstract d)) mod u64_mod;
  agree_failed : total_failed (app (world (core d))) mod u64_mod =
    Z.of_nat (Spec.count false (abstract d)) mod u64_mod;
  agree_queued : queued (app (world (core d))) mod u64_mod =
    Z.of_nat (sum_list_with parked (all_tasks d)) mod u64_mod
}.

Lemma delete_insert_same {A} (l : list A) i x : delete i (<[i := x]> l) = delete i l.
Proof. revert i. induction l as [|y l IH]; intros [|i]; simpl; [done..|]. by rewrite IH. Qed.

(** The table after one dispatch has moved. *)
Lemma entries_moved d i t t' s' :
  NoDup (ids d) -> dispatches (core d) !! i = Some t -> args t' = args t ->
  dispatches s' = <[i := t']> (dispatches (core d)) ->
  (forall k, k <> task_id (args t) -> tasks (app (world s')) !! k = tasks (app (world (core d))) !! k) ->
  exists rest,
    entries d ≡ₚ (task_id (args t), live_status (tasks (app (world (core d)))) t) :: rest /\
    entries {| core := s'; owners := owners d; gone := gone d |} ≡ₚ
      (task_id (args t), live_status (tasks (app (world s'))) t') :: rest.
Proof.
  intros Hnd Hi Ha Hd Hk. unfold entries. simpl. rewrite Hd.
  set (f := fun res u => (task_id (args u), live_status res u)). set (g := _ <$> gone d).
  exists (g ++ (f (tasks (app (world (core d)))) <$> delete i (dispatches (core d)))). split.
  - rewrite (delete_Permutation _ _ _ Hi) at 1. simpl. by rewrite <- Permutation_middle.
  - assert (<[i := t']> (dispatches (core d)) !! i = Some t') as Hi'
      by (apply list_lookup_insert_eq; by eapply lookup_lt_Some).
    rewrite (delete_Permutation _ _ _ Hi') at 1. rewrite delete_insert_same. simpl.
    rewrite <- Permutation_middle, Ha. apply Permutation_cons; [done|]. apply Permutation_app; [done|].
    erewrite list_fmap_ext; [reflexivity|]. intros j u Hj. unfold live_status. rewrite Hk; [done|].
    intros Heq. unfold ids, all_tasks in Hnd. rewrite fmap_app in Hnd. apply NoDup_app in Hnd as (_ & _ & Hnd).
    rewrite (delete_Permutation _ _ _ Hi) in Hnd. simpl in Hnd. apply NoDup_cons in Hnd as [Hnot _].
    apply Hnot, list_elem_of_fmap. exists u. split; [done|]. by eapply list_elem_of_lookup_2.
Qed.

(** A table with one more success or failure. *)
Lemma count_result (T T' : Z) (ok : bool) (m : Spec.Table) k r :
  m !! k = Some Spec.Running -> T mod u64_mod = Z.of_nat (Spec.count ok m) mod u64_mod ->
  T' = (if Bool.eqb (tr_success r) ok then u64_add T 1 else T) ->
  T' mod u64_mod = Z.of_nat (Spec.count ok (<[k := Spec.Ended r]> m)) mod u64_mod.
Proof.
  intros Hk HT ->. rewrite count_finish by done. destruct (Bool.eqb _ _); [|by rewrite Nat.add_0_r].
  unfold u64_add. rewrite Zmod_mod, Nat2Z.inj_add. by apply mod_shift.
Qed.

(** A step in which a dispatch moves. *)
Lemma moved_refines d s' i t e t' :
  NoDup (ids d) -> counters_agree d -> dispatches (core d) !! i = Some t -> holds_read_guard t = false ->
  dispatch_step e t (world (core d)) = Some (t', world s') -> dispatches s' = <[i := t']> (dispatches (core d)) ->
  let d' := {| core := s'; owners := owners d; gone := gone d |} in
  rtc Spec.step (abstract d) (abstract d') /\ counters_agree d'.
Proof.
  intros Hnd [Hs Hf Hq] Hi Hg Hstep Hd d'.
  assert (queued (app (world s')) mod u64_mod = Z.of_nat (sum_list_with parked (all_tasks d')) mod u64_mod) as Hq'.
  { unfold all_tasks in *. simpl. rewrite Hd, <- insert_app_r.
    eapply (count_moved parked (beside (gone d) (core d))); [|exact Hq|by eapply dispatch_step_queued].
    simpl. by rewrite lookup_app_r, Nat.add_sub_swap, Nat.sub_diag by lia. }
  pose proof (dispatch_step_args _ _ _ _ _ Hstep) as Ha.
  destruct (dispatch_step_books _ _ _ _ _ Hstep) as [Hf0 [(Hf' & Ht & Hs' & Hfl)|(Hf' & r & Hr & Ht & Hs' & Hfl)]].
  - destruct (entries_moved d i t t' s') as (rest & Hp & Hp'); [done..|by intros; rewrite Ht|].
    fold d' in Hp'. unfold live_status in Hp, Hp'. rewrite Hf0 in Hp. rewrite Hf' in Hp'.
    assert (abstract d' = abstract d) as Heq.
    { unfold abstract. apply list_to_map_proper; [|by rewrite Hp, <- Hp'].
      rewrite Hp', <- Hp, entries_keys. done. }
    rewrite Heq. split; [done|]. split; rewrite ?Heq; simpl; rewrite ?Hs', ?Hfl; done.
  - destruct (entries_moved d i t t' s') as (rest & Hp & Hp'); [done..|by intros; rewrite Ht, lookup_insert_ne|].
    fold d' in Hp'. unfold live_status in Hp, Hp'. rewrite Hf0 in Hp. rewrite Hf', Ha, Ht, lookup_insert_eq in Hp'.
    destruct (list_to_map_update _ _ _ _ _ _ Hp Hp') as [Hrun Heq]; [by rewrite entries_keys|].
    change (abstract d' = <[task_id (args t) := Spec.Ended r]> (abstract d)) in Heq.
    split; [rewrite Heq; apply rtc_once; by apply Spec.finish|].
    split; rewrite ?Heq; [..|done]; eapply count_result; [exact Hrun|exact Hs| |exact Hrun|exact Hf|]; simpl.
    + rewrite Hs'. by destruct (tr_success r).
    + rewrite Hfl. by destruct (tr_success r).
Qed.

(** Steps that leave the books alone keep the counters, if no result is lost. *)
Lemma counters_kept d d' :
  books (app (world (core d'))) = books (app (world (core d))) ->
  sum_list_with parked (all_tasks d') = sum_list_with parked (all_tasks d) ->
  (forall ok, Spec.count ok (abstract d') = Spec.count ok (abstract d)) ->
  counters_agree d -> counters_agree d'.
Proof. intros [= _ Hs Hf Hq] Hp Hc [? ? ?]. split; rewrite ?Hc, ?Hp, ?Hs, ?Hf, ?Hq; done. Qed.

(** A new dispatch is a new entry. *)
Lemma submitted_refines d s' o a :
  NoDup (ids {| core := s'; owners := owners d ++ [o]; gone := gone d |}) ->
  books (app (world s')) = books (app (world (core d))) -> dispatches s' = dispatches (core d) ++ [init_task a] ->
  counters_agree d ->
  let d' := {| core := s'; owners := owners d ++ [o]; gone := gone d |} in
  rtc Spec.step (abstract d) (abstract d') /\ counters_agree d'.
Proof.
  intros Hnd Hb Hd Hag d'.
  assert (entries d' = entries d ++ [(task_id a, Spec.Running)]) as He.
  { unfold entries. simpl. injection Hb as Ht _ _ _. by rewrite Ht, Hd, fmap_app, app_assoc. }
  rewrite <- entries_keys in Hnd. fold d' in Hnd. rewrite He, Permutation_app_comm in Hnd. simpl in Hnd.
  apply NoDup_cons in Hnd as [Hnew Hnd].
  assert (abstract d !! task_id a = None) as Hnone by by apply not_elem_of_list_to_map_1.
  assert (abstract d' = <[task_id a := Spec.Running]> (abstract d)) as Heq.
  { unfold abstract. rewrite He. rewrite (list_to_map_proper _ ((task_id a, Spec.Running) :: entries d)); [done| |].
    - rewrite Permutation_app_comm. simpl. by constructor.
    - by rewrite Permutation_app_comm. }
  split; [rewrite Heq; apply rtc_once; by apply Spec.accept|].
  eapply (counters_kept d); [done| | |done].
  - unfold all_tasks. simpl. rewrite Hd, !sum_list_with_app. simpl. lia.
  - intros ok. rewrite Heq. apply count_other; [done|]. intros y Hy. congruence.
Qed.

(** A dropped dispatch is abandoned. *)
Lemma dropped_refines d i t :
  NoDup (ids d) -> counters_agree d -> dispatches (core d) !! i = Some t -> finished t = false ->
  rtc Spec.step (abstract d) (abstract (drop_dispatch i t d)) /\ counters_agree (drop_dispatch i t d).
Proof.
  intros Hnd Hag Hi Hf. set (d' := drop_dispatch i t d).
  set (f := fun u => (task_id (args u), live_status (tasks (app (world (core d)))) u)).
  set (g := (fun u => (task_id (args u), Spec.Abandoned)) <$> gone d).
  destruct (list_to_map_update (entries d) (entries d') (g ++ (f <$> delete i (dispatches (core d))))
    (task_id (args t)) Spec.Running Spec.Abandoned) as [Hrun Heq].
  - unfold entries. rewrite (delete_Permutation _ _ _ Hi) at 1. simpl. rewrite <- Permutation_middle.
    unfold live_status at 1. by rewrite Hf.
  - done.
  - by rewrite entries_keys.
  - change (abstract d' = <[task_id (args t) := Spec.Abandoned]> (abstract d)) in Heq.
    split; [rewrite Heq; apply rtc_once; by apply Spec.abandon|].
    eapply (counters_kept d); [done| | |done].
    + unfold all_tasks. simpl. rewrite !sum_list_with_app.
      rewrite (delete_Permutation _ _ _ Hi) at 2. simpl. lia.
    + intros ok. rewrite Heq. apply count_other; [done|]. intros y Hy.
      unfold abstract in Hy. rewrite Hrun in Hy. by simplify_eq.
Qed.

(** Every step of the system is a step of the contract, or none. *)
Lemma dis_step_refines d d' :
  dis_step d d' -> NoDup (ids d') -> counters_agree d ->
  rtc Spec.step (abstract d) (abstract d') /\ counters_agree d'.
Proof.
  intros Hstep Hnd' Hag. pose proof (dis_step_ids_NoDup _ _ Hstep Hnd') as Hnd.
  destruct Hstep as [d s' Hs Hlen|d s' u o Hs Hd|d i t Hi Ho Hf].
  - apply sys_step_books in Hs as [[Hb [Hd|[a Hd]]]|(i & t & e & t' & Hi & Hg & Hst & Hd)].
    + assert (abstract {| core := s'; owners := owners d; gone := gone d |} = abstract d) as Heq.
      { unfold abstract, entries. simpl. injection Hb as Ht _ _ _. by rewrite Ht, Hd. }
      rewrite Heq. split; [done|]. eapply (counters_kept d); [done| |by intros; rewrite Heq|done].
      unfold all_tasks. simpl. by rewrite Hd.
    + rewrite Hd, length_app in Hlen. simpl in Hlen. lia.
    + by eapply moved_refines.
  - apply sys_step_books in Hs as [[Hb [Hd'|[a Hd']]]|(i & t & e & t' & Hi & Hg & Hst & Hd')].
    + rewrite Hd' in Hd. apply (f_equal length) in Hd. rewrite length_app in Hd. simpl in Hd. lia.
    + by eapply submitted_refines.
    + rewrite Hd' in Hd. apply (f_equal length) in Hd. rewrite length_app, length_insert in Hd. simpl in Hd. lia.
  - by apply dropped_refines.
Qed.

(** Nobody stops waiting for a node. *)
Lemma dis_steps_parked d d' :
  rtc dis_step d d' -> (sum_list_with parked (all_tasks d) <= sum_list_with parked (all_tasks d'))%nat.
Proof.
  induction 1 as [|d1 d2 d3 Hs _ IH]; [done|]. etrans; [|exact IH]. unfold all_tasks.
  destruct Hs as [d s' Hs Hlen|d s' u o Hs Hd|d i t Hi Ho Hf]; simpl; rewrite !sum_list_with_app.
  - apply sys_step_books in Hs as [[_ [->|[a ->]]]|(i & t & e & t' & Hi & Hg & Hst & ->)];
      rewrite ?sum_list_with_app; try lia.
    pose proof (sum_list_with_insert parked _ _ _ t' Hi). pose proof (dispatch_step_parked _ _ _ _ _ Hst Hg). lia.
  - rewrite Hd, sum_list_with_app. lia.
  - rewrite (delete_Permutation _ _ _ Hi) at 1. simpl. lia.
Qed.

Lemma dis_init_agrees url strategy : counters_agree (dis_init url strategy).
Proof. by split. Qed.

Lemma dis_steps_refine d d' :
  rtc dis_step d d' -> NoDup (ids d') -> counters_agree d ->
  rtc Spec.step (abstract d) (abstract d') /\ counters_agree d'.
Proof.
  intros Hrtc Hnd Hag. revert Hnd. induction Hrtc as [d|d1 d2 d3 Hs Hrtc IH]; intros Hnd; [done|].
  assert (NoDup (ids d2)) as Hnd2.
  { clear -Hrtc Hnd. induction Hrtc; eauto using dis_step_ids_NoDup. }
  destruct (dis_step_refines _ _ Hs Hnd2 Hag) as [Hst1 Hag2]. destruct (IH Hag2 Hnd) as [Hst2 Hag3].
  split; [by etrans|done].
Qed.

(** What has ended in the contract stays as it is. *)
Lemma spec_final m m' k x :
  rtc Spec.step m m' -> m !! k = Some x -> x <> Spec.Running -> m' !! k = Some x.
Proof.
  intros Hrtc Hk Hx. induction Hrtc as [m|m1 m2 m3 Hs _ IH]; [done|]. apply IH.
  destruct Hs as [m k' Hk'|m k' r Hk' _|m k' Hk']; (rewrite lookup_insert_ne; [done|]); congruence.
Qed.

(** GET /tasks/id answers with the table lookup. *)
Lemma get_task_served uuid hdrs e hs b k st :
  plain_segment k = true -> k <> "batch" ->
  hp_served (serve uuid hdrs e {| hq_method := GET; hq_path := "/tasks/" +:+ k; hq_headers := hs; hq_body := b |} st) =
  reply 200 (PTask (get_task st k)) st.
Proof.
  intros Hp Hb. rewrite serve_served. unfold route_request. simpl. destruct (plain_no_slash _ Hp).
  rewrite route_get_task by done. unfold handle, with_path. simpl. by rewrite percent_decode_plain.
Qed.

End refinement.

(** ** Properties *)

(** C4. The control plane refines the contract of its task interface. From a
    control plane started on any environment that configures it, through every
    history of requests, dispatch steps, health-check steps and clients going
    away in which the task ids are pairwise different (they are random UUIDs),
    the table of tasks moves only by accepting a new id, ending a running task
    with one result that carries its id and an error exactly if it failed, or
    abandoning a running task whose client left; in particular what has ended or
    was abandoned never changes again. At every point GET /tasks/id, for any id
    that is one plain path segment, is answered, once it is granted its read guard,
    with 200 and the contract's answer, and changes nothing. *)
Theorem tasks_refine_contract `{!Base64} `{!Sha2} `{!Tonic} `{!TokioRwLock} `{!Axum} env port st d d' :
  cp_main env = Ok (port, st) -> rtc http_step (started st) d -> rtc http_step d d' -> NoDup (ids d') ->
  rtc Spec.step ∅ (abstract d) /\ rtc Spec.step (abstract d) (abstract d') /\
  (forall k x, abstract d !! k = Some x -> x <> Spec.Running -> abstract d' !! k = Some x) /\
  forall uuid hdrs e hs b k, plain_segment k = true -> k <> "batch" ->
    hp_served (serve uuid hdrs e {| hq_method := GET; hq_path := "/tasks/" +:+ k; hq_headers := hs; hq_body := b |}
      (app (world (core d')))) =
    reply 200 (PTask (Spec.query (abstract d') k)) (app (world (core d'))).
Proof.
  intros Hmain Hd Hd' Hnd. apply started_init in Hmain as (url & strategy & Hs). rewrite Hs in Hd.
  apply http_steps_dis in Hd; [|apply dis_init_inv].
  pose proof (dis_steps_inv _ _ Hd (dis_init_inv _ _)) as Hinv. apply http_steps_dis in Hd'; [|done].
  destruct (dis_steps_results _ _ Hd' Hinv Hnd) as (Hnd1 & _ & _).
  destruct (dis_steps_refine _ _ Hd Hnd1 (dis_init_agrees _ _)) as [Hst1 Hag].
  destruct (dis_steps_refine _ _ Hd' Hnd Hag) as [Hst2 _].
  split_and!; [exact Hst1|done|by intros; eapply spec_final|].
  intros uuid hdrs e hs b k Hp Hb. rewrite get_task_served by done.
  by rewrite (query_abstract d') by (done || by eapply dis_steps_inv).
Qed.

(** C8. The report of GET /metrics. In every reachable state with pairwise
    different task ids, modulo 2^64: [total_success] and [total_failed] are the
    numbers of tasks that ended in success and in failure, [total_submitted] less
    both is the number of dispatches under way plus those whose client left after
    they were counted, so that an abandoned task stays submitted for ever and is
    neither; and [queued] is the number of dispatches that ever began to wait for
    a node, including those whose client left: none comes back from there, and
    the number never goes down. *)
Theorem metrics_report_correct `{!Base64} `{!Sha2} `{!Tonic} `{!TokioRwLock} o d :
  dis_reachable d -> NoDup (ids d) ->
  let rep := metrics o (app (world (core d))) in
  rep_total_success rep mod u64_mod = Z.of_nat (Spec.count true (abstract d)) mod u64_mod /\
  rep_total_failed rep mod u64_mod = Z.of_nat (Spec.count false (abstract d)) mod u64_mod /\
  (rep_total_submitted rep - rep_total_success rep - rep_total_failed rep) mod u64_mod =
    Z.of_nat (sum_list_with in_flight (all_tasks d)) mod u64_mod /\
  rep_queued rep mod u64_mod = Z.of_nat (sum_list_with parked (all_tasks d)) mod u64_mod /\
  forall d', rtc dis_step d d' -> (sum_list_with parked (all_tasks d) <= sum_list_with parked (all_tasks d'))%nat.
Proof.
  intros Hre Hnd rep. pose proof (disconnect_accounting d Hre) as [_ Hsub].
  destruct Hre as (url & strategy & Hrtc).
  destruct (dis_steps_refine _ _ Hrtc Hnd (dis_init_agrees _ _)) as [_ [Hs Hf Hq]].
  split_and!; [done|done| |done|by apply dis_steps_parked].
  unfold all_tasks. rewrite sum_list_with_app, Nat.add_comm. exact Hsub.
Qed.

(** Its client leaves. *)
Definition demo_left : @DSys toy_tonic :=
  match dispatches (core demo_accepted) with t :: _ => drop_dispatch 0 t demo_accepted | [] => demo_accepted end.

Lemma demo_left_step :
  rtc (@http_step toy_base64 toy_sha2 toy_tonic simple_rwlock toy_axum) demo_accepted demo_left.
Proof. apply rtc_once. eapply http_disconnect; reflexivity. Qed.

Lemma demo_left_ids : NoDup (ids demo_left).
Proof. apply NoDup_singleton. Qed.

Lemma tasks_refine_contract_witness :
  rtc Spec.step ∅ (abstract demo_accepted) /\ rtc Spec.step (abstract demo_accepted) (abstract demo_left) /\
  abstract demo_accepted = {[ "u1" := Spec.Running ]} /\ abstract demo_left = {[ "u1" := Spec.Abandoned ]}.
Proof.
  destruct (@tasks_refine_contract toy_base64 toy_sha2 toy_tonic simple_rwlock toy_axum ∅ 8080
    (initial_state "http://127.0.0.1:8080" "round_robin") demo_accepted demo_left demo_main demo_accepted_step
    demo_left_step demo_left_ids) as (Hst1 & Hst2 & _).
  split; [exact Hst1|]. split; [exact Hst2|]. split; reflexivity.
Defined.

Lemma metrics_report_correct_witness :
  exists d, @dis_reachable toy_base64 toy_sha2 toy_tonic simple_rwlock d /\ gone d <> [] /\
    forall o, rep_queued (metrics o (app (world (core d)))) mod u64_mod = 0.
Proof.
  destruct left_client as (d & a & Hre & Hg & Hd & Hids & _). exists d.
  assert (NoDup (ids d)) as Hnd by (rewrite Hids; apply NoDup_singleton).
  split; [exact Hre|]. split; [rewrite Hg; discriminate|]. intros o.
  destruct (@metrics_report_correct toy_base64 toy_sha2 toy_tonic simple_rwlock o d Hre Hnd)
    as (_ & _ & _ & Hq & _).
  rewrite Hq. unfold all_tasks. rewrite Hg, Hd. reflexivity.
Defined.
