(* ===== verification/EndToEnd.v ===== *)
(** * The two services together

    The control plane's RPC is the edge node's [execute_task], and its health
    probe is the node's [health]. Here the parameters that stood for the network
    answers on one side are instantiated by the model of the other side: a task
    submitted over HTTP, dispatched, executed in the sandbox and read back; what a
    client that goes away leaves behind on both sides; and the load a node
    reports as the scheduler sees it. *)

From S2P Require Import Prelude RustStd Common CircuitBreaker Scheduler Registry Sandbox ModuleCache AppState.
From S2P Require Import Dispatch Health Handlers ControlPlane Disconnect EdgeNode.

(** The answer a call of [execute_task] gives to the RPC of the control plane. *)
Definition rpc_answer `{!Wasmtime} (t : ExecTask) : option (result Status ExecuteTaskResponse) :=
  match xpc t with XDone r => Some r | _ => None end.

(** A submission of raw bytes. *)
Definition inline_request `{!Base64} (wasm inp : bytes) (func : string) (timeout mem : option Z)
    : SubmitTaskRequest :=
  {| sub_wasm_base64 := Some (b64_encode wasm); sub_module_name := None; sub_module_version := None;
     sub_function_name := func; sub_input_base64 := b64_encode inp; sub_timeout_ms := timeout;
     sub_memory_limit_mb := mem |}.

(** Control-plane inputs in which the RPC is answered by [r]. *)
Definition answering (r : result Status ExecuteTaskResponse) (es : nat -> Env) : nat -> Env :=
  fun i => {| now := now (es i); clk := clk (es i); ord := ord (es i); seed := seed (es i); rpc := r |}.

(** A control plane that knows the leaky node, with its one slot, and another. *)
Definition demo_two_nodes : @CPWorld toy_tonic :=
  {| app := {| nodes := <["n1" := {| id := "n1"; address := "http://n1"; http_address := EmptyString;
                                    active_tasks := 0; healthy := true; max_concurrent_tasks := 1 |}]>
                        {["n2" := demo_node "n2" 3]};
               tasks := ∅; scheduler_index := 0; module_registry := registry_new;
               self_url := EmptyString; circuit_breakers := ∅; scheduling_strategy := "least_loaded";
               total_submitted := 0; total_success := 0; total_failed := 0; total_retried := 0; queued := 0 |};
     pool := pool_new; mlog := [] |}.
(** Clients of the two nodes, by address. *)
Definition demo_client : EdgeServiceClient :=
  {| Inner := string; inner_connect := Ok;
     inner_execute_task := fun _ _ => Err {| code := Unavailable; message := "not used" |};
     inner_health := fun a =>
       Ok (if decide (a = "http://n1") then node_health "n1" (node (nworld demo_leaky_node))
           else {| hr_node_id := "n2"; hr_active_tasks := 3; hr_ready := true |});
     status_display := message |}.

(** ** Lemmas *)

(** A call with inline bytes on a node with a free slot. *)
Lemma exec_inline_run `{!Wasmtime} `{!Lru CachedModule} `{!Sha2} `{!TokioSemaphore} nid url es req b w sm :
  req_wasm_source req = Some (SrcWasmBytes b) -> try_acquire (semaphore w) = Some sm ->
  0 <= ns_active_tasks (node w) < u64_mod - 1 ->
  exists t' w', exec_run nid url 5 es (arrival req) w = Some (t', w') /\
    rpc_answer t' = Some (Ok (exec_response req
      (execute (panic (es 3%nat)) (exec_env (es 3%nat)) b (exec_config req) (req_input req)))) /\
    semaphore w' = release sm /\ ns_active_tasks (node w') = ns_active_tasks (node w) /\ cache w' = cache w.
Proof.
  intros Hsrc Hacq Hact. do 2 eexists. split.
  { erewrite exec_run_S; [|unfold exec_step; simpl; rewrite Hacq; reflexivity].
    erewrite exec_run_S; [|reflexivity].
    erewrite exec_run_S; [|unfold exec_step; simpl; rewrite Hsrc; reflexivity].
    erewrite exec_run_S; [|reflexivity].
    erewrite exec_run_S; [|reflexivity]. reflexivity. }
  split; [reflexivity|].
  destruct (execute _ _ _ _ _) as [ex|err]; simpl; (split; [done|split; [|done]]);
    rewrite usize_add_id by lia; unfold saturating_sub; lia.
Qed.

(** ** Properties *)

(** C2. A task end to end. A client submits module bytes and an input; the control
    plane picks a node, whose [execute_task] answers the RPC. If the guest run
    succeeds, the dispatch ends with a result under the task's id whose output
    and time are those of the guest run of exactly the submitted bytes on
    exactly the submitted input, under the submitted limits or their defaults;
    and the node is left with the load and the permits it had. *)
Theorem task_end_to_end `{!Base64} `{!Tonic} `{!Wasmtime} `{!Lru CachedModule} `{!Sha2} `{!TokioSemaphore}
    nid url uuid trace wasm inp func timeout mem w nw sm es nes n ch p' st2 ex :
  let body := inline_request wasm inp func timeout mem in
  let cfg := {| memory_limit_bytes := u64_mul (u64_mul (Z.max (default 64 mem) 1) 1024) 1024;
                cfg_timeout_ms := if default 5000 timeout =? 0 then 5000 else default 5000 timeout;
                cfg_function_name := func |} in
  select_node_for_task (ord (es 2%nat)) (clk (es 2%nat)) (Z.of_N (seed (es 2%nat))) ∅ (counted (app w))
    = (Some n, st2) ->
  get_or_create (id n) (address n) (pool w) = (Ok ch, p') ->
  try_acquire (semaphore nw) = Some sm -> 0 <= ns_active_tasks (node nw) < u64_mod - 1 ->
  execute (panic (nes 3%nat)) (exec_env (nes 3%nat)) wasm cfg inp = Ok ex ->
  exists a t' nw' r d w',
    submit_task (app w) uuid trace body = Ok a /\
    exec_run nid url 5 nes (arrival (grpc_request a)) nw = Some (t', nw') /\ rpc_answer t' = Some r /\
    dispatch_run 9 (answering r es) (init_task a) w = Some (d, w') /\
    get_task (app w') uuid = api_ok (inl {| tr_task_id := uuid; tr_node_id := id n; tr_success := true;
      tr_output := er_output ex; tr_execution_time_ms := er_execution_time_ms ex; tr_error := None |}) /\
    ns_active_tasks (node nw') = ns_active_tasks (node nw) /\
    available_permits (semaphore nw') = available_permits (semaphore nw).
Proof.
  intros body cfg Hsel Hget Hacq Hact Hexec.
  assert (exists a, submit_task (app w) uuid trace body = Ok a /\
    a = {| task_id := uuid; trace_id := trace; input := inp; wasm_source := SrcWasmBytes wasm;
           function_name := func; timeout_ms := default 5000 timeout; memory_limit_mb := default 64 mem |})
    as (a & Hsub & Ha).
  { eexists. split; [|reflexivity]. unfold submit_task, resolve_task_inputs, body, inline_request. simpl.
    rewrite !b64_roundtrip. reflexivity. }
  destruct (exec_inline_run nid url nes (grpc_request a) wasm nw sm) as (t' & nw' & Hrun & Hans & Hsem & Hload & _);
    [by subst a|done|done|].
  assert (exec_config (grpc_request a) = cfg) as Hcfg by by subst a.
  rewrite Hcfg in Hans. replace (req_input (grpc_request a)) with inp in Hans by by subst a.
  rewrite Hexec in Hans.
  destruct (dispatch_success_run (answering (Ok (exec_response (grpc_request a) (Ok ex))) es) a w n ch p' st2
    (exec_response (grpc_request a) (Ok ex))) as (d & w' & Hdisp & _ & Htasks & _); [done..|].
  exists a, t', nw', (Ok (exec_response (grpc_request a) (Ok ex))), d, w'. split_and!; try done.
  - unfold get_task. rewrite Htasks. subst a. simpl. by rewrite lookup_insert_eq.
  - rewrite Hsem, release_spec. pose proof (try_acquire_spec (semaphore nw)) as Hspec.
    rewrite Hacq in Hspec. lia.
Qed.

Lemma task_end_to_end_witness :
  exists (w' : @CPWorld toy_tonic) r, get_task (app w') "task-1" = api_ok (inl r) /\ tr_output r = [Byte.x01; Byte.x02].
Proof.
  destruct (@task_end_to_end toy_base64 toy_tonic echo_wasmtime (list_lru _) toy_sha2 nat_semaphore
    "n1" "http://cp" "task-1" "tr" demo_wasm [Byte.x01; Byte.x02] "process" None None
    demo_world (nworld demo_node_sys) 0%nat (fun _ => demo_env (Ok demo_resp))
    (fun _ => demo_nenv (HttpFailed "unused")) (demo_node "n1" 3) "http://n1" _ _
    {| er_output := [Byte.x01; Byte.x02]; er_execution_time_ms := 3; memory_used_bytes := 4 |}
    ltac:(vm_compute; reflexivity) ltac:(vm_compute; reflexivity) eq_refl
    ltac:(split; [discriminate|reflexivity]) ltac:(vm_compute; reflexivity))
    as (a & t' & nw' & r & d & w' & _ & _ & _ & _ & Hget & _).
  exists w'. eexists. split; [exact Hget|reflexivity].
Defined.

(** C32. Phantom load starves a node. Once as many downloads or compilations have
    failed, or calls been dropped by their caller, on a node as it has slots,
    every later health probe makes the
    least-loaded scheduler pass it over for good, even when it is idle: after
    any health round in which the node answers the probe with its own [health],
    no task is placed on it. *)
Theorem phantom_load_starves_node `{!Tonic} `{!Wasmtime} `{!Lru CachedModule} `{!Sha2} `{!TokioSemaphore}
    `{!EdgeServiceClient} nid url slots cached ttl_ s s' w info o slow conn o' c sd tried n :
  let probe i a := probe_node (slow i) a in
  rtc (node_step nid url) (init_node nid slots cached ttl_) s ->
  (slots <= total leaked s + total abandoned s)%nat -> rtc (node_step nid url) s s' ->
  Z.of_nat (length (calls s')) < u32_mod ->
  (forall k m, nodes (app w) !! k = Some m -> id m = k) ->
  nodes (app w) !! nid = Some info -> max_concurrent_tasks info = Z.of_nat slots ->
  slow nid = false -> inner_connect (address info) = Ok conn ->
  inner_health conn = Ok (node_health nid (node (nworld s'))) ->
  scheduling_strategy (app w) = "least_loaded" ->
  (select_node_for_task o' c (Z.of_N sd) tried (app (check_all_nodes o probe w))).1 = Some n ->
  id n <> nid.
Proof.
  intros probe Hs Hleak Hs' Hlen Hids Hinfo Hmax Hslow Hconn Hhealth Hll Hsel Hid.
  assert (probe nid (address info) = ProbeOk (node_health nid (node (nworld s')))) as Hprobe.
  { unfold probe, probe_node, client_connect, client_health_check. rewrite Hslow, Hconn. simpl. by rewrite Hhealth. }
  pose proof (node_reported_load nid url slots cached ttl_ s s' Hs Hs' Hlen) as Hload. rewrite total_phantom in Hload.
  destruct (check_all_nodes_spec o probe w Hids) as [Hnodes Hframe].
  pose proof (select_node_for_task_eq o' c (Z.of_N sd) tried (app (check_all_nodes o probe w))) as Heq.
  destruct (sweep_breakers _ _ _ _) as [excluded cbs]. rewrite Heq in Hsel.
  assert (scheduling_strategy (app (check_all_nodes o probe w)) = "least_loaded") as Hst
    by (rewrite Hframe; exact Hll).
  rewrite decide_True in Hsel by exact Hst. simpl in Hsel.
  apply select_least_loaded_Some in Hsel as [Hin _]; [|lia].
  apply elem_of_ll_available in Hin as ((k & Hk) & [_ Hlt] & _).
  rewrite Hnodes, lookup_fmap in Hk. apply fmap_Some_1 in Hk as (m & Hm & ->).
  assert (k = nid) as ->.
  { rewrite <- Hid, <- (Hids k m Hm). unfold probed. by destruct (probe (id m) (address m)). }
  simplify_eq. unfold probed in Hlt. rewrite (Hids _ _ Hm), Hprobe in Hlt. simpl in Hlt, Hload. lia.
Qed.

Lemma phantom_load_starves_node_witness :
  (select_node_for_task std_order (fun _ => 0) 0 ∅ (app (check_all_nodes std_order
     (fun i a => @probe_node demo_client false a) demo_two_nodes))).1
    = Some (demo_node "n2" 3) /\ id (demo_node "n2" 3) <> "n1".
Proof.
  assert ((select_node_for_task std_order (fun _ => 0) 0 ∅
    (app (check_all_nodes std_order (fun i a => @probe_node demo_client false a) demo_two_nodes))).1
    = Some (demo_node "n2" 3)) as Hsel
    by (vm_compute; reflexivity).
  split; [exact Hsel|]. destruct demo_failed_download as (Hrtc & Hl & _ & Ha & Hn).
  refine (@phantom_load_starves_node toy_tonic echo_wasmtime (list_lru _) toy_sha2 nat_semaphore demo_client "n1" "http://cp"
    1 4 10 demo_leaky_node demo_leaky_node demo_two_nodes _ std_order (fun _ => false) "http://n1" std_order (fun _ => 0)
    0 ∅ (demo_node "n2" 3) Hrtc _ (rtc_refl _ _) _ _ eq_refl eq_refl eq_refl eq_refl eq_refl eq_refl Hsel).
  - rewrite Hl, Ha. apply le_n.
  - rewrite Hn. reflexivity.
  - intros k m Hk. simpl in Hk. apply lookup_insert_Some in Hk as [[<- <-]|[_ Hk]]; [reflexivity|].
    apply lookup_singleton_Some in Hk as [<- <-]. reflexivity.
Defined.

(** A dispatch whose RPC is under way, and the call that serves it. *)
Lemma demo_rpc_under_way :
  exists d t n ch s c, @dis_reachable toy_base64 toy_sha2 toy_tonic simple_rwlock d /\
    dispatches (core d) = [t] /\ owners d = [Awaited] /\ gone d = [] /\
    at_pc t = PSend n ch (grpc_request (args t)) /\
    rtc demo_step demo_node_sys s /\ calls s = [c] /\ xreq c = grpc_request (args t) /\
    suspended c = true /\ counted_active c = 1%nat.
Proof.
  destruct (@submit_task toy_base64 (app (world demo_joined)) "t" "tr" demo_inline) as [a|] eqn:Ha;
    [|by vm_compute in Ha].
  assert (exists t' w' n ch, own_path (init_task a) (world demo_joined) t' w' /\
    at_pc t' = PSend n ch (grpc_request (args t'))) as (t & w' & n & ch & Hp & Hpc).
  { vm_compute in Ha. simplify_eq. do 4 eexists. split.
    - do 6 (eapply (path_step (demo_env (Ok demo_resp))); [vm_compute; reflexivity| |reflexivity]). apply path_refl.
    - reflexivity. }
  assert (exists b, wasm_source (args t) = SrcWasmBytes b) as [b Hb].
  { assert (args t = a) as ->; [|vm_compute in Ha; simplify_eq; by eexists].
    clear -Hp. remember (init_task a) as t0 eqn:Ht0. assert (args t0 = a) as H0 by by subst.
    clear Ht0. induction Hp as [|e t w t1 w1 t2 w2 Hd _ IH _]; [done|]. apply IH.
    by rewrite (dispatch_step_args _ _ _ _ _ Hd). }
  destruct (demo_path_reachable a t w' Ha Hp) as (s & Hrtc & Hd & _).
  destruct (@sys_steps_dis toy_base64 toy_sha2 toy_tonic simple_rwlock Awaited _ _ [] [] Hrtc eq_refl) as (k & Hk & Hdis).
  assert (k = 1%nat) as -> by (rewrite Hd in Hk; simpl in Hk; lia).
  destruct (@last_call_started echo_wasmtime (list_lru _) toy_sha2 nat_semaphore "n1" "http://cp" (nworld demo_node_sys) []
    (grpc_request (args t)) b) as (w1 & Hs & _); [by simpl; rewrite Hb|apply le_n|].
  eexists {| core := s; owners := [Awaited]; gone := [] |}, t, n, ch, {| nworld := w1; calls := _ |}, _.
  split_and!; [by exists "u", "round_robin"|done|done|done|done|exact Hs|reflexivity|reflexivity|reflexivity|reflexivity].
Qed.

(** C33. What a client leaves behind. When the client of POST /tasks closes its
    connection while the node is working on its task, the dispatch is dropped,
    its RPC with it, and the node drops the call. Then the node's slot is free
    again, but the load it reports is one more than before for good, on top of
    what was left behind earlier, whatever happens on either side later; and the
    task is [pending] for ever. *)
Theorem client_leaves_phantom_load `{!Base64} `{!Tonic} `{!TokioRwLock} `{!Wasmtime} `{!Lru CachedModule} `{!Sha2}
    `{!TokioSemaphore} nid url slots cached ttl_ d i t n ch s j c :
  dis_reachable d -> dispatches (core d) !! i = Some t -> owners d !! i = Some Awaited ->
  at_pc t = PSend n ch (grpc_request (args t)) ->
  rtc (node_step nid url) (init_node nid slots cached ttl_) s -> calls s !! j = Some c ->
  xreq c = grpc_request (args t) -> suspended c = true -> counted_active c = 1%nat ->
  let d1 := drop_dispatch i t d in
  let s1 := {| nworld := (drop_call c (nworld s)).2; calls := <[j := (drop_call c (nworld s)).1]> (calls s) |} in
  dis_step d d1 /\ node_step nid url s s1 /\
  available_permits (semaphore (nworld s1)) = S (available_permits (semaphore (nworld s))) /\
  forall d2 s2, rtc dis_step d1 d2 -> NoDup (ids d2) -> rtc (node_step nid url) s1 s2 ->
    Z.of_nat (length (calls s2)) < u32_mod ->
    get_task (app (world (core d2))) (task_id (args t)) = api_ok (inr "pending") /\
    Z.of_nat (total leaked s + total abandoned s) + 1 <= hr_active_tasks (node_health nid (node (nworld s2))).
Proof.
  intros Hre Hi Ho Hpc Hs Hj Hreq Hsus Hact d1 s1.
  assert (dis_step d d1) as Hd by (apply dis_drop; [done..|]; unfold finished; by rewrite Hpc).
  assert (node_step nid url s s1) as Hn by by apply node_drop.
  split_and!; [done|done| |].
  - simpl. assert (holds_permit c = 1%nat) as Hh.
    { unfold counted_active, pc_counted, holds_permit, suspended in *. by destruct (xpc c). }
    rewrite Hh. simpl. apply release_spec.
  - intros d2 s2 Hd2 Hnd Hs2 Hlen. split.
    + assert (dis_inv d1) as Hinv by (eapply dis_step_inv; [done|]; by apply dis_reachable_inv).
      destruct (dis_steps_results _ _ Hd2 Hinv Hnd) as (_ & Hgone & _). unfold get_task.
      rewrite gone_without_result; [done|by eapply dis_steps_inv|done|]. apply Hgone. by left.
    + assert (rtc (node_step nid url) (init_node nid slots cached ttl_) s1) as Hs1 by by eapply rtc_r.
      pose proof (node_reported_load nid url slots cached ttl_ s1 s2 Hs1 Hs2 Hlen) as Hload.
      rewrite <- total_phantom. pose proof (drop_call_phantom s j c Hj Hsus Hact) as Hph. fold s1 in Hph. lia.
Qed.

Lemma client_leaves_phantom_load_witness :
  exists (d1 : @DSys toy_tonic) s1 (t : @DispatchTask toy_tonic), rtc demo_step demo_node_sys s1 /\
    get_task (app (world (core d1))) (task_id (args t)) = api_ok (inr "pending") /\
    1 <= hr_active_tasks (node_health "n1" (node (nworld s1))) /\ total holds_permit s1 = 0%nat.
Proof.
  destruct demo_rpc_under_way as (d & t & n & ch & s & c & Hre & Hd & Ho & Hg & Hpc & Hs & Hc & Hx & Hsus & Hact).
  assert (dispatches (core d) !! 0%nat = Some t) as Hi by (rewrite Hd; reflexivity).
  assert (owners d !! 0%nat = Some Awaited) as Hoi by (rewrite Ho; reflexivity).
  assert (calls s !! 0%nat = Some c) as Hj by (rewrite Hc; reflexivity).
  destruct (@client_leaves_phantom_load toy_base64 toy_tonic simple_rwlock echo_wasmtime (list_lru _) toy_sha2 nat_semaphore
    "n1" "http://cp" 1 4 10 d 0%nat t n ch s 0%nat c Hre Hi Hoi Hpc Hs Hj Hx Hsus Hact) as (_ & Hn & _ & Hafter).
  destruct (Hafter _ _ (rtc_refl _ _)
    ltac:(unfold ids, all_tasks; simpl; rewrite Hg, Hd; apply NoDup_singleton) (rtc_refl _ _)
    ltac:(simpl; rewrite Hc; reflexivity)) as [Hget Hload].
  eexists _, _, t. split; [exact (rtc_r _ _ _ Hs Hn)|]. split; [exact Hget|]. split; [|unfold total; simpl; rewrite Hc; reflexivity].
  eapply Z.le_trans; [|exact Hload]. lia.
Defined.
