(* ===== verification/Cluster.v ===== *)
(** * The whole cluster

    One control plane and any number of edge nodes, running at once: the requests,
    dispatches, health checks and disconnects of [HttpSystem] interleaved with the
    calls and warm-ups of every node of [EdgeNode] and [NodeMain]. What connects
    them is the network. A dispatch gets an answer only from a call of the node its
    channel leads to: the addresses that are registered are those of nodes of the
    cluster. The warm-up requests an upload posts are in the [mail] and may reach
    any node's admin server, never, once or more often. Calls may get lost, fail in
    transport, or be answered after the client has gone; what a download returns is
    left open. Whether anybody else can reach the nodes is a parameter: on a closed
    network only the control plane's RPCs and posts arrive there; with the ports
    open, as docker-compose.yml publishes them, any request of anybody does.

    The properties say that the parts of the cluster behave as they do alone, and
    that nothing between a client and a sandbox makes up, mixes up or alters
    results: on any network for modules sent along with a task, on a closed one
    also for modules by reference. *)

From S2P Require Import Prelude RustStd RustText Common Config Http CircuitBreaker Scheduler Registry Sandbox.
From S2P Require Import ModuleCache AppState Dispatch Health Handlers Routes ControlPlane Disconnect EdgeNode.
From S2P Require Import NodeMain HttpSystem TaskSpec EndToEnd.

Section cluster.
Context `{!Base64} `{!Sha2} `{!Tonic} `{!TokioRwLock} `{!Axum}.
Context `{!Wasmtime} `{!Lru CachedModule} `{!TokioSemaphore}.

(** Whether the ports of the nodes can be reached by others than the control plane,
    where a channel leads, and the control-plane URL each node was configured with. *)
Context (ports_open : bool) (peer : Channel -> option string) (urls : string -> string).

(** [mail] are the warm-up requests posted so far, [warming] the warm-ups under way
    on the nodes; one that is never continued has lost its client. *)
Record Cluster := {
  control : DSys;
  fleet : gmap string NodeSys;
  mail : list WarmRequest;
  warming : list (string * warm_pc)
}.

(** A dispatch has this request under way on this channel, or had when its client left. *)
Definition sending (d : DSys) (ch : Channel) (req : ExecuteTaskRequest) : Prop :=
  exists t n, t ∈ all_tasks d /\ at_pc t = PSend n ch req.

(** A call on the node at the other end has this response. *)
Definition answered (c : Cluster) (ch : Channel) (req : ExecuteTaskRequest) (resp : ExecuteTaskResponse) : Prop :=
  exists k s x, peer ch = Some k /\ fleet c !! k = Some s /\ x ∈ calls s /\ xreq x = req /\ xpc x = XDone (Ok resp).

(** What [client.execute_task(req).await] can evaluate to. *)
Definition honest (c : Cluster) (t : DispatchTask) (r : result Status ExecuteTaskResponse) : Prop :=
  match at_pc t, r with PSend _ ch req, Ok resp => answered c ch req resp | _, _ => True end.

Definition with_control (d : DSys) (c : Cluster) : Cluster :=
  {| control := d; fleet := fleet c; mail := mail c; warming := warming c |}.
Definition with_node (k : string) (s : NodeSys) (c : Cluster) : Cluster :=
  {| control := control c; fleet := <[k := s]> (fleet c); mail := mail c; warming := warming c |}.
Definition with_mail (ps : list WarmRequest) (c : Cluster) : Cluster :=
  {| control := control c; fleet := fleet c; mail := ps; warming := warming c |}.
Definition with_warming (ws : list (string * warm_pc)) (c : Cluster) : Cluster :=
  {| control := control c; fleet := fleet c; mail := mail c; warming := ws |}.

(** The modules of the registry, under their keys. *)
Definition registered (d : DSys) : gmap string (ModuleMetadata * bytes) :=
  modules (module_registry (app (world (core d)))).

(** What a node is sent: the request of a dispatch whose channel leads there, or,
    with its port open, anything. *)
Definition arrives (c : Cluster) (k : string) (req : ExecuteTaskRequest) : Prop :=
  ports_open = true \/ exists ch, sending (control c) ch req /\ peer ch = Some k.

(** The warm-ups the admin server of a node is asked for: what the control plane
    posted, or, with its port open, any request that gets to the handler. *)
Definition warm_arrives (c : Cluster) (body : WarmCacheRequest) : Prop :=
  (exists p addr path, p ∈ mail c /\ warm_url p = addr +:+ path /\
     admin_warm POST path (json_body (warm_json p)) = Some body) \/
  (ports_open = true /\ exists m path b, admin_warm m path b = Some body).

Inductive cluster_step : Cluster -> Cluster -> Prop :=
| cl_request c uuid hdrs e req :
    readers (core (control c)) = 0%nat -> whole_batch e req ->
    let sv := hp_served (serve uuid hdrs e req (app (world (core (control c))))) in
    cluster_step c (with_mail (mail c ++ sv_posts sv) (with_control (after_http req sv (control c)) c))
| cl_accept c uuid trace body a o :
    lock_granted (submit_lock body) (core (control c)) = true ->
    submit_task (app (world (core (control c)))) uuid trace body = Ok a ->
    cluster_step c (with_control (accept o a (control c)) c)
| cl_dispatch c i t e t' w' :
    dispatches (core (control c)) !! i = Some t -> lock_granted (lock_use t) (core (control c)) = true ->
    dispatch_step e t (world (core (control c))) = Some (t', w') -> honest c t (rpc e) ->
    cluster_step c (with_control
      {| core := {| world := w'; dispatches := <[i := t']> (dispatches (core (control c))); hpc := hpc (core (control c)) |};
         owners := owners (control c); gone := gone (control c) |} c)
| cl_health c o r h' w' :
    lock_granted (health_lock_use (hpc (core (control c)))) (core (control c)) = true ->
    health_step o r (hpc (core (control c))) (world (core (control c))) = (h', w') ->
    cluster_step c (with_control
      {| core := {| world := w'; dispatches := dispatches (core (control c)); hpc := h' |};
         owners := owners (control c); gone := gone (control c) |} c)
| cl_disconnect c i t :
    dispatches (core (control c)) !! i = Some t -> owners (control c) !! i = Some Awaited -> finished t = false ->
    cluster_step c (with_control (drop_dispatch i t (control c)) c)
| cl_arrive c k s req :
    fleet c !! k = Some s -> arrives c k req ->
    cluster_step c (with_node k {| nworld := nworld s; calls := calls s ++ [{| xreq := req; xpc := XStart |}] |} c)
| cl_exec c k s i x e x' w' :
    fleet c !! k = Some s -> calls s !! i = Some x -> exec_step k (urls k) e x (nworld s) = Some (x', w') ->
    cluster_step c (with_node k {| nworld := w'; calls := <[i := x']> (calls s) |} c)
| cl_drop c k s i x :
    fleet c !! k = Some s -> calls s !! i = Some x -> suspended x = true ->
    cluster_step c (with_node k {| nworld := (drop_call x (nworld s)).2;
                                   calls := <[i := (drop_call x (nworld s)).1]> (calls s) |} c)
| cl_warm c k body :
    is_Some (fleet c !! k) -> warm_arrives c body ->
    cluster_step c (with_warming (warming c ++ [(k, WBody body)]) c)
| cl_warm_step c j k p s now pn :
    warming c !! j = Some (k, p) -> fleet c !! k = Some s ->
    cluster_step c (with_warming (<[j := (k, (warm_step now pn p (nworld s)).1)]> (warming c))
      (with_node k {| nworld := (warm_step now pn p (nworld s)).2; calls := calls s |} c))
| cl_sync c k s :
    fleet c !! k = Some s ->
    cluster_step c (with_node k {| nworld := sync_cache_gauge (nworld s); calls := calls s |} c).

(** A started control plane, and nodes as they start. *)
Definition fresh_fleet (f : gmap string NodeSys) : Prop :=
  forall k s, f !! k = Some s -> exists max_tasks max_cached ttl, s = init_node k max_tasks max_cached ttl.

Definition cluster_start (st : AppState) (f : gmap string NodeSys) : Cluster :=
  {| control := started st; fleet := f; mail := []; warming := [] |}.

(** ** Where responses come from *)

(** On a closed network: a module compiled from bytes that have the hash of those
    registered under the key. *)
Definition vetted (mods : gmap string (ModuleMetadata * bytes)) (key : string) (m : Module) : Prop :=
  ports_open = false -> exists meta b wasm, mods !! key = Some (meta, b) /\ sha256_hex wasm = sha256_hex b /\ module_new wasm = Ok m.

(** On a closed network: a reference to a registered module, announcing its hash. *)
Definition announced (mods : gmap string (ModuleMetadata * bytes)) (mr : ModuleRef) : Prop :=
  ports_open = false -> exists meta b, mods !! module_cache_key mr = Some (meta, b) /\ mr_hash mr = sha256_hex b.

(** The result of running the request's module on its input under its limits. *)
Definition computed (mods : gmap string (ModuleMetadata * bytes)) (req : ExecuteTaskRequest)
    (r : result WasmError ExecutionResult) : Prop :=
  match req_wasm_source req with
  | Some (SrcWasmBytes b) => exists p env, r = execute p env b (exec_config req) (req_input req)
  | Some (SrcModuleRef mr) => exists p env m, vetted mods (module_cache_key mr) m /\
      r = execute_compiled p env m (exec_config req) (req_input req)
  | None => False
  end.

Definition genuine (mods : gmap string (ModuleMetadata * bytes)) (req : ExecuteTaskRequest)
    (resp : ExecuteTaskResponse) : Prop :=
  exists r, computed mods req r /\ resp = exec_response req r.

(** What is true of a call at each of its points. *)
Definition call_genuine (mods : gmap string (ModuleMetadata * bytes)) (x : ExecTask) : Prop :=
  verified x /\
  match xpc x with
  | XExecBytes b => req_wasm_source (xreq x) = Some (SrcWasmBytes b)
  | XCacheStats m | XExecModule m =>
      exists mr, req_wasm_source (xreq x) = Some (SrcModuleRef mr) /\ vetted mods (module_cache_key mr) m
  | XFinish r => computed mods (xreq x) r
  | XDone (Ok resp) => genuine mods (xreq x) resp
  | _ => True
  end.

(** What is true of a dispatch at each of its points. *)
Definition dispatch_genuine (mods : gmap string (ModuleMetadata * bytes)) (t : DispatchTask) : Prop :=
  match at_pc t with
  | PSend _ _ req => req = grpc_request (args t)
  | PRecordSuccess _ resp | PStoreSuccess _ resp => resp_success resp = true /\ genuine mods (grpc_request (args t)) resp
  | _ => True
  end.

(** A post carries a registered module under its name and version. *)
Definition post_genuine (mods : gmap string (ModuleMetadata * bytes)) (p : WarmRequest) : Prop :=
  exists meta b, mods !! module_key (warm_name p) (warm_version p) = Some (meta, b) /\
    b64_decode (warm_wasm_bytes_base64 p) = Ok b.

(** What is true of a warm-up at each of its points, on a closed network. *)
Definition warm_genuine (mods : gmap string (ModuleMetadata * bytes)) (p : warm_pc) : Prop :=
  ports_open = false ->
  match p with
  | WBody body => exists meta b, mods !! module_key (wc_name body) (wc_version body) = Some (meta, b) /\
      b64_decode (wc_wasm_bytes_base64 body) = Ok b
  | WLookup key b | WCompile key b => exists meta, mods !! key = Some (meta, b)
  | WInsert key b m => module_new b = Ok m /\ exists meta, mods !! key = Some (meta, b)
  | _ => True
  end.

(** A cache holds vetted modules only. *)
Definition cache_vetted (mods : gmap string (ModuleMetadata * bytes)) (c : CompiledModuleCache) : Prop :=
  forall k e, assoc k (ModuleCache.entries c) = Some e -> vetted mods k (cm_module e).

(** The tasks there ever were. *)
Definition known (d : DSys) : list TaskArgs := args <$> all_tasks d.

(** On a closed network: a call of a task that was submitted. *)
Definition call_known (d : DSys) (x : ExecTask) : Prop := ports_open = false -> exists a, a ∈ known d /\ xreq x = grpc_request a.

Record cluster_inv (c : Cluster) : Prop := {
  cinv_control : dis_inv (control c);
  cinv_refs : forall a mr, a ∈ known (control c) -> wasm_source a = SrcModuleRef mr ->
    announced (registered (control c)) mr;
  cinv_dispatches : Forall (dispatch_genuine (registered (control c))) (all_tasks (control c));
  cinv_nodes : forall k s, fleet c !! k = Some s ->
    Forall (fun x => call_genuine (registered (control c)) x /\ call_known (control c) x) (calls s) /\
    cache_vetted (registered (control c)) (cache (nworld s));
  cinv_mail : Forall (post_genuine (registered (control c))) (mail c);
  cinv_warming : Forall (fun kp => warm_genuine (registered (control c)) kp.2) (warming c);
  cinv_results : forall k r, tasks (app (world (core (control c)))) !! k = Some r -> tr_success r = true ->
    exists a n resp, a ∈ known (control c) /\ task_id a = k /\ r = success_result a n resp /\
      resp_success resp = true /\ genuine (registered (control c)) (grpc_request a) resp
}.

(** ** Lemmas *)

(** *** The registry only grows *)
Section grows.
Context (mods mods' : gmap string (ModuleMetadata * bytes)) (Hsub : mods ⊆ mods').

Lemma vetted_mono key m : vetted mods key m -> vetted mods' key m.
Proof.
  intros Hv Hcl. destruct (Hv Hcl) as (meta & b & wasm & Hk & ?). exists meta, b, wasm.
  split; [by eapply lookup_weaken|done].
Qed.

Lemma announced_mono mr : announced mods mr -> announced mods' mr.
Proof. intros Ha Hcl. destruct (Ha Hcl) as (meta & b & Hk & ?). exists meta, b. split; [by eapply lookup_weaken|done]. Qed.

Lemma post_genuine_mono p : post_genuine mods p -> post_genuine mods' p.
Proof. intros (meta & b & Hk & ?). exists meta, b. split; [by eapply lookup_weaken|done]. Qed.

Lemma warm_genuine_mono p : warm_genuine mods p -> warm_genuine mods' p.
Proof.
  intros Hp Hcl. specialize (Hp Hcl).
  destruct p; try done; naive_solver eauto using lookup_weaken.
Qed.

Lemma computed_mono req r : computed mods req r -> computed mods' req r.
Proof.
  unfold computed. destruct (req_wasm_source req) as [[b|mr]|]; try done.
  intros (p & env & m & Hm & ?). exists p, env, m. split; [by apply vetted_mono|done].
Qed.

Lemma genuine_mono req resp : genuine mods req resp -> genuine mods' req resp.
Proof. intros (r & Hr & ?). exists r. split; [by apply computed_mono|done]. Qed.

Lemma call_genuine_mono x : call_genuine mods x -> call_genuine mods' x.
Proof.
  intros [Hv Hx]. split; [done|]. destruct (xpc x) as [| | | | | | | | | | | | | |[]|]; try done.
  - destruct Hx as (mr & ? & ?). exists mr. split; [done|by apply vetted_mono].
  - destruct Hx as (mr & ? & ?). exists mr. split; [done|by apply vetted_mono].
  - by apply computed_mono.
  - by apply genuine_mono.
Qed.

Lemma dispatch_genuine_mono t : dispatch_genuine mods t -> dispatch_genuine mods' t.
Proof. unfold dispatch_genuine. destruct (at_pc t); try done; intros [? ?]; split; [done|by apply genuine_mono|done|by apply genuine_mono]. Qed.

Lemma cache_vetted_mono c : cache_vetted mods c -> cache_vetted mods' c.
Proof. intros Hc k e He. by apply vetted_mono, (Hc k). Qed.

End grows.

(** *** Nodes *)

(** A digest in hexadecimal is not the empty string. *)
Context (sha_hex : forall b, sha256_hex b <> EmptyString).

Lemma hit_vetted mods now key c m :
  cache_vetted mods c -> (get_cached now key c).1 = Some m -> vetted mods key m.
Proof.
  intros Hc. rewrite get_cached_result. destruct (assoc key _) as [e|] eqn:He; [|done].
  case_match; intros [= <-]. by apply Hc.
Qed.

Lemma cache_apply_vetted mods c op :
  cache_vetted mods c -> match op with OInsert _ key _ m => vetted mods key m | _ => True end ->
  cache_vetted mods (cache_apply c op).
Proof.
  intros Hc Hop k e'. destruct op as [now key|now key|now key b md|key]; simpl.
  - destruct (get_cached_entries now key c) as (-> & _). intros (e & He & _ & ->)%looked_up_assoc. by apply Hc.
  - destruct (goc_lookup_entries now key c) as (-> & _). intros (e & He & _ & ->)%looked_up_assoc. by apply Hc.
  - destruct (goc_insert_entries now key b md c) as (-> & _). rewrite assoc_cons.
    case_decide as Hk; [intros [= <-]; by subst|]. intros He. apply Hc.
    destruct (assoc key (ModuleCache.entries c)); [|by eapply assoc_take].
    rewrite assoc_remove_key in He. by case_decide.
  - destruct (invalidate_entries key c) as (-> & _). rewrite assoc_remove_key. case_decide; [done|]. apply Hc.
Qed.

(** A download that passed its check is what is registered, as far as its hash goes. *)
Lemma inserted_vetted mods mr wasm m :
  announced mods mr -> mr_hash mr = EmptyString \/ sha256_hex wasm = mr_hash mr -> module_new wasm = Ok m ->
  vetted mods (module_cache_key mr) m.
Proof.
  intros Ha Hv Hm Hcl. destruct (Ha Hcl) as (meta & b & Hk & Hh). exists meta, b, wasm. split_and!; [done| |done].
  destruct Hv as [He|He]; [|congruence]. rewrite He in Hh. by destruct (sha_hex b).
Qed.

(** What a call does to the cache of its node. *)
Lemma exec_step_cache mods id url e x w x' w' :
  exec_step id url e x w = Some (x', w') -> call_genuine mods x -> cache_vetted mods (cache w) ->
  (forall mr, req_wasm_source (xreq x) = Some (SrcModuleRef mr) -> announced mods mr) ->
  cache_vetted mods (cache w').
Proof.
  intros Hs [Hv Hx] Hc Han. unfold exec_step, return_ in Hs. unfold verified in Hv.
  destruct (xpc x) eqn:Hpc; simplify_eq/=.
  all: try (repeat case_match; simplify_eq/=; exact Hc).
  - pose proof (cache_apply_vetted mods (cache w) (OGetCached (nnow e) key) Hc I) as Hc'. simpl in Hc'.
    destruct (get_cached _ _ _) as [[m|] c']; by simplify_eq/=.
  - pose proof (cache_apply_vetted mods (cache w) (OLookup (nnow e) key) Hc I) as Hc'. simpl in Hc'.
    destruct (goc_lookup _ _ _) as [[m|] c']; by simplify_eq/=.
  - destruct Hv as (Hm & mr & Hsrc & -> & Hh).
    apply (cache_apply_vetted mods (cache w) (OInsert (nnow e) (module_cache_key mr) wasm m) Hc).
    by eapply inserted_vetted; [apply Han| |].
Qed.

(** What a warm-up does to the cache, and what becomes of it. *)
Lemma warm_step_genuine mods now pn p w :
  warm_genuine mods p -> cache_vetted mods (cache w) ->
  warm_genuine mods (warm_step now pn p w).1 /\ cache_vetted mods (cache (warm_step now pn p w).2).
Proof.
  intros Hp Hc. destruct p as [body|key b|key b|key b m|key|status out]; simpl.
  - destruct (b64_decode _) as [bs|] eqn:Eb; simpl; [|done]. split; [|done]. intros Hcl.
    destruct (Hp Hcl) as (meta & b & Hk & Hb). rewrite Eb in Hb. injection Hb as ->. by exists meta.
  - pose proof (cache_apply_vetted mods (cache w) (OLookup now key) Hc I) as Hc'. simpl in Hc'.
    destruct (goc_lookup _ _ _) as [[m|] c']; simpl in *; (split; [|done]); [done|exact Hp].
  - destruct (compile pn b) as [m|] eqn:Em; simpl; (split; [|done]); [|done]. intros Hcl.
    split; [|by apply Hp]. unfold compile, map_err in Em. by repeat case_match; simplify_eq.
  - split; [done|]. apply (cache_apply_vetted mods (cache w) (OInsert now key b m) Hc). intros Hcl.
    destruct (Hp Hcl) as (Hm & meta & Hk). by exists meta, b, b.
  - done.
  - done.
Qed.

Lemma exec_step_genuine mods id url e x w x' w' :
  exec_step id url e x w = Some (x', w') -> call_genuine mods x -> cache_vetted mods (cache w) ->
  (forall mr, req_wasm_source (xreq x) = Some (SrcModuleRef mr) -> announced mods mr) ->
  call_genuine mods x' /\ xreq x' = xreq x.
Proof.
  intros Hs [Hv Hx] Hc Han. pose proof (exec_step_verified _ _ _ _ _ _ _ Hs Hv) as Hv'.
  unfold call_genuine. unfold exec_step, return_ in Hs. unfold verified in Hv.
  destruct (xpc x) eqn:Hpc; simplify_eq/=.
  all: try (repeat case_match; simplify_eq/=; by eauto).
  - pose proof (hit_vetted mods (nnow e) key (cache w)) as Hhit. destruct Hv as [Hsrc ->].
    destruct (get_cached _ _ _) as [[m|] c']; simplify_eq/=; eauto 10.
  - pose proof (hit_vetted mods (nnow e) key (cache w)) as Hhit. destruct Hv as (mr & Hsrc & -> & Hh).
    rewrite <- goc_lookup_result in Hhit. destruct (goc_lookup _ _ _) as [[m|] c']; simplify_eq/=; eauto 10.
  - destruct Hv as (Hm & mr & Hsrc & -> & Hh). split_and!; [done| |done]. exists mr.
    split; [done|]. by eapply inserted_vetted; [apply Han| |].
  - split_and!; [done| |done]. unfold computed. rewrite Hx. eauto.
  - split_and!; [done| |done]. destruct Hx as (mr & Hmr & Hm). unfold computed. rewrite Hmr. eauto.
  - split_and!; [done| |done]. by exists r.
Qed.

(** *** Dispatches *)

(** Only the answer to an RPC makes a success. *)
Lemma on_result_genuine mods e n r t :
  (forall resp, r = Ok resp -> genuine mods (grpc_request (args t)) resp) -> dispatch_genuine mods (on_result e n r t).
Proof.
  intros Hr. unfold dispatch_genuine. destruct r as [resp|status].
  - unfold on_result. destruct (resp_success resp) eqn:Hs; cbn [at_pc goto mark_failed args]; [|done].
    split; [done|]. by apply Hr.
  - pose proof (on_result_pc e n (Err status) t) as Hpc. unfold on_result, mark_failed in *.
    by repeat case_match; simplify_eq/=.
Qed.

Lemma dispatch_step_genuine mods e t w t' w' :
  dispatch_step e t w = Some (t', w') -> dispatch_genuine mods t ->
  (forall n ch req resp, at_pc t = PSend n ch req -> rpc e = Ok resp -> genuine mods req resp) ->
  dispatch_genuine mods t'.
Proof.
  intros Hs Ht Hr. unfold dispatch_step in Hs. unfold dispatch_genuine in Ht.
  destruct (at_pc t) eqn:Hpc; simplify_eq/=; try done.
  all: try (repeat case_match; simplify_eq/=; done).
  - destruct (get_or_create _ _ _) as [[ch|status] p']; simplify_eq/=; [done|]. by apply on_result_genuine.
  - apply on_result_genuine. intros resp Hresp. by eapply Hr.
Qed.

(** A success is stored only from the response it carries. *)
Lemma dispatch_step_success e t w t' w' k r :
  dispatch_step e t w = Some (t', w') -> tasks (app w') !! k = Some r -> tr_success r = true ->
  tasks (app w) !! k = Some r \/
  (k = task_id (args t) /\ exists n resp, at_pc t = PStoreSuccess n resp /\ r = success_result (args t) n resp).
Proof.
  intros Hs Hk Hr. unfold dispatch_step in Hs. destruct (at_pc t) eqn:Hpc; simplify_eq/=.
  all: try (left; exact Hk).
  all: try (apply lookup_insert_Some in Hk as [[<- <-]|[_ Hk]]; [|by left]; first [done|right; eauto]).
  all: try (repeat case_match; simplify_eq/=; left; exact Hk).
  pose proof (select_node_for_task_frame (ord e) (clk e) (Z.of_N (seed e)) (tried_nodes t) (app w)) as (_ & Hf & _).
  left. rewrite <- Hf. destruct (select_node_for_task _ _ _ _ _) as [[n|] st']; simpl in Hs |- *;
    repeat case_match; by simplify_eq/=.
Qed.

(** Tasks are only added, and a step of the control plane adds the accepted ones. *)
Lemma request_known req sv d a : a ∈ known d -> a ∈ known (after_http req sv d).
Proof. unfold known, all_tasks. intros Ha. simpl. rewrite app_assoc, fmap_app. apply elem_of_app. by left. Qed.

Lemma moved_known d i t t' w' h :
  dispatches (core d) !! i = Some t -> args t' = args t ->
  known {| core := {| world := w'; dispatches := <[i := t']> (dispatches (core d)); hpc := h |};
           owners := owners d; gone := gone d |} = known d.
Proof.
  intros Hi Ha. unfold known, all_tasks. simpl. rewrite !fmap_app. f_equal.
  rewrite list_fmap_insert, list_insert_id; [done|]. by rewrite list_lookup_fmap, Hi, Ha.
Qed.

Lemma dropped_all_tasks d i t : dispatches (core d) !! i = Some t -> all_tasks (drop_dispatch i t d) ≡ₚ all_tasks d.
Proof.
  intros Hi. unfold all_tasks. simpl. rewrite (delete_Permutation _ _ _ Hi) at 2. by rewrite Permutation_middle.
Qed.

Lemma effect_tasks st st' l : effect st st' l -> tasks st' = tasks st.
Proof. intros [|body|o uuid utc body seen]; [done|done|]. unfold upload_module. by repeat case_match. Qed.

(** What a submission by reference announces. *)
Lemma submit_announced st uuid trace body a mr :
  registry_wf (module_registry st) -> submit_task st uuid trace body = Ok a -> wasm_source a = SrcModuleRef mr ->
  announced (modules (module_registry st)) mr.
Proof.
  intros Hwf Hs Hsrc _. unfold submit_task, resolve_task_inputs, dispatch_args, mbind, result_bind, ok_or, map_err in Hs.
  repeat case_match; simplify_eq/=.
  match goal with Hg : Registry.get _ _ _ = Some ?e |- _ => destruct e as [meta b]; exists meta, b; unfold Registry.get in Hg;
    destruct (Hwf _ _ _ Hg) as (_ & Hh & _) end. done.
Qed.

(** What a request posts is in the registry it leaves. *)
Lemma served_posts uuid hdrs e req st :
  Forall (post_genuine (modules (module_registry (sv_state (hp_served (serve uuid hdrs e req st))))))
    (sv_posts (hp_served (serve uuid hdrs e req st))).
Proof.
  rewrite serve_served. unfold route_request. destruct (route _ _ _ _) as [ep caps| |]; [|constructor..].
  unfold handle, with_json, with_path, reply_error. destruct ep; repeat (case_match; simplify_eq/=); try constructor.
  match goal with Hu : upload_module _ _ _ _ _ _ = _ |- _ => revert Hu end.
  unfold upload_module. destruct (b64_decode _) as [b|]; [|done]. unfold store. destruct (modules _ !! _); [done|]. intros [= _ <- <-].
  apply Forall_forall. intros p Hp. case_match; [by apply not_elem_of_nil in Hp|].
  unfold warm_nodes in Hp. apply list_elem_of_fmap in Hp as (addr & -> & _).
  eexists _, b. split; [apply lookup_insert_eq|apply b64_roundtrip].
Qed.

(** *** The invariant *)

Lemma effect_registry st st' l :
  effect st st' l -> modules (module_registry st) ⊆ modules (module_registry st').
Proof.
  intros [|body|o uuid utc body seen]; [done|done|]. apply map_subseteq_spec. intros k x. apply upload_keeps_modules.
Qed.

(** A step that changes the control plane only. *)
Lemma control_inv c d :
  cluster_inv c -> dis_inv d -> registered (control c) ⊆ registered d ->
  (forall a, a ∈ known (control c) -> a ∈ known d) ->
  (forall a mr, a ∈ known d -> wasm_source a = SrcModuleRef mr ->
     a ∈ known (control c) \/ announced (registered d) mr) ->
  Forall (dispatch_genuine (registered d)) (all_tasks d) ->
  (forall k r, tasks (app (world (core d))) !! k = Some r -> tr_success r = true ->
     tasks (app (world (core (control c)))) !! k = Some r \/
     exists a n resp, a ∈ known d /\ task_id a = k /\ r = success_result a n resp /\
       resp_success resp = true /\ genuine (registered d) (grpc_request a) resp) ->
  cluster_inv (with_control d c).
Proof.
  intros [_ Href Hd Hn Hm Hw Hr] Hdis Hsub Hkn Href' Hd' Hr'. split; simpl; [done| |done| | | |].
  - intros a mr Ha Hsrc. destruct (Href' a mr Ha Hsrc); [|done]. by eapply announced_mono, Href.
  - intros k s Hk. destruct (Hn k s Hk) as [Hcalls Hcache]. split; [|by eapply cache_vetted_mono].
    eapply Forall_impl; [exact Hcalls|]. intros x [Hg Hx]. split; [by eapply call_genuine_mono|].
    intros Hcl. destruct (Hx Hcl) as (a & Ha & Hreq). exists a. split; [by apply Hkn|done].
  - eapply Forall_impl; [exact Hm|]. intros p. by apply post_genuine_mono.
  - eapply Forall_impl; [exact Hw|]. intros p. by apply warm_genuine_mono.
  - intros k r Hk Hs. destruct (Hr' k r Hk Hs) as [Hold|?]; [|done].
    destruct (Hr k r Hold Hs) as (a & n & resp & Ha & ? & ? & ? & ?). exists a, n, resp.
    split_and!; [by apply Hkn|done|done|done|by eapply genuine_mono].
Qed.

(** A step of one node. *)
Lemma node_inv_step c k s' :
  cluster_inv c ->
  Forall (fun x => call_genuine (registered (control c)) x /\ call_known (control c) x) (calls s') ->
  cache_vetted (registered (control c)) (cache (nworld s')) -> cluster_inv (with_node k s' c).
Proof.
  intros [Hdis Href Hd Hn Hm Hw Hr] Hcalls Hcache. split; simpl; [done|done|done| |done|done|done].
  intros j u [[<- <-]|[_ Hj]]%lookup_insert_Some; [done|by eapply Hn].
Qed.

Lemma known_announced c x mr :
  cluster_inv c -> call_known (control c) x -> req_wasm_source (xreq x) = Some (SrcModuleRef mr) ->
  announced (registered (control c)) mr.
Proof.
  intros Hinv Hx Hsrc Hcl. destruct (Hx Hcl) as (a & Ha & Hreq). rewrite Hreq in Hsrc. simplify_eq/=.
  by eapply cinv_refs.
Qed.

(** Steps of the network only. *)
Lemma mail_inv c ps : cluster_inv c -> Forall (post_genuine (registered (control c))) ps -> cluster_inv (with_mail ps c).
Proof. by intros [Hdis Href Hd Hn _ Hw Hr] Hm. Qed.

Lemma warming_inv c ws :
  cluster_inv c -> Forall (fun kp : string * warm_pc => warm_genuine (registered (control c)) kp.2) ws ->
  cluster_inv (with_warming ws c).
Proof. by intros [Hdis Href Hd Hn Hm _ Hr] Hw. Qed.

(** *** The steps *)

Lemma control_dis c d : cluster_inv c -> http_step (control c) d -> dis_inv d.
Proof. intros Hinv Hs. eapply dis_steps_inv; [by apply http_step_dis; [|apply Hinv]|apply Hinv]. Qed.

Lemma request_inv c uuid hdrs e req :
  cluster_inv c -> readers (core (control c)) = 0%nat -> whole_batch e req ->
  let sv := hp_served (serve uuid hdrs e req (app (world (core (control c))))) in
  cluster_inv (with_control (after_http req sv (control c)) c).
Proof.
  intros Hinv Hrd Hq. cbv zeta. pose proof (serve_effect uuid hdrs e req (app (world (core (control c)))) Hq) as Heff.
  cbv zeta in Heff. set (sv := hp_served _) in *. pose proof (effect_registry _ _ _ Heff) as Hreg.
  apply control_inv; [done| |done|intros a; apply request_known| | |].
  - eapply control_dis; [done|]. by apply http_request.
  - intros a mr Ha Hsrc. unfold known, all_tasks in Ha. simpl in Ha. rewrite app_assoc, fmap_app in Ha.
    apply elem_of_app in Ha as [Ha|Ha]; [by left|right]. rewrite <- list_fmap_compose in Ha.
    apply list_elem_of_fmap in Ha as (a' & -> & Ha). simpl in Hsrc. unfold registered. simpl.
    inversion Heff as [l Hl Hst|body Hst Hsp|o u utc body seen Hst Hsp]; [|rewrite <- Hsp in Ha; inversion Ha..].
    rewrite Forall_forall in Hl. destruct (Hl a' Ha) as (u & tr & body & Hsub).
    eapply submit_announced; [|exact Hsub|exact Hsrc]. apply (inv_app _ (dinv_sys _ (cinv_control _ Hinv))).
  - unfold all_tasks. simpl. rewrite app_assoc. apply Forall_app. split.
    + eapply Forall_impl; [apply (cinv_dispatches _ Hinv)|]. intros t. by apply dispatch_genuine_mono.
    + apply Forall_fmap, Forall_true. done.
  - intros k r Hk _. left. simpl in Hk. by rewrite (effect_tasks _ _ _ Heff) in Hk.
Qed.

Lemma accept_inv c uuid trace body a o :
  cluster_inv c -> lock_granted (submit_lock body) (core (control c)) = true ->
  submit_task (app (world (core (control c)))) uuid trace body = Ok a ->
  cluster_inv (with_control (accept o a (control c)) c).
Proof.
  intros Hinv Hl Ha. assert (forall b, b ∈ known (accept o a (control c)) <-> b ∈ known (control c) \/ b = a) as Hkn.
  { intros b. unfold known, all_tasks. simpl. rewrite app_assoc, fmap_app, elem_of_app. simpl. by rewrite list_elem_of_singleton. }
  apply control_inv; [done| |done|intros b Hb; apply Hkn; by left| | |by left].
  - eapply control_dis; [done|]. by eapply http_accept.
  - intros b mr Hb Hsrc. apply Hkn in Hb as [Hb| ->]; [by left|right].
    eapply submit_announced; [|exact Ha|exact Hsrc]. apply (inv_app _ (dinv_sys _ (cinv_control _ Hinv))).
  - unfold all_tasks. simpl. rewrite app_assoc. apply Forall_app. split; [apply (cinv_dispatches _ Hinv)|].
    by repeat constructor.
Qed.

(** An answer is genuine, since the call that gave it is. *)
Lemma honest_genuine c t e n ch req resp :
  cluster_inv c -> honest c t (rpc e) -> at_pc t = PSend n ch req -> rpc e = Ok resp ->
  genuine (registered (control c)) req resp.
Proof.
  intros Hinv Hh Hpc Hrpc. unfold honest in Hh. rewrite Hpc, Hrpc in Hh.
  destruct Hh as (k & s & x & _ & Hk & Hx & <- & Hdone). destruct (cinv_nodes _ Hinv k s Hk) as [Hcalls _].
  rewrite Forall_forall in Hcalls. destruct (Hcalls x Hx) as [[_ Hgx] _]. by rewrite Hdone in Hgx.
Qed.

Lemma dispatch_inv c i t e t' w' :
  cluster_inv c -> dispatches (core (control c)) !! i = Some t -> lock_granted (lock_use t) (core (control c)) = true ->
  dispatch_step e t (world (core (control c))) = Some (t', w') -> honest c t (rpc e) ->
  cluster_inv (with_control
    {| core := {| world := w'; dispatches := <[i := t']> (dispatches (core (control c))); hpc := hpc (core (control c)) |};
       owners := owners (control c); gone := gone (control c) |} c).
Proof.
  intros Hinv Hi Hl Hs Hh. set (d := {| core := _; owners := _; gone := _ |}).
  assert (known d = known (control c)) as Hkn by (apply (moved_known _ _ t); [done|by eapply dispatch_step_args]).
  assert (registered d = registered (control c)) as Hreg by (by apply (f_equal modules), (dispatch_step_registry _ _ _ _ _ Hs)).
  pose proof (cinv_dispatches _ Hinv) as Hd. unfold all_tasks in Hd. apply Forall_app in Hd as [Hg Hds].
  pose proof (Forall_lookup_1 _ _ _ _ Hds Hi) as Ht.
  apply control_inv; [done| |by rewrite Hreg|by rewrite Hkn|intros a mr; rewrite Hkn; by left|rewrite Hreg|].
  - eapply control_dis; [done|]. by eapply http_dispatch.
  - unfold all_tasks. simpl. apply Forall_app. split; [done|]. apply Forall_insert; [done|].
    eapply dispatch_step_genuine; [done..|]. intros. by eapply honest_genuine.
  - intros k r Hk Hok. simpl in Hk. destruct (dispatch_step_success _ _ _ _ _ _ _ Hs Hk Hok)
      as [?|(-> & n & resp & Hpc & ->)]; [by left|right]. exists (args t), n, resp. rewrite Hkn, Hreg.
    unfold dispatch_genuine in Ht. rewrite Hpc in Ht. destruct Ht as [Hsucc Hgen].
    split_and!; [|done..]. apply list_elem_of_fmap. exists t.
    split; [done|]. apply elem_of_app. right. by eapply list_elem_of_lookup_2.
Qed.

(** What the health loop changes is neither a task nor a result nor a module. *)
Lemma health_inv c o r h' w' :
  cluster_inv c -> lock_granted (health_lock_use (hpc (core (control c)))) (core (control c)) = true ->
  health_step o r (hpc (core (control c))) (world (core (control c))) = (h', w') ->
  cluster_inv (with_control
    {| core := {| world := w'; dispatches := dispatches (core (control c)); hpc := h' |};
       owners := owners (control c); gone := gone (control c) |} c).
Proof.
  intros Hinv Hl Hh. set (d := {| core := _; owners := _; gone := _ |}).
  assert (registered d = registered (control c)) as Hreg by (by apply (f_equal modules), (health_step_registry _ _ _ _ _ _ Hh)).
  assert (tasks (app w') = tasks (app (world (core (control c))))) as Ht.
  { eapply health_step_frame in Hh as (_ & _ & _ & _ & Ht & _); [done|].
    apply (inv_app _ (dinv_sys _ (cinv_control _ Hinv))). }
  apply control_inv; [done| |by rewrite Hreg|done|by left|rewrite Hreg; apply Hinv|].
  - eapply control_dis; [done|]. by eapply http_health.
  - intros k r0 Hk _. left. simpl in Hk. by rewrite <- Ht.
Qed.

Lemma disconnect_inv c i t :
  cluster_inv c -> dispatches (core (control c)) !! i = Some t -> owners (control c) !! i = Some Awaited ->
  finished t = false -> cluster_inv (with_control (drop_dispatch i t (control c)) c).
Proof.
  intros Hinv Hi Ho Hf. pose proof (dropped_all_tasks _ _ _ Hi) as Hp.
  assert (forall a, a ∈ known (drop_dispatch i t (control c)) <-> a ∈ known (control c)) as Hkn
    by (intros a; unfold known; by rewrite Hp).
  apply control_inv; [done| |done|by intros a; rewrite Hkn|intros a mr; rewrite Hkn; by left| |by left].
  - eapply control_dis; [done|]. by apply http_disconnect.
  - rewrite Hp. apply Hinv.
Qed.

Lemma arrive_inv c k s req :
  cluster_inv c -> fleet c !! k = Some s -> arrives c k req ->
  cluster_inv (with_node k {| nworld := nworld s; calls := calls s ++ [{| xreq := req; xpc := XStart |}] |} c).
Proof.
  intros Hinv Hk Harr. destruct (cinv_nodes _ Hinv k s Hk) as [Hcalls Hcache].
  apply node_inv_step; [done| |done]. simpl. apply Forall_app. split; [done|]. repeat constructor.
  intros Hcl. destruct Harr as [|(ch & (t & n & Ht & Hpc) & _)]; [congruence|].
  pose proof (cinv_dispatches _ Hinv) as Hd. rewrite Forall_forall in Hd. specialize (Hd t Ht).
  unfold dispatch_genuine in Hd. rewrite Hpc in Hd. exists (args t). split; [|done]. apply list_elem_of_fmap. eauto.
Qed.

Lemma exec_inv c k s i x e x' w' :
  cluster_inv c -> fleet c !! k = Some s -> calls s !! i = Some x ->
  exec_step k (urls k) e x (nworld s) = Some (x', w') ->
  cluster_inv (with_node k {| nworld := w'; calls := <[i := x']> (calls s) |} c).
Proof.
  intros Hinv Hk Hi Hs. destruct (cinv_nodes _ Hinv k s Hk) as [Hcalls Hcache].
  destruct (Forall_lookup_1 _ _ _ _ Hcalls Hi) as [Hg Hkn].
  assert (forall mr, req_wasm_source (xreq x) = Some (SrcModuleRef mr) -> announced (registered (control c)) mr) as Han
    by (intros mr; by apply known_announced).
  destruct (exec_step_genuine _ _ _ _ _ _ _ _ Hs Hg Hcache Han) as [Hg' Hreq].
  apply node_inv_step; [done| |by eapply exec_step_cache]. apply Forall_insert; [done|].
  split; [done|]. intros Hcl. destruct (Hkn Hcl) as (a & Ha & Hx). exists a. split; [done|congruence].
Qed.

Lemma warm_arrives_genuine c body :
  cluster_inv c -> warm_arrives c body -> warm_genuine (registered (control c)) (WBody body).
Proof.
  intros Hinv Harr Hcl. destruct Harr as [(p & addr & path & Hp & _ & Hw)|[? _]]; [|congruence].
  apply admin_warm_post in Hw as ->. pose proof (cinv_mail _ Hinv) as Hm. rewrite Forall_forall in Hm. by apply Hm.
Qed.

Lemma warm_step_inv c j k p s now pn :
  cluster_inv c -> warming c !! j = Some (k, p) -> fleet c !! k = Some s ->
  cluster_inv (with_warming (<[j := (k, (warm_step now pn p (nworld s)).1)]> (warming c))
    (with_node k {| nworld := (warm_step now pn p (nworld s)).2; calls := calls s |} c)).
Proof.
  intros Hinv Hj Hk. destruct (cinv_nodes _ Hinv k s Hk) as [Hcalls Hcache].
  pose proof (Forall_lookup_1 _ _ _ _ (cinv_warming _ Hinv) Hj) as Hp. simpl in Hp.
  destruct (warm_step_genuine _ now pn p (nworld s) Hp Hcache) as [Hp' Hc'].
  apply warming_inv; [by apply node_inv_step|]. simpl. apply Forall_insert; [apply Hinv|done].
Qed.

Lemma cluster_step_inv c c' : cluster_step c c' -> cluster_inv c -> cluster_inv c'.
Proof.
  intros Hstep Hinv.
  destruct Hstep as [c uuid hdrs e req Hrd Hq sv|c uuid trace body a o Hl Ha|c i t e t' w' Hi Hl Hs Hh|c o r h' w' Hl Hh
    |c i t Hi Ho Hf|c k s req Hk Harr|c k s i x e x' w' Hk Hi Hs|c k s i x Hk Hi Hsu|c k body Hk Harr
    |c j k p s now pn Hj Hk|c k s Hk].
  - apply mail_inv; [by apply request_inv|]. apply Forall_app. split; [|apply served_posts].
    apply (cinv_mail _ (request_inv c uuid hdrs e req Hinv Hrd Hq)).
  - by eapply accept_inv.
  - by eapply dispatch_inv.
  - by eapply health_inv.
  - by apply disconnect_inv.
  - by eapply arrive_inv.
  - by eapply exec_inv.
  - destruct (cinv_nodes _ Hinv k s Hk) as [Hcalls Hcache]. destruct (Forall_lookup_1 _ _ _ _ Hcalls Hi) as [_ Hkn].
    apply node_inv_step; [done| |]; simpl; [by apply Forall_insert|]. by destruct (holds_permit x).
  - apply warming_inv; [done|]. apply Forall_app. split; [apply Hinv|]. constructor; [by apply warm_arrives_genuine|constructor].
  - by apply warm_step_inv.
  - destruct (cinv_nodes _ Hinv k s Hk) as [Hcalls Hcache]. by apply node_inv_step.
Qed.

Lemma cluster_start_inv st f : tasks st = ∅ -> dis_inv (started st) -> fresh_fleet f -> cluster_inv (cluster_start st f).
Proof.
  intros Ht Hdis Hf. split; simpl; [done| |constructor| |constructor|constructor|].
  - intros a mr Ha. inversion Ha.
  - intros k s (mt & mc & t & ->)%Hf. split; [constructor|]. intros j e He.
    apply (new_represents mc t) in He. by rewrite lookup_empty in He.
  - intros k r. by rewrite Ht, lookup_empty.
Qed.

Lemma cluster_steps_inv c c' : rtc cluster_step c c' -> cluster_inv c -> cluster_inv c'.
Proof. induction 1; eauto using cluster_step_inv. Qed.

(** *** The parts *)

Lemma cluster_step_parts c c' :
  cluster_step c c' ->
  rtc http_step (control c) (control c') /\
  forall k s', fleet c' !! k = Some s' -> exists s, fleet c !! k = Some s /\ rtc (node_step k (urls k)) s s'.
Proof.
  assert (forall c k s s', fleet c !! k = Some s -> rtc (node_step k (urls k)) s s' ->
    forall j u, fleet (with_node k s' c) !! j = Some u ->
    exists s0, fleet c !! j = Some s0 /\ rtc (node_step j (urls j)) s0 u) as Hnode.
  { intros c0 k s s' Hk Hn j u Hj. simpl in Hj. apply lookup_insert_Some in Hj as [[<- <-]|[_ Hj]];
      [|eauto using rtc_refl]. exists s.
    by split. }
  intros [c0 uuid hdrs e req Hrd Hq sv|c0 uuid trace body a o Hl Ha|c0 i t e t' w' Hi Hl Hs Hh|c0 o r h' w' Hl Hh
    |c0 i t Hi Ho Hf|c0 k s req Hk Harr|c0 k s i x e x' w' Hk Hi Hs|c0 k s i x Hk Hi Hsu|c0 k body Hk Harr
    |c0 j k p s now pn Hj Hk|c0 k s Hk].
  1-5: split; [apply rtc_once|intros; eauto using rtc_refl].
  6-11: split; [apply rtc_refl|].
  - by apply http_request.
  - by eapply http_accept.
  - by eapply http_dispatch.
  - by eapply http_health.
  - by apply http_disconnect.
  - eapply Hnode; [done|apply rtc_once, node_arrive].
  - eapply Hnode; [done|by eapply rtc_once, node_exec].
  - eapply Hnode; [done|by eapply rtc_once, node_drop].
  - eauto using rtc_refl.
  - eapply (Hnode c0 k s); [done|apply warm_step_node].
  - eapply Hnode; [done|apply rtc_once, node_sync].
Qed.

Lemma cluster_steps_parts c c' :
  rtc cluster_step c c' ->
  rtc http_step (control c) (control c') /\
  forall k s', fleet c' !! k = Some s' -> exists s, fleet c !! k = Some s /\ rtc (node_step k (urls k)) s s'.
Proof.
  induction 1 as [c|c1 c2 c3 Hs _ [IH1 IH2]]; [split; [done|]; eauto using rtc_refl|].
  destruct (cluster_step_parts _ _ Hs) as [Hp1 Hp2]. split; [by etrans|].
  intros k s3 (s2 & Hk2 & Hr2)%IH2. destruct (Hp2 k s2 Hk2) as (s1 & Hk1 & Hr1). exists s1. split; [done|by etrans].
Qed.

(** Two tasks with one id are one task. *)
Lemma known_by_id d a a' :
  NoDup (ids d) -> a ∈ known d -> a' ∈ known d -> task_id a = task_id a' -> a = a'.
Proof.
  intros Hnd Ha Ha' Hid. assert (ids d = task_id <$> known d) as He
    by (unfold ids, known; by rewrite <- list_fmap_compose). rewrite He in Hnd.
  apply list_elem_of_lookup in Ha as [i Hi]. apply list_elem_of_lookup in Ha' as [j Hj].
  assert (i = j) as <-; [|congruence].
  eapply NoDup_lookup; [exact Hnd|by rewrite list_lookup_fmap, Hi|]. by rewrite list_lookup_fmap, Hj, Hid.
Qed.

(** A success that was computed came from a run that succeeded. *)
Lemma genuine_success mods req resp :
  genuine mods req resp -> resp_success resp = true ->
  exists ex, computed mods req (Ok ex) /\ resp_output resp = er_output ex /\
    resp_execution_time_ms resp = er_execution_time_ms ex.
Proof. intros ([ex|err] & Hc & ->) Hs; [|done]. by exists ex. Qed.

(** What the invariant says of a task reported as a success. *)
Lemma success_computed c t r :
  cluster_inv c -> NoDup (ids (control c)) -> t ∈ all_tasks (control c) ->
  get_task (app (world (core (control c)))) (task_id (args t)) = api_ok (inl r) -> tr_success r = true ->
  exists ex, computed (registered (control c)) (grpc_request (args t)) (Ok ex) /\
    tr_task_id r = task_id (args t) /\ tr_output r = er_output ex /\ tr_execution_time_ms r = er_execution_time_ms ex.
Proof.
  intros Hinv Hnd Ht Hget Hs. unfold get_task in Hget. destruct (tasks _ !! _) as [r'|] eqn:Hr; [|done].
  injection Hget as ->. destruct (cinv_results _ Hinv _ _ Hr Hs) as (a & n & resp & Ha & Hid & -> & Hok & Hgen).
  assert (a = args t) as -> by (eapply known_by_id; [done|done|apply list_elem_of_fmap; eauto|done]).
  destruct (genuine_success _ _ _ Hgen Hok) as (ex & Hc & Ho & Htm). exists ex. by split_and!.
Qed.

(** Every cluster that was started has the invariant. *)
Lemma cluster_started_inv env port st f c :
  cp_main env = Ok (port, st) -> fresh_fleet f -> rtc cluster_step (cluster_start st f) c -> cluster_inv c.
Proof.
  intros (url & strategy & Hst)%started_init Hf Hrtc. eapply cluster_steps_inv; [done|].
  apply cluster_start_inv; [|rewrite Hst; apply dis_init_inv|done].
  exact (f_equal (fun d => tasks (app (world (core d)))) Hst).
Qed.

(** A computed success, spelled out. *)
Lemma computed_run d a ex :
  computed (registered d) (grpc_request a) (Ok ex) ->
  match wasm_source a with
  | SrcWasmBytes b => exists e, execute None e b (exec_config (grpc_request a)) (input a) = Ok ex
  | SrcModuleRef mr => exists m e, execute_compiled None e m (exec_config (grpc_request a)) (input a) = Ok ex /\
      (ports_open = false -> exists meta b wasm,
         Registry.get (mr_name mr) (mr_version mr) (module_registry (app (world (core d)))) = Some (meta, b) /\
         sha256_hex wasm = sha256_hex b /\ module_new wasm = Ok m)
  end.
Proof.
  unfold computed. simpl req_wasm_source. cbv iota. destruct (wasm_source a) as [b|mr].
  - intros ([p|] & e & He); [done|]. by exists e.
  - intros ([p|] & e & m & Hm & He); [done|]. by exists m, e.
Qed.

(** *** Serving a task *)

(** From [c0], with only the [i]-th dispatch and the nodes at work, a state is
    reached with this dispatch, world and fleet. *)
Definition reaches (c0 : Cluster) (i : nat) (t : DispatchTask) (w : CPWorld) (f : gmap string NodeSys) : Prop :=
  exists c, rtc cluster_step c0 c /\ dispatches (core (control c)) !! i = Some t /\
    readers (core (control c)) = 0%nat /\ world (core (control c)) = w /\ fleet c = f /\
    known (control c) = known (control c0).

Lemma reaches_dispatch c0 i t w f e t' w' :
  reaches c0 i t w f -> dispatch_step e t w = Some (t', w') -> holds_read_guard t' = false ->
  (forall n ch req resp, at_pc t = PSend n ch req -> rpc e = Ok resp ->
     exists k s x, peer ch = Some k /\ f !! k = Some s /\ x ∈ calls s /\ xreq x = req /\ xpc x = XDone (Ok resp)) ->
  reaches c0 i t' w' f.
Proof.
  intros (c & Hrtc & Hi & Hr & <- & <- & Hkn) Hs Hg Hh. eexists. split; [eapply rtc_r; [exact Hrtc|]|].
  { eapply cl_dispatch; [exact Hi|by apply free_locks|exact Hs|]. unfold honest.
    destruct (at_pc t) eqn:Hpc; try done. destruct (rpc e) eqn:Hrpc; [|done]. by eapply Hh. }
  simpl. split_and!; [|by eapply readers_moved|done|done|].
  - apply list_lookup_insert_eq. by eapply lookup_lt_Some.
  - rewrite <- Hkn. apply (moved_known _ _ t); [done|]. by eapply dispatch_step_args.
Qed.

Lemma reaches_arrival c0 i t w f n ch req k s :
  reaches c0 i t w f -> at_pc t = PSend n ch req -> peer ch = Some k -> f !! k = Some s ->
  reaches c0 i t w (<[k := {| nworld := nworld s; calls := calls s ++ [{| xreq := req; xpc := XStart |}] |}]> f).
Proof.
  intros (c & Hrtc & Hi & Hr & <- & <- & Hkn) Hpc Hp Hk. eexists. split; [eapply rtc_r; [exact Hrtc|]|].
  { eapply cl_arrive; [exact Hk|]. right. exists ch. split; [|exact Hp]. exists t, n. split; [|exact Hpc].
    apply elem_of_app. right. by eapply list_elem_of_lookup_2. }
  done.
Qed.

Lemma reaches_call c0 i t w f k m es s j x x' w' :
  reaches c0 i t w f -> f !! k = Some s -> calls s !! j = Some x ->
  exec_run k (urls k) m es x (nworld s) = Some (x', w') ->
  reaches c0 i t w (<[k := {| nworld := w'; calls := <[j := x']> (calls s) |}]> f).
Proof.
  revert es s x f. induction m as [|m IH]; intros es s x f Hre Hk Hj Hrun; simpl in Hrun.
  - simplify_eq. rewrite list_insert_id by done. rewrite insert_id; [done|]. rewrite Hk. by destruct s.
  - apply bind_Some in Hrun as ([x1 w1] & Hs & Hrun).
    assert (j < length (calls s))%nat as Hlt by by eapply lookup_lt_Some.
    specialize (IH (fun n => es (S n)) {| nworld := w1; calls := <[j := x1]> (calls s) |} x1
      (<[k := {| nworld := w1; calls := <[j := x1]> (calls s) |}]> f)).
    simpl in IH. rewrite insert_insert_eq, list_insert_insert_eq in IH. apply IH.
    + destruct Hre as (c & Hrtc & Hi & Hr & <- & <- & Hkn). eexists. split; [eapply rtc_r; [exact Hrtc|]|].
      * by eapply cl_exec.
      * done.
    + by rewrite lookup_insert_eq.
    + by apply list_lookup_insert_eq.
    + exact Hrun.
Qed.

Lemma exec_run_req id url m es x w x' w' : exec_run id url m es x w = Some (x', w') -> xreq x' = xreq x.
Proof.
  revert es x w. induction m as [|m IH]; intros es x w Hrun; simpl in Hrun; [by simplify_eq|].
  apply bind_Some in Hrun as ([x1 w1] & Hs & Hrun). rewrite (IH _ _ _ Hrun). clear -Hs.
  unfold exec_step, return_ in Hs. destruct (xpc x); repeat case_match; by simplify_eq/=.
Qed.

(** The dispatch up to its first RPC. *)
Lemma reaches_send c0 i a e n ch p' st2 :
  dispatches (core (control c0)) !! i = Some (init_task a) -> readers (core (control c0)) = 0%nat ->
  select_node_for_task (ord e) (clk e) (Z.of_N (seed e)) ∅ (counted (app (world (core (control c0))))) = (Some n, st2) ->
  get_or_create (id n) (address n) (pool (world (core (control c0)))) = (Ok ch, p') ->
  exists t w, reaches c0 i t w (fleet c0) /\ at_pc t = PSend n ch (grpc_request a) /\ args t = a /\
    tasks (app w) = tasks (app (world (core (control c0)))).
Proof.
  intros Hi Hr Hsel Hget.
  pose proof (select_node_for_task_frame (ord e) (clk e) (Z.of_N (seed e)) ∅ (counted (app (world (core (control c0))))))
    as (_ & Ht & _). rewrite Hsel in Ht. simpl in Ht.
  assert (reaches c0 i (init_task a) (world (core (control c0))) (fleet c0)) as Hre
    by (exists c0; split; [apply rtc_refl|done]).
  do 2 (eapply (reaches_dispatch _ _ _ _ _ e) in Hre; [|reflexivity|done|done]).
  eapply (reaches_dispatch _ _ _ _ _ e) in Hre; [|unfold dispatch_step; cbn [at_pc goto tried_nodes set_e2e_start init_task];
    simpl app; unfold counted in Hsel; rewrite Hsel; reflexivity|done|done].
  do 2 (eapply (reaches_dispatch _ _ _ _ _ e) in Hre; [|reflexivity|done|done]).
  eapply (reaches_dispatch _ _ _ _ _ e) in Hre; [|unfold dispatch_step; simpl at_pc; cbv iota; simpl pool;
    rewrite Hget; reflexivity|done|done].
  do 2 eexists. split; [exact Hre|]. done.
Qed.

(** The dispatch after a successful answer. *)
Lemma reaches_success c0 i t w f e n ch req resp k s x :
  reaches c0 i t w f -> at_pc t = PSend n ch req -> peer ch = Some k -> f !! k = Some s -> x ∈ calls s ->
  xreq x = req -> xpc x = XDone (Ok resp) -> resp_success resp = true -> rpc e = Ok resp ->
  exists t' w', reaches c0 i t' w' f /\ finished t' = true /\ args t' = args t /\
    tasks (app w') = <[task_id (args t) := success_result (args t) n resp]> (tasks (app w)).
Proof.
  intros Hre Hpc Hp Hk Hx Hreq Hdone Hok Hrpc.
  eapply (reaches_dispatch _ _ _ _ _ e) in Hre;
    [|unfold dispatch_step; rewrite Hpc; unfold on_result; rewrite Hrpc, Hok; reflexivity|done|].
  2:{ intros n' ch' req' resp' Hpc' Hrpc'. rewrite Hpc in Hpc'. rewrite Hrpc in Hrpc'. simplify_eq.
      exists k, s, x. by split_and!. }
  do 2 (eapply (reaches_dispatch _ _ _ _ _ e) in Hre; [|reflexivity|done|done]).
  do 2 eexists. split; [exact Hre|]. done.
Qed.

(** A task that has just been accepted can be served: whenever nobody waits in the
    queueing statement, selection finds a node that can be reached and has a free
    slot, and the sandbox there runs the module, the cluster can bring the task to
    its end, with the result of that run. *)
Lemma cluster_serves c0 i a b e n ch p' st2 k s sm nes ex :
  dispatches (core (control c0)) !! i = Some (init_task a) -> readers (core (control c0)) = 0%nat ->
  select_node_for_task (ord e) (clk e) (Z.of_N (seed e)) ∅ (counted (app (world (core (control c0))))) = (Some n, st2) ->
  get_or_create (id n) (address n) (pool (world (core (control c0)))) = (Ok ch, p') ->
  wasm_source a = SrcWasmBytes b -> peer ch = Some k -> fleet c0 !! k = Some s ->
  try_acquire (semaphore (nworld s)) = Some sm -> 0 <= ns_active_tasks (node (nworld s)) < u64_mod - 1 ->
  execute (panic (nes 3%nat)) (exec_env (nes 3%nat)) b (exec_config (grpc_request a)) (input a) = Ok ex ->
  exists c t, rtc cluster_step c0 c /\ known (control c) = known (control c0) /\
    dispatches (core (control c)) !! i = Some t /\ args t = a /\ finished t = true /\
    get_task (app (world (core (control c)))) (task_id a) =
      api_ok (inl (success_result a n (exec_response (grpc_request a) (Ok ex)))).
Proof.
  intros Hi Hr Hsel Hget Hsrc Hp Hk Hacq Hact Hex.
  destruct (reaches_send c0 i a e n ch p' st2) as (t & w & Hre & Hpc & Ha & Ht); [done..|].
  apply (reaches_arrival _ _ _ _ _ n ch (grpc_request a) k s) in Hre; [|done..].
  destruct (exec_inline_run k (urls k) nes (grpc_request a) b (nworld s) sm) as (x' & nw' & Hrun & Hans & _);
    [simpl; by rewrite Hsrc|done|done|].
  simpl req_input in Hans. rewrite Hex in Hans.
  eapply (reaches_call _ _ _ _ _ k 5 nes _ (length (calls s))) in Hre;
    [|apply lookup_insert_eq|by apply list_lookup_middle|exact Hrun].
  simpl in Hre. rewrite insert_insert_eq in Hre.
  assert (xreq x' = grpc_request a) as Hreq by (rewrite (exec_run_req _ _ _ _ _ _ _ _ Hrun); done).
  unfold rpc_answer in Hans. destruct (xpc x') eqn:Hx'; try discriminate Hans. injection Hans as ->.
  eapply (reaches_success _ _ _ _ _ {| now := now e; clk := clk e; ord := ord e; seed := seed e; rpc := Ok _ |}
    n ch (grpc_request a) _ k _ x') in Hre as (t' & w' & (c & Hrtc & Hi' & _ & Hw & _ & Hkn) & Hfin & Ha' & Ht');
    [|done|done|by rewrite lookup_insert_eq| |done|done|done|reflexivity].
  - exists c, t'. split_and!; [done|done|done|congruence|done|].
    rewrite Hw. unfold get_task. by rewrite Ht', Ha, lookup_insert_eq.
  - simpl. apply list_elem_of_lookup. exists (length (calls s)). apply list_lookup_insert_eq. rewrite length_app. simpl. lia.
Qed.

End cluster.

(** ** Properties *)

(** C1. The cluster. Start a control plane on any environment that configures it
    and any number of nodes with any limits, and let clients send any requests and
    leave whenever they like, dispatches, retries and health checks run, RPCs get
    lost, fail or be answered late, downloads return anything, warm-ups reach any
    node, and nodes work, evict and drop calls, in any order. The addresses that are
    registered lead to nodes of the cluster or nowhere; who else can reach the ports
    of the nodes is [ports_open]. Then the control plane is always in a state it can reach
    alone, and every node in one it can reach alone, so what was proved of either
    holds in the cluster. When task ids are pairwise different, a task that is
    reported as a success reports exactly the output and time of a successful
    execution, in the sandbox of a node, on its very input and limits, of the very
    bytes it was submitted with; for one submitted by reference, of some module. On
    a closed network, where only the control plane reaches the ports of the nodes,
    every call on a node carries the request of a task a client submitted, every
    module a node has cached was compiled from bytes with the SHA-256 of those
    registered under its key, and so was the module a task by reference ran, under
    that task's name and version. *)
Theorem cluster_results_genuine `{!Base64} `{!Sha2} `{!Tonic} `{!TokioRwLock} `{!Axum} `{!Wasmtime}
    `{!Lru CachedModule} `{!TokioSemaphore} ports_open peer urls env port st f c :
  (forall b, sha256_hex b <> EmptyString) ->
  cp_main env = Ok (port, st) -> fresh_fleet f -> rtc (cluster_step ports_open peer urls) (cluster_start st f) c ->
  dis_reachable (control c) /\
  (forall k s, fleet c !! k = Some s ->
     (exists max_tasks max_cached ttl, rtc (node_step k (urls k)) (init_node k max_tasks max_cached ttl) s) /\
     (ports_open = false -> forall x, x ∈ calls s -> exists t, t ∈ all_tasks (control c) /\ xreq x = grpc_request (args t)) /\
     (ports_open = false -> forall now key m, (get_cached now key (cache (nworld s))).1 = Some m ->
        exists meta b wasm, registered (control c) !! key = Some (meta, b) /\
          sha256_hex wasm = sha256_hex b /\ module_new wasm = Ok m)) /\
  (NoDup (ids (control c)) -> forall t r, t ∈ all_tasks (control c) ->
     get_task (app (world (core (control c)))) (task_id (args t)) = api_ok (inl r) -> tr_success r = true ->
     exists ex, tr_task_id r = task_id (args t) /\ tr_output r = er_output ex /\
       tr_execution_time_ms r = er_execution_time_ms ex /\
       match wasm_source (args t) with
       | SrcWasmBytes b => exists e, execute None e b (exec_config (grpc_request (args t))) (input (args t)) = Ok ex
       | SrcModuleRef mr => exists m e,
           execute_compiled None e m (exec_config (grpc_request (args t))) (input (args t)) = Ok ex /\
           (ports_open = false -> exists meta b wasm,
              Registry.get (mr_name mr) (mr_version mr) (module_registry (app (world (core (control c))))) = Some (meta, b) /\
              sha256_hex wasm = sha256_hex b /\ module_new wasm = Ok m)
       end).
Proof.
  intros Hsha Hmain Hf Hrtc. destruct (cluster_steps_parts _ _ _ _ _ Hrtc) as [Hhttp Hnodes]. simpl in Hhttp, Hnodes.
  pose proof (started_init env port st Hmain) as (url & strategy & Hst).
  pose proof (cluster_started_inv _ _ _ Hsha _ _ _ _ _ Hmain Hf Hrtc) as Hinv. split_and!.
  - exists url, strategy. rewrite Hst in Hhttp. apply http_steps_dis; [done|apply dis_init_inv].
  - intros k s Hk. destruct (Hnodes k s Hk) as (s0 & (mt & mc & ttl & ->)%Hf & Hr).
    destruct (cinv_nodes _ _ Hinv k s Hk) as [Hcalls Hcache]. split_and!; [eauto| |].
    + intros Hcl x Hx. rewrite Forall_forall in Hcalls. destruct (Hcalls x Hx) as [_ Hkn].
      destruct (Hkn Hcl) as (a & (t & -> & Ht)%list_elem_of_fmap & Hreq). eauto.
    + intros Hcl now key m Hhit. by apply (hit_vetted ports_open _ _ _ _ _ Hcache Hhit).
  - intros Hnd t r Ht Hget Hs. destruct (success_computed _ c t r Hinv Hnd Ht Hget Hs) as (ex & Hc & Hid & Ho & Htm).
    exists ex. split_and!; [done..|]. by apply (computed_run ports_open).
Qed.

(** A cluster of one node that serves one task. *)
Definition demo_peer (ch : string) : option string := if decide (ch = "http://n1:1") then Some "n1" else None.
Definition demo_fleet : gmap string (@NodeSys echo_wasmtime (list_lru _) nat_semaphore) := {["n1" := demo_node_sys]}.
Definition demo_cluster_step :=
  @cluster_step toy_base64 toy_sha2 toy_tonic simple_rwlock toy_axum echo_wasmtime (list_lru _) nat_semaphore
    false demo_peer (fun _ => "http://cp").
Definition demo_submitted : @DSys toy_tonic :=
  after_http demo_task_request (hp_served (@serve toy_base64 toy_sha2 toy_axum "u" demo_hdrs demo_serve_env
    demo_task_request (app (world (core demo_registered))))) demo_registered.
Definition demo_submitted_cluster : @Cluster toy_tonic echo_wasmtime (list_lru _) nat_semaphore :=
  {| control := demo_submitted; fleet := demo_fleet; mail := []; warming := [] |}.

Lemma demo_submitted_reached :
  rtc demo_cluster_step (cluster_start (initial_state "http://127.0.0.1:8080" "round_robin") demo_fleet)
    demo_submitted_cluster.
Proof.
  eapply rtc_l; [|apply rtc_once].
  - exact (@cl_request toy_base64 toy_sha2 toy_tonic simple_rwlock toy_axum echo_wasmtime (list_lru _) nat_semaphore
      false demo_peer (fun _ => "http://cp") (cluster_start (initial_state "http://127.0.0.1:8080" "round_robin") demo_fleet)
      "u" demo_hdrs demo_serve_env demo_register_request eq_refl I).
  - exact (@cl_request toy_base64 toy_sha2 toy_tonic simple_rwlock toy_axum echo_wasmtime (list_lru _) nat_semaphore
      false demo_peer (fun _ => "http://cp") {| control := demo_registered; fleet := demo_fleet; mail := []; warming := [] |}
      "u" demo_hdrs demo_serve_env demo_task_request eq_refl I).
Qed.

Lemma demo_submitted_task : dispatches (core demo_submitted) = [init_task demo_submitted_args].
Proof. vm_compute. reflexivity. Qed.

Lemma demo_fleet_fresh : fresh_fleet demo_fleet.
Proof. unfold demo_fleet. intros k s [<- <-]%lookup_singleton_Some. eexists _, _, _. reflexivity. Qed.

Lemma demo_cluster_served :
  exists c t r, rtc demo_cluster_step (cluster_start (initial_state "http://127.0.0.1:8080" "round_robin") demo_fleet) c /\
    NoDup (ids (control c)) /\ t ∈ all_tasks (control c) /\ args t = demo_submitted_args /\
    get_task (app (world (core (control c)))) "u1" = api_ok (inl r) /\ tr_success r = true.
Proof.
  destruct (@cluster_serves toy_base64 toy_sha2 toy_tonic simple_rwlock toy_axum echo_wasmtime (list_lru _) nat_semaphore
    false demo_peer (fun _ => "http://cp") demo_submitted_cluster 0 demo_submitted_args [Byte.x6d] (demo_env (Ok demo_resp))
    {| id := "n1"; address := "http://n1:1"; http_address := "http://n1:2"; active_tasks := 0; healthy := true;
       max_concurrent_tasks := 10 |} "http://n1:1" _ _ "n1" demo_node_sys 0%nat
    (fun _ => demo_nenv (HttpFailed "unused"))
    {| er_output := [Byte.x69]; er_execution_time_ms := 3; memory_used_bytes := 4 |}
    (f_equal (lookup 0%nat) demo_submitted_task) ltac:(vm_compute; reflexivity) ltac:(vm_compute; reflexivity)
    ltac:(vm_compute; reflexivity) eq_refl eq_refl eq_refl eq_refl ltac:(split; [discriminate|reflexivity])
    ltac:(vm_compute; reflexivity)) as (c & t & Hrtc & Hkn & Hi & Ha & _ & Hget).
  exists c, t. eexists. split; [etrans; [exact demo_submitted_reached|exact Hrtc]|].
  assert (ids (control c) = ["u1"]) as ->.
  { unfold ids. rewrite list_fmap_compose. fold (known (control c)). rewrite Hkn. vm_compute. reflexivity. }
  split; [apply NoDup_singleton|]. split_and!; [|done|exact Hget|done].
  apply elem_of_app. right. by eapply list_elem_of_lookup_2.
Qed.

(** The digest of the evaluations is never empty. *)
Lemma pretty_N_go_cons x a s : exists b s', pretty_N_go x (String a s) = String b s'.
Proof.
  revert a s. induction (N.lt_wf_0 x) as [x _ IH]; intros a s. destruct (decide (0 < x)%N) as [Hx|Hx].
  - rewrite pretty_N_go_step by done. apply IH. by apply N.div_lt.
  - rewrite (proj1 (N.le_0_r x)) by lia. rewrite pretty_N_go_0. eauto.
Qed.

Lemma toy_sha2_hex b : @sha256_hex toy_sha2 b <> EmptyString.
Proof.
  simpl. unfold pretty, pretty_nat, pretty, pretty_N. case_decide as Hd; [done|].
  rewrite pretty_N_go_step by lia. by destruct (pretty_N_go_cons (N.of_nat (length b) `div` 10)
    (pretty_N_char (N.of_nat (length b) `mod` 10)) EmptyString) as (c & s & ->).
Qed.

Lemma cluster_results_genuine_witness :
  exists c r ex e, rtc demo_cluster_step (cluster_start (initial_state "http://127.0.0.1:8080" "round_robin") demo_fleet) c /\
    get_task (app (world (core (control c)))) "u1" = api_ok (inl r) /\ tr_output r = er_output ex /\
    @execute echo_wasmtime None e [Byte.x6d] (exec_config (grpc_request demo_submitted_args)) [Byte.x69] = Ok ex.
Proof.
  destruct demo_cluster_served as (c & t & r & Hrtc & Hnd & Ht & Ha & Hget & Hs).
  destruct (@cluster_results_genuine toy_base64 toy_sha2 toy_tonic simple_rwlock toy_axum echo_wasmtime (list_lru _)
    nat_semaphore false demo_peer (fun _ => "http://cp") ∅ 8080 _ demo_fleet c toy_sha2_hex demo_main demo_fleet_fresh Hrtc)
    as (_ & _ & Hgen).
  destruct (Hgen Hnd t r Ht ltac:(rewrite Ha; exact Hget) Hs) as (ex & _ & Ho & _ & Hc).
  rewrite Ha in Hc. destruct Hc as [e Hc]. exists c, r, ex, e.
  split; [exact Hrtc|]. split; [exact Hget|]. split; [exact Ho|exact Hc].
Defined.
