(* ===== verification/ModuleFlow.v ===== *)
(** * Modules by reference: from upload to execution

    Composes the two processes over their HTTP interfaces: the edge node's
    registration ([NodeMain]) is served by the control plane's router ([Routes]);
    a node that runs a task by reference downloads the module from that router;
    and the warm-up requests an upload sends are served by the node's admin
    server. What stood for the network in [EdgeNode] is instantiated by
    [get_from] and [post_to] over the model of the other side. *)

From S2P Require Import Prelude RustStd RustText Common Config Http CircuitBreaker Scheduler Registry Sandbox.
From S2P Require Import ModuleCache AppState Dispatch Health Handlers Routes ControlPlane EdgeNode NodeMain EndToEnd.

(** ** The network between the processes *)
Section network.
Context `{!Base64} `{!Sha2} `{!Axum} `{!Reqwest}.

(** What a control plane at [origin] serves requests with: the UUID and the
    inputs of the request, the headers axum adds, how reqwest shows a status,
    and the bytes of a body that is not raw module bytes. *)
Record CpHttp := {
  ch_origin : string;
  ch_uuid : string;
  ch_hdrs : Served -> HeaderMap;
  ch_env : ServeEnv;
  ch_display : Z -> string;
  ch_encode : Payload -> bytes
}.

Definition is_success (status : Z) : bool := (200 <=? status) && (status <? 300).

Definition payload_bytes (encode : Payload -> bytes) (p : Payload) : bytes :=
  match p with PBytes _ b => b | _ => encode p end.

Definition send_to (c : CpHttp) (m : Method) (b : Body) (st : AppState) (url : string) : option Served :=
  '(o, path) ← deliver url;
  if decide (o = ch_origin c)
  then Some (hp_served (serve (ch_uuid c) (ch_hdrs c) (ch_env c)
         {| hq_method := m; hq_path := path; hq_headers := no_headers; hq_body := b |} st))
  else None.

(** reqwest's GET, answered by the control plane in state [st]. *)
Definition get_from (c : CpHttp) (st : AppState) (url : string) : HttpReply :=
  match send_to c GET no_body st url with
  | Some s => HttpStatus (is_success (sv_status s)) (ch_display c (sv_status s))
                (Ok (payload_bytes (ch_encode c) (sv_payload s)))
  | None => HttpFailed "connection refused"
  end.

(** reqwest's POST of a JSON body. *)
Definition post_to (c : CpHttp) (st : AppState) (url : string) (j : Json) : result string Z :=
  match send_to c POST (json_body j) st url with
  | Some s => Ok (sv_status s)
  | None => Err "connection refused"
  end.

End network.

(** A submission by reference. *)
Definition ref_request `{!Base64} (name version : string) (inp : bytes) (func : string) (timeout mem : option Z)
    : SubmitTaskRequest :=
  {| sub_wasm_base64 := None; sub_module_name := Some name; sub_module_version := Some version;
     sub_function_name := func; sub_input_base64 := b64_encode inp; sub_timeout_ms := timeout;
     sub_memory_limit_mb := mem |}.

(** Inputs for evaluations: a control plane at [http://cp] whose registry holds one
    module. *)
Definition demo_cp_http : @CpHttp toy_axum :=
  {| ch_origin := "http://cp"; ch_uuid := "u"; ch_hdrs := demo_hdrs; ch_env := demo_serve_env;
     ch_display := fun _ => "status"; ch_encode := fun _ => [] |}.
Definition demo_module_world : @CPWorld toy_tonic :=
  with_app (fun st => set_module_registry (@store toy_sha2 "u" 0 "echo" "1.0" demo_wasm registry_new).2 st)
    demo_world.
Definition demo_ref_nenv : NodeEnv :=
  {| nnow := 0; http := @get_from toy_base64 toy_sha2 toy_axum toy_reqwest demo_cp_http (app demo_module_world);
     panic := None; exec_env := demo_exec 0 |}.

Definition demo_warm_state : AppState :=
  set_nodes {["n1" := {| id := "n1"; address := "http://n1:1"; http_address := "http://n1:2"; active_tasks := 0;
                         healthy := true; max_concurrent_tasks := 10 |}]} AppState_default.
Definition demo_warm : WarmRequest :=
  {| warm_url := "http://n1:2/cache/warm"; warm_name := "echo"; warm_version := "1";
     warm_wasm_bytes_base64 := @b64_encode toy_base64 demo_wasm |}.
Definition demo_admin : AdminEnv := {| ae_now1 := 0; ae_now2 := 0; ae_panic := None; ae_status_file := None |}.

(** Other bytes under the name of that module, and a call that announces its hash. *)
Definition demo_evil : bytes := demo_wasm ++ [Byte.x00].
Definition demo_evil_warm : WarmRequest :=
  {| warm_url := EmptyString; warm_name := "echo"; warm_version := "1.0";
     warm_wasm_bytes_base64 := @b64_encode toy_base64 demo_evil |}.
Definition demo_ref_call : ExecuteTaskRequest :=
  {| req_task_id := "t"; req_function_name := "process"; req_input := []; req_timeout_ms := 5000;
     req_memory_limit_mb := 64; req_trace_id := "tr";
     req_wasm_source := Some (SrcModuleRef {| mr_name := "echo"; mr_version := "1.0";
       mr_hash := @sha256_hex toy_sha2 demo_wasm; mr_fetch_url := EmptyString |}) |}.

(** ** Lemmas *)
Section flow_lemmas.
Context `{!Wasmtime} `{!Lru CachedModule} `{!Sha2} `{!TokioSemaphore} `{!Base64} `{!Axum} `{!Reqwest}.

(** The URL of the downloader reaches the route of the module. *)
Lemma download_from_control_plane c st name version meta b :
  is_origin (ch_origin c) = true -> plain_segment name = true -> plain_segment version = true ->
  Registry.get name version (module_registry st) = Some (meta, b) ->
  download (get_from c st) (ch_origin c) name version = Ok b.
Proof.
  intros Ho Hn Hv Hg. unfold download, download_url, get_from, send_to.
  pose proof (deliver_plain (ch_origin c) ["modules"; name; version] Ho ltac:(by repeat constructor) ltac:(done)) as Hd.
  simpl in Hd.
  replace ("/" +:+ "modules" +:+ "/" +:+ name +:+ "/" +:+ version +:+ EmptyString)
    with ("/modules/" +:+ name +:+ "/" +:+ version) in Hd by by rewrite string_app_empty.
  rewrite Hd. simpl. rewrite decide_True by done.
  by rewrite (get_registered_module _ _ _ _ _ _ _ _ meta b) by done.
Qed.

(** A call by reference that finds its module in the cache. *)
Lemma exec_hit_run nid url es req mr m w sm :
  req_wasm_source req = Some (SrcModuleRef mr) -> try_acquire (semaphore w) = Some sm ->
  (get_cached (nnow (es 3%nat)) (module_cache_key mr) (cache w)).1 = Some m ->
  exists t' w', exec_run nid url 6 es (arrival req) w = Some (t', w') /\
    rpc_answer t' = Some (Ok (exec_response req
      (execute_compiled (panic (es 4%nat)) (exec_env (es 4%nat)) m (exec_config req) (req_input req)))).
Proof.
  intros Hsrc Hacq Hhit. destruct (get_cached _ _ _) as [h c] eqn:Eg. simpl in Hhit. subst h. do 2 eexists. split.
  { erewrite exec_run_S; [|unfold exec_step; simpl; rewrite Hacq; reflexivity].
    erewrite exec_run_S; [|reflexivity].
    erewrite exec_run_S; [|unfold exec_step; simpl; rewrite Hsrc; reflexivity].
    erewrite exec_run_S; [|unfold exec_step; simpl; rewrite Eg; reflexivity].
    erewrite exec_run_S; [|reflexivity].
    erewrite exec_run_S; [|reflexivity]. reflexivity. }
  reflexivity.
Qed.

(** A call by reference that has to download and compile its module. *)
Lemma exec_miss_run nid url es req mr b m w sm :
  req_wasm_source req = Some (SrcModuleRef mr) -> try_acquire (semaphore w) = Some sm ->
  0 <= ns_active_tasks (node w) < u64_mod - 1 ->
  (get_cached (nnow (es 3%nat)) (module_cache_key mr) (cache w)).1 = None ->
  download (http (es 4%nat)) url (mr_name mr) (mr_version mr) = Ok b -> verify_hash b (mr_hash mr) = true ->
  compile (panic (es 6%nat)) b = Ok m ->
  exists t' w', exec_run nid url 11 es (arrival req) w = Some (t', w') /\
    rpc_answer t' = Some (Ok (exec_response req
      (execute_compiled (panic (es 9%nat)) (exec_env (es 9%nat)) m (exec_config req) (req_input req)))) /\
    semaphore w' = release sm /\ ns_active_tasks (node w') = ns_active_tasks (node w) /\
    forall now, elapsed now (nnow (es 7%nat)) < ttl (cache w) ->
      (get_cached now (module_cache_key mr) (cache w')).1 = Some m.
Proof.
  intros Hsrc Hacq Hact Hmiss Hdl Hver Hc.
  pose proof (missed_stays_missed (nnow (es 3%nat)) (nnow (es 5%nat)) _ _ Hmiss) as Hmiss2.
  destruct (get_cached_entries (nnow (es 3%nat)) (module_cache_key mr) (cache w)) as (_ & _ & Ht1).
  destruct (get_cached _ _ _) as [h c1] eqn:Eg. simpl in Hmiss, Ht1, Hmiss2. subst h.
  destruct (goc_lookup_entries (nnow (es 5%nat)) (module_cache_key mr) c1) as (_ & _ & Ht2).
  destruct (goc_lookup _ _ _) as [h c2] eqn:El. simpl in Hmiss2, Ht2. subst h.
  do 2 eexists. split.
  { erewrite exec_run_S; [|unfold exec_step; simpl; rewrite Hacq; reflexivity].
    erewrite exec_run_S; [|reflexivity].
    erewrite exec_run_S; [|unfold exec_step; simpl; rewrite Hsrc; reflexivity].
    erewrite exec_run_S; [|unfold exec_step; simpl; rewrite Eg; reflexivity].
    erewrite exec_run_S; [|unfold exec_step; simpl; rewrite Hdl, Hver, andb_false_r; reflexivity].
    erewrite exec_run_S; [|unfold exec_step; simpl; rewrite El; reflexivity].
    erewrite exec_run_S; [|unfold exec_step; simpl; rewrite Hc; reflexivity].
    do 4 (erewrite exec_run_S; [|reflexivity]). reflexivity. }
  split; [reflexivity|].
  destruct (execute_compiled _ _ _ _ _) as [ex|err]; simpl;
    (split_and!; [done|rewrite usize_add_id by lia; unfold saturating_sub; lia|
                  intros now Hel; apply inserted_is_cached; by rewrite Ht2, Ht1]).
Qed.

(** A call by reference that finds the module of given bytes in the cache runs them. *)
Lemma warmed_run nid url es req mr b m w sm :
  validate b = Ok tt -> module_new b = Ok m ->
  req_wasm_source req = Some (SrcModuleRef mr) -> try_acquire (semaphore w) = Some sm ->
  (get_cached (nnow (es 3%nat)) (mr_name mr +:+ ":" +:+ mr_version mr) (cache w)).1 = Some m ->
  exists t' w', exec_run nid url 6 es (arrival req) w = Some (t', w') /\
    rpc_answer t' = Some (Ok (exec_response req
      (execute (panic (es 4%nat)) (exec_env (es 4%nat)) b (exec_config req) (req_input req)))).
Proof.
  intros Hval Hm Hsrc Hacq Hhit. destruct (exec_hit_run nid url es req mr m w sm Hsrc Hacq Hhit) as (t' & w' & Hrun & Hans).
  exists t', w'. split; [done|]. rewrite Hans. unfold execute, execute_compiled, execute_sync. by rewrite Hval, Hm.
Qed.

(** A successful run of the bytes is a run of their compilation. *)
Lemma execute_Ok_compiled pn e b cfg inp ex :
  execute pn e b cfg inp = Ok ex ->
  exists m, compile None b = Ok m /\ execute_compiled pn e m cfg inp = Ok ex.
Proof.
  unfold execute, execute_compiled, execute_sync, compile, mbind, result_bind. destruct pn; [done|].
  destruct (validate b); [|done]. destruct (module_new b) as [m|]; [|done]. simpl. eauto.
Qed.

(** A submission that names a registered module. *)
Lemma submit_ref st uuid trace name version inp func timeout mem meta b :
  registry_wf (module_registry st) -> Registry.get name version (module_registry st) = Some (meta, b) ->
  submit_task st uuid trace (ref_request name version inp func timeout mem) =
    Ok {| task_id := uuid; trace_id := trace; input := inp;
          wasm_source := SrcModuleRef {| mr_name := name; mr_version := version; mr_hash := sha256_hex b;
            mr_fetch_url := self_url st +:+ "/modules/" +:+ name +:+ "/" +:+ version |};
          function_name := func; timeout_ms := default 5000 timeout; memory_limit_mb := default 64 mem |}.
Proof.
  intros Hwf Hg. unfold submit_task, resolve_task_inputs. simpl. rewrite b64_roundtrip. simpl. rewrite Hg. simpl.
  destruct (Hwf _ _ _ Hg) as (_ & -> & _). done.
Qed.

End flow_lemmas.

(** ** Properties *)

(** C3. A task by reference, end to end. A module [b] is registered under plain
    names; a client submits a task that names it; the chosen node does not have
    it cached and asks the control plane for it over HTTP, at any later state of
    the control plane. Then the download arrives, its hash is the announced one,
    it is compiled, and the stored result is that of running exactly the
    registered bytes on the submitted input under the submitted limits; the node
    is left with the load and permits it had, and the module in its cache. *)
Theorem module_ref_end_to_end `{!Base64} `{!Tonic} `{!Wasmtime} `{!Lru CachedModule} `{!Sha2} `{!TokioSemaphore}
    `{!TokioRwLock} `{!Axum} `{!Reqwest}
    nid cp uuid trace name version inp func timeout mem w ds h s' nw sm es nes n ch p' st2 meta b ex :
  let body := ref_request name version inp func timeout mem in
  let cfg := {| memory_limit_bytes := u64_mul (u64_mul (Z.max (default 64 mem) 1) 1024) 1024;
                cfg_timeout_ms := if default 5000 timeout =? 0 then 5000 else default 5000 timeout;
                cfg_function_name := func |} in
  let key := name +:+ ":" +:+ version in
  plain_segment name = true -> plain_segment version = true -> is_origin (ch_origin cp) = true ->
  registry_wf (module_registry (app w)) -> Registry.get name version (module_registry (app w)) = Some (meta, b) ->
  rtc sys_step {| world := w; dispatches := ds; hpc := h |} s' ->
  http (nes 4%nat) = get_from cp (app (world s')) ->
  select_node_for_task (ord (es 2%nat)) (clk (es 2%nat)) (Z.of_N (seed (es 2%nat))) ∅ (counted (app w))
    = (Some n, st2) ->
  get_or_create (id n) (address n) (pool w) = (Ok ch, p') ->
  try_acquire (semaphore nw) = Some sm -> 0 <= ns_active_tasks (node nw) < u64_mod - 1 ->
  (get_cached (nnow (nes 3%nat)) key (cache nw)).1 = None -> panic (nes 6%nat) = None ->
  execute (panic (nes 9%nat)) (exec_env (nes 9%nat)) b cfg inp = Ok ex ->
  exists a t' nw' r d w',
    submit_task (app w) uuid trace body = Ok a /\
    exec_run nid (ch_origin cp) 11 nes (arrival (grpc_request a)) nw = Some (t', nw') /\ rpc_answer t' = Some r /\
    dispatch_run 9 (answering r es) (init_task a) w = Some (d, w') /\
    get_task (app w') uuid = api_ok (inl {| tr_task_id := uuid; tr_node_id := id n; tr_success := true;
      tr_output := er_output ex; tr_execution_time_ms := er_execution_time_ms ex; tr_error := None |}) /\
    ns_active_tasks (node nw') = ns_active_tasks (node nw) /\
    available_permits (semaphore nw') = available_permits (semaphore nw) /\
    forall now, elapsed now (nnow (nes 7%nat)) < ttl (cache nw) -> is_Some (get_cached now key (cache nw')).1.
Proof.
  intros body cfg key Hn Hv Ho Hwf Hg Hrtc Hhttp Hsel Hget Hacq Hact Hmiss Hp Hexec.
  pose proof (submit_ref (app w) uuid trace name version inp func timeout mem meta b Hwf Hg) as Hsub.
  fold body in Hsub. set (a := {| task_id := uuid |}) in Hsub.
  apply execute_Ok_compiled in Hexec as (m & Hm & Hexec).
  pose proof (sys_steps_modules _ _ _ _ Hrtc Hg) as Hg'.
  destruct (exec_miss_run nid (ch_origin cp) nes (grpc_request a) _ b m nw sm eq_refl Hacq Hact Hmiss)
    as (t' & nw' & Hrun & Hans & Hsem & Hload & Hcached).
  { rewrite Hhttp. by apply (download_from_control_plane cp _ name version meta b). }
  { unfold verify_hash. by apply bool_decide_eq_true. }
  { by rewrite Hp. }
  change (exec_config (grpc_request a)) with cfg in Hans. change (req_input (grpc_request a)) with inp in Hans.
  rewrite Hexec in Hans.
  destruct (dispatch_success_run (answering (Ok (exec_response (grpc_request a) (Ok ex))) es) a w n ch p' st2
    (exec_response (grpc_request a) (Ok ex))) as (d & w' & Hdisp & _ & Htasks & _); [done..|].
  exists a, t', nw', (Ok (exec_response (grpc_request a) (Ok ex))), d, w'. split_and!; try done.
  - unfold get_task. rewrite Htasks. by rewrite lookup_insert_eq.
  - rewrite Hsem, release_spec. pose proof (try_acquire_spec (semaphore nw)) as Hspec. rewrite Hacq in Hspec. lia.
  - intros now Hel. rewrite Hcached by done. eauto.
Qed.

Lemma module_ref_end_to_end_witness :
  exists (w' : @CPWorld toy_tonic) r, get_task (app w') "task-1" = api_ok (inl r) /\ tr_output r = [Byte.x01; Byte.x02].
Proof.
  destruct (@module_ref_end_to_end toy_base64 toy_tonic echo_wasmtime (list_lru _) toy_sha2 nat_semaphore simple_rwlock
    toy_axum toy_reqwest "n1" demo_cp_http "task-1" "tr" "echo" "1.0" [Byte.x01; Byte.x02] "process" None None
    demo_module_world [] HTick {| world := demo_module_world; dispatches := []; hpc := HTick |} (nworld demo_node_sys) 0%nat
    (fun _ => demo_env (Ok demo_resp)) (fun _ => demo_ref_nenv) (demo_node "n1" 3) "http://n1" _ _ _ demo_wasm
    {| er_output := [Byte.x01; Byte.x02]; er_execution_time_ms := 3; memory_used_bytes := 4 |}
    eq_refl eq_refl eq_refl (store_wf _ _ _ _ _ _ registry_new_wf) eq_refl (rtc_refl _ _) eq_refl
    ltac:(vm_compute; reflexivity) ltac:(vm_compute; reflexivity) eq_refl
    ltac:(split; [discriminate|reflexivity]) eq_refl eq_refl ltac:(vm_compute; reflexivity))
    as (a & t' & nw' & r & d & w' & _ & _ & _ & _ & Hget & _).
  exists w'. eexists. split; [exact Hget|reflexivity].
Defined.

(** C14. Pre-warming works. An upload that is accepted posts a warm-up to every
    healthy node with an HTTP address; when such a request reaches a node that
    does not have the module cached, it is answered with 200, and the first task
    by reference within the TTL runs without any download: its answer is that of
    running the uploaded bytes, whatever the network would have said. *)
Theorem prewarmed_task_skips_download `{!Base64} `{!Wasmtime} `{!Lru CachedModule} `{!Sha2} `{!TokioSemaphore} `{!Axum}
    uuid hdrs e hs st name version b p ae w m :
  let key := name +:+ ":" +:+ version in
  let j := upload_json name version (b64_encode b) in
  let s := hp_served (serve uuid hdrs e {| hq_method := POST; hq_path := "/modules"; hq_headers := hs;
                                           hq_body := json_body j |} st) in
  body_len (json_body j) <= default_body_limit -> p ∈ sv_posts s ->
  body_len (json_body (warm_json p)) <= default_body_limit ->
  validate b = Ok tt -> module_new b = Ok m -> ae_panic ae = None ->
  (get_cached (ae_now1 ae) key (cache w)).1 = None ->
  (exists n, n ∈ warm_targets (se_ord e) (se_later e st 0%nat) /\ warm_url p = n +:+ "/cache/warm") /\
  exists w', admin_serve ae POST "/cache/warm" (json_body (warm_json p)) w = (200, APWarmed key, w') /\
    forall nid url es req mr sm,
      req_wasm_source req = Some (SrcModuleRef mr) -> mr_name mr = name -> mr_version mr = version ->
      try_acquire (semaphore w') = Some sm -> elapsed (nnow (es 3%nat)) (ae_now2 ae) < ttl (cache w) ->
      exists t' w'', exec_run nid url 6 es (arrival req) w' = Some (t', w'') /\
        rpc_answer t' = Some (Ok (exec_response req
          (execute (panic (es 4%nat)) (exec_env (es 4%nat)) b (exec_config req) (req_input req)))).
Proof.
  intros key j s Hlen Hp Hlen' Hval Hm Hpn Hmiss.
  assert (exists n, n ∈ warm_targets (se_ord e) (se_later e st 0%nat) /\
    p = {| warm_url := n +:+ "/cache/warm"; warm_name := name; warm_version := version;
           warm_wasm_bytes_base64 := b64_encode b |}) as (n & Hn & ->).
  { revert Hp. unfold s. rewrite (serve_post _ _ _ _ _ _ _ EpUploadModule); [|in_table|done].
    unfold handle, with_json. rewrite json_extract_body by done. simpl.
    unfold upload_module. simpl. rewrite b64_roundtrip. destruct (store _ _ _ _ _ _) as [[meta|err] reg]; simpl.
    - destruct (warm_targets _ _) as [|x xs] eqn:Ew; [by intros ?%not_elem_of_nil|].
      unfold warm_nodes. intros (n & -> & Hn)%list_elem_of_fmap. eauto.
    - by intros ?%not_elem_of_nil. }
  split; [by exists n|].
  destruct (warm_up_compiles ae {| warm_url := n +:+ "/cache/warm"; warm_name := name; warm_version := version;
    warm_wasm_bytes_base64 := b64_encode b |} b m w) as (w' & Hserve & _ & _ & Hc);
    [by apply json_extract_body|done..|].
  exists w'. split; [done|]. intros nid url es req mr sm Hsrc Hmn Hmv Hacq Hel.
  apply (warmed_run nid url es req mr b m w' sm); [done..|]. rewrite Hmn, Hmv. by apply Hc.
Qed.

Lemma prewarmed_task_skips_download_witness :
  exists w', @admin_serve echo_wasmtime (list_lru _) nat_semaphore toy_base64 toy_axum demo_admin POST "/cache/warm"
      (@json_body toy_axum (warm_json demo_warm)) (nworld demo_node_sys) = (200, APWarmed "echo:1", w').
Proof.
  destruct (@prewarmed_task_skips_download toy_base64 echo_wasmtime (list_lru _) toy_sha2 nat_semaphore toy_axum
    "u" demo_hdrs demo_serve_env (@no_headers toy_axum) demo_warm_state "echo" "1" demo_wasm demo_warm demo_admin
    (nworld demo_node_sys) tt ltac:(vm_compute; discriminate) ltac:(vm_compute; left) ltac:(vm_compute; discriminate)
    eq_refl eq_refl eq_refl eq_refl) as (_ & w' & Hw & _).
  exists w'. exact Hw.
Defined.

(** C28. A warm-up gets around the hash check. The admin server of a node takes any
    bytes under any name and version, from anybody, and checks them against nothing:
    after such a request for a key that is not cached, a task by reference under
    that name and version, within the TTL, runs those bytes, whatever hash its
    reference announces and whatever module is registered; the check of the hash
    is made only for what the node downloads itself. *)
Theorem warm_up_bypasses_hash `{!Base64} `{!Wasmtime} `{!Lru CachedModule} `{!Sha2} `{!TokioSemaphore} `{!Axum}
    name version evil ae w m :
  let p := {| warm_url := EmptyString; warm_name := name; warm_version := version; warm_wasm_bytes_base64 := b64_encode evil |} in
  body_len (json_body (warm_json p)) <= default_body_limit ->
  validate evil = Ok tt -> module_new evil = Ok m -> ae_panic ae = None ->
  (get_cached (ae_now1 ae) (name +:+ ":" +:+ version) (cache w)).1 = None ->
  exists w', admin_serve ae POST "/cache/warm" (json_body (warm_json p)) w = (200, APWarmed (name +:+ ":" +:+ version), w') /\
    forall nid url es req mr sm,
      req_wasm_source req = Some (SrcModuleRef mr) -> mr_name mr = name -> mr_version mr = version ->
      verify_hash evil (mr_hash mr) = false ->
      try_acquire (semaphore w') = Some sm -> elapsed (nnow (es 3%nat)) (ae_now2 ae) < ttl (cache w) ->
      exists t' w'', exec_run nid url 6 es (arrival req) w' = Some (t', w'') /\
        rpc_answer t' = Some (Ok (exec_response req
          (execute (panic (es 4%nat)) (exec_env (es 4%nat)) evil (exec_config req) (req_input req)))).
Proof.
  intros p Hlen Hval Hm Hpn Hmiss.
  destruct (warm_up_compiles ae p evil m w) as (w' & Hserve & _ & _ & Hc); [by apply json_extract_body|done..|].
  exists w'. split; [done|]. intros nid url es req mr sm Hsrc Hmn Hmv _ Hacq Hel.
  apply (warmed_run nid url es req mr evil m w' sm); [done..|]. rewrite Hmn, Hmv. by apply Hc.
Qed.

(** A module is registered and announced with its hash; a stranger warms the node
    up with something else, and that is what runs. *)
Lemma warm_up_bypasses_hash_witness :
  exists w' t' w'', @admin_serve echo_wasmtime (list_lru _) nat_semaphore toy_base64 toy_axum demo_admin POST "/cache/warm"
      (@json_body toy_axum (warm_json demo_evil_warm)) (nworld demo_node_sys) = (200, APWarmed "echo:1.0", w') /\
    @exec_run echo_wasmtime (list_lru _) toy_sha2 nat_semaphore "n1" "http://cp" 6 (fun _ => demo_ref_nenv)
      (arrival demo_ref_call) w' = Some (t', w'') /\
    @verify_hash toy_sha2 demo_evil (@sha256_hex toy_sha2 demo_wasm) = false.
Proof.
  destruct (@warm_up_bypasses_hash toy_base64 echo_wasmtime (list_lru _) toy_sha2 nat_semaphore toy_axum "echo" "1.0"
    demo_evil demo_admin (nworld demo_node_sys) tt ltac:(vm_compute; discriminate) eq_refl eq_refl eq_refl eq_refl)
    as (w' & Hw & Hrun).
  destruct (Hrun "n1" "http://cp" (fun _ => demo_ref_nenv) demo_ref_call _ 0%nat eq_refl eq_refl eq_refl
    ltac:(vm_compute; reflexivity) ltac:(injection Hw as <-; vm_compute; reflexivity) ltac:(vm_compute; reflexivity))
    as (t' & w'' & Hex & _).
  exists w', t', w''. split; [exact Hw|]. split; [exact Hex|vm_compute; reflexivity].
Defined.

(** C17. Registration over HTTP. A node that starts registers with the control plane
    its URL points to: the request is answered with 200, and the table then has
    the node, healthy and idle, under its id, with the two addresses of its
    ports. Its capacity there is 10 whatever [MAX_TASKS] says: the body does not
    carry it, although the node's own semaphore has [MAX_TASKS] permits. *)
Theorem registration_over_http `{!Base64} `{!Wasmtime} `{!Lru CachedModule} `{!Sha2} `{!TokioSemaphore} `{!Axum} `{!Reqwest}
    engine env s cp st :
  edge_main engine env = Ok s -> ch_origin cp = sd_control_plane_url s -> is_origin (ch_origin cp) = true ->
  body_len (json_body (registration_body (sd_node_id s) (sd_grpc_addr s) (sd_http_addr s))) <= default_body_limit ->
  register_with_control_plane (post_to cp st) (sd_registration_url s) (sd_node_id s) (sd_grpc_addr s) (sd_http_addr s)
    = Registered /\
  exists sv c,
    send_to cp POST (json_body (registration_body (sd_node_id s) (sd_grpc_addr s) (sd_http_addr s))) st
      (sd_registration_url s) = Some sv /\
    nodes (sv_state sv) = <[sd_node_id s := {| id := sd_node_id s; address := sd_grpc_addr s;
      http_address := sd_http_addr s; active_tasks := 0; healthy := true; max_concurrent_tasks := 10 |}]> (nodes st) /\
    edge_from_env env = Ok c /\
    available_permits (semaphore (nworld (sd_sys s))) = Z.to_nat (max_tasks c).
Proof.
  intros Hmain Hcp Ho Hlen. apply edge_main_inv in Hmain as (c & Hc & _ & _ & _ & Hcu & Hurl & Hsys & _).
  set (j := registration_body _ _ _) in *.
  assert (exists sv, send_to cp POST (json_body j) st (sd_registration_url s) = Some sv /\ sv_status sv = 200 /\
    nodes (sv_state sv) = <[sd_node_id s := {| id := sd_node_id s; address := sd_grpc_addr s;
      http_address := sd_http_addr s; active_tasks := 0; healthy := true; max_concurrent_tasks := 10 |}]> (nodes st))
    as (sv & Hsv & Hst & Hnodes).
  { rewrite Hurl, <- Hcu, <- Hcp. unfold send_to.
    pose proof (deliver_plain (ch_origin cp) ["nodes"; "register"] Ho ltac:(by repeat constructor) ltac:(done)) as Hd.
    change (foldr _ _ _) with "/nodes/register" in Hd. cbv zeta in Hd. rewrite Hd. simpl. rewrite decide_True by done.
    rewrite (serve_post _ _ _ _ _ _ _ EpRegisterNode); [|in_table|done].
    unfold handle, with_json. rewrite json_extract_body by done. simpl. eexists. by split_and!. }
  split.
  - unfold register_with_control_plane, post_to. fold j. by rewrite Hsv, Hst.
  - exists sv, c. split_and!; [done..|]. rewrite Hsys. simpl. apply sem_new_spec.
Qed.

Lemma registration_over_http_witness :
  exists s, edge_main (Ok tt) demo_node_env = Ok s /\
    register_with_control_plane (@post_to toy_base64 toy_sha2 toy_axum toy_reqwest demo_cp_http AppState_default)
      (sd_registration_url s) (sd_node_id s) (sd_grpc_addr s) (sd_http_addr s) = Registered /\
    available_permits (semaphore (nworld (@sd_sys echo_wasmtime (list_lru _) nat_semaphore s))) = 4%nat.
Proof.
  eexists. split; [reflexivity|].
  destruct (@registration_over_http toy_base64 echo_wasmtime (list_lru _) toy_sha2 nat_semaphore toy_axum toy_reqwest
    (Ok tt) demo_node_env _ demo_cp_http AppState_default eq_refl eq_refl eq_refl ltac:(vm_compute; discriminate))
    as (Hreg & sv & c & _ & _ & Hc & Hperm).
  split; [exact Hreg|]. rewrite Hperm. injection Hc as <-. reflexivity.
Defined.
