(* ===== verification/LoadTester.v ===== *)
(** * The load tester

    Models [services/load-tester/src/main.rs]: the submission loop with its
    deadline and its semaphore, the spawned requests with their counters, the
    progress reporter and the final report, as a system of interleaved steps;
    and the request body, composed with the control plane's routes. The guest
    module comes from the [wat] crate, so its bytes are a parameter; printing and
    the throughput figure are left out. *)

From S2P Require Import Prelude RustStd RustText Common Percentile Http Registry AppState Dispatch Handlers Routes.
From S2P Require Import EdgeNode NodeMain ModuleFlow.

(** ** Command line *)
Record Args := {
  arg_url : string;
  arg_tasks : nat;
  arg_concurrency : nat;
  arg_duration : Z
}.

Definition default_args : Args :=
  {| arg_url := "http://127.0.0.1:8080"; arg_tasks := 1000; arg_concurrency := 50; arg_duration := 60 |}.

Definition i64_max : Z := 2 ^ 63 - 1.

(** ** Requests *)

Definition submit_url (a : Args) : string := arg_url a +:+ "/tasks".

Definition load_body (wasm_b64 input_b64 : string) : Json :=
  JObj [("wasm_base64", JStr wasm_b64); ("function_name", JStr "process"); ("input_base64", JStr input_b64);
        ("timeout_ms", JNum 5000); ("memory_limit_mb", JNum 64)].

Definition load_payload : bytes := String.list_byte_of_string "load-test-payload".

(** What a POST comes back with. *)
Inductive LtReply := Replied (status : Z) | SendFailed.

Definition reply_ok (r : LtReply) : bool :=
  match r with Replied status => (200 <=? status) && (status <? 300) | SendFailed => false end.

(** A spawned request: sending, then taking the mutex, then counting itself. *)
Inductive req_pc := RSend | RPush (latency_ms : Z) | RCount | REnd.
Record Req := { rq_pc : req_pc; rq_ok : option bool }.

(** The submission loop: at its check, waiting for a permit, or joining. *)
Inductive loop_pc := LCheck | LAcquire | LJoin.

Record Report := {
  rp_total : Z;
  rp_success : Z;
  rp_failed : Z;
  rp_p50 : Z;
  rp_p95 : Z;
  rp_p99 : Z;
  rp_max : Z
}.

(** ** The run *)
Section load_test.
Context `{!TokioSemaphore}.

Record LtState := {
  lt_pc : loop_pc;
  lt_sem : Semaphore;
  lt_reqs : list Req;
  completed : Z;
  errors : Z;
  latencies : list Z;
  last_completed : Z;
  reporting : bool
}.

(** What [main] has when its loop begins. *)
Definition lt_init (a : Args) : LtState :=
  {| lt_pc := LCheck; lt_sem := sem_new (arg_concurrency a); lt_reqs := []; completed := 0; errors := 0;
     latencies := []; last_completed := 0; reporting := true |}.

(** The panics before that: a semaphore with more permits than tokio allows, vectors
    of [tasks] eight-byte elements whose size does not fit [isize], a deadline
    whose seconds do not fit [i64]. [now] is the clock at start-up. *)
Inductive LtPanic := TooManyPermits | CapacityOverflow | DeadlineOverflow.

Definition lt_start (now : Instant) (a : Args) : result LtPanic LtState :=
  if max_permits <? Z.of_nat (arg_concurrency a) then Err TooManyPermits
  else if i64_max <? 8 * Z.of_nat (arg_tasks a) then Err CapacityOverflow
  else if (0 <? arg_duration a) && (i64_max <? now / 10 ^ 9 + arg_duration a) then Err DeadlineOverflow
  else Ok (lt_init a).

Definition lt_goto (p : loop_pc) (s : LtState) : LtState :=
  {| lt_pc := p; lt_sem := lt_sem s; lt_reqs := lt_reqs s; completed := completed s; errors := errors s;
     latencies := latencies s; last_completed := last_completed s; reporting := reporting s |}.

(** One step of the loop; [late] tells whether the clock is past the deadline,
    which exists if a duration was given. *)
Definition lt_loop (a : Args) (late : bool) (s : LtState) : option LtState :=
  match lt_pc s with
  | LCheck =>
      if decide (length (lt_reqs s) < arg_tasks a)%nat
      then if (0 <? arg_duration a) && late then Some (lt_goto LJoin s) else Some (lt_goto LAcquire s)
      else Some (lt_goto LJoin s)
  | LAcquire =>
      sem ← try_acquire (lt_sem s);
      Some {| lt_pc := LCheck; lt_sem := sem; lt_reqs := lt_reqs s ++ [{| rq_pc := RSend; rq_ok := None |}];
              completed := completed s; errors := errors s; latencies := latencies s;
              last_completed := last_completed s; reporting := reporting s |}
  | LJoin => None
  end.

(** One step of a request: [reply] and [ms] are the answer and the time it took. *)
Definition req_step (reply : LtReply) (ms : Z) (r : Req) (s : LtState) : option (Req * LtState) :=
  match rq_pc r with
  | RSend =>
      Some ({| rq_pc := RPush ms; rq_ok := Some (reply_ok reply) |},
            {| lt_pc := lt_pc s; lt_sem := lt_sem s; lt_reqs := lt_reqs s; completed := completed s;
               errors := if reply_ok reply then errors s else usize_add (errors s) 1;
               latencies := latencies s; last_completed := last_completed s; reporting := reporting s |})
  | RPush ms' =>
      Some ({| rq_pc := RCount; rq_ok := rq_ok r |},
            {| lt_pc := lt_pc s; lt_sem := lt_sem s; lt_reqs := lt_reqs s; completed := completed s;
               errors := errors s; latencies := latencies s ++ [ms']; last_completed := last_completed s; reporting := reporting s |})
  | RCount =>
      Some ({| rq_pc := REnd; rq_ok := rq_ok r |},
            {| lt_pc := lt_pc s; lt_sem := release (lt_sem s); lt_reqs := lt_reqs s;
               completed := usize_add (completed s) 1; errors := errors s; latencies := latencies s;
               last_completed := last_completed s; reporting := reporting s |})
  | REnd => None
  end.

Definition set_req (i : nat) (r : Req) (s : LtState) : LtState :=
  {| lt_pc := lt_pc s; lt_sem := lt_sem s; lt_reqs := <[i := r]> (lt_reqs s); completed := completed s;
     errors := errors s; latencies := latencies s; last_completed := last_completed s; reporting := reporting s |}.

(** A tick of the progress reporter: what it prints (completed, the difference it
    divides by the time, p50, p95, errors) and the state it leaves; it stops once
    it has seen all tasks completed. *)
Definition progress_tick (a : Args) (s : LtState) : (Z * Z * option Z * option Z * Z) * LtState :=
  let now_done := completed s in
  let sorted := sort_unstable (latencies s) in
  ((now_done, (now_done - last_completed s) mod u64_mod, percentile sorted 50, percentile sorted 95, errors s),
   {| lt_pc := lt_pc s; lt_sem := lt_sem s; lt_reqs := lt_reqs s; completed := completed s; errors := errors s;
      latencies := latencies s; last_completed := now_done;
      reporting := bool_decide (now_done < Z.of_nat (arg_tasks a)) |}).

(** The loop or a request moves. *)
Inductive lt_work (a : Args) : LtState -> LtState -> Prop :=
| lt_work_loop s late s' : lt_loop a late s = Some s' -> lt_work a s s'
| lt_work_req s i r reply ms r' s' :
    lt_reqs s !! i = Some r -> req_step reply ms r s = Some (r', s') -> lt_work a s (set_req i r' s').

(** The loop, a request or the reporter moves. *)
Inductive lt_step (a : Args) : LtState -> LtState -> Prop :=
| lt_step_work s s' : lt_work a s s' -> lt_step a s s'
| lt_step_progress s : reporting s = true -> lt_step a s (progress_tick a s).2.

(** All handles are joined. *)
Definition joined (s : LtState) : Prop := lt_pc s = LJoin /\ Forall (fun r => rq_pc r = REnd) (lt_reqs s).

(** The final report; an index out of range would panic. *)
Definition final_report (s : LtState) : option Report :=
  let all_lats := sort_unstable (latencies s) in
  p50 ← percentile all_lats 50;
  p95 ← percentile all_lats 95;
  p99 ← percentile all_lats 99;
  Some {| rp_total := completed s; rp_success := saturating_sub (completed s) (errors s); rp_failed := errors s;
          rp_p50 := p50; rp_p95 := p95; rp_p99 := p99; rp_max := default 0 (last all_lats) |}.

(** ** What is counted *)

Definition running (r : Req) : nat := match rq_pc r with REnd => 0%nat | _ => 1%nat end.
Definition ended (r : Req) : nat := match rq_pc r with REnd => 1%nat | _ => 0%nat end.
Definition pushed (r : Req) : nat := match rq_pc r with RCount | REnd => 1%nat | _ => 0%nat end.
Definition failed (r : Req) : nat := match rq_ok r with Some false => 1%nat | _ => 0%nat end.
Definition succeeded (r : Req) : nat := match rq_ok r with Some true => 1%nat | _ => 0%nat end.
Definition req_rank (r : Req) : nat :=
  match rq_pc r with RSend => 3%nat | RPush _ => 2%nat | RCount => 1%nat | REnd => 0%nat end.
Definition sum_reqs (f : Req -> nat) (s : LtState) : nat := sum_list_with f (lt_reqs s).

(** Steps a run has left at most. *)
Definition lt_rank (a : Args) (s : LtState) : nat :=
  (5 * (arg_tasks a - length (lt_reqs s)) + sum_reqs req_rank s
   + match lt_pc s with LCheck => 2 | LAcquire => 1 | LJoin => 0 end)%nat.

Record lt_inv (a : Args) (s : LtState) : Prop := {
  li_permits : (available_permits (lt_sem s) + sum_reqs running s)%nat = arg_concurrency a;
  li_tasks : (length (lt_reqs s) <= arg_tasks a)%nat;
  li_room : lt_pc s = LAcquire -> (length (lt_reqs s) < arg_tasks a)%nat;
  li_outcome : Forall (fun r => rq_ok r = None <-> rq_pc r = RSend) (lt_reqs s);
  li_completed : completed s = Z.of_nat (sum_reqs ended s);
  li_errors : errors s = Z.of_nat (sum_reqs failed s);
  li_latencies : length (latencies s) = sum_reqs pushed s;
  li_last : 0 <= last_completed s <= completed s
}.

End load_test.

(** ** Lemmas *)
Section load_lemmas.
Context `{!TokioSemaphore}.
Implicit Types (a : Args) (s : LtState) (r : Req).

Lemma sum_list_with_bound {A} (f : A -> nat) l :
  (forall x, (f x <= 1)%nat) -> (sum_list_with f l <= length l)%nat.
Proof. intros Hf. induction l as [|x l IH]; simpl; [lia|]. specialize (Hf x). lia. Qed.

Lemma ended_le r : (ended r <= 1)%nat.
Proof. unfold ended. destruct (rq_pc r); lia. Qed.

Lemma failed_le r : (failed r <= 1)%nat.
Proof. unfold failed. destruct (rq_ok r) as [[]|]; lia. Qed.

Lemma counts_bounded s :
  (sum_reqs ended s <= length (lt_reqs s))%nat /\ (sum_reqs failed s <= length (lt_reqs s))%nat.
Proof. split; apply sum_list_with_bound; [apply ended_le|apply failed_le]. Qed.

Lemma sum_set_req f i r' s s0 r :
  lt_reqs s = lt_reqs s0 -> lt_reqs s0 !! i = Some r ->
  (sum_reqs f (set_req i r' s) + f r = sum_reqs f s0 + f r')%nat.
Proof. intros He Hi. unfold sum_reqs. simpl. rewrite He. by apply sum_list_with_insert. Qed.

(** A request not yet counted leaves room in the counters. *)
Lemma uncounted (f : Req -> nat) s i r :
  lt_reqs s !! i = Some r -> f r = 0%nat -> (forall r, (f r <= 1)%nat) ->
  (sum_reqs f s < length (lt_reqs s))%nat.
Proof.
  intros Hi Hf Hle. unfold sum_reqs. revert i Hi. induction (lt_reqs s) as [|x l IH]; intros [|i] Hi; simplify_eq/=.
  - pose proof (sum_list_with_bound f l Hle). lia.
  - specialize (IH i Hi). specialize (Hle x). lia.
Qed.

Lemma req_step_reqs reply ms r s r' s' :
  req_step reply ms r s = Some (r', s') -> lt_reqs s' = lt_reqs s /\ lt_pc s' = lt_pc s.
Proof. unfold req_step. intros Hs. by case_match; simplify_eq/=. Qed.

Lemma lt_req_inv a s i r reply ms r' s' :
  Z.of_nat (arg_tasks a) < u64_mod -> lt_inv a s -> lt_reqs s !! i = Some r ->
  req_step reply ms r s = Some (r', s') -> lt_inv a (set_req i r' s').
Proof.
  intros Ha [Hp Ht Hroom Ho Hc He Hl Hlast] Hi Hs. destruct (req_step_reqs _ _ _ _ _ _ Hs) as [Hreqs Hpc].
  pose proof (fun f => sum_set_req f i r' s' s r Hreqs Hi) as Hsum.
  pose proof (Hsum running) as S1. pose proof (Hsum ended) as S2. pose proof (Hsum failed) as S3.
  pose proof (Hsum pushed) as S4. destruct (counts_bounded s) as [B1 B2].
  pose proof (Forall_lookup_1 _ _ _ _ Ho Hi) as Hor. simpl in Hor.
  assert (length (lt_reqs (set_req i r' s')) = length (lt_reqs s)) as Hlen by (simpl; by rewrite length_insert, Hreqs).
  assert (Forall (fun r => rq_ok r = None <-> rq_pc r = RSend) (lt_reqs (set_req i r' s'))) as Ho'.
  { simpl. rewrite Hreqs. apply Forall_insert; [done|]. unfold req_step in Hs. case_match; simplify_eq/=; naive_solver. }
  assert (running r = match rq_pc r with REnd => 0%nat | _ => 1%nat end /\
    ended r = match rq_pc r with REnd => 1%nat | _ => 0%nat end /\
    pushed r = match rq_pc r with RCount | REnd => 1%nat | _ => 0%nat end) as (V1 & V2 & V4) by done.
  assert (failed r = match rq_ok r with Some false => 1%nat | _ => 0%nat end) as V3 by done.
  unfold req_step in Hs. destruct (rq_pc r) eqn:Er; simplify_eq/=; rewrite ?V1, ?V2, ?V4 in *;
    cbn [running ended pushed failed rq_pc rq_ok] in S1, S2, S3, S4.
  - rewrite (proj2 Hor eq_refl) in V3. rewrite V3 in S3.
    assert (sum_reqs failed s < length (lt_reqs s))%nat.
    { eapply uncounted; [done..|apply failed_le]. }
    split; simpl in *; try (rewrite ?Hlen; done || lia).
    destruct (reply_ok reply); [lia|]. etrans; [apply usize_add_id; unfold u64_mod in *; lia|lia].
  - change (failed {| rq_pc := RCount; rq_ok := rq_ok r |}) with (failed r) in S3.
    split; simpl in *; try (rewrite ?Hlen, ?length_app; simpl; done || lia).
  - change (failed {| rq_pc := REnd; rq_ok := rq_ok r |}) with (failed r) in S3.
    assert (sum_reqs ended s < length (lt_reqs s))%nat.
    { eapply uncounted; [done..|apply ended_le]. }
    assert (usize_add (completed s) 1 = completed s + 1) as Hadd by (apply usize_add_id; unfold u64_mod in *; lia).
    split; simpl in *; rewrite ?release_spec; rewrite ?Hlen; done || lia.
Qed.

Lemma lt_loop_inv a late s s' : lt_inv a s -> lt_loop a late s = Some s' -> lt_inv a s'.
Proof.
  intros [Hp Ht Hroom Ho Hc He Hl Hlast] Hs. unfold lt_loop in Hs. destruct (lt_pc s) eqn:Epc; [| |done].
  - repeat case_match; simplify_eq; split; simpl; try done; naive_solver.
  - apply bind_Some in Hs as (sem & Hsem & [= <-]).
    pose proof (try_acquire_spec (lt_sem s)) as Hacq. rewrite Hsem in Hacq. specialize (Hroom eq_refl).
    unfold sum_reqs in *. split; unfold sum_reqs; simpl; rewrite ?sum_list_with_app, ?length_app; simpl;
      cbn [running ended failed pushed rq_pc rq_ok]; try done; try lia.
    apply Forall_app. split; [done|]. by repeat constructor.
Qed.

Lemma lt_step_inv a s s' :
  Z.of_nat (arg_tasks a) < u64_mod -> lt_step a s s' -> lt_inv a s -> lt_inv a s'.
Proof.
  intros Ha Hstep Hinv. destruct Hstep as [s s' [s1 late s1' Hs|s1 i r reply ms r' s1' Hi Hs]|s _].
  - by eapply lt_loop_inv.
  - by eapply lt_req_inv.
  - destruct Hinv. split; simpl; try done. lia.
Qed.

Lemma lt_init_inv a : lt_inv a (lt_init a).
Proof. split; unfold sum_reqs; simpl; try done; try lia. rewrite sem_new_spec. lia. Qed.

Lemma lt_reachable a s :
  Z.of_nat (arg_tasks a) < u64_mod -> rtc (lt_step a) (lt_init a) s -> lt_inv a s.
Proof.
  intros Ha Hrtc. pose proof (lt_init_inv a) as Hinit. induction Hrtc; eauto using lt_step_inv.
Qed.

(** What a run is started with. *)
Lemma lt_start_Ok now a s :
  lt_start now a = Ok s -> s = lt_init a /\ Z.of_nat (arg_concurrency a) <= max_permits /\
    8 * Z.of_nat (arg_tasks a) <= i64_max /\ (0 < arg_duration a -> now / 10 ^ 9 + arg_duration a <= i64_max).
Proof.
  unfold lt_start. destruct (Z.ltb_spec max_permits (Z.of_nat (arg_concurrency a))); [done|].
  destruct (Z.ltb_spec i64_max (8 * Z.of_nat (arg_tasks a))); [done|].
  destruct (Z.ltb_spec 0 (arg_duration a)); destruct (Z.ltb_spec i64_max (now / 10 ^ 9 + arg_duration a));
    simpl; intros; simplify_eq; split_and!; try done; lia.
Qed.

(** Work uses up the rank. *)
Lemma lt_work_rank a s s' : lt_inv a s -> lt_work a s s' -> (lt_rank a s' < lt_rank a s)%nat.
Proof.
  intros Hinv Hw. unfold lt_rank. destruct Hw as [s late s' Hs|s i r reply ms r' s' Hi Hs].
  - unfold lt_loop in Hs. destruct (lt_pc s) eqn:Epc; [| |done].
    + repeat case_match; simplify_eq; unfold sum_reqs; simpl; lia.
    + pose proof (li_room a s Hinv Epc). apply bind_Some in Hs as (sem & _ & [= <-]).
      unfold sum_reqs. simpl. rewrite sum_list_with_app, length_app. simpl. cbn [req_rank rq_pc]. lia.
  - destruct (req_step_reqs _ _ _ _ _ _ Hs) as [Hreqs Hpc].
    pose proof (sum_set_req req_rank i r' s' s r Hreqs Hi) as Hsum. simpl. rewrite length_insert, Hreqs, Hpc.
    assert (req_rank r' < req_rank r)%nat; [|lia].
    unfold req_step in Hs. unfold req_rank. destruct (rq_pc r); by simplify_eq/=; lia.
Qed.

Lemma req_can_step reply ms r s : rq_pc r <> REnd -> is_Some (req_step reply ms r s).
Proof. unfold req_step. destruct (rq_pc r); naive_solver. Qed.

(** A running request exists while the counter says so. *)
Lemma running_request s : (0 < sum_reqs running s)%nat -> exists i r, lt_reqs s !! i = Some r /\ rq_pc r <> REnd.
Proof.
  unfold sum_reqs. induction (lt_reqs s) as [|r l IH]; simpl; [lia|]. intros Hr.
  destruct (decide (running r = 0%nat)) as [E|E].
  - destruct IH as (i & r' & Hi & Hr'); [lia|]. by exists (S i), r'.
  - exists 0%nat, r. split; [done|]. intros Hp. apply E. unfold running. by rewrite Hp.
Qed.

Lemma all_ended s : sum_reqs running s = 0%nat -> Forall (fun r => rq_pc r = REnd) (lt_reqs s).
Proof.
  unfold sum_reqs. rewrite sum_list_with_zero. intros Hr. eapply Forall_impl; [exact Hr|].
  intros r. unfold running. by destruct (rq_pc r).
Qed.

(** With permits to give, a run that is not over can go on. *)
Lemma lt_progress a s :
  lt_inv a s -> (0 < arg_concurrency a)%nat -> ~ joined s -> exists s', lt_work a s s'.
Proof.
  intros Hinv Hc Hj.
  assert ((0 < sum_reqs running s)%nat -> exists s', lt_work a s s') as Hrun.
  { intros (i & r & Hi & Hr)%running_request.
    destruct (req_can_step SendFailed 0 r s Hr) as [[r' s'] Hs]. eexists. by eapply lt_work_req. }
  destruct (lt_pc s) eqn:Epc.
  - unfold joined in Hj.
    assert (exists s', lt_loop a false s = Some s') as [s' Hs].
    { unfold lt_loop. rewrite Epc. repeat case_match; eauto. }
    exists s'. by eapply lt_work_loop.
  - pose proof (try_acquire_spec (lt_sem s)) as Hacq. destruct (try_acquire (lt_sem s)) as [sem|] eqn:Es.
    + eexists. apply (lt_work_loop a s false). unfold lt_loop. rewrite Epc, Es. reflexivity.
    + apply Hrun. pose proof (li_permits a s Hinv). lia.
  - apply Hrun. destruct (decide (sum_reqs running s = 0%nat)) as [E|]; [|lia].
    exfalso. apply Hj. split; [done|]. by apply all_ended.
Qed.

(** Steps left in any state of a run. *)
Lemma lt_steps_rank a s :
  Z.of_nat (arg_tasks a) < u64_mod -> rtc (lt_step a) (lt_init a) s -> (lt_rank a s <= 5 * arg_tasks a + 2)%nat.
Proof.
  intros Ha Hrtc. assert (lt_rank a (lt_init a) <= 5 * arg_tasks a + 2)%nat as H0
    by (unfold lt_rank, sum_reqs; simpl; lia).
  pose proof (lt_init_inv a) as Hi. induction Hrtc as [|s1 s2 s3 Hs _ IH]; [done|].
  apply IH; [|by eapply lt_step_inv]. destruct Hs as [s1 s2 Hw|s1 _]; [|done].
  pose proof (lt_work_rank a s1 s2 Hi Hw). lia.
Qed.

(** Without permits nothing happens once the loop waits for one. *)
Lemma lt_no_permit a s s' : lt_inv a s -> arg_concurrency a = 0%nat -> lt_pc s = LAcquire -> ~ lt_work a s s'.
Proof.
  intros Hinv Hc Hpc Hw. pose proof (li_permits a s Hinv) as Hp. assert (sum_reqs running s = 0%nat) as Hz by lia.
  destruct Hw as [s late s' Hs|s i r reply ms r' s' Hi Hs].
  - unfold lt_loop in Hs. rewrite Hpc in Hs. pose proof (try_acquire_spec (lt_sem s)) as Hacq.
    destruct (try_acquire (lt_sem s)); [lia|done].
  - apply all_ended in Hz. pose proof (Forall_lookup_1 _ _ _ _ Hz Hi) as Hr. simpl in Hr.
    unfold req_step in Hs. by rewrite Hr in Hs.
Qed.

Lemma progress_exact a s :
  Z.of_nat (arg_tasks a) < u64_mod -> lt_inv a s ->
  (progress_tick a s).1.1.1.1.2 = completed s - last_completed s.
Proof.
  intros Ha [_ Ht _ _ Hc _ _ Hlast]. simpl. apply Z.mod_small. destruct (counts_bounded s). lia.
Qed.

(** When all requests are over, every counter has its final value. *)
Lemma joined_counts a s :
  lt_inv a s -> joined s ->
  completed s = Z.of_nat (length (lt_reqs s)) /\ length (latencies s) = length (lt_reqs s) /\
  (sum_reqs succeeded s + sum_reqs failed s)%nat = length (lt_reqs s).
Proof.
  intros [_ _ _ Ho Hc _ Hl _] [_ Hend]. rewrite Hc, Hl. clear Hc Hl. unfold sum_reqs.
  induction Hend as [|r l Hr _ IH]; [done|]. apply Forall_cons_iff in Ho as [Hor Ho]. specialize (IH Ho).
  destruct IH as (IH1 & IH2 & IH3). simpl. unfold ended at 1, pushed at 1, succeeded at 1, failed at 1.
  rewrite Hr. rewrite Hr in Hor. destruct (rq_ok r) as [[]|]; [..|naive_solver]; lia.
Qed.

End load_lemmas.

(** A schedule of work steps, and running one. *)
Inductive lt_action := ALoop (late : bool) | AReq (i : nat) (reply : LtReply) (ms : Z).

Fixpoint lt_acts `{!TokioSemaphore} (a : Args) (acts : list lt_action) (s : LtState) : option LtState :=
  match acts with
  | [] => Some s
  | ALoop late :: acts' => s' ← lt_loop a late s; lt_acts a acts' s'
  | AReq i reply ms :: acts' =>
      r ← lt_reqs s !! i; '(r', s') ← req_step reply ms r s; lt_acts a acts' (set_req i r' s')
  end.

Lemma lt_acts_rtc `{!TokioSemaphore} a acts s s' : lt_acts a acts s = Some s' -> rtc (lt_step a) s s'.
Proof.
  revert s. induction acts as [|[late|i reply ms] acts IH]; intros s Hs; simpl in Hs; [by simplify_eq|..].
  - apply bind_Some in Hs as (s1 & Hs1 & Hs). eapply rtc_l; [|by apply IH]. by eapply lt_step_work, lt_work_loop.
  - apply bind_Some in Hs as (r & Hr & Hs). apply bind_Some in Hs as ([r' s1] & Hs1 & Hs).
    eapply rtc_l; [|by apply IH]. by eapply lt_step_work, lt_work_req.
Qed.

(** A run with one request, for evaluations. *)
Definition demo_load : Args :=
  {| arg_url := "http://cp"; arg_tasks := 1; arg_concurrency := 1; arg_duration := 0 |}.
Definition demo_schedule : list lt_action :=
  [ALoop false; ALoop false; AReq 0 (Replied 200) 12; AReq 0 SendFailed 0; AReq 0 SendFailed 0; ALoop false].

Definition demo_done : @LtState nat_semaphore :=
  default (lt_init demo_load) (lt_acts demo_load demo_schedule (lt_init demo_load)).

Lemma demo_done_reached : rtc (lt_step demo_load) (lt_init demo_load) demo_done /\ joined demo_done.
Proof.
  split; [exact (lt_acts_rtc demo_load demo_schedule (lt_init demo_load) demo_done eq_refl)|].
  split; [reflexivity|]. repeat constructor.
Qed.

(** ** Properties *)

(** C37. The final report. Whenever a run of fewer than 2^46 tasks comes to its
    report, by whatever interleaving, the report is printed (no index is out of
    range) and is right: the total is the number of requests sent, the successes
    are the 2xx answers, the failures all others, one latency was recorded per
    request, and P50 <= P95 <= P99 <= max. *)
Theorem load_report_correct `{!TokioSemaphore} a s :
  Z.of_nat (arg_tasks a) < 2 ^ 46 -> rtc (lt_step a) (lt_init a) s -> joined s ->
  exists rep, final_report s = Some rep /\
    rp_total rep = Z.of_nat (length (lt_reqs s)) /\
    rp_success rep = Z.of_nat (sum_reqs succeeded s) /\ rp_failed rep = Z.of_nat (sum_reqs failed s) /\
    rp_success rep + rp_failed rep = rp_total rep /\ length (latencies s) = length (lt_reqs s) /\
    rp_p50 rep <= rp_p95 rep <= rp_p99 rep /\ rp_p99 rep <= rp_max rep.
Proof.
  intros Ha Hrtc Hj. assert (lt_inv a s) as Hinv by (apply lt_reachable; [unfold u64_mod; lia|done]).
  destruct (joined_counts a s Hinv Hj) as (Hc & Hl & Hsf). destruct Hinv as [_ Ht _ _ _ He _ _].
  assert (Z.of_nat (length (latencies s)) < 2 ^ 46) as Hlen by lia.
  destruct (percentile_some (latencies s) 50 Hlen ltac:(lia)) as [p50 E50].
  destruct (percentile_some (latencies s) 95 Hlen ltac:(lia)) as [p95 E95].
  destruct (percentile_some (latencies s) 99 Hlen ltac:(lia)) as [p99 E99].
  eexists. split; [unfold final_report; rewrite E50, E95, E99; reflexivity|]. simpl.
  unfold saturating_sub. split_and!; [done|lia|done|lia|done|..].
  - by eapply (percentile_mono _ 50 95).
  - by eapply (percentile_mono _ 95 99).
  - by eapply (percentile_le_last _ 99).
Qed.

Lemma load_report_correct_witness :
  exists rep, final_report demo_done = Some rep /\ rp_total rep = 1 /\ rp_success rep = 1 /\ rp_p50 rep <= rp_p95 rep.
Proof.
  destruct demo_done_reached as [Hrtc Hj].
  destruct (@load_report_correct nat_semaphore demo_load demo_done eq_refl Hrtc Hj)
    as (rep & Hrep & Ht & Hs & _ & _ & _ & [Hp _] & _).
  exists rep. split; [exact Hrep|]. split; [exact Ht|]. split; [exact Hs|exact Hp].
Defined.

(** C38. The run. The load tester gets to its loop exactly when the concurrency is
    one tokio's semaphore accepts, vectors of [tasks] elements can be laid out and
    the deadline is a time the clock can show; otherwise it panics. From then on, at any
    time at most [concurrency] requests are in flight and at
    most [tasks] have been started; every step of work uses up one of the at most
    [5 tasks + 2] steps a run has; and with a concurrency of at least one, a run
    that has not been joined can always go on, so it ends in its report. The
    difference the progress reporter takes never wraps. With
    [--concurrency 0] it does not: once the loop waits for a permit, no work is
    possible any more. *)
Theorem load_run_bounded_and_live `{!TokioSemaphore} now a :
  ((exists s0, lt_start now a = Ok s0) <->
     Z.of_nat (arg_concurrency a) <= 2 ^ 61 - 1 /\ 8 * Z.of_nat (arg_tasks a) <= 2 ^ 63 - 1 /\
     (0 < arg_duration a -> now / 10 ^ 9 + arg_duration a <= 2 ^ 63 - 1)) /\
  forall s0 s, lt_start now a = Ok s0 -> rtc (lt_step a) s0 s ->
    (sum_reqs running s <= arg_concurrency a)%nat /\ (length (lt_reqs s) <= arg_tasks a)%nat /\
    (lt_rank a s <= 5 * arg_tasks a + 2)%nat /\
    (forall s', lt_work a s s' -> (lt_rank a s' < lt_rank a s)%nat) /\
    ((0 < arg_concurrency a)%nat -> ~ joined s -> exists s', lt_work a s s') /\
    (progress_tick a s).1.1.1.1.2 = completed s - last_completed s /\
    (arg_concurrency a = 0%nat -> lt_pc s = LAcquire -> forall s', ~ lt_work a s s').
Proof.
  split; [split|].
  - intros (s0 & (_ & Hc & Ht & Hd)%lt_start_Ok). by split_and!.
  - intros (Hc & Ht & Hd). exists (lt_init a). unfold lt_start. rewrite (proj2 (Z.ltb_ge _ _)) by exact Hc.
    rewrite (proj2 (Z.ltb_ge _ _)) by exact Ht. destruct (Z.ltb_spec 0 (arg_duration a)) as [H0|]; [|done].
    by rewrite (proj2 (Z.ltb_ge _ _)) by exact (Hd H0).
  - intros s0 s (-> & _ & Ht & _)%lt_start_Ok Hrtc.
    assert (Z.of_nat (arg_tasks a) < u64_mod) as Ha by (unfold i64_max, u64_mod in *; lia).
    pose proof (lt_reachable a s Ha Hrtc) as Hinv. pose proof (li_permits a s Hinv) as Hp.
    split_and!; [lia|apply Hinv|by apply lt_steps_rank|by intros; apply lt_work_rank|by apply lt_progress
      |by eapply progress_exact|by intros; eapply lt_no_permit].
Qed.

Lemma load_run_bounded_and_live_witness :
  lt_start 0 demo_load = Ok (@lt_init nat_semaphore demo_load) /\
  (sum_reqs running (@lt_init nat_semaphore demo_load) <= 1)%nat /\
  exists s', lt_work demo_load (@lt_init nat_semaphore demo_load) s'.
Proof.
  destruct (proj2 (@load_run_bounded_and_live nat_semaphore 0 demo_load) (lt_init demo_load) (lt_init demo_load)
    eq_refl (rtc_refl _ _)) as (Hr & _ & _ & _ & Hlive & _).
  split; [reflexivity|]. split; [exact Hr|]. apply Hlive; [apply le_n|]. intros [Hj _]. discriminate Hj.
Defined.

(** The request the load tester sends is one the control plane accepts: posted
    to [/tasks] of the URL it was given, it is answered with 200 and starts
    exactly one task, which runs the function [process] of the generated module on
    the fixed payload with 5 seconds and 64 MB. *)
Theorem load_request_accepted `{!Base64} `{!Sha2} `{!Axum} `{!Reqwest} a cp wasm st :
  let j := load_body (b64_encode wasm) (b64_encode load_payload) in
  arg_url a = ch_origin cp -> is_origin (ch_origin cp) = true -> body_len (json_body j) <= default_body_limit ->
  exists s, send_to cp POST (json_body j) st (submit_url a) = Some s /\
    reply_ok (Replied (sv_status s)) = true /\ sv_state s = st /\
    exists trace, sv_spawned s =
      [{| task_id := se_uuid (ch_env cp) 0%nat; trace_id := trace; input := load_payload;
          wasm_source := SrcWasmBytes wasm; function_name := "process"; timeout_ms := 5000; memory_limit_mb := 64 |}].
Proof.
  intros j Ha Ho Hlen. unfold send_to, submit_url. rewrite Ha.
  pose proof (deliver_plain (ch_origin cp) ["tasks"] Ho ltac:(by repeat constructor) ltac:(done)) as Hd.
  change (foldr _ _ _) with "/tasks" in Hd. cbv zeta in Hd. rewrite Hd. simpl. rewrite decide_True by done.
  eexists. split; [reflexivity|]. rewrite (serve_post _ _ _ _ _ _ _ EpSubmitTask); [|in_table|done].
  unfold handle, with_json. rewrite json_extract_body by done. simpl.
  unfold submit_task, resolve_task_inputs. simpl. rewrite b64_roundtrip. simpl. rewrite b64_roundtrip. simpl. eauto.
Qed.

Lemma load_request_accepted_witness :
  exists s, @send_to toy_base64 toy_sha2 toy_axum toy_reqwest demo_cp_http POST
    (@json_body toy_axum (load_body (@b64_encode toy_base64 [Byte.x00]) (@b64_encode toy_base64 load_payload)))
    AppState_default "http://cp/tasks" = Some s /\ reply_ok (Replied (sv_status s)) = true.
Proof.
  destruct (@load_request_accepted toy_base64 toy_sha2 toy_axum toy_reqwest demo_load demo_cp_http [Byte.x00]
    AppState_default eq_refl eq_refl ltac:(vm_compute; discriminate)) as (s & Hs & Hok & _).
  exists s. split; [exact Hs|exact Hok].
Defined.
