(* ===== verification/LoadFlow.v ===== *)
(** * A load test, end to end

    Everything together: the load tester posts the echo module it compiled and its
    fixed payload to the control plane, the dispatch picks a node, the node's
    sandbox runs the module, and the result is read back over HTTP. *)

From S2P Require Import Prelude RustStd RustText Common Config Http CircuitBreaker Scheduler Registry Sandbox Engine Guest.
From S2P Require Import ModuleCache AppState Dispatch Health Handlers Routes ControlPlane Disconnect EdgeNode.
From S2P Require Import NodeMain HttpSystem TaskSpec EndToEnd Cluster ModuleFlow LoadTester.

(** The task of the load tester's request. *)
Definition load_task (uuid trace : string) (wasm : bytes) : TaskArgs :=
  {| task_id := uuid; trace_id := trace; input := load_payload; wasm_source := SrcWasmBytes wasm;
     function_name := "process"; timeout_ms := 5000; memory_limit_mb := 64 |}.

(** What the sandbox makes of it. *)
Lemma load_execution `{!Wasmtime} fuel wasm `{!Runs fuel wasm load_guest} e uuid trace :
  (2 <= fuel)%nat -> ep_alloc e 0%nat <= ep_now e -> ep_process e 0%nat <= ep_now e ->
  execute None e wasm (exec_config (grpc_request (load_task uuid trace wasm))) load_payload =
    Ok {| er_output := load_payload; er_execution_time_ms := as_millis (elapsed (ex_end e) (ex_start e)) mod u64_mod;
          memory_used_bytes := page_size |}.
Proof.
  intros Hf Hal Hpr. set (c := exec_config _).
  destruct (guest_starts fuel wasm load_guest e c load_payload) as [msg Hst]; [done..|].
  assert (start_error load_guest msg e c load_payload = None) as Hno.
  { unfold start_error. change (memory_limit_bytes c <? initial_bytes load_guest) with false.
    unfold load_guest. rewrite echo_exports. change (bool_decide (cfg_function_name c = "process")) with true.
    cbn [negb]. by rewrite (proj2 (Z.leb_gt _ _)) by lia. }
  rewrite Hno in Hst. destruct Hst as (i & Hi & Hd & Hex). unfold execute. rewrite Hex.
  rewrite (echo_process fuel wasm 1) by done. by rewrite (proj2 (Z.leb_gt _ _)) by lia.
Qed.

(** Whatever a success of the module on the payload looks like from outside, its
    output is the payload. *)
Lemma load_output `{!Sha2} `{!Wasmtime} fuel wasm `{!Runs fuel wasm load_guest} ports_open mods uuid trace ex :
  (2 <= fuel)%nat -> computed ports_open mods (grpc_request (load_task uuid trace wasm)) (Ok ex) -> er_output ex = load_payload.
Proof.
  intros Hf (p & e & Hex). destruct p as [|]; [done|]. simpl req_input in Hex. set (c := exec_config _) in *.
  destruct (guest_starts fuel wasm load_guest e c load_payload) as [msg Hst]; [done..|].
  unfold execute in Hex. destruct (start_error load_guest msg e c load_payload); [congruence|].
  destruct Hst as (i & Hi & Hd & He). rewrite He, (echo_process fuel wasm 1) in Hex by done.
  destruct (ep_now e + 1 <=? ep_process e 0%nat); [done|]. by injection Hex as ->.
Qed.

(** In a cluster, under every interleaving, loss and disconnect, whoever can reach
    the nodes: a task of the load
    tester that is reported as a success returns the payload, byte for byte. *)
Theorem load_results_intact `{!Base64} `{!Sha2} `{!Tonic} `{!TokioRwLock} `{!Axum} `{!Wasmtime} `{!Lru CachedModule}
    `{!TokioSemaphore} fuel wasm `{!Runs fuel wasm load_guest} ports_open peer urls env port st f c t r uuid trace :
  (2 <= fuel)%nat -> (forall b, sha256_hex b <> EmptyString) -> cp_main env = Ok (port, st) -> fresh_fleet f ->
  rtc (cluster_step ports_open peer urls) (cluster_start st f) c -> NoDup (ids (control c)) -> t ∈ all_tasks (control c) ->
  args t = load_task uuid trace wasm ->
  get_task (app (world (core (control c)))) uuid = api_ok (inl r) -> tr_success r = true -> tr_output r = load_payload.
Proof.
  intros Hf Hsha Hmain Hfr Hrtc Hnd Ht Ha Hget Hs.
  pose proof (cluster_started_inv _ _ _ Hsha _ _ _ _ _ Hmain Hfr Hrtc) as Hinv.
  destruct (success_computed _ c t r Hinv Hnd Ht) as (ex & Hc & _ & -> & _); [by rewrite Ha|done|].
  rewrite Ha in Hc. by eapply load_output.
Qed.

(** ** Properties *)

(** C36. A load test end to end. The load tester's request, sent to the control
    plane it was pointed at, is accepted and counted as a success; it starts one
    task, with the module and the payload that were sent. When a node with a free
    slot is selected and reached, and no timer has gone off before either guest
    function is entered, the call of [execute_task] on that node, on any wasmtime
    that runs the module as WebAssembly says, answers the RPC so that the dispatch
    ends, and from then on GET /tasks/id is answered with a success whose output is
    the payload, byte for byte; the node is left with the load and permits it had. *)
Theorem load_test_end_to_end `{!Base64} `{!Sha2} `{!Axum} `{!Reqwest} `{!Tonic} `{!Wasmtime} `{!Lru CachedModule}
    `{!TokioSemaphore} fuel wasm `{!Runs fuel wasm load_guest} nid url a cp w nw sm es nes n ch p' st2 :
  let j := load_body (b64_encode wasm) (b64_encode load_payload) in
  let uuid := se_uuid (ch_env cp) 0%nat in
  let env := exec_env (nes 3%nat) in
  (2 <= fuel)%nat -> arg_url a = ch_origin cp -> is_origin (ch_origin cp) = true ->
  body_len (json_body j) <= default_body_limit -> plain_segment uuid = true -> uuid <> "batch" ->
  select_node_for_task (ord (es 2%nat)) (clk (es 2%nat)) (Z.of_N (seed (es 2%nat))) ∅ (counted (app w))
    = (Some n, st2) ->
  get_or_create (id n) (address n) (pool w) = (Ok ch, p') ->
  try_acquire (semaphore nw) = Some sm -> 0 <= ns_active_tasks (node nw) < u64_mod - 1 ->
  panic (nes 3%nat) = None -> ep_alloc env 0%nat <= ep_now env -> ep_process env 0%nat <= ep_now env ->
  exists s t t' nw' r d w',
    send_to cp POST (json_body j) (app w) (submit_url a) = Some s /\ reply_ok (Replied (sv_status s)) = true /\
    sv_spawned s = [t] /\
    exec_run nid url 5 nes (arrival (grpc_request t)) nw = Some (t', nw') /\ rpc_answer t' = Some r /\
    dispatch_run 9 (answering r es) (init_task t) w = Some (d, w') /\ finished d = true /\
    (forall fresh hdrs e hs b, exists res,
       hp_served (serve fresh hdrs e {| hq_method := GET; hq_path := "/tasks/" +:+ uuid; hq_headers := hs; hq_body := b |}
         (app w')) = reply 200 (PTask (api_ok (inl res))) (app w') /\
       tr_success res = true /\ tr_output res = load_payload /\ tr_node_id res = id n) /\
    ns_active_tasks (node nw') = ns_active_tasks (node nw) /\
    available_permits (semaphore nw') = available_permits (semaphore nw).
Proof.
  intros j uuid env Hf Ha Ho Hlen Hpl Hb Hsel Hget Hacq Hact Hpan Hal Hpr.
  destruct (load_request_accepted a cp wasm (app w) Ha Ho Hlen) as (s & Hs & Hok & _ & trace & Hsp).
  fold (load_task uuid trace wasm) in Hsp. set (t := load_task uuid trace wasm) in *.
  destruct (exec_inline_run nid url nes (grpc_request t) wasm nw sm) as (t' & nw' & Hrun & Hans & Hsem & Hload & _);
    [done..|].
  rewrite Hpan in Hans. simpl req_input in Hans.
  rewrite (load_execution fuel wasm (exec_env (nes 3%nat)) uuid trace Hf Hal Hpr) in Hans.
  set (resp := exec_response _ _) in Hans.
  destruct (dispatch_success_run (answering (Ok resp) es) t w n ch p' st2 resp) as (d & w' & Hd & Hfin & Htasks & _);
    [done..|].
  exists s, t, t', nw', (Ok resp), d, w'. split_and!; try done.
  - intros fresh hdrs e hs b. eexists. rewrite get_task_served by done. unfold get_task. rewrite Htasks.
    simpl. rewrite lookup_insert_eq. split_and!; reflexivity.
  - rewrite Hsem, release_spec. pose proof (try_acquire_spec (semaphore nw)) as Hspec. rewrite Hacq in Hspec. lia.
Qed.

(** A node whose sandbox is the interpreter. *)
Definition demo_interp : Wasmtime := interp_wasmtime demo_decode 8.
Definition demo_interp_node : @NodeWorld demo_interp (list_lru _) nat_semaphore :=
  nworld (@init_node demo_interp (list_lru _) nat_semaphore "n1" 1 4 10).

Lemma load_test_end_to_end_witness :
  exists (w' : @CPWorld toy_tonic) res,
    sv_payload (hp_served (@serve toy_base64 toy_sha2 toy_axum "u" demo_hdrs demo_serve_env
      {| hq_method := GET; hq_path := "/tasks/u1"; hq_headers := @no_headers toy_axum; hq_body := @no_body toy_axum |}
      (app w'))) = PTask (api_ok (inl res)) /\ tr_output res = load_payload.
Proof.
  destruct (@load_test_end_to_end toy_base64 toy_sha2 toy_axum toy_reqwest toy_tonic demo_interp (list_lru _)
    nat_semaphore 8 [Byte.x01] (interp_runs demo_decode 8 [Byte.x01] load_guest eq_refl) "n1" "http://cp"
    demo_load demo_cp_http demo_world demo_interp_node 0%nat (fun _ => demo_env (Ok demo_resp))
    (fun _ => demo_nenv (HttpFailed "unused")) (demo_node "n1" 3) "http://n1" _ _
    ltac:(lia) eq_refl eq_refl ltac:(vm_compute; discriminate) ltac:(vm_compute; reflexivity) ltac:(discriminate)
    ltac:(vm_compute; reflexivity) ltac:(vm_compute; reflexivity) eq_refl
    ltac:(split; [discriminate|reflexivity]) eq_refl ltac:(discriminate) ltac:(discriminate))
    as (s & t & t' & nw' & r & d & w' & _ & _ & _ & _ & _ & _ & _ & Hget & _).
  destruct (Hget "u" demo_hdrs demo_serve_env (@no_headers toy_axum) (@no_body toy_axum)) as (res & Hserve & _ & Hout & _).
  exists w', res. split; [|exact Hout].
  exact (f_equal sv_payload Hserve).
Defined.
